(* ===== verification/_CoqProject ===== *)
-Q . S2P
Prelude.v
EventFilter.v
PFile.v
Muxer.v
DiskFs.v
Splitter.v
Stream.v
FileQueue.v
Compression.v
Wire.v
Utf8.v
BoolExp.v
BoolTree.v
BbdoEvent.v
Bbdo.v
BbdoFacts.v
BbdoLink.v
Negotiation.v
MuxEngine.v
Failover.v
EventLoop.v
Calendar.v
TimePeriod.v
TimePeriodFacts.v
TimeSearch.v
Circular.v
Downtimes.v
DowntimeFacts.v
Notifier.v
Notifications.v
CheckOutput.v
ServiceCheck.v
ServiceFacts.v
HostCheck.v
HostFacts.v
Perfdata.v
AgentMetrics.v
Agent.v
ConnectorWire.v
Connector.v
Retention.v
Ba.v
BaFacts.v
