(* ===== verification/Prelude.v ===== *)
(** * Centreon Collect: a verification library

    Centreon Collect monitors hosts and services.  The engine
    ([src/engine]) schedules checks, keeps the state of every host and service
    and notifies contacts.  The broker ([src/broker]) receives the events of the
    engine and hands them to outputs (databases, other brokers, graphs); between
    the two stands the multiplexing layer, which queues each event for every
    output, in memory and then on disk, until the output acknowledges it.  This
    library models the parts that decide whether an event or a notification
    gets where it should, and proves what they promise.

    ** The parts and the files that model them

    Shared by all of them:
    - [Prelude]: exceptions and the state-and-exception monad, machine integers
      with their wrap-around, bit lemmas, doubles, tactics.

    The multiplexing layer of the broker:
    - [EventFilter]: [multiplexing::muxer_filter] ([muxer_filter.hh]), ten
      64-bit masks indexed by the category of an event type ([bbdo/events.hh]).
    - [PFile]: the interface [persistent_file] offers to the multiplexing layer
      as a type class with its laws, and an in-memory instance.
    - [Muxer]: [multiplexing::muxer] ([multiplexing/src/muxer.cc]), proved
      against the interface of [PFile].  [_events] is a list and [_pos] an index
      in it ([None] is [end()]).  [publish] is two critical sections,
      [publish_queue_phase] and [publish_file_phase]; [reader_task] is the task
      posted on the pool.
    - [MuxEngine]: [multiplexing::engine] ([multiplexing/src/engine.cc]) as a
      step relation whose steps are its critical sections and the tasks it
      posts, and [persistent_cache] with the system calls of its commit.
    - [Failover]: [processing::failover] ([processing/failover.cc]) as a state
      machine on top of [Muxer] and of a class [Endpoint] for the stream it
      opens, with the laws [EndpointLaws] and the instance [Table].

    Its files and streams:
    - [DiskFs]: what the queue files use of libc and POSIX (names, inodes, open
      files, [strtol]), [filesystem::dir_content], [file::disk_accessor].
    - [Splitter]: [file::splitter] ([file/splitter.cc]), numbered part files
      behind one stream of bytes; [FileQueue]: its theorems over sequences of
      calls, and [file::stream], which discharges the interface [Stream.Substream].
    - [Stream]: what a stream asks of the stream below it.
    - [Compression]: [compression::stream], [compression::zlib] and
      [compression::stack_array].  zlib itself is the class [ZLib] with the laws
      its documentation gives ([ZLibLaws]); the witnesses use an instance that
      stores the data as it is.
    - [Wire], [BbdoEvent], [Bbdo]: the BBDO protocol ([broker/core/bbdo]): the
      numbers and the checksum on the wire, events by their mappings, the framing
      of [bbdo::stream]; [BbdoFacts]: reading what was written; [BbdoLink]: two
      streams on one connection, with their acknowledgements; [Negotiation]: the
      choice of version and extensions.

    Business activities ([broker/bam]):
    - [Ba]: [ba.cc] over a class [Policy] whose instances are [ba_worst],
      [ba_best] and [ba_ratio_number]; [BaFacts]: theorems over sequences of
      operations.
    - [BoolExp]: the tokenizer, the parser and the builder of boolean expressions;
      [BoolTree]: the tree they build, which is updated incrementally by the
      states of the services.

    The engine:
    - [EventLoop]: the two lists of timed events ([events/loop.cc],
      [events/timed_event.cc]).
    - [Calendar]: [localtime_r] and [mktime], as the class [Calendar] with the laws
      [CalendarLaws] (the time zone is a parameter), and the Gregorian calendar;
      [TimePeriod]: time periods and date ranges ([timeperiod.cc]);
      [TimePeriodFacts], [TimeSearch]: their theorems.
    - [Circular]: the search of loops among the parents of hosts and among the
      dependencies ([config.cc], [hostdependency.cc], [servicedependency.cc]), and
      [authorized_by_dependencies].
    - [Downtimes], [DowntimeFacts]: [downtimes/*.cc] and the downtime manager.
    - [Notifier]: [notifier], [notification], the filters of [contact] and of
      the escalations ([engine/src/notifier.cc], [notification.cc],
      [contact.cc], [escalation.cc], [hostescalation.cc],
      [serviceescalation.cc], and the hooks of [host.cc] and [service.cc]);
      [Notifications]: theorems over sequences of calls of [notifier::notify].
    - [CheckOutput]: [parse_check_output].
    - [ServiceCheck], [ServiceFacts]: the results of service checks
      ([service::handle_async_check_result] and what it calls), flapping,
      scheduling.
    - [HostCheck]: the checks of hosts and their results ([host.cc],
      [checks/checker.cc]) over the store of all hosts, since a result starts
      checks of parents and children; the fuel of [run_sync_check_3x] bounds the
      serial checks of parents, and more than the number of hosts is enough when
      no host is its own ancestor.  [HostFacts]: its theorems.
    - [ConnectorWire]: the packets between the engine and the connectors, both ways
      ([commands/connector.cc], [connectors/common], [connectors/perl]);
      [Connector]: the object [commands::connector] as a step relation over its
      three threads.
    - [Perfdata]: the parser of performance data ([common/src/perfdata.cc]), with
      [strtof] and [strtod] of the C library; [Utf8]: [common/src/utf8.cc].
    - [Retention]: the line of the retention file that holds a notification,
      printed by [operator<<] and parsed by [notifier::set_notification].

    The monitoring agent ([agent]):
    - [Agent]: the scheduler of the checks ([scheduler.cc], [check.cc]) as a step
      relation; the checks are objects in a store, the queue is a list of
      references ordered by a field of the objects.
    - [AgentMetrics]: how results are stored as OpenTelemetry metrics
      ([scheduler.cc]) and how the engine makes them results again
      ([agent_check_result_builder.cc]), joined with [Perfdata] and [Utf8].

    ** How the code is modelled

    A method of an object of state [S] is a function [St S A], which returns a
    value or an exception and the state in both cases, or an explicit function
    on a record of states where there are no exceptions.  Code that runs under a
    mutex is one definition; what other threads can do between two critical
    sections is explicit in the step relations of [Muxer] and [MuxEngine].
    Logging and statistics are left out, except where the logs are what a
    component is for: then the actions asked of other parts are a list.

    Loops that are not structural take fuel, and running out of it is the
    exception [fuel_exhausted]; every theorem states an amount that is enough:
    the events of the queue file and the null reads it may give for the loops of
    the muxer, one turn per part for [splitter::read], one turn per pending byte
    for the compression stream, one call of [compress2] with the bound zlib
    announces, the bytes on their way and a header for a BBDO read, one turn per
    character for [parse_check_output] and the tokens of expressions, the number
    of younger downtimes for the triggers of a downtime, one turn per day of a
    year and two per month for time periods, the number of hosts and of
    dependencies for the searches of loops, one turn per byte of performance data,
    one turn per waiting check for the search of a free slot of the agent.  Where the code loops for ever the
    theorem holds for any fuel ([FileQueue.file_stream_write_spins]).

    Time periods, dependencies and the modules that may veto a notification are
    answers in the record [Notifier.env]; the theorems hold for any answers, and
    [Notifications.call] lets the monitored state change in any way between two
    calls.

    ** What the theorems show

    - Events are neither lost, duplicated nor reordered: the muxer refines an
      abstract queue with a cursor, its critical sections conserve the events
      under any interleaving, the engine gives each subscriber the accepted
      events in order, and restarts give back what was not acknowledged.  A
      failover keeps what its endpoint does not hold, and an endpoint that works
      gets everything.
    - The queue files are a first-in first-out queue of bytes within the
      configured sizes, reads end and make progress, and a new object finds the
      queue again.
    - The compression layer gives back what went through it, and its reader ends
      on any input.
    - BBDO: events come back as they were written however the bytes are cut,
      reads end on any bytes, acknowledgements follow the events returned, the
      checksum is the division by the CCITT polynomial, both ends of a
      negotiation agree.
    - The commit of the persistent cache is atomic with respect to crashes.
    - The event filters are sets of event types.
    - Notifications: the gates of a problem notification, the spacing of
      re-notifications, the contacts chosen, the audience of recoveries, the
      alternation of flapping starts and stops, the record of what was sent and
      its round trip through the retention file.
    - Checks of services: the phases of soft and hard states, the attempts, the
      time of the next check, forced checks, the end of flapping; what a plugin
      prints is what is kept.
    - Checks of hosts: DOWN or UNREACHABLE as the parents say, the phases of soft
      and hard states, and the end of every operation, serial checks included.
    - Time: events run in order and a due event runs, the next valid time of a
      period is the earliest one in every time zone, the downtime depth is the
      number of downtimes in effect.
    - Configurations: loops among hosts and dependencies are found exactly, and
      without one the test of the dependencies ends and is right.
    - Business activities: the states kept incrementally are those of the KPIs,
      the events form a chain, downtimes are inherited exactly when they should;
      a boolean expression is parsed as it was written, and its incremental value
      is its value in three-valued logic.
    - Connectors: orders and answers arrive as they were sent however the pipes cut
      them, and over all interleavings no command is lost.
    - Performance data: what is printed is parsed again exactly, on any string the
      parser ends or reads outside of the string, and the names it gives are
      distinct; strings are UTF-8 after the check, and stay so when they are cut.
    - The agent: never more checks than the maximum run, no check is lost or runs
      twice at once, due checks start, a check waits for its interval, and the
      engine finds in the metrics the result that the agent stored.
    - Behaviours the code has against its own intent are stated too:
      [Muxer.restart_skips_queue_file], [Muxer.publish_race_reorders],
      [Muxer.handler_set_late_never_runs], [FileQueue.file_stream_write_spins],
      [FileQueue.no_auto_delete_skips_parts],
      [FileQueue.second_queue_breaks_accounting],
      [MuxEngine.publish_while_stopping_crashes],
      [MuxEngine.event_waits_for_next_publication],
      [MuxEngine.transaction_keeps_stale_events],
      [Failover.stop_failure_undefined],
      [BbdoEvent.pb_payload_multiple_lost], [Wire.large_double_truncated],
      [Negotiation.negotiation_disabled_disagrees],
      [Negotiation.mandatory_extension_not_enforced],
      [Notifications.custom_loses_recovery],
      [Notifications.recovery_anyways_skips_tests],
      [Notifications.is_contact_for_notifier_inverted],
      [CheckOutput.perfdata_lines_glued],
      [Retention.retention_reads_past_end],
      [EventLoop.remove_downtime_keeps_event],
      [DowntimeFacts.flexible_never_ends], [DowntimeFacts.flexible_child_loops],
      [TimePeriodFacts.weekday_before_the_month],
      [TimePeriodFacts.february_29_unlimited],
      [TimePeriodFacts.fifth_weekday_next_month],
      [TimeSearch.range_over_hides_another],
      [TimeSearch.skipped_day_after_clock_change],
      [TimeSearch.check_time_never_valid], [Circular.outside_period_authorizes],
      [HostFacts.single_attempt_stays_up],
      [HostFacts.discarded_result_keeps_executing],
      [BoolExp.unary_minus_ignored], [BoolTree.downtime_not_propagated],
      [Perfdata.reads_before_the_string], [Perfdata.reads_after_the_string],
      [Utf8.angle_quote_lost], [AgentMetrics.warning_range_lost],
      [AgentMetrics.metric_status_replaces_status],
      [AgentMetrics.spaced_name_lost], [Agent.refused_configuration_stops_checks],
      [Agent.long_interval_wraps], [Agent.step_before_min],
      [ConnectorWire.empty_command_shifts],
      [ConnectorWire.short_answer_read_outside],
      [Connector.command_answered_twice], [Connector.stop_order_lost],
      [BaFacts.best_ba_change_missed], [BaFacts.first_event_ignores_kpi_times].

    ** What is not modelled

    The transports (tcp, tls, grpc), the outputs to databases and time series,
    the Lua bindings, the connections and native checks of the agent, the Perl
    interpreter and the SSH sessions of the connectors and [clib] are I/O around
    third-party libraries.  The reading of configurations and their appliers fill
    the objects that are modelled and are left out, as are macros and the external
    commands.  [persistent_file] is the interface [PFile].  The feeder and the
    acceptor of [processing] are threads around a muxer and a stream.  The
    KPIs and the impact and percent business activities, which keep
    floating-point levels, are left out. *)

From stdpp Require Export base tactics list gmap strings pretty.
From Stdlib Require Export ZArith Lia.
From Stdlib Require SpecFloat.

#[global] Open Scope Z_scope.
#[export] Set Warnings "-clear-no-such-hyp".

(** ** Exceptions and the state-and-exception monad

    The C++ code mutates object fields and throws.  A throwing call keeps the
    mutations done before the throw, so the state is threaded through the
    exceptional outcome as well. *)

(** The exceptions the modelled code distinguishes: it catches
    [exceptions::shutdown], [exceptions::timeout], [exceptions::interrupt] and
    [exceptions::corruption] by type, and everything else as a message.
    [fuel_exhausted] is no C++ exception: a loop of the model ran out of fuel.
    No handler catches it, and the theorems show it does not happen.
    [undefined] is none either: the behaviour of the C++ is undefined there. *)
Inductive exn :=
  | shutdown
  | timeout
  | interrupt
  | corruption
  | msg_fmt
  | undefined
  | fuel_exhausted.

#[export] Instance exn_eq_dec : EqDecision exn.
Proof. solve_decision. Defined.

Inductive res (A : Type) :=
  | Ret (a : A)
  | Throw (e : exn).
Arguments Ret {A} _.
Arguments Throw {A} _.

(** A computation that may throw, without a state. *)
Notation "'let!' x := e 'in' k" := (match e with Ret x => k | Throw err => Throw err end)
  (at level 10, x binder, e at level 100, k at level 200).

#[export] Instance res_eq_dec {A} `{!EqDecision A} : EqDecision (res A).
Proof. solve_decision. Defined.

(** [St S A]: a method that works on an object of state [S]. *)
Definition St (S A : Type) : Type := S → res A * S.

#[export] Instance st_ret {S} : MRet (St S) := λ A a s, (Ret a, s).

#[export] Instance st_bind {S} : MBind (St S) := λ A B f m s,
  match m s with
  | (Ret a, s') => f a s'
  | (Throw e, s') => (Throw e, s')
  end.

Definition st_get {S} : St S S := λ s, (Ret s, s).
Definition st_put {S} (s' : S) : St S unit := λ _, (Ret tt, s').
Definition st_modify {S} (f : S → S) : St S unit := λ s, (Ret tt, f s).
Definition st_throw {S A} (e : exn) : St S A := λ s, (Throw e, s).

(** [try { m } catch (e) { h e }]; [h e = None] lets the exception through. *)
Definition st_try {S A} (m : St S A) (h : exn → option (St S A)) : St S A :=
  λ s, match m s with
       | (Throw e, s') => match h e with
                          | Some k => k s'
                          | None => (Throw e, s')
                          end
       | r => r
       end.

(** The three monad laws hold pointwise, which is the equality the object
    states are compared with. *)
Lemma st_bind_ret_l {S A B} (a : A) (f : A → St S B) s :
  (mret a ≫= f) s = f a s.
Proof. reflexivity. Qed.

Lemma st_bind_assoc {S A B C} (m : St S A) (f : A → St S B) (g : B → St S C) s :
  ((m ≫= f) ≫= g) s = (m ≫= (λ a, f a ≫= g)) s.
Proof. unfold mbind, st_bind. by destruct (m s) as [[]]. Qed.

Lemma st_bind_throw {S A B} e (f : A → St S B) s :
  (st_throw e ≫= f) s = (Throw e, s).
Proof. reflexivity. Qed.

(** Reduction of the option monad only: the models hold large constants that
    [simpl] must not touch. *)
Ltac opt_simpl :=
  cbv beta iota delta [mbind option_bind mret option_ret fmap option_fmap option_map] in *.

(** Destructs the scrutinee of the first bind of hypothesis [H]. *)
Ltac opt_inv H :=
  opt_simpl;
  match type of H with
  | context [match ?o with Some _ => _ | None => _ end] =>
      let E := fresh "Hopt" in destruct o eqn:E; opt_simpl; try discriminate H
  end.

(** ** Machine integers *)

Definition u32_max : Z := 2 ^ 32 - 1.
Definition u64_max : Z := 2 ^ 64 - 1.
Definition i32_max : Z := 2 ^ 31 - 1.
Definition i64_max : Z := 2 ^ 63 - 1.
Definition i64_min : Z := - 2 ^ 63.

Definition wrap_u16 (z : Z) : Z := z mod 2 ^ 16.
Definition wrap_u32 (z : Z) : Z := z mod 2 ^ 32.
Definition wrap_u64 (z : Z) : Z := z mod 2 ^ 64.
(** Conversion to [int32_t]: two's complement. *)
Definition wrap_i32 (z : Z) : Z := (z + 2 ^ 31) mod 2 ^ 32 - 2 ^ 31.

(** Conversions to [int16_t] and to [int64_t]. *)
Definition wrap_i16 (z : Z) : Z := (z + 2 ^ 15) mod 2 ^ 16 - 2 ^ 15.
Definition wrap_i64 (z : Z) : Z := (z + 2 ^ 63) mod 2 ^ 64 - 2 ^ 63.

#[global] Arguments wrap_i16 : simpl never.
#[global] Arguments wrap_i64 : simpl never.
#[global] Arguments wrap_u16 : simpl never.
#[global] Arguments wrap_u32 : simpl never.
#[global] Arguments wrap_u64 : simpl never.
#[global] Arguments wrap_i32 : simpl never.

Lemma wrap_i32_small z : - 2 ^ 31 ≤ z < 2 ^ 31 → wrap_i32 z = z.
Proof. intros ?. unfold wrap_i32. rewrite Z.mod_small; lia. Qed.

Lemma wrap_i32_range z : - 2 ^ 31 ≤ wrap_i32 z < 2 ^ 31.
Proof. unfold wrap_i32. pose proof (Z.mod_pos_bound (z + 2^31) (2^32)). lia. Qed.

Lemma wrap_u32_small z : 0 ≤ z < 2 ^ 32 → wrap_u32 z = z.
Proof. intros ?. unfold wrap_u32. by rewrite Z.mod_small. Qed.

Lemma wrap_u64_small z : 0 ≤ z < 2 ^ 64 → wrap_u64 z = z.
Proof. intros ?. unfold wrap_u64. by rewrite Z.mod_small. Qed.

(** A signed value comes back from its unsigned image of the same width. *)
Lemma wrap_signed k z : 0 < k → - 2 ^ (k - 1) ≤ z < 2 ^ (k - 1) →
  (z mod 2 ^ k + 2 ^ (k - 1)) mod 2 ^ k - 2 ^ (k - 1) = z.
Proof.
  intros Hk Hz. rewrite Zplus_mod_idemp_l.
  assert (2 ^ k = 2 * 2 ^ (k - 1)) as E.
  { rewrite <- Z.pow_succ_r by lia. f_equal. lia. }
  rewrite Z.mod_small by lia. lia.
Qed.

(** Conversions that change nothing, when [lia] sees that the value fits. *)
Create Rewrite HintDb machine_int.
#[export] Hint Rewrite wrap_i32_small wrap_u32_small wrap_u64_small using lia : machine_int.

(** Bitwise complement of a [uint64_t]. *)
Definition u64_not (z : Z) : Z := Z.lnot z mod 2 ^ 64.

#[global] Arguments u64_not : simpl never.

Lemma u64_not_spec z i : 0 ≤ i < 64 → Z.testbit (u64_not z) i = negb (Z.testbit z i).
Proof.
  intros ?. unfold u64_not.
  rewrite Z.mod_pow2_bits_low by lia. by rewrite Z.lnot_spec by lia.
Qed.

Lemma u64_not_range z : 0 ≤ u64_not z < 2 ^ 64.
Proof. apply Z.mod_pos_bound. lia. Qed.

(** A value of [n] bits has no bit set from [n] on. *)
Lemma testbit_high z n i : 0 ≤ z < 2 ^ n → n ≤ i → Z.testbit z i = false.
Proof.
  intros [? Hlt] ?. destruct (decide (0 ≤ n)) as [Hn|Hn]; cycle 1.
  { rewrite Z.pow_neg_r in Hlt by lia. lia. }
  rewrite <- (Z.mod_small z (2 ^ n)) by lia. by apply Z.mod_pow2_bits_high; lia.
Qed.

(** Two values of [n] bits are equal when their low [n] bits are. *)
Lemma bits_inj_low n x y :
  0 ≤ n → 0 ≤ x < 2 ^ n → 0 ≤ y < 2 ^ n →
  (∀ i, 0 ≤ i < n → Z.testbit x i = Z.testbit y i) → x = y.
Proof.
  intros Hn Hx Hy Hb. apply Z.bits_inj'. intros i Hi.
  destruct (decide (i < n)) as [Hlt|Hge]; [by apply Hb|].
  by rewrite !(testbit_high _ n) by lia.
Qed.

Lemma land_range a b n : 0 ≤ n → 0 ≤ a < 2 ^ n → 0 ≤ b → 0 ≤ Z.land a b < 2 ^ n.
Proof.
  intros Hn Ha Hb. assert (0 ≤ Z.land a b) by (apply Z.land_nonneg; lia).
  split; [done|]. destruct (decide (Z.land a b = 0)) as [->|Hz]; [lia|].
  apply Z.log2_lt_pow2; [lia|].
  destruct (decide (a = 0)) as [->|Ha0]; [by rewrite Z.land_0_l in Hz|].
  pose proof (Z.log2_land a b ltac:(lia) ltac:(lia)).
  assert (Z.log2 a < n) by (apply Z.log2_lt_pow2; lia). lia.
Qed.

Lemma lor_range a b n : 0 ≤ n → 0 ≤ a < 2 ^ n → 0 ≤ b < 2 ^ n → 0 ≤ Z.lor a b < 2 ^ n.
Proof.
  intros Hn Ha Hb. assert (0 ≤ Z.lor a b) by (apply Z.lor_nonneg; lia).
  split; [done|]. destruct (decide (Z.lor a b = 0)) as [->|Hz]; [lia|].
  apply Z.log2_lt_pow2; [lia|]. rewrite Z.log2_lor by lia.
  destruct (decide (n = 0)) as [->|]; [exfalso|].
  { assert (a = 0) by lia. assert (b = 0) by lia. by subst. }
  assert (∀ c, 0 ≤ c < 2 ^ n → Z.log2 c < n).
  { intros c Hc. destruct (decide (c = 0)) as [->|]; [simpl; lia|].
    apply Z.log2_lt_pow2; lia. }
  apply Z.max_lub_lt; auto.
Qed.

(** ** Big-endian integers *)

(** [(n >> 24) & 0xff, (n >> 16) & 0xff, (n >> 8) & 0xff, n & 0xff] *)
Definition be32 (n : Z) : list Z :=
  [Z.land (Z.shiftr n 24) 255; Z.land (Z.shiftr n 16) 255; Z.land (Z.shiftr n 8) 255; Z.land n 255].

#[global] Arguments be32 : simpl never.

Lemma be32_lor n :
  0 ≤ n < 2 ^ 32 →
  Z.lor (Z.lor (Z.lor (Z.shiftl (Z.land (Z.shiftr n 24) 255) 24)
                      (Z.shiftl (Z.land (Z.shiftr n 16) 255) 16))
               (Z.shiftl (Z.land (Z.shiftr n 8) 255) 8)) (Z.land n 255) = n.
Proof.
  intros Hn. change 255 with (Z.ones 8).
  assert (∀ k i, 0 ≤ k → 0 ≤ i →
    Z.testbit (Z.shiftl (Z.land (Z.shiftr n k) (Z.ones 8)) k) i =
      Z.testbit n i && (k <=? i) && (i <? k + 8)) as Hbyte.
  { intros k i Hk Hi. destruct (Z.leb_spec k i) as [Hki|Hki].
    - rewrite Z.shiftl_spec, Z.land_spec, Z.shiftr_spec by lia.
      replace (i - k + k) with i by lia. rewrite andb_true_r. f_equal.
      destruct (Z.ltb_spec i (k + 8)).
      + apply Z.ones_spec_low. lia.
      + apply Z.ones_spec_high. lia.
    - rewrite Z.shiftl_spec_low by lia. by rewrite andb_false_r. }
  pose proof (Hbyte 0) as H0. setoid_rewrite Z.shiftr_0_r in H0. setoid_rewrite Z.shiftl_0_r in H0.
  apply Z.bits_inj'. intros i Hi. rewrite !Z.lor_spec, !Hbyte, H0 by lia.
  destruct (Z.testbit n i) eqn:Hb; [|done].
  assert (i < 32).
  { destruct (decide (i < 32)); [done|]. by rewrite (testbit_high n 32) in Hb by lia. }
  cbn [andb]. destruct (Z.leb_spec 24 i), (Z.ltb_spec i (24 + 8)), (Z.leb_spec 16 i),
    (Z.ltb_spec i (16 + 8)), (Z.leb_spec 8 i), (Z.ltb_spec i (8 + 8)), (Z.leb_spec 0 i),
    (Z.ltb_spec i (0 + 8)); try done; lia.
Qed.

Lemma length_be32 n : length (be32 n) = 4%nat.
Proof. reflexivity. Qed.

(** ** Doubles

    A [double] is a [spec_float] with 53 bits of mantissa; the operations round to
    nearest, ties to even. *)
Definition double : Type := SpecFloat.spec_float.
Definition dadd : double → double → double := SpecFloat.SFadd 53 1024.
Definition dsub : double → double → double := SpecFloat.SFsub 53 1024.
Definition dmul : double → double → double := SpecFloat.SFmul 53 1024.
Definition ddiv : double → double → double := SpecFloat.SFdiv 53 1024.
(** An integer as a [double]. *)
Definition dint (z : Z) : double := SpecFloat.binary_normalize 53 1024 z 0 false.
(** A [double] as an integer: truncation towards zero, when it is in range. *)
Definition dtrunc (d : double) : Z :=
  match d with
  | SpecFloat.S754_finite s m e =>
      let a := if 0 <=? e then Z.shiftl (Z.pos m) e else Z.shiftr (Z.pos m) (- e) in
      if s then - a else a
  | _ => 0
  end.
