(* ===== verification/EventFilter.v ===== *)
(** * Event types and event filters

    [bbdo/events.hh] builds the 32-bit type of an event from its category and
    its element; [multiplexing/muxer_filter.hh] keeps, for each category, a
    64-bit mask of the elements a muxer lets through.  The specification is the
    set of event types a filter allows: the operators of the class are the
    operations of the algebra of sets, and its tests decide the relations. *)

From S2P Require Import Prelude.

(** ** Event types ([bbdo/events.hh]) *)

Inductive data_category :=
  | none | neb | bbdo | storage | dumper | bam | extcmd | generator | local
  | internal.

Definition data_category_val (c : data_category) : Z :=
  match c with
  | none => 0 | neb => 1 | bbdo => 2 | storage => 3 | dumper => 5 | bam => 6
  | extcmd => 7 | generator => 8 | local => 9 | internal => 65535
  end.

Definition max_data_category : Z := 10.

Definition make_type (cat : Z) (elem : Z) : Z := wrap_u32 (Z.lor (Z.shiftl cat 16) elem).
Definition category_of_type (type : Z) : Z := wrap_u16 (Z.shiftr type 16).
Definition element_of_type (type : Z) : Z := wrap_u16 type.

#[global] Arguments make_type : simpl never.
#[global] Arguments category_of_type : simpl never.
#[global] Arguments element_of_type : simpl never.

Lemma category_make cat elem :
  0 ≤ cat < 2 ^ 16 → 0 ≤ elem < 2 ^ 16 → category_of_type (make_type cat elem) = cat.
Proof.
  intros Hc He. unfold category_of_type, make_type, wrap_u16, wrap_u32.
  apply (bits_inj_low 16); [lia| |lia|].
  { apply Z.mod_pos_bound; lia. }
  intros i Hi. rewrite Z.mod_pow2_bits_low, Z.shiftr_spec, Z.mod_pow2_bits_low by lia.
  rewrite Z.lor_spec, Z.shiftl_spec by lia.
  rewrite (testbit_high elem 16) by lia. rewrite orb_false_r. f_equal; lia.
Qed.

Lemma element_make cat elem :
  0 ≤ elem < 2 ^ 16 → element_of_type (make_type cat elem) = elem.
Proof.
  intros He. unfold element_of_type, make_type, wrap_u16, wrap_u32.
  apply (bits_inj_low 16); [lia| |lia|].
  { apply Z.mod_pos_bound; lia. }
  intros i Hi. rewrite !Z.mod_pow2_bits_low by lia.
  rewrite Z.lor_spec, Z.shiftl_spec_low by lia. done.
Qed.

(** ** Filters ([multiplexing/muxer_filter.hh]) *)

Definition all_events : Z := u64_max.
Definition max_filter_category : nat := Z.to_nat max_data_category.

(** [uint64_t _mask[max_filter_category]]; index 0 is the [internal] category. *)
Record muxer_filter := MkFilter { _mask : list Z }.

(** The mask index an event type uses; [None] when the [assert] on its
    category fails. *)
Definition mask_index (cat : Z) : option nat :=
  if cat =? data_category_val internal then Some 0%nat
  else if (0 <? cat) && (cat <? max_data_category) then Some (Z.to_nat cat)
  else None.

(** [1ULL << elem], on 64 bits. *)
Definition elem_bit (elem : Z) : Z := wrap_u64 (Z.shiftl 1 elem).

#[global] Arguments mask_index : simpl never.
#[global] Arguments elem_bit : simpl never.
#[global] Arguments max_filter_category : simpl never.

Definition filter_all : muxer_filter := MkFilter (replicate max_filter_category all_events).
Definition zero_init : muxer_filter := MkFilter (replicate max_filter_category 0).

Definition insert (element : Z) (f : muxer_filter) : option muxer_filter :=
  i ← mask_index (category_of_type element);
  m ← f.(_mask) !! i;
  Some (MkFilter (<[i := Z.lor m (elem_bit (element_of_type element))]> f.(_mask))).

(** The constructors that take a list (or a range) of event types. *)
Fixpoint insert_all (mess_types : list Z) (f : muxer_filter) : option muxer_filter :=
  match mess_types with
  | [] => Some f
  | t :: ts => f' ← insert t f; insert_all ts f'
  end.

Definition of_types (mess_types : list Z) : option muxer_filter :=
  insert_all mess_types zero_init.

Definition op_or (f other : muxer_filter) : muxer_filter :=
  MkFilter (zip_with Z.lor f.(_mask) other.(_mask)).
Definition op_and (f other : muxer_filter) : muxer_filter :=
  MkFilter (zip_with Z.land f.(_mask) other.(_mask)).
Definition op_sub (f other : muxer_filter) : muxer_filter :=
  MkFilter (zip_with (λ to_fill to_remove, Z.land to_fill (u64_not to_remove))
              f.(_mask) other.(_mask)).
Definition reverse (f : muxer_filter) : muxer_filter := MkFilter (u64_not <$> f.(_mask)).

Definition set_category (v category : Z) (f : muxer_filter) : muxer_filter :=
  if category <? max_data_category then MkFilter (<[Z.to_nat category := v]> f.(_mask))
  else if category =? data_category_val internal then MkFilter (<[0%nat := v]> f.(_mask))
  else f.
Definition remove_category : Z → muxer_filter → muxer_filter := set_category 0.
Definition add_category : Z → muxer_filter → muxer_filter := set_category all_events.

(** The loops over two mask arrays that stop at the first failing pair. *)
Fixpoint forallb2 (p : Z → Z → bool) (l k : list Z) : bool :=
  match l, k with
  | a :: l, b :: k => if p a b then forallb2 p l k else false
  | _, _ => true
  end.

Definition op_eq (f other : muxer_filter) : bool :=
  forallb2 Z.eqb f.(_mask) other.(_mask).
Definition is_in (f other : muxer_filter) : bool :=
  forallb2 (λ cat to_test, Z.land cat to_test =? cat) f.(_mask) other.(_mask).
Definition contains_some_of (f other : muxer_filter) : bool :=
  negb (forallb2 (λ cat o, Z.land cat o =? 0) f.(_mask) other.(_mask)).
Definition allows_all (f : muxer_filter) : bool :=
  forallb (λ cat, cat =? all_events) f.(_mask).

Definition allows (f : muxer_filter) (mess_type : Z) : option bool :=
  i ← mask_index (category_of_type mess_type);
  m ← f.(_mask) !! i;
  Some (negb (Z.land m (elem_bit (element_of_type mess_type)) =? 0)).

(** ** Well-formedness *)

Definition u64 (m : Z) : Prop := 0 ≤ m < 2 ^ 64.

Definition filter_wf (f : muxer_filter) : Prop :=
  length f.(_mask) = max_filter_category ∧ Forall u64 f.(_mask).

(** The event types a filter can talk about: a known category and one of the 64
    elements a mask has room for (the shift is undefined in C++ beyond). *)
Definition valid_type (t : Z) : Prop :=
  0 ≤ t < 2 ^ 32 ∧ is_Some (mask_index (category_of_type t)) ∧ element_of_type t < 64.

#[export] Instance valid_type_dec t : Decision (valid_type t).
Proof. unfold valid_type. apply _. Defined.

Lemma elem_bit_u64 e : u64 (elem_bit e).
Proof. apply Z.mod_pos_bound. lia. Qed.

Lemma all_events_u64 : u64 all_events.
Proof. unfold u64, all_events, u64_max. lia. Qed.

Lemma zero_u64 : u64 0.
Proof. unfold u64. lia. Qed.

Lemma lor_u64 a b : u64 a → u64 b → u64 (Z.lor a b).
Proof. unfold u64. intros. apply lor_range; lia. Qed.

Lemma land_u64 a b : u64 a → u64 b → u64 (Z.land a b).
Proof. unfold u64. intros. apply land_range; lia. Qed.

Lemma not_u64 a : u64 (u64_not a).
Proof. apply u64_not_range. Qed.

Create HintDb filter.
#[export] Hint Resolve elem_bit_u64 all_events_u64 zero_u64 lor_u64 land_u64 not_u64 : filter.

Lemma mask_index_lt c i : mask_index c = Some i → (i < max_filter_category)%nat.
Proof.
  unfold mask_index, max_filter_category, max_data_category.
  repeat case_match; intros [= <-]; lia.
Qed.

(** Every index is the index of some category. *)
Lemma mask_index_surj i :
  (i < max_filter_category)%nat →
  ∃ c, 0 ≤ c < 2 ^ 16 ∧ mask_index c = Some i.
Proof.
  unfold mask_index, max_filter_category, max_data_category. intros Hi.
  destruct (decide (i = 0%nat)) as [->|Hz].
  - exists 65535. split; [lia|]. done.
  - exists (Z.of_nat i). split; [lia|]. simpl.
    rewrite (proj2 (Z.eqb_neq _ _)) by lia.
    rewrite !(proj2 (Z.ltb_lt _ _)) by lia. simpl. by rewrite Nat2Z.id.
Qed.

Lemma wf_lookup f i :
  filter_wf f → (i < max_filter_category)%nat → ∃ m, f.(_mask) !! i = Some m ∧ u64 m.
Proof.
  intros [Hlen Hall] Hi. destruct (lookup_lt_is_Some_2 f.(_mask) i) as [m Hm]; [lia|].
  exists m. split; [done|]. by eapply Forall_lookup_1.
Qed.

(** The test of [allows] is the test of one bit of one mask. *)
Lemma land_elem_bit m e : 0 ≤ e < 64 →
  negb (Z.land m (elem_bit e) =? 0) = Z.testbit m e.
Proof.
  intros He. unfold elem_bit, wrap_u64.
  rewrite Z.shiftl_1_l, Z.mod_small.
  2:{ split; [lia|]. apply Z.pow_lt_mono_r; lia. }
  rewrite (Z.land_comm m). destruct (Z.testbit m e) eqn:Hb.
  - destruct (Z.eqb_spec (Z.land (2 ^ e) m) 0) as [H0|]; [|done].
    assert (Z.testbit (Z.land (2 ^ e) m) e = true) as H1.
    { by rewrite Z.land_spec, Z.pow2_bits_true, Hb by lia. }
    by rewrite H0, Z.bits_0 in H1.
  - replace (Z.land (2 ^ e) m) with 0; [done|]. symmetry. apply Z.bits_inj'.
    intros i Hi. rewrite Z.land_spec, Z.pow2_bits_eqb, Z.bits_0 by lia.
    destruct (Z.eqb_spec e i) as [<-|]; [by rewrite Hb|done].
Qed.

Lemma allows_testbit f t i m :
  valid_type t → mask_index (category_of_type t) = Some i → f.(_mask) !! i = Some m →
  allows f t = Some (Z.testbit m (element_of_type t)).
Proof.
  intros (_ & _ & He) Hi Hm. unfold allows. rewrite Hi. opt_simpl. rewrite Hm. opt_simpl.
  rewrite land_elem_bit; [done|]. unfold element_of_type, wrap_u16 in *.
  pose proof (Z.mod_pos_bound t (2^16)). lia.
Qed.

Lemma element_nonneg t : 0 ≤ element_of_type t.
Proof. unfold element_of_type, wrap_u16. pose proof (Z.mod_pos_bound t (2^16)). lia. Qed.
#[export] Hint Resolve element_nonneg : filter.

(** ** The set a filter denotes *)

(** [f ⊢ t]: the filter lets events of type [t] through. *)
Definition permits (f : muxer_filter) (t : Z) : Prop := allows f t = Some true.

Lemma allows_total f t : filter_wf f → valid_type t → is_Some (allows f t).
Proof.
  intros Hwf Ht. pose proof Ht as (_ & [i Hi] & He).
  destruct (wf_lookup f i) as (m & Hm & _); [done|by eapply mask_index_lt|].
  erewrite allows_testbit; eauto.
Qed.

(** A mask-wise operation changes [allows] bit by bit. *)
Lemma allows_zip_with (op : Z → Z → Z) (bop : bool → bool → bool) f g t :
  (∀ a b i, 0 ≤ i < 64 → Z.testbit (op a b) i = bop (Z.testbit a i) (Z.testbit b i)) →
  filter_wf f → filter_wf g → valid_type t →
  allows (MkFilter (zip_with op f.(_mask) g.(_mask))) t =
    (a ← allows f t; b ← allows g t; Some (bop a b)).
Proof.
  intros Hop Hf Hg Ht. pose proof Ht as (_ & [i Hi] & He).
  pose proof (mask_index_lt _ _ Hi) as Hlt.
  destruct (wf_lookup f i) as (a & Ha & _); [done..|].
  destruct (wf_lookup g i) as (b & Hb & _); [done..|].
  erewrite (allows_testbit f), (allows_testbit g) by eauto. simpl.
  erewrite allows_testbit; [|done|done|].
  2:{ simpl. apply lookup_zip_with_Some. eauto. }
  rewrite Hop; [done|]. pose proof (element_nonneg t). lia.
Qed.

Lemma Forall_zip_with_u64 (op : Z → Z → Z) l k :
  (∀ a b, u64 a → u64 b → u64 (op a b)) →
  Forall u64 l → Forall u64 k → Forall u64 (zip_with op l k).
Proof.
  intros Hop Hl Hk. apply Forall_lookup. intros i x (a & b & -> & Ha & Hb)%lookup_zip_with_Some.
  exact (Hop _ _ (Forall_lookup_1 _ _ _ _ Hl Ha) (Forall_lookup_1 _ _ _ _ Hk Hb)).
Qed.

Lemma zip_with_wf (op : Z → Z → Z) f g :
  (∀ a b, u64 a → u64 b → u64 (op a b)) →
  filter_wf f → filter_wf g → filter_wf (MkFilter (zip_with op f.(_mask) g.(_mask))).
Proof.
  intros Hop [Hf1 Hf2] [Hg1 Hg2]. split; simpl.
  - rewrite length_zip_with. lia.
  - by apply Forall_zip_with_u64.
Qed.

Lemma insert_mask_wf f i v :
  filter_wf f → u64 v → filter_wf (MkFilter (<[i := v]> f.(_mask))).
Proof.
  intros [Hlen Hall] Hv. split; simpl; [by rewrite length_insert|].
  by apply Forall_insert.
Qed.

Lemma insert_wf f t f' : filter_wf f → insert t f = Some f' → filter_wf f'.
Proof.
  intros Hwf Hins. unfold insert in Hins. opt_inv Hins. opt_inv Hins. injection Hins as <-.
  apply insert_mask_wf; [done|]. apply lor_u64; [|auto with filter].
  destruct Hwf as [_ Hall]. by eapply Forall_lookup_1.
Qed.
#[export] Hint Resolve insert_mask_wf insert_wf : filter.

(** Loops over two arrays decide a pointwise relation. *)
Lemma forallb2_spec (p : Z → Z → bool) l k :
  length l = length k →
  forallb2 p l k = true ↔ ∀ i a b, l !! i = Some a → k !! i = Some b → p a b = true.
Proof.
  revert k. induction l as [|a l IH]; intros [|b k] Hlen; simplify_eq/=; [by split|].
  destruct (p a b) eqn:Hp; (split; [intros H i x y Hx Hy|intros H]).
  - destruct i as [|i]; simplify_eq/=; [done|]. by eapply (proj1 (IH k Hlen)).
  - apply IH; [done|]. intros i x y Hx Hy. by apply (H (S i)).
  - done.
  - by rewrite <- Hp, (H 0%nat a b).
Qed.

Definition mk_type (i : nat) (e : Z) : Z :=
  make_type (if decide (i = 0%nat) then data_category_val internal else Z.of_nat i) e.

(** Each bit of each mask is the bit of exactly one valid type. *)
Lemma mk_type_spec i e :
  (i < max_filter_category)%nat → 0 ≤ e < 64 →
  valid_type (mk_type i e) ∧ mask_index (category_of_type (mk_type i e)) = Some i ∧
  element_of_type (mk_type i e) = e.
Proof.
  intros Hi He. unfold mk_type.
  assert (element_of_type (make_type (if decide (i = 0%nat) then data_category_val internal
            else Z.of_nat i) e) = e) as Hel by (apply element_make; lia).
  assert (mask_index (category_of_type (make_type (if decide (i = 0%nat)
            then data_category_val internal else Z.of_nat i) e)) = Some i) as Hmi.
  { destruct (mask_index_surj i Hi) as (c & Hc & Hmc).
    rewrite category_make; [|destruct (decide _); simpl; unfold max_filter_category,
      max_data_category in Hi; lia|lia].
    case_decide; [by subst|]. unfold mask_index in *.
    unfold max_filter_category, max_data_category in Hi.
    rewrite (proj2 (Z.eqb_neq _ _)) by (simpl; lia).
    unfold max_data_category. rewrite !(proj2 (Z.ltb_lt _ _)) by lia. simpl.
    by rewrite Nat2Z.id. }
  rewrite Hel. split; [|done]. unfold valid_type. rewrite Hmi, Hel.
  split; [apply Z.mod_pos_bound; lia|]. split; [by eexists|lia].
Qed.

(** A pointwise relation on masks is a relation on valid types. *)
Lemma masks_by_types (R : bool → bool → Prop) f g :
  filter_wf f → filter_wf g →
  (∀ i a b e, f.(_mask) !! i = Some a → g.(_mask) !! i = Some b → 0 ≤ e < 64 →
     R (Z.testbit a e) (Z.testbit b e)) ↔
  (∀ t a b, valid_type t → allows f t = Some a → allows g t = Some b → R a b).
Proof.
  intros Hf Hg. split.
  - intros H t a b Ht Ha Hb. pose proof Ht as (_ & [i Hi] & He).
    pose proof (mask_index_lt _ _ Hi) as Hlt.
    destruct (wf_lookup f i) as (x & Hx & _); [done..|].
    destruct (wf_lookup g i) as (y & Hy & _); [done..|].
    erewrite allows_testbit in Ha by eauto. erewrite allows_testbit in Hb by eauto.
    simplify_eq. eapply H; eauto using element_nonneg.
  - intros H i a b e Ha Hb He.
    assert (i < max_filter_category)%nat as Hi.
    { destruct Hf as [<- _]. by eapply lookup_lt_Some. }
    destruct (mk_type_spec i e Hi He) as (Hv & Hidx & Hel).
    apply (H (mk_type i e)); [done|..];
      (erewrite allows_testbit; [by rewrite Hel|done|done|done]).
Qed.

Lemma testbit_all_events e : 0 ≤ e < 64 → Z.testbit all_events e = true.
Proof.
  intros. unfold all_events, u64_max.
  replace (2 ^ 64 - 1) with (Z.ones 64) by reflexivity. by apply Z.ones_spec_low.
Qed.

Lemma filter_all_wf : filter_wf filter_all.
Proof. split; [done|]. apply (Forall_replicate u64 max_filter_category). auto with filter. Qed.
Lemma zero_init_wf : filter_wf zero_init.
Proof. split; [done|]. apply (Forall_replicate u64 max_filter_category). auto with filter. Qed.
#[export] Hint Resolve filter_all_wf zero_init_wf : filter.

Lemma insert_all_wf ts f f' : filter_wf f → insert_all ts f = Some f' → filter_wf f'.
Proof.
  revert f. induction ts as [|t ts IH]; intros f Hf H; cbn [insert_all] in H.
  - by injection H as <-.
  - opt_inv H. eauto using insert_wf.
Qed.

(** Every operation of the class keeps ten 64-bit masks, from the two
    constructors on. *)
Theorem filter_ops_wf f g c :
  filter_wf f → filter_wf g →
  filter_wf filter_all ∧ filter_wf zero_init ∧
  filter_wf (op_or f g) ∧ filter_wf (op_and f g) ∧ filter_wf (op_sub f g) ∧
  filter_wf (reverse f) ∧ filter_wf (remove_category c f) ∧ filter_wf (add_category c f) ∧
  (∀ ts f', insert_all ts f = Some f' → filter_wf f').
Proof.
  intros Hf Hg. split_and!; try (apply zip_with_wf); auto with filter.
  - destruct Hf as [Hlen _]. split; simpl; [by rewrite length_fmap|].
    apply Forall_fmap, Forall_true. intros. apply not_u64.
  - unfold remove_category, set_category. repeat case_match; auto with filter.
  - unfold add_category, set_category. repeat case_match; auto with filter.
  - intros ts f'. by apply insert_all_wf.
Qed.

(** An event type is determined by its category and its element. *)
Lemma type_split t : 0 ≤ t < 2 ^ 32 → t = make_type (category_of_type t) (element_of_type t).
Proof.
  intros Ht. unfold make_type, category_of_type, element_of_type, wrap_u16, wrap_u32.
  apply (bits_inj_low 32); [lia|lia|apply Z.mod_pos_bound; lia|]. intros i Hi.
  rewrite Z.mod_pow2_bits_low, Z.lor_spec by lia.
  destruct (decide (i < 16)).
  - rewrite Z.shiftl_spec_low, Z.mod_pow2_bits_low by lia. done.
  - rewrite Z.shiftl_spec, Z.mod_pow2_bits_low, Z.shiftr_spec, Z.mod_pow2_bits_high by lia.
    rewrite orb_false_r. f_equal. lia.
Qed.

Lemma mask_index_inj c d i : mask_index c = Some i → mask_index d = Some i → c = d.
Proof.
  unfold mask_index, max_data_category.
  destruct (Z.eqb_spec c (data_category_val internal)), (Z.eqb_spec d (data_category_val internal));
    [congruence|..]; repeat case_match; intros [= <-] [= ?]; lia.
Qed.

Lemma valid_type_eq t u :
  valid_type t → valid_type u →
  mask_index (category_of_type t) = mask_index (category_of_type u) →
  element_of_type t = element_of_type u → t = u.
Proof.
  intros (Ht & [i Hi] & _) (Hu & _ & _) Hm He.
  rewrite (type_split t), (type_split u), He by done. f_equal.
  rewrite Hi in Hm. by eapply mask_index_inj.
Qed.

Lemma testbit_elem_bit e e' : 0 ≤ e < 64 → 0 ≤ e' < 64 →
  Z.testbit (elem_bit e) e' = bool_decide (e = e').
Proof.
  intros. unfold elem_bit, wrap_u64. rewrite Z.mod_pow2_bits_low, Z.shiftl_1_l by lia.
  rewrite Z.pow2_bits_eqb by lia. case_bool_decide; [by apply Z.eqb_eq|by apply Z.eqb_neq].
Qed.

Lemma allows_insert f u f' t :
  filter_wf f → valid_type t → valid_type u → insert u f = Some f' →
  allows f' t = (a ← allows f t; Some (a || bool_decide (t = u))).
Proof.
  intros Hf Ht Hu Hins. unfold insert in Hins. pose proof Hu as (_ & [j Hj] & Heu).
  pose proof Ht as (_ & [i Hi] & Het).
  destruct (wf_lookup f i) as (a & Ha & _); [done|by eapply mask_index_lt|].
  rewrite Hj in Hins. opt_inv Hins. injection Hins as <-. rename Hopt into Hm.
  erewrite (allows_testbit f) by eauto. simpl.
  destruct (decide (i = j)) as [->|Hne].
  - erewrite allows_testbit; [|done|done|by simpl; apply list_lookup_insert_eq, lookup_lt_is_Some].
    rewrite Ha in Hm. injection Hm as ->. rewrite Z.lor_spec. rewrite testbit_elem_bit by auto using element_nonneg.
    do 3 f_equal. apply bool_decide_ext. split; [|congruence].
    intros He. apply valid_type_eq; congruence.
  - erewrite allows_testbit; [|done|done|simpl; by rewrite list_lookup_insert_ne].
    rewrite bool_decide_eq_false_2; [by rewrite orb_false_r|]. congruence.
Qed.

Lemma allows_zero t : valid_type t → allows zero_init t = Some false.
Proof.
  intros Ht. pose proof Ht as (_ & [i Hi] & _).
  erewrite allows_testbit; [by rewrite Z.bits_0|done|done|].
  apply (lookup_replicate_2 max_filter_category). by eapply mask_index_lt.
Qed.

Lemma allows_reverse f t :
  filter_wf f → valid_type t → allows (reverse f) t = negb <$> allows f t.
Proof.
  intros Hf Ht. pose proof Ht as (_ & [i Hi] & He).
  destruct (wf_lookup f i) as (a & Ha & _); [done|by eapply mask_index_lt|].
  erewrite (allows_testbit f) by eauto. simpl.
  erewrite allows_testbit; [|done|done|by simpl; rewrite list_lookup_fmap, Ha].
  rewrite u64_not_spec; [done|]. auto using element_nonneg.
Qed.

Lemma insert_total f u : filter_wf f → valid_type u → is_Some (insert u f).
Proof.
  intros Hf (_ & [j Hj] & _). unfold insert. rewrite Hj. simpl.
  destruct (wf_lookup f j) as (m & -> & _); [done|by eapply mask_index_lt|]. by eexists.
Qed.

Lemma insert_all_spec ts f t :
  filter_wf f → valid_type t → Forall valid_type ts →
  ∃ f', insert_all ts f = Some f' ∧ (permits f' t ↔ permits f t ∨ t ∈ ts).
Proof.
  intros Hf Ht Hts. revert f Hf. induction Hts as [|u ts Hu Hts IH]; intros f Hf; cbn [insert_all].
  - exists f. split; [done|]. rewrite elem_of_nil. tauto.
  - destruct (insert_total f u) as [f1 Hf1]; [done..|]. rewrite Hf1. opt_simpl.
    destruct (IH f1) as (f' & -> & Hf'); [by eauto with filter|].
    exists f'. split; [done|]. rewrite Hf', elem_of_cons. unfold permits.
    erewrite allows_insert by done. destruct (allows_total f t) as [a ->]; [done..|].
    simpl. case_bool_decide; destruct a; naive_solver.
Qed.

(** The operators of the class are the algebra of sets: on well-formed
    filters and valid types, [|=] is union, [&=] intersection, [-=] difference,
    [reverse] complement, [insert] adds one type, and the list constructor
    builds exactly the listed set. *)
Theorem filter_set_algebra f g t :
  filter_wf f → filter_wf g → valid_type t →
  (permits (op_or f g) t ↔ permits f t ∨ permits g t) ∧
  (permits (op_and f g) t ↔ permits f t ∧ permits g t) ∧
  (permits (op_sub f g) t ↔ permits f t ∧ ¬ permits g t) ∧
  (permits (reverse f) t ↔ ¬ permits f t) ∧
  (∀ ts, Forall valid_type ts →
     ∃ f', insert_all ts f = Some f' ∧ (permits f' t ↔ permits f t ∨ t ∈ ts)).
Proof.
  intros Hf Hg Ht. destruct (allows_total f t) as [a Ha]; [done..|].
  destruct (allows_total g t) as [b Hb]; [done..|]. unfold permits. split_and!.
  - unfold op_or. rewrite (allows_zip_with Z.lor orb), Ha, Hb by auto using Z.lor_spec.
    destruct a, b; naive_solver.
  - unfold op_and. rewrite (allows_zip_with Z.land andb), Ha, Hb by auto using Z.land_spec.
    destruct a, b; naive_solver.
  - unfold op_sub. rewrite (allows_zip_with _ (λ x y, x && negb y)), Ha, Hb by
      (auto; intros; by rewrite Z.land_spec, u64_not_spec).
    destruct a, b; naive_solver.
  - rewrite allows_reverse, Ha by done. destruct a; naive_solver.
  - intros ts. by apply insert_all_spec.
Qed.

(** Two filters are compared through the types they allow. *)
Lemma forallb2_types (p : Z → Z → bool) (R : bool → bool → Prop) f g :
  (∀ a b, u64 a → u64 b →
     p a b = true ↔ ∀ e, 0 ≤ e < 64 → R (Z.testbit a e) (Z.testbit b e)) →
  filter_wf f → filter_wf g →
  forallb2 p f.(_mask) g.(_mask) = true ↔
  ∀ t a b, valid_type t → allows f t = Some a → allows g t = Some b → R a b.
Proof.
  intros Hp Hf Hg. rewrite <- masks_by_types by done.
  destruct Hf as [Hlf Hf], Hg as [Hlg Hg]. rewrite forallb2_spec by congruence.
  split; intros H i a b.
  - intros e Ha Hb He. eapply Hp; [..|done];
      [exact (Forall_lookup_1 _ _ _ _ Hf Ha)|exact (Forall_lookup_1 _ _ _ _ Hg Hb)|eauto].
  - intros Ha Hb. apply Hp;
      [exact (Forall_lookup_1 _ _ _ _ Hf Ha)|exact (Forall_lookup_1 _ _ _ _ Hg Hb)|eauto].
Qed.

Lemma land_eq_l a b : u64 a → u64 b →
  (Z.land a b =? a) = true ↔ ∀ e, 0 ≤ e < 64 → (Z.testbit a e = true → Z.testbit b e = true).
Proof.
  intros Ha Hb. rewrite Z.eqb_eq. split.
  - intros <- e He. rewrite Z.land_spec. by intros [_ ?]%andb_true_iff.
  - intros H. apply (bits_inj_low 64); [lia|by apply land_u64|done|].
    intros e He. rewrite Z.land_spec. specialize (H e He).
    destruct (Z.testbit a e), (Z.testbit b e); naive_solver.
Qed.

Lemma land_eq_0 a b : u64 a → u64 b →
  (Z.land a b =? 0) = true ↔ ∀ e, 0 ≤ e < 64 → ¬ (Z.testbit a e = true ∧ Z.testbit b e = true).
Proof.
  intros Ha Hb. rewrite Z.eqb_eq. split.
  - intros H0 e He. rewrite <- andb_true_iff, <- Z.land_spec, H0, Z.bits_0. done.
  - intros H. apply (bits_inj_low 64); [lia|by apply land_u64|apply zero_u64|].
    intros e He. rewrite Z.land_spec, Z.bits_0. specialize (H e He).
    destruct (Z.testbit a e), (Z.testbit b e); naive_solver.
Qed.

Lemma forallb2_false p l k :
  forallb2 p l k = false → ∃ i a b, l !! i = Some a ∧ k !! i = Some b ∧ p a b = false.
Proof.
  revert k. induction l as [|a l IH]; intros [|b k] H; cbn [forallb2] in H; try done.
  destruct (p a b) eqn:Hp; [|by exists 0%nat, a, b].
  destruct (IH k H) as (i & x & y & ?). by exists (S i), x, y.
Qed.

(** Two masks with a common bit have a common valid type. *)
Lemma forallb2_land_common f g :
  filter_wf f → filter_wf g →
  forallb2 (λ cat o, Z.land cat o =? 0) f.(_mask) g.(_mask) = false →
  ∃ t, valid_type t ∧ allows f t = Some true ∧ allows g t = Some true.
Proof.
  intros [Hlf Hf] [Hlg Hg] (i & a & b & Ha & Hb & Hz%Z.eqb_neq)%forallb2_false.
  pose proof (Forall_lookup_1 _ _ _ _ Hf Ha) as Hua.
  pose proof (Forall_lookup_1 _ _ _ _ Hg Hb) as Hub.
  pose proof (land_u64 a b Hua Hub) as [Hl1 Hl2].
  set (e := Z.log2 (Z.land a b)).
  assert (0 ≤ e < 64) as He.
  { split; [apply Z.log2_nonneg|]. apply Z.log2_lt_pow2; lia. }
  assert (Z.testbit (Z.land a b) e = true) as Hbit by (apply Z.bit_log2; lia).
  rewrite Z.land_spec in Hbit. apply andb_true_iff in Hbit as [Hba Hbb].
  destruct (mk_type_spec i e) as (Hv & Hidx & Hel); [|done|].
  { rewrite <- Hlf. by eapply lookup_lt_Some. }
  exists (mk_type i e).
  split; [done|]. erewrite !allows_testbit by done. by rewrite Hel, Hba, Hbb.
Qed.

Lemma eqb_bits a b : u64 a → u64 b →
  (a =? b) = true ↔ ∀ e, 0 ≤ e < 64 → Z.testbit a e = Z.testbit b e.
Proof.
  intros Ha Hb. rewrite Z.eqb_eq. split; [by intros ->|]. by apply bits_inj_low.
Qed.

Lemma allows_filter_all t : valid_type t → allows filter_all t = Some true.
Proof.
  intros Ht. pose proof Ht as (_ & [i Hi] & He).
  erewrite allows_testbit; [|done|done|].
  2:{ apply (lookup_replicate_2 max_filter_category). by eapply mask_index_lt. }
  by rewrite testbit_all_events by auto using element_nonneg.
Qed.

Lemma allows_all_forallb2 f :
  filter_wf f → allows_all f = forallb2 Z.eqb f.(_mask) filter_all.(_mask).
Proof.
  intros [Hlen _]. unfold allows_all, filter_all. cbn [_mask]. revert Hlen.
  generalize max_filter_category as n. generalize (_mask f) as l.
  induction l as [|a l IH]; intros [|n] Hlen; simplify_eq/=; [done..|].
  rewrite (IH (length l)) by done. by destruct (a =? all_events).
Qed.

Lemma op_eq_spec f g : filter_wf f → filter_wf g → op_eq f g = true ↔ f = g.
Proof.
  intros [Hlf _] [Hlg _]. destruct f as [l], g as [k]. unfold op_eq. cbn [_mask] in *.
  rewrite forallb2_spec by congruence. split; [|intros [= ->]; intros; simplify_eq; apply Z.eqb_refl].
  intros H. f_equal. apply (list_eq_same_length _ _ (length l)); [congruence|done|].
  intros i a b Hi Ha Hb. by apply Z.eqb_eq, (H i).
Qed.

(** The tests of the class decide the relations between the sets: [is_in]
    is inclusion, [contains_some_of] is a common type, [operator==] is
    extensional equality, [allows_all] is the full set. *)
Theorem filter_tests_decide f g :
  filter_wf f → filter_wf g →
  (is_in f g = true ↔ ∀ t, valid_type t → permits f t → permits g t) ∧
  (contains_some_of f g = true ↔ ∃ t, valid_type t ∧ permits f t ∧ permits g t) ∧
  (op_eq f g = true ↔ ∀ t, valid_type t → (permits f t ↔ permits g t)) ∧
  (op_eq f g = true ↔ f = g) ∧
  (allows_all f = true ↔ ∀ t, valid_type t → permits f t).
Proof.
  intros Hf Hg.
  assert (∀ t, valid_type t → ∃ a b, allows f t = Some a ∧ allows g t = Some b) as Htot.
  { intros t Ht. destruct (allows_total f t), (allows_total g t); eauto. }
  split_and!.
  - unfold is_in. rewrite (forallb2_types _ (λ a b, a = true → b = true)); auto using land_eq_l.
    unfold permits. split.
    + intros H t Ht. destruct (Htot t Ht) as (a & b & Ha & Hb). rewrite Ha, Hb.
      intros [= ->]. f_equal. by eapply H.
    + intros H t a b Ht Ha Hb ->. specialize (H t Ht Ha). congruence.
  - unfold contains_some_of. rewrite negb_true_iff. unfold permits. split.
    + intros H. by apply forallb2_land_common.
    + intros (t & Ht & Ha & Hb). apply not_true_iff_false. intros H.
      rewrite (forallb2_types _ (λ a b, ¬ (a = true ∧ b = true))) in H; auto using land_eq_0.
      by apply (H t true true).
  - unfold op_eq. rewrite (forallb2_types _ eq); auto using eqb_bits. unfold permits. split.
    + intros H t Ht. destruct (Htot t Ht) as (a & b & Ha & Hb). rewrite Ha, Hb.
      by rewrite (H t a b).
    + intros H t a b Ht Ha Hb. specialize (H t Ht). rewrite Ha, Hb in H.
      destruct a, b; naive_solver.
  - by apply op_eq_spec.
  - rewrite allows_all_forallb2 by done.
    rewrite (forallb2_types _ eq); auto using eqb_bits, filter_all_wf. unfold permits. split.
    + intros H t Ht. destruct (Htot t Ht) as (a & b & Ha & Hb). rewrite Ha.
      by rewrite (H t a true) by auto using allows_filter_all.
    + intros H t a b Ht Ha Hb. rewrite allows_filter_all in Hb by done. rewrite H in Ha by done.
      congruence.
Qed.

(** Witnesses: neb types 1 and 2 as filters. *)
Definition neb_elem (e : Z) : Z := make_type (data_category_val neb) e.
Definition neb_filter (es : list Z) : muxer_filter := default zero_init (of_types (neb_elem <$> es)).

Lemma neb_filter_wf : filter_wf (neb_filter [1; 2]) ∧ filter_wf (neb_filter [2; 3]).
Proof.
  assert (∀ f, length f.(_mask) = max_filter_category → forallb (λ m, (0 <=? m) && (m <? 2 ^ 64)) f.(_mask) = true →
    filter_wf f) as H; [|by split; apply H; vm_compute].
  intros f Hl Hb. split; [done|]. apply Forall_forall. intros m Hm.
  rewrite forallb_forall in Hb. apply list_elem_of_In in Hm. specialize (Hb m Hm).
  unfold u64. lia.
Qed.

Lemma filter_ops_wf_witness :
  filter_wf (op_sub (neb_filter [1; 2]) (neb_filter [2; 3])).
Proof.
  destruct neb_filter_wf as [H1 H2].
  by destruct (filter_ops_wf (neb_filter [1; 2]) (neb_filter [2; 3]) 1 H1 H2)
    as (_ & _ & _ & _ & H & _).
Defined.

Lemma filter_set_algebra_witness :
  permits (op_sub (neb_filter [1; 2]) (neb_filter [2; 3])) (neb_elem 1) ∧
  valid_type (neb_elem 1).
Proof.
  destruct neb_filter_wf as [H1 H2].
  assert (valid_type (neb_elem 1)) as Hv by (apply (bool_decide_unpack _); vm_compute; exact I).
  split; [|done].
  apply (filter_set_algebra (neb_filter [1; 2]) (neb_filter [2; 3]) (neb_elem 1) H1 H2 Hv).
  split; [reflexivity|]. intros H. vm_compute in H. discriminate H.
Defined.

Lemma filter_tests_decide_witness :
  ∃ t, valid_type t ∧ permits (neb_filter [1; 2]) t ∧ permits (neb_filter [2; 3]) t.
Proof.
  destruct neb_filter_wf as [H1 H2].
  apply (filter_tests_decide (neb_filter [1; 2]) (neb_filter [2; 3]) H1 H2).
  vm_compute. reflexivity.
Defined.
