(* ===== verification/PFile.v ===== *)
(** * What the multiplexing layer asks of a persistent file

    [multiplexing::muxer] and [multiplexing::engine] store events through
    [persistent_file] ([broker/core/src/persistent_file.cc]): an object opened
    on a path, read until it throws [exceptions::shutdown], written at its end.
    The class states the operations, the laws state the contract the clients
    rely on: a first-in first-out queue of events that survives its object. *)

From S2P Require Import Prelude.

(** [D] is the state of one path: what is on disk and the object open on it. *)
Class PFile (D E : Type) := {
  (** [std::make_unique<persistent_file>(path)] *)
  pf_open : St D unit;
  (** [read(d)]: an event, or null when none could be built yet *)
  pf_read : St D (option E);
  (** [write(d)] *)
  pf_write : E → St D unit;
  (** the destructor, run by [unique_ptr::reset] *)
  pf_close : D → D;
}.

Class PFileLaws (D E : Type) `{!PFile D E} := {
  pf_opened : D → Prop;
  pf_closed : D → Prop;
  contents : D → list E;
  (** how many null reads can precede the next event *)
  lag : D → nat;
  lag_max : nat;
  lag_bound d : (lag d ≤ lag_max)%nat;
  pf_open_spec d : pf_closed d →
    ∃ d', pf_open d = (Ret tt, d') ∧ pf_opened d' ∧ contents d' = contents d;
  pf_read_spec d : pf_opened d →
    match pf_read d with
    | (Ret (Some e), d') => pf_opened d' ∧ contents d = e :: contents d'
    | (Ret None, d') => pf_opened d' ∧ contents d' = contents d ∧ (lag d' < lag d)%nat
    | (Throw shutdown, d') =>
        contents d = [] ∧ pf_closed (pf_close d') ∧ contents (pf_close d') = []
    | (Throw _, _) => False
    end;
  pf_write_spec d e : pf_opened d →
    ∃ d', pf_write e d = (Ret tt, d') ∧ pf_opened d' ∧ contents d' = contents d ++ [e];
  pf_close_spec d : pf_opened d → pf_closed (pf_close d) ∧ contents (pf_close d) = contents d;
}.

Section Reads.
Context {D E : Type} `{!PFile D E}.

(** [do { file->read(event); } while (!event);] *)
Fixpoint pf_read_loop (fuel : nat) : St D (option E) :=
  match fuel with
  | O => st_throw fuel_exhausted
  | S fuel =>
      e ← pf_read;
      match e with
      | Some x => mret (Some x)
      | None => pf_read_loop fuel
      end
  end.

Context `{!PFileLaws D E}.

Lemma pf_read_loop_spec fuel d :
  pf_opened d → (lag_max < fuel)%nat →
  match contents d with
  | [] => ∃ d', pf_read_loop fuel d = (Throw shutdown, d') ∧
                pf_closed (pf_close d') ∧ contents (pf_close d') = []
  | e :: l => ∃ d', pf_read_loop fuel d = (Ret (Some e), d') ∧ pf_opened d' ∧ contents d' = l
  end.
Proof.
  intros Ho Hf. assert (lag d < fuel)%nat as Hl by (pose proof (lag_bound d); lia).
  clear Hf. revert d Ho Hl. induction fuel as [|fuel IH]; intros d Ho Hl; [lia|].
  simpl. unfold mbind, st_bind. pose proof (pf_read_spec d Ho) as Hr.
  destruct (pf_read d) as [[[e|]|[]] d'] eqn:Hd; try done.
  - destruct Hr as [? Hc]. rewrite Hc. by eexists.
  - destruct Hr as (Ho' & Hc & ?). rewrite <- Hc. apply IH; [done|lia].
  - destruct Hr as (Hc & ? & ?). rewrite Hc. by eexists.
Qed.
End Reads.

(** ** A file kept in memory

    The smallest implementation of the contract: the witnesses of the client's
    theorems run on it. *)
Record mem_file (E : Type) := MemFile { mf_open : bool; mf_data : list E }.
Arguments MemFile {E} _ _.
Arguments mf_open {E} _.
Arguments mf_data {E} _.

#[export] Instance mem_pfile {E} : PFile (mem_file E) E := {|
  pf_open := λ d, (Ret tt, MemFile true d.(mf_data));
  pf_read := λ d, match d.(mf_data) with
                  | [] => (Throw shutdown, d)
                  | e :: l => (Ret (Some e), MemFile true l)
                  end;
  pf_write := λ e d, (Ret tt, MemFile true (d.(mf_data) ++ [e]));
  pf_close := λ d, MemFile false d.(mf_data);
|}.

#[export, program] Instance mem_pfile_laws {E} : PFileLaws (mem_file E) E := {|
  pf_opened d := d.(mf_open) = true;
  pf_closed d := d.(mf_open) = false;
  contents := mf_data;
  lag _ := 0%nat;
  lag_max := 0%nat;
|}.
Next Obligation. done. Qed.
Next Obligation. intros E d _. by eexists. Qed.
Next Obligation. intros E [o [|e l]] Ho; simpl in *; done. Qed.
Next Obligation. intros E d e _. by eexists. Qed.
Next Obligation. done. Qed.
