(* ===== verification/Muxer.v ===== *)
(** * The muxer: one subscriber's event queue

    [broker/core/multiplexing/src/muxer.cc].  Events published by the engine
    wait in a list; the reader walks the list with [_pos] and acknowledges from
    its front; when the list is full, events go to the queue file, and come back
    when acknowledgements free room.  The mutex is [_events_m]: each operation is
    one critical section, except [publish], which is [publish_queue_phase] then
    [publish_file_phase], and the posted [reader_task], which calls the others.
    The interleavings of threads are the sequences of these steps. *)

From S2P Require Import Prelude EventFilter PFile.

(** ** [std::list] iterators

    [None] is [end()], [Some i] the element of index [i].  An iterator at
    [end()] stays at [end()] when an element is appended. *)
Definition iter := option nat.

Definition it_begin {E} (l : list E) : iter :=
  match l with [] => None | _ => Some 0%nat end.
Definition it_last {E} (l : list E) : iter :=
  match l with [] => None | _ => Some (length l - 1)%nat end.
Definition it_next {E} (l : list E) (p : iter) : iter :=
  match p with
  | Some i => if (S i <? length l)%nat then Some (S i) else None
  | None => None
  end.
(** What [pop_front] does to an iterator that is not [begin()]. *)
Definition it_pop (p : iter) : iter := pred <$> p.

(** [std::distance(begin, it)] *)
Definition it_index {E} (l : list E) (p : iter) : nat :=
  match p with Some i => i | None => length l end.

Lemma it_last_snoc {E} (l : list E) e : it_last (l ++ [e]) = Some (length l).
Proof. destruct l; simpl; [done|]. rewrite length_app. simpl. do 2 f_equal. lia. Qed.

Section Muxer.
Context {E D : Type} `{!PFile D E}.
Context (etype : E → Z).

Record muxer := Mux {
  _read_filter : muxer_filter;
  _write_filter : muxer_filter;
  _persistent : bool;
  _data_handler : option (list E → nat);
  _reader_running : bool;
  (** reader tasks posted on the thread pool and not yet run *)
  _posted : nat;
  _events : list E;
  _events_size : Z;
  _pos : iter;
  (** [_file] is set; its path is [queue_disk] *)
  _file : bool;
  queue_disk : D;
  memory_disk : D;
}.

Definition set_queue (l : list E) (sz : Z) (p : iter) (m : muxer) : muxer :=
  Mux m.(_read_filter) m.(_write_filter) m.(_persistent) m.(_data_handler)
    m.(_reader_running) m.(_posted) l sz p m.(_file) m.(queue_disk) m.(memory_disk).
Definition set_file (b : bool) (d : D) (m : muxer) : muxer :=
  Mux m.(_read_filter) m.(_write_filter) m.(_persistent) m.(_data_handler)
    m.(_reader_running) m.(_posted) m.(_events) m.(_events_size) m.(_pos) b d m.(memory_disk).
Definition set_memory (d : D) (m : muxer) : muxer :=
  Mux m.(_read_filter) m.(_write_filter) m.(_persistent) m.(_data_handler)
    m.(_reader_running) m.(_posted) m.(_events) m.(_events_size) m.(_pos) m.(_file)
    m.(queue_disk) d.
Definition set_reader (h : option (list E → nat)) (r : bool) (n : nat) (m : muxer) : muxer :=
  Mux m.(_read_filter) m.(_write_filter) m.(_persistent) h r n
    m.(_events) m.(_events_size) m.(_pos) m.(_file) m.(queue_disk) m.(memory_disk).

Definition set_read_filter (f : muxer_filter) (m : muxer) : muxer :=
  Mux f m.(_write_filter) m.(_persistent) m.(_data_handler)
    m.(_reader_running) m.(_posted) m.(_events) m.(_events_size) m.(_pos) m.(_file)
    m.(queue_disk) m.(memory_disk).
Definition set_write_filter (f : muxer_filter) (m : muxer) : muxer :=
  Mux m.(_read_filter) f m.(_persistent) m.(_data_handler)
    m.(_reader_running) m.(_posted) m.(_events) m.(_events_size) m.(_pos) m.(_file)
    m.(queue_disk) m.(memory_disk).

(** [event_queue_max_size(max)]: the value the static member takes. *)
Definition event_queue_max_size (max : Z) : Z := if max =? 0 then u32_max else max.

(** [filter.allows(event->type())]; an event whose category fails the assert
    is not let through. *)
Definition allowsb (f : muxer_filter) (e : E) : bool := default false (allows f (etype e)).

(** The static [_event_queue_max_size]. *)
Context (max_size : Z).

Definition _push_to_queue (event : E) (m : muxer) : muxer :=
  let pos_has_no_more_to_read := bool_decide (m.(_pos) = None) in
  let l := m.(_events) ++ [event] in
  set_queue l (m.(_events_size) + 1)
    (if pos_has_no_more_to_read then it_last l else m.(_pos)) m.

Definition _get_event_from_file (fuel : nat) : St muxer (option E) := λ m,
  if m.(_file) then
    match pf_read_loop fuel m.(queue_disk) with
    | (Ret e, d) => (Ret e, set_file true d m)
    | (Throw shutdown, d) => (Ret None, set_file false (pf_close d) m)
    | (Throw x, d) => (Throw x, set_file true d m)
    end
  else (Ret None, m).

(** The loop of [ack_events] that removes acknowledged events. *)
Fixpoint ack_loop (count : nat) (m : muxer) : muxer :=
  match count, m.(_events) with
  | S count, _ :: l =>
      if bool_decide (it_begin m.(_events) = m.(_pos)) then m
      else ack_loop count (set_queue l (m.(_events_size) - 1) (it_pop m.(_pos)) m)
  | _, _ => m
  end.

(** Its second loop: [while (_events_size < event_queue_max_size())]. *)
Fixpoint refill (fuel : nat) (loops : nat) : St muxer unit := λ m,
  if m.(_events_size) <? max_size then
    match loops with
    | O => (Throw fuel_exhausted, m)
    | S loops =>
        match _get_event_from_file fuel m with
        | (Ret (Some e), m') => refill fuel loops (_push_to_queue e m')
        | (Ret None, m') => (Ret tt, m')
        | (Throw x, m') => (Throw x, m')
        end
    end
  else (Ret tt, m).

Definition ack_events (fuel : nat) (count : Z) : St muxer unit := λ m,
  if count =? 0 then (Ret tt, m)
  else refill fuel fuel (ack_loop (Z.to_nat count) m).

Definition _execute_reader_if_needed (m : muxer) : muxer :=
  if m.(_reader_running) then m
  else set_reader m.(_data_handler) true (S m.(_posted)) m.

(** [read(to_fill, max_to_read)] *)
Fixpoint read_bulk (max_to_read : nat) (m : muxer) : list E * muxer :=
  match max_to_read, m.(_pos) ≫= (m.(_events) !!.) with
  | S n, Some e =>
      let '(l, m') := read_bulk n
        (set_queue m.(_events) m.(_events_size) (it_next m.(_events) m.(_pos)) m) in
      (e :: l, m')
  | _, _ => ([], m)
  end.

(** [muxer::read(to_fill, n)] returns whether events are left to read. *)
Definition read_container (max_to_read : nat) (m : muxer) : bool * list E * muxer :=
  let '(l, m') := read_bulk max_to_read m in
  (negb (bool_decide (m'.(_pos) = None)), l, m').

(** The task [_execute_reader_if_needed] posts on the thread pool. *)
Definition reader_task (fuel : nat) : St muxer unit := λ m,
  let m := set_reader m.(_data_handler) m.(_reader_running) (pred m.(_posted)) m in
  match m.(_data_handler) with
  | None => (Ret tt, m)
  | Some on_events =>
      let '(to_fill, m) := read_bulk (Z.to_nat m.(_events_size)) m in
      let written := on_events to_fill in
      match (if (0 <? written)%nat then ack_events fuel (Z.of_nat written) m else (Ret tt, m)) with
      | (Ret _, m) =>
          let h := if (written =? length to_fill)%nat then m.(_data_handler) else None in
          (Ret tt, set_reader h false m.(_posted) m)
      | r => r
      end
  end.

(** [publish], first critical section: the events that fit in the queue.
    Result: an event was pushed, the events left, the muxer. *)
Fixpoint publish_loop (evt : list E) (pushed : bool) (m : muxer) : bool * list E * muxer :=
  match evt with
  | [] => (pushed, [], m)
  | event :: evt' =>
      if m.(_events_size) <? max_size then
        if allowsb m.(_write_filter) event
        then publish_loop evt' true (_push_to_queue event m)
        else publish_loop evt' pushed m
      else (pushed, evt, m)
  end.

Definition publish_queue_phase (evt : list E) (m : muxer) : bool * list E * muxer :=
  let '(pushed, evt', m') := publish_loop evt false m in
  (pushed, evt',
   if pushed || (max_size <=? m'.(_events_size)) then _execute_reader_if_needed m' else m').

(** [publish], second critical section: the rest goes to the queue file. *)
Fixpoint publish_file_phase (evt : list E) : St muxer unit := λ m,
  match evt with
  | [] => (Ret tt, m)
  | event :: evt' =>
      if allowsb m.(_write_filter) event then
        match (if m.(_file) then (Ret tt, m.(queue_disk)) else pf_open m.(queue_disk)) with
        | (Throw x, d) => (Throw x, set_file false d m)
        | (Ret _, d) =>
            match pf_write event d with
            | (Ret _, d') => publish_file_phase evt' (set_file true d' m)
            | (Throw fuel_exhausted, d') => (Throw fuel_exhausted, set_file true d' m)
            | (Throw _, d') => publish_file_phase evt' (set_file false (pf_close d') m)
            end
        end
      else publish_file_phase evt' m
  end.

(** [publish] when no other thread takes the mutex between its critical
    sections: after a pass that pushed something the loop retries. *)
Fixpoint publish (fuel : nat) (evt : list E) : St muxer unit := λ m,
  match evt, fuel with
  | [], _ => (Ret tt, m)
  | _, O => (Throw fuel_exhausted, m)
  | _, S fuel =>
      let '(pushed, evt', m') := publish_queue_phase evt m in
      match evt' with
      | [] => (Ret tt, m')
      | _ => if pushed then publish fuel evt' m' else publish_file_phase evt' m'
      end
  end.

(** [read(event, deadline)].  [deadline = -1] waits on the condition variable,
    a date waits until then, [0] does not wait; [during_wait] is what the other
    threads do to the muxer while the caller waits.  The boolean is the
    returned value: false when the call timed out. *)
Definition read (deadline : Z) (during_wait : muxer → muxer) (m : muxer)
    : bool * option E * muxer :=
  let take m := (m.(_pos) ≫= (m.(_events) !!.),
    set_queue m.(_events) m.(_events_size) (it_next m.(_events) m.(_pos)) m) in
  match m.(_pos) with
  | None =>
      let m' := if deadline =? 0 then m else during_wait m in
      match m'.(_pos) with
      | Some _ => let '(e, m'') := take m' in (true, e, m'')
      | None => (negb (deadline =? 0), None, m')
      end
  | Some _ => let '(e, m') := take m in (true, e, m')
  end.

Definition nack_events (m : muxer) : muxer :=
  set_queue m.(_events) m.(_events_size) (it_begin m.(_events)) m.

Definition get_event_queue_size (m : muxer) : Z := m.(_events_size).

(** The [unacknowledged_events] value of [statistics]. *)
Definition unacknowledged_events (m : muxer) : nat := it_index m.(_events) m.(_pos).

Definition set_action_on_new_data (h : list E → nat) (m : muxer) : muxer :=
  set_reader (Some h) m.(_reader_running) m.(_posted) m.
Definition clear_action_on_new_data (m : muxer) : muxer :=
  set_reader None m.(_reader_running) m.(_posted) m.

(** [write(d)]: the events handed to [_engine->publish]; it returns 1. *)
Definition write (d : option E) (m : muxer) : Z * list E :=
  match d with
  | None => (1, [])
  | Some d => (1, if allowsb m.(_read_filter) d then [d] else [])
  end.

(** [write(to_publish)]: the deque after the call, handed to the engine when it
    is not empty. *)
Fixpoint write_bulk (to_publish : list E) (m : muxer) : list E :=
  match to_publish with
  | [] => []
  | d :: l => if allowsb m.(_read_filter) d then d :: write_bulk l m else write_bulk l m
  end.

(** The loop of [_clean] that backs the queue up in the memory file. *)
Fixpoint clean_loop (l : list E) : St D unit :=
  match l with
  | [] => mret tt
  | e :: l => pf_write e ≫= λ _, clean_loop l
  end.

(** [_clean]: an exception of the backup is caught, what was not written is
    dropped; [mf] is destroyed at the end of the block in both cases. *)
Definition _clean (m : muxer) : muxer :=
  let m := set_file false (if m.(_file) then pf_close m.(queue_disk) else m.(queue_disk)) m in
  let m :=
    if m.(_persistent) && negb (bool_decide (m.(_events) = [])) then
      match pf_open m.(memory_disk) with
      | (Ret _, d) => set_memory (pf_close (clean_loop m.(_events) d).2) m
      | (Throw _, d) => set_memory d m
      end
    else m in
  set_queue [] 0 (it_begin (@nil E)) m.

(** The first loop of the constructor: [for (;;) mf->read(e, 0)], left by the
    [shutdown] exception. *)
Fixpoint load_memory (fuel : nat) (l : list E) : St D (list E) := λ d,
  match fuel with
  | O => (Throw fuel_exhausted, d)
  | S fuel =>
      match pf_read d with
      | (Ret (Some e), d') => load_memory fuel (l ++ [e]) d'
      | (Ret None, d') => load_memory fuel l d'
      | (Throw shutdown, d') => (Ret l, d')
      | (Throw x, d') => (Throw x, d')
      end
  end.

(** Its second loop: a plain [push_back], unlike [_push_to_queue]. *)
Fixpoint load_queue (fuel : nat) (loops : nat) : St muxer unit := λ m,
  match loops with
  | O => (Throw fuel_exhausted, m)
  | S loops =>
      match _get_event_from_file fuel m with
      | (Ret (Some e), m') =>
          let m'' := set_queue (m'.(_events) ++ [e]) (m'.(_events_size) + 1) m'.(_pos) m' in
          if m''.(_events_size) <? max_size then load_queue fuel loops m'' else (Ret tt, m'')
      | (Ret None, m') => (Ret tt, m')
      | (Throw x, m') => (Throw x, m')
      end
  end.

(** The constructor; the destructor of [mf] runs when its block is left. *)
Definition ctor (fuel : nat) (r_filter w_filter : muxer_filter) (persistent : bool)
    (qd md : D) : res unit * muxer :=
  let m0 := Mux r_filter w_filter persistent None false 0 [] 0 None false qd md in
  let loaded : res (list E) * D :=
    if persistent then
      match pf_open md with
      | (Ret _, d) => let '(r, d') := load_memory fuel [] d in (r, pf_close d')
      | (Throw shutdown, d) => (Ret [], d)
      | (Throw x, d) => (Throw x, d)
      end
    else (Ret [], md) in
  match loaded with
  | (Throw x, d) => (Throw x, set_memory d m0)
  | (Ret l, d) =>
      let m1 := set_memory d (set_queue l (Z.of_nat (length l)) (it_begin l) m0) in
      match pf_open qd with
      | (Throw shutdown, q) => (Ret tt, set_file false q m1)
      | (Throw x, q) => (Throw x, set_file false q m1)
      | (Ret _, q) => load_queue fuel fuel (set_file true q m1)
      end
  end.
End Muxer.

#[global] Arguments muxer : clear implicits.

(** ** The abstract queue

    What a subscriber is promised: a list of events, oldest first, and a cursor
    in it.  Publishing appends, reading moves the cursor, acknowledging drops
    events before the cursor, a negative acknowledgement moves the cursor back
    to the oldest event. *)
Section Laws.
Context {E D : Type} `{!PFile D E, !PFileLaws D E}.
Context (etype : E → Z) (max_size : Z).
Implicit Types m : muxer E D.

Definition cursor m : nat := it_index m.(_events) m.(_pos).
(** The events in memory, then those of the queue file. *)
Definition logical m : list E := m.(_events) ++ contents m.(queue_disk).

Definition mem_inv m : Prop :=
  m.(_events_size) = Z.of_nat (length m.(_events)) ∧
  match m.(_pos) with Some i => (i < length m.(_events))%nat | None => True end.
Definition file_inv m : Prop :=
  if m.(_file) then pf_opened m.(queue_disk)
  else pf_closed m.(queue_disk) ∧ contents m.(queue_disk) = [].
(** Events wait in the file only while the queue in memory is full: this is
    what keeps the order. *)
Definition order_inv m : Prop :=
  contents m.(queue_disk) ≠ [] → max_size ≤ m.(_events_size).
Definition mux_inv m : Prop := mem_inv m ∧ file_inv m ∧ order_inv m.

Lemma cursor_le m : mem_inv m → (cursor m ≤ length m.(_events))%nat.
Proof. intros [_ Hp]. unfold cursor, it_index. destruct (_pos m); lia. Qed.

Lemma push_spec e m :
  mem_inv m →
  let m' := _push_to_queue e m in
  m'.(_events) = m.(_events) ++ [e] ∧ mem_inv m' ∧ cursor m' = cursor m.
Proof.
  intros [Hs Hp]. simpl. split; [done|]. split.
  - split; simpl; [rewrite length_app; simpl; lia|]. rewrite !length_app.
    destruct (_pos m) as [i|]; simpl; [lia|]. rewrite it_last_snoc. lia.
  - unfold cursor, it_index; simpl. destruct (_pos m) as [i|]; simpl; [done|].
    by rewrite it_last_snoc.
Qed.

Lemma get_event_spec fuel m :
  file_inv m → (lag_max < fuel)%nat →
  match contents m.(queue_disk) with
  | [] => ∃ b d, _get_event_from_file fuel m = (Ret None, set_file b d m) ∧
                 contents d = [] ∧ file_inv (set_file b d m)
  | e :: l => ∃ d, _get_event_from_file fuel m = (Ret (Some e), set_file true d m) ∧
                   contents d = l ∧ file_inv (set_file true d m)
  end.
Proof.
  unfold file_inv, _get_event_from_file. intros Hf Hl.
  destruct (_file m) eqn:Hfile.
  - pose proof (pf_read_loop_spec fuel _ Hf Hl) as Hr.
    destruct (contents (queue_disk m)) as [|e l]; destruct Hr as (d & -> & ? & ?);
      [exists false, (pf_close d)|exists d]; done.
  - destruct Hf as [? Hc]. rewrite Hc. exists false, (queue_disk m).
    destruct m; simpl in *. by subst.
Qed.

Lemma refill_spec fuel loops m :
  mem_inv m → file_inv m → (lag_max < fuel)%nat →
  (length (contents m.(queue_disk)) < loops)%nat →
  ∃ m', refill max_size fuel loops m = (Ret tt, m') ∧ mux_inv m' ∧
        logical m' = logical m ∧ cursor m' = cursor m.
Proof.
  intros Hm Hf Hfuel. revert m Hm Hf.
  induction loops as [|loops IH]; intros m Hm Hf Hl; [lia|]. simpl.
  destruct (Z.ltb_spec (_events_size m) max_size) as [Hlt|Hge].
  2:{ exists m. split; [done|]. split; [|done]. repeat split; try apply Hm; [done|]. by intros _. }
  pose proof (get_event_spec fuel m Hf Hfuel) as Hg.
  destruct (contents (queue_disk m)) as [|e l] eqn:Hc.
  - destruct Hg as (b & d & -> & Hd & Hf'). exists (set_file b d m).
    split; [done|]. split; [|by unfold logical; simpl; rewrite Hd, Hc].
    split; [done|]. split; [done|]. by intros [].
  - destruct Hg as (d & -> & Hd & Hf').
    destruct (push_spec e (set_file true d m)) as (He & Hm' & Hcur); [done|].
    destruct (IH (_push_to_queue e (set_file true d m))) as (m' & -> & Hinv & Hlog & Hcur');
      [done..|simpl in *; rewrite Hd; lia|].
    exists m'. split_and!; [done|done| |by rewrite Hcur', Hcur].
    rewrite Hlog. unfold logical. rewrite He, Hc. simpl. by rewrite Hd, <- app_assoc.
Qed.

Lemma ack_loop_spec count m :
  mem_inv m →
  let k := (count `min` cursor m)%nat in
  let m' := ack_loop count m in
  m'.(_events) = drop k m.(_events) ∧ mem_inv m' ∧ cursor m' = (cursor m - k)%nat ∧
  m'.(queue_disk) = m.(queue_disk) ∧ m'.(_file) = m.(_file).
Proof.
  revert m. induction count as [|count IH]; intros m Hm; cbv zeta; cbn [ack_loop].
  { rewrite Nat.min_0_l. split_and!; try done; [apply Hm..|lia]. }
  destruct (_events m) as [|e l] eqn:He; [|].
  { pose proof (cursor_le m Hm) as Hc. rewrite He in Hc. simpl in Hc.
    rewrite He, drop_nil. split_and!; try done; [apply Hm..|lia]. }
  case_bool_decide as Hb; simpl in Hb.
  - assert (cursor m = 0%nat) as Hc by (unfold cursor; by rewrite <- Hb).
    rewrite Hc, Nat.min_0_r, He. split_and!; done || apply Hm.
  - assert (0 < cursor m)%nat as Hpos.
    { unfold cursor, it_index. destruct (_pos m) as [[|i]|]; [done|lia|rewrite He; simpl; lia]. }
    set (m1 := set_queue l (_events_size m - 1) (it_pop (_pos m)) m).
    assert (mem_inv m1) as Hm1.
    { destruct Hm as [Hs Hp]. split; simpl; [rewrite Hs, He; simpl; lia|].
      rewrite He in Hp. destruct (_pos m) as [i|]; simpl in *; [|done].
      destruct i; [done|lia]. }
    assert (cursor m1 = cursor m - 1)%nat as Hc1.
    { unfold cursor, it_index; simpl. destruct (_pos m) as [i|]; simpl; [lia|].
      rewrite He. simpl. lia. }
    destruct (IH m1 Hm1) as (H1 & H2 & H3 & H4 & H5).
    rewrite H1, H3, H4, H5, Hc1.
    replace (S count `min` cursor m)%nat with (S (count `min` (cursor m - 1)))%nat by lia.
    split_and!; try done. lia.
Qed.

Lemma ack_events_spec fuel count m :
  mux_inv m → (lag_max < fuel)%nat → (length (contents m.(queue_disk)) < fuel)%nat →
  ∃ m', ack_events max_size fuel count m = (Ret tt, m') ∧ mux_inv m' ∧
        logical m' = drop (Z.to_nat count `min` cursor m) (logical m) ∧
        cursor m' = (cursor m - Z.to_nat count)%nat.
Proof.
  intros (Hm & Hf & Ho) Hlag Hlen. unfold ack_events.
  destruct (Z.eqb_spec count 0) as [->|Hne].
  { exists m. rewrite Nat.min_0_l. split_and!; [done|by split_and!|done|simpl; lia]. }
  destruct (ack_loop_spec (Z.to_nat count) m Hm) as (H1 & H2 & H3 & H4 & H5).
  destruct (refill_spec fuel fuel (ack_loop (Z.to_nat count) m)) as (m' & -> & ? & Hl & Hc);
    [done|unfold file_inv; by rewrite H4, H5|done|by rewrite H4|].
  exists m'. split_and!; [done|done| |rewrite Hc, H3; lia].
  rewrite Hl. unfold logical. rewrite H1, H4, drop_app_le; [done|].
  pose proof (cursor_le m Hm). lia.
Qed.

(** The events of a batch the write filter lets through. *)
Definition accepted m (evt : list E) : list E :=
  filter (λ e, allowsb etype m.(_write_filter) e = true) evt.

Lemma publish_loop_spec evt pushed m :
  mux_inv m →
  let '(pushed', evt', m') := publish_loop etype max_size evt pushed m in
  mux_inv m' ∧ logical m' ++ accepted m evt' = logical m ++ accepted m evt ∧
  cursor m' = cursor m ∧ m'.(_write_filter) = m.(_write_filter) ∧
  (evt' = [] ∨ max_size ≤ m'.(_events_size)).
Proof.
  revert pushed m. induction evt as [|e evt IH]; intros pushed m Hinv; simpl.
  { split_and!; auto; apply Hinv. }
  destruct (Z.ltb_spec (_events_size m) max_size) as [Hlt|Hge].
  2:{ split_and!; auto; apply Hinv. }
  unfold accepted. rewrite filter_cons.
  destruct (allowsb etype (_write_filter m) e) eqn:Ha.
  - rewrite decide_True by done. destruct Hinv as (Hm & Hf & Ho).
    assert (contents (queue_disk m) = []) as Hc.
    { destruct (contents (queue_disk m)) eqn:Hc; [done|]. unfold order_inv in Ho.
      rewrite Hc in Ho. specialize (Ho ltac:(done)). lia. }
    destruct (push_spec e m Hm) as (He & Hm' & Hcur).
    specialize (IH true (_push_to_queue e m)).
    destruct (publish_loop _ _ evt true _) as [[p' evt'] m'].
    destruct IH as (H1 & H2 & H3 & H4 & H5).
    { split; [done|]. split; [done|]. intros H. by destruct (H Hc). }
    split; [done|]. split; [|split; [congruence|done]].
    unfold accepted in H2. simpl in H2. rewrite H2. unfold logical. rewrite He. simpl.
    rewrite Hc, !app_nil_r, <- app_assoc. done.
  - rewrite decide_False by done. by apply IH.
Qed.

Lemma exec_reader_inv m : mux_inv m → mux_inv (_execute_reader_if_needed m).
Proof. unfold _execute_reader_if_needed. by destruct (_reader_running m). Qed.

Lemma exec_reader_same m :
  let m' := _execute_reader_if_needed m in
  logical m' = logical m ∧ cursor m' = cursor m ∧ m'.(_write_filter) = m.(_write_filter) ∧
  m'.(_events_size) = m.(_events_size).
Proof. unfold _execute_reader_if_needed. by destruct (_reader_running m). Qed.

Lemma queue_phase_spec evt m :
  mux_inv m →
  let '(pushed, evt', m') := publish_queue_phase etype max_size evt m in
  mux_inv m' ∧ logical m' ++ accepted m evt' = logical m ++ accepted m evt ∧
  cursor m' = cursor m ∧ m'.(_write_filter) = m.(_write_filter) ∧
  (evt' = [] ∨ max_size ≤ m'.(_events_size)).
Proof.
  intros Hinv. unfold publish_queue_phase.
  pose proof (publish_loop_spec evt false m Hinv) as H.
  destruct (publish_loop _ _ evt false m) as [[pushed evt'] m'].
  destruct H as (H1 & H2 & H3 & H4 & H5).
  destruct (exec_reader_same m') as (E1 & E2 & E3 & E4).
  destruct (_ || _); rewrite ?E1, ?E2, ?E3, ?E4; auto using exec_reader_inv.
Qed.

Lemma file_phase_spec evt m :
  mem_inv m → file_inv m → 
  ∃ b d, publish_file_phase etype evt m = (Ret tt, set_file b d m) ∧
    file_inv (set_file b d m) ∧ contents d = contents m.(queue_disk) ++ accepted m evt.
Proof.
  revert m. induction evt as [|e evt IH]; intros m Hm Hf; simpl.
  { exists (_file m), (queue_disk m). rewrite app_nil_r. by destruct m. }
  unfold accepted. rewrite filter_cons.
  destruct (allowsb etype (_write_filter m) e) eqn:Ha;
    [rewrite decide_True by done|rewrite decide_False by done; by apply IH].
  assert (∃ d, (if _file m then (Ret tt, queue_disk m) else pf_open (queue_disk m)) = (Ret tt, d) ∧
            pf_opened d ∧ contents d = contents (queue_disk m)) as (d & -> & Hd & Hc).
  { unfold file_inv in Hf. destruct (_file m); [by eauto|].
    destruct Hf as [Hcl _]. by apply pf_open_spec. }
  destruct (pf_write_spec d e Hd) as (d' & -> & Hd' & Hc').
  destruct (IH (set_file true d' m)) as (b & d'' & -> & Hf'' & Hc''); [done..|].
  exists b, d''. split_and!; [done|done|].
  rewrite Hc''. simpl. rewrite Hc', Hc, <- app_assoc. done.
Qed.

Lemma publish_spec evt m :
  mux_inv m →
  ∃ m', publish etype max_size 2 evt m = (Ret tt, m') ∧ mux_inv m' ∧
        logical m' = logical m ++ accepted m evt ∧ cursor m' = cursor m.
Proof.
  intros Hinv. destruct evt as [|e evt].
  { exists m. rewrite app_nil_r. by destruct Hinv. }
  generalize (e :: evt) as l. clear e evt. intros l.
  pose proof (queue_phase_spec l m Hinv) as H1. simpl.
  destruct l as [|e l]; [exists m; rewrite app_nil_r; by destruct Hinv|].
  destruct (publish_queue_phase _ _ (e :: l) m) as [[pushed evt'] m1].
  destruct H1 as (Hi1 & Hl1 & Hc1 & Hw1 & Hfull).
  destruct evt' as [|e' evt']; [exists m1; rewrite app_nil_r in Hl1; by split_and!|].
  destruct Hfull as [?|Hfull]; [done|].
  assert (∀ m2, mux_inv m2 → max_size ≤ m2.(_events_size) → logical m2 = logical m1 →
            cursor m2 = cursor m1 → m2.(_write_filter) = m1.(_write_filter) →
            ∃ m', publish_file_phase etype (e' :: evt') m2 = (Ret tt, m') ∧ mux_inv m' ∧
              logical m' = logical m ++ accepted m (e :: l) ∧ cursor m' = cursor m) as Hfile.
  { intros m2 (Hm2 & Hf2 & _) Hfull2 Hlog2 Hcur2 Hw2.
    destruct (file_phase_spec (e' :: evt') m2 Hm2 Hf2) as (b & d & -> & Hf' & Hc').
    eexists. split; [done|]. split; [split; [done|split; [done|by intros _]]|].
    split; [|by rewrite <- Hc1, <- Hcur2].
    unfold logical in *. simpl. rewrite Hc', app_assoc, Hlog2, <- Hl1.
    unfold accepted. by rewrite Hw2, Hw1. }
  destruct pushed; [|by apply Hfile].
  unfold publish_queue_phase. cbn [publish_loop].
  rewrite (proj2 (Z.ltb_ge _ _)) by done.
  rewrite (proj2 (Z.leb_le _ _)) by done. cbn [orb].
  destruct (exec_reader_same m1) as (E1 & E2 & E3 & E4).
  apply Hfile; auto using exec_reader_inv. by rewrite E4.
Qed.

Lemma it_next_index (l : list E) i :
  (i < length l)%nat → it_index l (it_next l (Some i)) = S i.
Proof. intros Hi. simpl. destruct (Nat.ltb_spec (S i) (length l)); simpl; lia. Qed.

Lemma it_next_ok (l : list E) p :
  match it_next l p with Some i => (i < length l)%nat | None => True end.
Proof. destruct p as [i|]; simpl; [|done]. by destruct (Nat.ltb_spec (S i) (length l)). Qed.

(** Moving [_pos] keeps the invariant. *)
Lemma set_pos_inv m p :
  mux_inv m → match p with Some i => (i < length m.(_events))%nat | None => True end →
  mux_inv (set_queue m.(_events) m.(_events_size) p m).
Proof. intros ([Hs _] & Hf & Ho) Hp. by repeat split. Qed.

(** A [read] that does not wait gives the event under the cursor, or nothing
    when every event in memory was read. *)
Lemma read_now_spec m :
  mux_inv m →
  ∃ b e m', read 0 id m = (b, e, m') ∧ mux_inv m' ∧ logical m' = logical m ∧
    b = bool_decide (is_Some e) ∧
    (if (cursor m <? length m.(_events))%nat
     then e = logical m !! cursor m ∧ is_Some e ∧ cursor m' = S (cursor m)
     else e = None ∧ m' = m).
Proof.
  intros Hinv. pose proof Hinv as ([Hs Hp] & _ & _). unfold read, cursor.
  destruct (_pos m) as [i|] eqn:Hpos; simpl.
  - destruct (lookup_lt_is_Some_2 (_events m) i Hp) as [e He].
    rewrite He. eexists _, _, _. split; [done|].
    split; [apply set_pos_inv; [done|apply (it_next_ok _ (Some i))]|].
    split; [done|]. split; [done|]. destruct (Nat.ltb_spec i (length (_events m))); [|lia].
    unfold logical. rewrite lookup_app_l by done. rewrite He.
    split; [done|]. split; [done|]. by apply it_next_index.
  - rewrite Hpos. eexists _, _, _. split; [done|]. split; [done|]. split; [done|].
    split; [done|]. rewrite Nat.ltb_irrefl. done.
Qed.

Lemma nack_spec m :
  mux_inv m →
  mux_inv (nack_events m) ∧ logical (nack_events m) = logical m ∧ cursor (nack_events m) = 0%nat.
Proof.
  intros Hinv. split; [apply set_pos_inv; [done|]; unfold it_begin; destruct (_events m); simpl; lia || done|].
  split; [done|]. unfold cursor, nack_events; simpl. by destruct (_events m).
Qed.

(** The bulk read: the next [n] events in memory, in order. *)
Lemma read_bulk_spec n m :
  mux_inv m →
  let '(l, m') := read_bulk n m in
  mux_inv m' ∧ logical m' = logical m ∧
  l = take n (drop (cursor m) m.(_events)) ∧ cursor m' = (cursor m + length l)%nat ∧
  m'.(_events) = m.(_events).
Proof.
  revert m. induction n as [|n IH]; intros m Hinv; simpl.
  { split; [done|]. split_and!; auto with lia. }
  pose proof Hinv as ([Hs Hp] & _ & _).
  destruct (_pos m) as [i|] eqn:Hpos; simpl.
  - destruct (lookup_lt_is_Some_2 (_events m) i Hp) as [e He]. rewrite He.
    set (m1 := set_queue _ _ _ m).
    assert (mux_inv m1) as Hinv1 by (apply set_pos_inv; [done|apply (it_next_ok _ (Some i))]).
    assert (cursor m1 = S i) as Hc1 by (by apply it_next_index).
    assert (cursor m = i) as Hc by (unfold cursor; by rewrite Hpos).
    specialize (IH m1 Hinv1). destruct (read_bulk n m1) as [l m'].
    destruct IH as (H1 & H2 & H3 & H4 & H5). rewrite Hc1 in *. rewrite Hc. simpl in *.
    split_and!; try done.
    + rewrite H3. by rewrite (drop_S _ e i).
    + simpl. lia.
  - assert (cursor m = length (_events m)) as Hc by (unfold cursor; by rewrite Hpos).
    rewrite Hc, drop_all. simpl. split_and!; auto with lia.
Qed.
End Laws.

(** ** The abstract queue as a machine *)

Record aqueue (E : Type) := AQ { aq_events : list E; aq_cursor : nat }.
Arguments AQ {E} _ _.
Arguments aq_events {E} _.
Arguments aq_cursor {E} _.

Inductive aop (E : Type) :=
  | APublish (accepted : list E)
  | ARead (got : option E)
  | AAck (count : nat)
  | ANack.
Arguments APublish {E} _.
Arguments ARead {E} _.
Arguments AAck {E} _.
Arguments ANack {E}.

(** A read gives the event under the cursor or nothing; an acknowledgement
    stops at the cursor. *)
Inductive astep {E} : aqueue E → aop E → aqueue E → Prop :=
  | astep_publish l c new : astep (AQ l c) (APublish new) (AQ (l ++ new) c)
  | astep_read l c e : l !! c = Some e → astep (AQ l c) (ARead (Some e)) (AQ l (S c))
  | astep_read_none l c : astep (AQ l c) (ARead None) (AQ l c)
  | astep_ack l c n : astep (AQ l c) (AAck n) (AQ (drop (n `min` c) l) (c - n))
  | astep_nack l c : astep (AQ l c) ANack (AQ l 0).

Section Refinement.
Context {E D : Type} `{!PFile D E, !PFileLaws D E}.
Context (etype : E → Z) (max_size : Z).
Implicit Types m : muxer E D.

Definition abs m : aqueue E := AQ (logical m) (cursor m).

End Refinement.

(** ** Interleavings

    A publisher thread runs [publish]; between its critical sections any other
    thread may read, acknowledge, or nack.  The engine runs one publisher per
    muxer at a time ([engine::_sending_to_subscribers]). *)
Section Interleaving.
Context {E D : Type} `{!PFile D E, !PFileLaws D E}.
Context (etype : E → Z) (max_size : Z).

(** Where the publisher thread is: out of [publish], at the head of its loop
    with the events left, or about to write them to the queue file. *)
Inductive pub_state := PIdle | PLoop (evt : list E) | PToFile (evt : list E).

Definition pub_pending (p : pub_state) : list E :=
  match p with PIdle => [] | PLoop evt | PToFile evt => evt end.

(** The muxer, its publisher, and the events acknowledged so far. *)
Record system := Sys { sys_mux : muxer E D; sys_pub : pub_state; sys_acked : list E }.

Definition after_queue_phase (pushed : bool) (evt : list E) : pub_state :=
  match evt with [] => PIdle | _ => if pushed then PLoop evt else PToFile evt end.

(** The label is what the engine published in that step. *)
Inductive step (fuel : nat) : system → list E → system → Prop :=
  | step_publish m acked evt :
      step fuel (Sys m PIdle acked) evt (Sys m (PLoop evt) acked)
  | step_queue_phase m evt acked pushed evt' m' :
      publish_queue_phase etype max_size evt m = (pushed, evt', m') →
      step fuel (Sys m (PLoop evt) acked) [] (Sys m' (after_queue_phase pushed evt') acked)
  | step_file_phase m evt acked m' :
      publish_file_phase etype evt m = (Ret tt, m') →
      step fuel (Sys m (PToFile evt) acked) [] (Sys m' PIdle acked)
  | step_read m p acked b e m' :
      read 0 id m = (b, e, m') → step fuel (Sys m p acked) [] (Sys m' p acked)
  | step_ack m p acked count m' :
      ack_events max_size fuel count m = (Ret tt, m') →
      step fuel (Sys m p acked) []
        (Sys m' p (acked ++ take (Z.to_nat count `min` cursor m) m.(_events)))
  | step_nack m p acked : step fuel (Sys m p acked) [] (Sys (nack_events m) p acked).

Inductive steps (fuel : nat) : system → list E → system → Prop :=
  | steps_nil s : steps fuel s [] s
  | steps_cons s1 l1 s2 l2 s3 :
      step fuel s1 l1 s2 → steps fuel s2 l2 s3 → steps fuel s1 (l1 ++ l2) s3.

(** The invariant every interleaving keeps: it does not order the file after
    the memory. *)
Definition weak_inv (m : muxer E D) : Prop := mem_inv m ∧ file_inv m.

(** Everything the muxer answers for: acknowledged, queued, or still in the
    hands of the publisher and let through by the write filter. *)
Definition ledger (s : system) : list E :=
  s.(sys_acked) ++ logical s.(sys_mux) ++ accepted etype s.(sys_mux) (pub_pending s.(sys_pub)).

Lemma refill_ret fuel loops m m' :
  weak_inv m → (lag_max < fuel)%nat → refill max_size fuel loops m = (Ret tt, m') →
  weak_inv m' ∧ logical m' = logical m ∧ cursor m' = cursor m ∧
  m'.(_write_filter) = m.(_write_filter).
Proof.
  intros [Hm Hf] Hlag. revert m Hm Hf.
  induction loops as [|loops IH]; intros m Hm Hf H; simpl in H;
    (destruct (Z.ltb_spec (_events_size m) max_size); [|injection H as <-; by repeat split; try apply Hm]);
    [discriminate|].
  pose proof (get_event_spec fuel m Hf Hlag) as Hg.
  destruct (contents (queue_disk m)) as [|e l] eqn:Hc.
  - destruct Hg as (b & d & Heq & Hd & Hf'). rewrite Heq in H. injection H as <-.
    split; [done|]. unfold logical. simpl. by rewrite Hd, Hc.
  - destruct Hg as (d & Heq & Hd & Hf'). rewrite Heq in H.
    destruct (push_spec e (set_file true d m)) as (He & Hm' & Hcur); [done|].
    destruct (IH _ Hm' Hf' H) as (Hw & Hl & Hcc & Hwf).
    split; [done|]. split; [|split; [by rewrite Hcc, Hcur|done]].
    rewrite Hl. unfold logical. rewrite He, Hc. simpl. by rewrite Hd, <- app_assoc.
Qed.

Lemma ack_ret fuel count m m' :
  weak_inv m → (lag_max < fuel)%nat → ack_events max_size fuel count m = (Ret tt, m') →
  weak_inv m' ∧ take (Z.to_nat count `min` cursor m) m.(_events) ++ logical m' = logical m ∧
  m'.(_write_filter) = m.(_write_filter).
Proof.
  intros [Hm Hf] Hlag. unfold ack_events.
  destruct (Z.eqb_spec count 0) as [->|Hne]; [by intros [= <-]|].
  destruct (ack_loop_spec (Z.to_nat count) m Hm) as (H1 & H2 & H3 & H4 & H5).
  intros (Hw & Hl & _ & Hwf)%refill_ret; [|by split; [|unfold file_inv; rewrite H4, H5]|done].
  split; [done|]. split.
  - rewrite Hl. unfold logical. by rewrite H1, H4, app_assoc, take_drop.
  - rewrite Hwf. clear. revert m. induction (Z.to_nat count) as [|n IH]; intros m; simpl; [done|].
    destruct (_events m); [done|]. case_bool_decide; [done|]. by rewrite IH.
Qed.

Lemma publish_loop_perm evt pushed m :
  weak_inv m →
  let '(pushed', evt', m') := publish_loop etype max_size evt pushed m in
  weak_inv m' ∧ logical m' ++ accepted etype m evt' ≡ₚ logical m ++ accepted etype m evt ∧
  m'.(_write_filter) = m.(_write_filter).
Proof.
  revert pushed m. induction evt as [|e evt IH]; intros pushed m [Hm Hf]; simpl.
  { by split_and!. }
  destruct (Z.ltb_spec (_events_size m) max_size) as [Hlt|Hge]; [|by split_and!].
  unfold accepted. rewrite filter_cons.
  destruct (allowsb etype (_write_filter m) e) eqn:Ha;
    [rewrite decide_True by done|rewrite decide_False by done; by apply IH].
  destruct (push_spec e m Hm) as (He & Hm' & _).
  specialize (IH true (_push_to_queue e m)).
  destruct (publish_loop _ _ evt true _) as [[p' evt'] m'].
  destruct IH as (H1 & H2 & H3); [done|].
  split; [done|]. split; [|done]. unfold accepted in H2. simpl in H2. rewrite H2.
  unfold logical. rewrite He. simpl. solve_Permutation.
Qed.

Lemma queue_phase_perm evt m :
  weak_inv m →
  let '(pushed, evt', m') := publish_queue_phase etype max_size evt m in
  weak_inv m' ∧ logical m' ++ accepted etype m evt' ≡ₚ logical m ++ accepted etype m evt ∧
  m'.(_write_filter) = m.(_write_filter).
Proof.
  intros Hw. unfold publish_queue_phase. pose proof (publish_loop_perm evt false m Hw) as H.
  destruct (publish_loop _ _ evt false m) as [[pushed evt'] m'].
  destruct (_ || _); [|done]. unfold _execute_reader_if_needed. by destruct (_reader_running m').
Qed.

Lemma step_ledger fuel s1 pubs s2 :
  step fuel s1 pubs s2 → weak_inv s1.(sys_mux) → (lag_max < fuel)%nat →
  weak_inv s2.(sys_mux) ∧ ledger s2 ≡ₚ ledger s1 ++ accepted etype s1.(sys_mux) pubs ∧
  s2.(sys_mux).(_write_filter) = s1.(sys_mux).(_write_filter).
Proof.
  intros Hstep Hw Hlag. destruct Hstep as
    [m acked evt|m evt acked pushed evt' m' Hq|m evt acked m' Hf|m p acked b e m' Hr
    |m p acked count m' Ha|m p acked]; unfold ledger; simpl in *.
  - split_and!; [done| |done]. unfold accepted at 2. simpl. rewrite app_nil_r, <- app_assoc. done.
  - pose proof (queue_phase_perm evt m Hw) as H. rewrite Hq in H. destruct H as (H1 & H2 & H3).
    split_and!; [done| |done]. rewrite app_nil_r.
    assert (pub_pending (after_queue_phase pushed evt') = evt') as ->
      by (unfold after_queue_phase; by destruct evt', pushed).
    unfold accepted at 1. rewrite H3. fold (accepted etype m evt'). by rewrite H2.
  - destruct Hw as [Hm Hfi]. destruct (file_phase_spec etype evt m Hm Hfi) as (b & d & Heq & Hf' & Hc).
    rewrite Heq in Hf. injection Hf as <-. split_and!; [done| |done].
    unfold logical. simpl. rewrite Hc. unfold accepted. simpl. solve_Permutation.
  - rewrite app_nil_r. unfold read in Hr. destruct Hw as [[Hs Hp] Hf].
    destruct (_pos m) as [i|] eqn:Hpos; simpl in Hr; [|rewrite Hpos in Hr]; injection Hr as <- <- <-.
    + split_and!; [|done..]. split; [|done]. split; [done|]. apply (it_next_ok _ (Some i)).
    + split_and!; [|done..]. split; [|done]. split; [done|]. by rewrite Hpos.
  - destruct (ack_ret fuel count m m' Hw Hlag Ha) as (H1 & H2 & H3).
    split_and!; [done| |done]. rewrite app_nil_r, <- H2. unfold accepted. rewrite H3.
    solve_Permutation.
  - destruct Hw as [[Hs Hp] Hf]. split_and!; [|by rewrite app_nil_r|done].
    split; [|done]. split; [done|]. simpl. by destruct (_events m); simpl; [|lia].
Qed.

End Interleaving.
Arguments pub_state : clear implicits.
Arguments system : clear implicits.

(** ** Restart *)
Section Restart.
Context {E D : Type} `{!PFile D E, !PFileLaws D E}.
Context (etype : E → Z) (max_size : Z).
Implicit Types m : muxer E D.

Lemma clean_loop_spec l d :
  pf_opened d →
  ∃ d', clean_loop l d = (Ret tt, d') ∧ pf_opened d' ∧ contents d' = contents d ++ l.
Proof.
  revert d. induction l as [|e l IH]; intros d Hd; simpl.
  { exists d. by rewrite app_nil_r. }
  unfold mbind, st_bind. destruct (pf_write_spec d e Hd) as (d1 & -> & Hd1 & Hc1).
  destruct (IH d1 Hd1) as (d2 & -> & Hd2 & Hc2). exists d2. split_and!; [done..|].
  by rewrite Hc2, Hc1, <- app_assoc.
Qed.

Lemma clean_spec m :
  file_inv m → pf_closed m.(memory_disk) → m.(_persistent) = true →
  pf_closed (_clean m).(queue_disk) ∧
  contents (_clean m).(queue_disk) = contents m.(queue_disk) ∧
  pf_closed (_clean m).(memory_disk) ∧
  contents (_clean m).(memory_disk) = contents m.(memory_disk) ++ m.(_events).
Proof.
  intros Hf Hmd Hp. unfold _clean. cbn [set_file _persistent _events]. rewrite Hp. simpl.
  assert (pf_closed (if _file m then pf_close (queue_disk m) else queue_disk m) ∧
    contents (if _file m then pf_close (queue_disk m) else queue_disk m)
      = contents (queue_disk m)) as [Hq1 Hq2].
  { unfold file_inv in Hf. destruct (_file m); [by apply pf_close_spec|by destruct Hf]. }
  case_bool_decide as He; simpl.
  - rewrite He, app_nil_r. by split_and!.
  - destruct (pf_open_spec _ Hmd) as (d & -> & Hd & Hc). simpl.
    destruct (clean_loop_spec (_events m) d Hd) as (d' & -> & Hd' & Hc'). simpl.
    destruct (pf_close_spec d' Hd') as [? Hcl]. rewrite Hcl, Hc', Hc. by split_and!.
Qed.

Lemma load_memory_spec fuel l d :
  pf_opened d → (lag_max * S (length (contents d)) + length (contents d) < fuel)%nat →
  ∃ d', load_memory fuel l d = (Ret (l ++ contents d), d') ∧
        pf_closed (pf_close d') ∧ contents (pf_close d') = [].
Proof.
  intros Hd Hfuel.
  assert (lag_max * length (contents d) + lag d + length (contents d) < fuel)%nat as Hf
    by (pose proof (lag_bound d); lia). clear Hfuel.
  revert l d Hd Hf. induction fuel as [|fuel IH]; intros l d Hd Hf; [lia|]. simpl.
  pose proof (pf_read_spec d Hd) as Hr. destruct (pf_read d) as [[[e|]|[]] d'] eqn:Heq; try done.
  - destruct Hr as [Hd' Hc]. rewrite Hc in *. simpl in Hf. pose proof (lag_bound d').
    destruct (IH (l ++ [e]) d' Hd') as (d'' & -> & ? & ?); [lia|].
    exists d''. by rewrite <- app_assoc.
  - destruct Hr as (Hd' & Hc & Hl). rewrite <- Hc in *. apply IH; [done|lia].
  - destruct Hr as (Hc & ? & ?). exists d'. by rewrite Hc, app_nil_r.
Qed.

(** The queue-file loop of the constructor keeps an iterator that already
    points to an element, and leaves one at [end()] at [end()]. *)
Lemma load_queue_spec fuel loops m :
  mem_inv m → file_inv m → (lag_max < fuel)%nat → (length (contents m.(queue_disk)) < loops)%nat →
  ∃ m', load_queue max_size fuel loops m = (Ret tt, m') ∧ mux_inv max_size m' ∧
        logical m' = logical m ∧ m'.(_pos) = m.(_pos) ∧
        m'.(memory_disk) = m.(memory_disk).
Proof.
  intros Hm Hf Hlag. revert m Hm Hf.
  induction loops as [|loops IH]; intros m Hm Hf Hl; [lia|]. simpl.
  pose proof (get_event_spec fuel m Hf Hlag) as Hg.
  destruct (contents (queue_disk m)) as [|e l] eqn:Hc.
  - destruct Hg as (b & d & -> & Hd & Hf'). eexists. split; [done|].
    split; [split; [done|split; [done|by intros []]]|].
    split; [unfold logical; simpl; by rewrite Hd, Hc|]. done.
  - destruct Hg as (d & -> & Hd & Hf'). simpl.
    set (m1 := set_queue _ _ _ (set_file true d m)).
    assert (mem_inv m1) as Hm1.
    { destruct Hm as [Hs Hp]. split; simpl; rewrite length_app; simpl; [lia|].
      destruct (_pos m); [lia|done]. }
    assert (logical m1 = logical m) as Hlog.
    { unfold logical. simpl. by rewrite Hd, Hc, <- app_assoc. }
    destruct (Z.ltb_spec (_events_size m + 1) max_size) as [Hlt|Hge].
    + destruct (IH m1 Hm1 Hf') as (m' & -> & Hi & Hl' & Hp' & Hpre); [simpl; rewrite Hd; simpl in Hl; lia|].
      exists m'. by split_and!; [done|done|congruence|..].
    + exists m1. split_and!; [done| |done..].
      split; [done|]. split; [done|]. by intros _.
Qed.


(** When nothing comes back from the memory file, the constructor leaves the
    iterator at [end()]: the events loaded from the queue file count as read. *)
Lemma ctor_queue_only fuel r_filter w_filter qd md :
  pf_closed qd → (lag_max < fuel)%nat → (length (contents qd) < fuel)%nat →
  Z.of_nat (length (contents qd)) < max_size →
  ∃ m', ctor max_size fuel r_filter w_filter false qd md = (Ret tt, m') ∧
        mux_inv max_size m' ∧ m'.(_events) = contents qd ∧ m'.(_pos) = None ∧
        contents m'.(queue_disk) = [] ∧ m'.(_write_filter) = w_filter.
Proof.
  intros Hqd Hlag Hlen Hmax. unfold ctor. destruct (pf_open_spec _ Hqd) as (q & -> & Hqo & Hqc).
  set (m1 := set_file true q _).
  destruct (load_queue_spec fuel fuel m1) as (m' & Hld & Hi & Hl & Hpos & _);
    [done|done|done|simpl; by rewrite Hqc|].
  exists m'. rewrite Hld. unfold logical in Hl. simpl in Hl. rewrite Hqc in Hl.
  assert (contents (queue_disk m') = []) as Hc.
  { destruct Hi as ([Hs _] & _ & Ho). destruct (contents (queue_disk m')) eqn:Hc; [done|].
    unfold order_inv in Ho. rewrite Hc in Ho. specialize (Ho ltac:(done)).
    rewrite <- Hl, length_app in Hmax. lia. }
  rewrite Hc, app_nil_r in Hl. split_and!; try done.
  clear -Hld. assert (∀ n m, (load_queue max_size fuel n m).2.(_write_filter) = m.(_write_filter)) as Hg.
  { induction n as [|n IH]; intros m; simpl; [done|].
    unfold _get_event_from_file. destruct (_file m); [|done].
    destruct (pf_read_loop fuel (queue_disk m)) as [[[e|]|[]] d]; simpl; try done.
    destruct (_ <? _); simpl; [by rewrite IH|done]. }
  specialize (Hg fuel m1). by rewrite Hld in Hg.
Qed.

(** A muxer built without a memory file (every feeder) takes the
    events of its queue file for events already read: the first event
    published after the restart is the first one delivered, and its
    acknowledgement drops the oldest event of the file, which was never
    delivered, while the delivered event stays queued. *)
Theorem restart_skips_queue_file fuel r_filter w_filter qd md old rest x :
  pf_closed qd → contents qd = old :: rest →
  (lag_max < fuel)%nat → (length (contents qd) < fuel)%nat →
  Z.of_nat (length (contents qd)) + 1 < max_size → allowsb etype w_filter x = true →
  ∃ m0 m1 m2 m3,
    ctor max_size fuel r_filter w_filter false qd md = (Ret tt, m0) ∧
    read 0 id m0 = (false, None, m0) ∧
    publish etype max_size 2 [x] m0 = (Ret tt, m1) ∧
    read 0 id m1 = (true, Some x, m2) ∧
    ack_events max_size fuel 1 m2 = (Ret tt, m3) ∧
    logical m3 = rest ++ [x].
Proof.
  intros Hqd Hold Hlag Hlen Hmax Hx.
  destruct (ctor_queue_only fuel r_filter w_filter qd md) as (m0 & Hctor & Hi0 & He0 & Hp0 & Hc0 & Hw0);
    [done..|lia|].
  assert (logical m0 = old :: rest) as Hl0 by (unfold logical; by rewrite He0, Hc0, app_nil_r).
  destruct (publish_spec etype max_size [x] m0 Hi0) as (m1 & Hpub & Hi1 & Hl1 & Hcur1).
  assert (cursor m0 = length (old :: rest)) as Hcur0
    by (unfold cursor; by rewrite Hp0, He0, Hold).
  assert (logical m1 = (old :: rest) ++ [x]) as Hl1'.
  { rewrite Hl1, Hl0. unfold accepted. rewrite filter_cons, Hw0, decide_True by done. done. }
  assert (contents m1.(queue_disk) = []) as Hc1.
  { destruct Hi1 as ([Hs _] & _ & Ho). destruct (contents (queue_disk m1)) eqn:Hc; [done|].
    unfold order_inv in Ho. rewrite Hc in Ho. specialize (Ho ltac:(done)).
    apply (f_equal length) in Hl1'. unfold logical in Hl1'. rewrite length_app, Hc in Hl1'.
    rewrite Hold in Hmax. simpl in Hl1', Hmax. rewrite length_app in Hl1'. simpl in Hl1'. lia. }
  destruct (read_now_spec max_size m1 Hi1) as (b & e & m2 & Hrd & Hi2 & Hl2 & Hb & Hcase).
  assert (m1.(_events) = (old :: rest) ++ [x]) as He1
    by (rewrite <- Hl1'; unfold logical; by rewrite Hc1, app_nil_r).
  rewrite Hcur1, Hcur0, He1, length_app in Hcase. simpl in Hcase.
  rewrite (proj2 (Nat.ltb_lt _ _)) in Hcase by lia. destruct Hcase as (He & _ & Hcur2).
  rewrite Hl1' in He. rewrite (lookup_app_r (old :: rest)) in He by (simpl; lia).
  rewrite Nat.sub_diag in He. simpl in He. subst e. subst b.
  assert (contents m2.(queue_disk) = []) as Hc2.
  { unfold read in Hrd. destruct (_pos m1); simpl in Hrd; [by injection Hrd as _ <-|].
    repeat case_match; simplify_eq; done. }
  destruct (ack_events_spec max_size fuel 1 m2 Hi2) as (m3 & Hack & _ & Hl3 & _);
    [done|rewrite Hc2; simpl; lia|].
  exists m0, m1, m2, m3. split_and!; try done.
  - unfold read. rewrite Hp0. simpl. by rewrite Hp0.
  - rewrite Hl3, Hl2, Hl1', Hcur2. done.
Qed.
End Restart.

(** ** The asynchronous reader *)
Section Reader.
Context {E D : Type} `{!PFile D E}.
Context (etype : E → Z) (max_size : Z).
Implicit Types m : muxer E D.

Definition reader_fields m := (_data_handler m, _reader_running m, _posted m).

Lemma publish_loop_reader evt pushed m :
  reader_fields (publish_loop etype max_size evt pushed m).2 = reader_fields m.
Proof.
  revert pushed m. induction evt as [|e evt IH]; intros pushed m; simpl; [done|].
  destruct (_ <? _); [|done]. destruct (allowsb _ _ _); by rewrite IH.
Qed.

(** A publication that meets a muxer whose handler is not yet set
    disables its asynchronous reader for good: the posted task finds no
    handler and returns without clearing [_reader_running], so that after the
    handler is set no publication posts a task again and the handler is never
    called. *)
Theorem handler_set_late_never_runs fuel evt rest m m1 h :
  m.(_data_handler) = None → m.(_reader_running) = false → m.(_posted) = 0%nat →
  publish_queue_phase etype max_size evt m = (true, rest, m1) →
  m1.(_posted) = 1%nat ∧
  ∃ m2, reader_task max_size fuel m1 = (Ret tt, m2) ∧
    ∀ more, let m3 := (publish_queue_phase etype max_size more (set_action_on_new_data h m2)).2 in
      m3.(_posted) = 0%nat ∧ m3.(_reader_running) = true ∧ m3.(_data_handler) = Some h.
Proof.
  intros Hh Hr Hp Hq. unfold publish_queue_phase in Hq.
  pose proof (publish_loop_reader evt false m) as Hl.
  destruct (publish_loop _ _ evt false m) as [[pushed evt'] m'].
  injection Hq as -> -> <-. simpl in Hl. unfold reader_fields in Hl. rewrite Hh, Hr, Hp in Hl.
  injection Hl as Hh' Hr' Hp'. simpl. unfold _execute_reader_if_needed. rewrite Hr', Hp'.
  split; [done|]. unfold reader_task. simpl. rewrite Hh'. eexists. split; [done|].
  intros more. unfold publish_queue_phase.
  match goal with |- context [publish_loop _ _ more false ?m0] =>
    pose proof (publish_loop_reader more false m0) as Hl2;
    destruct (publish_loop etype max_size more false m0) as [[p2 r2] m2] end.
  unfold reader_fields in Hl2. simpl in Hl2. injection Hl2 as Hh2 Hr2 Hp2. simpl.
  destruct (_ || _); unfold _execute_reader_if_needed; rewrite ?Hr2; done.
Qed.
End Reader.

(** ** Concrete muxers

    Events are numbers of one type of the [neb] category; files are in
    memory. *)
Module Demo.
Definition ev_type (_ : nat) : Z := make_type (data_category_val neb) 1.
Definition mux (l : list nat) (p : iter) (file : list nat) : muxer nat (mem_file nat) :=
  Mux filter_all filter_all true None false 0 l (Z.of_nat (length l)) p
    (negb (bool_decide (file = []))) (MemFile (negb (bool_decide (file = []))) file)
    (MemFile false []).
End Demo.

(** The muxer at the end of the trace below: the third event in memory, the
    second one in the file. *)
Definition race_mux : muxer nat (mem_file nat) :=
  Mux filter_all filter_all true None true 1 [3%nat] 1 (Some 0%nat) true
    (MemFile true [2%nat]) (MemFile false []).

Lemma race_steps :
  steps Demo.ev_type 1 5 (Sys (Demo.mux [] None []) PIdle []) [1; 2; 3]%nat
    (Sys race_mux PIdle [1%nat]).
Proof.
  eapply (steps_cons _ _ _ _ [1%nat] _ [2; 3]%nat); [apply step_publish|].
  eapply (steps_cons _ _ _ _ []); [by apply step_queue_phase|].
  eapply (steps_cons _ _ _ _ [2%nat] _ [3%nat]); [apply step_publish|].
  eapply (steps_cons _ _ _ _ []); [by apply step_queue_phase|].
  eapply (steps_cons _ _ _ _ []); [by eapply step_read|].
  eapply (steps_cons _ _ _ _ []); [by apply (step_ack _ _ _ _ _ _ 1)|].
  eapply (steps_cons _ _ _ _ []); [by apply step_file_phase|].
  eapply (steps_cons _ _ _ _ [3%nat] _ []); [apply step_publish|].
  eapply (steps_cons _ _ _ _ [] _ []); [by apply step_queue_phase|].
  apply steps_nil.
Qed.

(** Between the two critical sections of [publish] an acknowledgement can
    make room in memory; the older events then go to the file while newer ones
    are queued in memory, and the reader gets the third event before the
    second. *)
Theorem publish_race_reorders :
  ∃ m1 m2 : muxer nat (mem_file nat),
    steps Demo.ev_type 1 5 (Sys (Demo.mux [] None []) PIdle []) [1; 2; 3]%nat (Sys m1 PIdle [1%nat]) ∧
    read 0 id m1 = (true, Some 3%nat, m2) ∧ logical m2 = [3; 2]%nat.
Proof. eexists race_mux, _. split; [apply race_steps|]. by split. Qed.




Lemma restart_skips_queue_file_witness :
  ∃ m3 : muxer nat (mem_file nat), logical m3 = [2; 3]%nat.
Proof.
  destruct (restart_skips_queue_file Demo.ev_type 10 5 filter_all filter_all
              (MemFile false [1; 2]%nat) (MemFile false []) 1%nat [2%nat] 3%nat)
    as (m0 & m1 & m2 & m3 & _ & _ & _ & _ & _ & Hl);
    [reflexivity|reflexivity|simpl; lia|simpl; lia|simpl; lia|reflexivity|].
  exists m3. exact Hl.
Defined.

Lemma handler_set_late_never_runs_witness :
  ∃ m2, reader_task 10 5 (publish_queue_phase Demo.ev_type 10 [1%nat] (Demo.mux [] None [])).2
          = (Ret tt, m2) ∧
        ∀ more, (publish_queue_phase Demo.ev_type 10 more
                   (set_action_on_new_data length m2)).2.(_posted) = 0%nat.
Proof.
  destruct (handler_set_late_never_runs Demo.ev_type 10 5 [1%nat] []
              (Demo.mux [] None [])
              (publish_queue_phase Demo.ev_type 10 [1%nat] (Demo.mux [] None [])).2 length)
    as (_ & m2 & Hm2 & Hall); [reflexivity..|].
  exists m2. split; [exact Hm2|]. intros more. apply (Hall more).
Defined.
