(* ===== verification/DiskFs.v ===== *)
(** * The file system seen by the broker, and its disk accessor

    What the queue files use of the C library and of POSIX: decimal printing and
    [strtol], paths, regular files with names and inodes (a file that is removed
    while a [FILE] is open on it keeps its data), and [file::disk_accessor]
    ([broker/core/src/file/disk_accessor.cc]), the wrapper that accounts for the
    bytes written and refuses the writes beyond the configured limit.

    The data of a [FILE] reach the inode at [fwrite]: the code flushes a part
    before it rolls over, and reads the part it writes through the same [FILE],
    so no read can see the stdio buffer lag. *)

From Stdlib Require Import Ascii.
From S2P Require Import Prelude.

#[local] Open Scope string_scope.
#[local] Open Scope Z_scope.

(** ** Strings *)

Definition isspace (c : ascii) : bool :=
  let n := N_of_ascii c in (n =? 32)%N || ((9 <=? n)%N && (n <=? 13)%N).

Definition digit_value (c : ascii) : option Z :=
  let n := N_of_ascii c in
  if (48 <=? n)%N && (n <=? 57)%N then Some (Z.of_N (n - 48)) else None.

Fixpoint skip_spaces (s : string) : string :=
  match s with
  | String c s' => if isspace c then skip_spaces s' else s
  | EmptyString => s
  end.

(** The digits at the start of [s], after a value [acc] already read. *)
Fixpoint read_digits (acc : Z) (s : string) : Z * string :=
  match s with
  | String c s' =>
      match digit_value c with
      | Some d => read_digits (10 * acc + d) s'
      | None => (acc, s)
      end
  | EmptyString => (acc, s)
  end.

Definition clamp_i64 (z : Z) : Z := Z.max i64_min (Z.min i64_max z).

Definition starts_with_digit (s : string) : bool :=
  match s with
  | String c _ => match digit_value c with Some _ => true | None => false end
  | EmptyString => false
  end.

(** [strtol(s, &endptr, 10)]: the value and what [endptr] points to. *)
Definition strtol10 (s : string) : Z * string :=
  let s1 := skip_spaces s in
  let '(neg, s2) :=
    match s1 with
    | String "-" s' => (true, s')
    | String "+" s' => (false, s')
    | _ => (false, s1)
    end in
  if starts_with_digit s2 then
    let '(v, e) := read_digits 0 s2 in
    (clamp_i64 (if neg : bool then - v else v), e)
  else (0, s).

#[global] Arguments clamp_i64 : simpl never.

Fixpoint str_drop (n : nat) (s : string) : string :=
  match n, s with
  | S n, String _ s => str_drop n s
  | _, _ => s
  end.

(** The directory and the name around the last slash ([find_last_of('/')]). *)
Fixpoint find_last_slash (s : string) : option (string * string) :=
  match s with
  | EmptyString => None
  | String c s' =>
      match find_last_slash s' with
      | Some (d, n) => Some (String c d, n)
      | None => if Ascii.eqb c "/" then Some ("", s') else None
      end
  end.

Fixpoint ends_with_slash (s : string) : bool :=
  match s with
  | EmptyString => false
  | String c EmptyString => Ascii.eqb c "/"
  | String _ s' => ends_with_slash s'
  end.

(** The file a path names: a directory without its final slash, and a name. *)
Definition resolve (path : string) : string * string :=
  match find_last_slash path with
  | Some (d, n) => (d, n)
  | None => (".", path)
  end.

(** ** Files *)

Record fs := Fs {
  names : gmap (string * string) nat;
  inodes : gmap nat (list Z);
  (** the next inode and the next [FILE] to allocate *)
  next : nat;
}.

(** A [FILE*]: its identity and the inode it is open on. *)
Record FILE := MkFILE { file_id : nat; file_inode : nat }.

#[export] Instance FILE_eq_dec : EqDecision FILE.
Proof. solve_decision. Defined.

Definition data_of (f : fs) (i : nat) : list Z := default [] (f.(inodes) !! i).

(** [stat(path).st_size]; [None] when there is no such file *)
Definition file_size (f : fs) (path : string) : option Z :=
  i ← f.(names) !! resolve path; Some (Z.of_nat (length (data_of f i))).

(** [fopen(path, "a+b")]: creates the file when it is missing *)
Definition open_append (path : string) (f : fs) : FILE * fs :=
  match f.(names) !! resolve path with
  | Some i => (MkFILE f.(next) i, Fs f.(names) f.(inodes) (S f.(next)))
  | None =>
      (MkFILE f.(next) f.(next),
       Fs (<[resolve path := f.(next)]> f.(names)) (<[f.(next) := []]> f.(inodes)) (S f.(next)))
  end.

(** [fopen(path, "r+b")]: [None] is [ENOENT] *)
Definition open_existing (path : string) (f : fs) : option (FILE * fs) :=
  i ← f.(names) !! resolve path;
  Some (MkFILE f.(next) i, Fs f.(names) f.(inodes) (S f.(next))).

(** A write through a [FILE] opened with "a+b" lands at the end of the file,
    wherever [fseek] left the position. *)
Definition append (h : FILE) (buf : list Z) (f : fs) : fs :=
  Fs f.(names) (<[h.(file_inode) := (data_of f h.(file_inode) ++ buf)%list]> f.(inodes)) f.(next).

(** [fread] of at most [max] bytes at [offset] *)
Definition read_at (h : FILE) (offset max : nat) (f : fs) : list Z :=
  take max (drop offset (data_of f h.(file_inode))).

Definition unlink (path : string) (f : fs) : fs :=
  Fs (delete (resolve path) f.(names)) f.(inodes) f.(next).

(** What the operating system answers during one call. *)
Inductive errno := EAGAIN | EINTR | ENOENT | EIO.

#[export] Instance errno_eq_dec : EqDecision errno.
Proof. solve_decision. Defined.

Record os_env := Os {
  (** may the path be opened? *)
  can_open : string → bool;
  flush_ok : bool;
  (** how many of these bytes does [fwrite] write? *)
  fwrite_count : list Z → nat;
  (** does [fread] fail? *)
  fread_fault : bool;
  errno_value : errno;
}.

Definition healthy (os : os_env) : Prop :=
  (∀ p, os.(can_open) p = true) ∧ os.(flush_ok) = true ∧
  (∀ b, os.(fwrite_count) b = length b) ∧ os.(fread_fault) = false.

Definition healthy_os : os_env := Os (λ _, true) true length false EAGAIN.

Lemma healthy_os_healthy : healthy healthy_os.
Proof. done. Qed.

(** ** [misc::filesystem] *)

(** The regular files of a directory, as the paths [dir/name]; [opendir] refuses
    the empty path. *)
Definition dir_content (path : string) (f : fs) : list string :=
  if String.eqb path "" then []
  else
    let key := if ends_with_slash path
               then match find_last_slash path with Some (d, _) => d | None => path end
               else path in
    let prefix := if ends_with_slash path then path else path +:+ "/" in
    (λ '((d, n), _), prefix +:+ n) <$>
      filter (λ '((d, _), _), d = key) (map_to_list f.(names)).

(** [fnmatch] of [path/base_name] followed by a star, for a base name without pattern characters: the
    entries of the directory whose name starts with it. *)
Definition dir_content_with_filter (path base_name : string) (f : fs) : list string :=
  let flt := if ends_with_slash path then path +:+ base_name
             else path +:+ "/" +:+ base_name in
  filter (λ p, String.prefix flt p = true) (dir_content path f).

(** ** [file::disk_accessor] *)

Record disk_accessor := Disk {
  _limit_size : Z;
  _current_size : Z;
  disk_fs : fs;
}.

Definition set_fs (f : fs) (d : disk_accessor) : disk_accessor :=
  Disk d.(_limit_size) d.(_current_size) f.

Definition set_current_size (current_size : Z) (d : disk_accessor) : disk_accessor :=
  Disk d.(_limit_size) current_size d.(disk_fs).

(** Members of one byte each, as every caller passes them. *)
Definition fwrite (os : os_env) (ptr : list Z) (stream : FILE) (d : disk_accessor)
    : Z * disk_accessor :=
  let nmemb := Z.of_nat (length ptr) in
  if (d.(_limit_size) =? 0) || (wrap_u64 (d.(_current_size) + nmemb) <=? d.(_limit_size)) then
    let n := Nat.min (os.(fwrite_count) ptr) (length ptr) in
    (Z.of_nat n,
     Disk d.(_limit_size) (wrap_u64 (d.(_current_size) + nmemb))
       (append stream (take n ptr) d.(disk_fs)))
  else (0, d).

Definition fread (os : os_env) (max offset : nat) (stream : FILE) (d : disk_accessor) : list Z :=
  if os.(fread_fault) then [] else read_at stream offset max d.(disk_fs).

Definition remove (name : string) (d : disk_accessor) : disk_accessor :=
  let size := match file_size d.(disk_fs) name with
              | Some st_size => wrap_u64 (d.(_current_size) - st_size)
              | None => d.(_current_size)
              end in
  Disk d.(_limit_size) size (unlink name d.(disk_fs)).

(** ** Lemmas on decimal names *)

(** Parsing continues what printing emitted. *)
Lemma read_digits_pretty_go x s :
  read_digits 0 (pretty_N_go x s) = read_digits (Z.of_N x) s.
Proof.
  revert s. induction (N.lt_wf_0 x) as [x _ IH]. intros s.
  destruct (decide (x = 0%N)) as [->|Hx]; [done|].
  rewrite pretty_N_go_step by lia. rewrite IH by (apply N.div_lt; lia).
  cbn [read_digits].
  assert (digit_value (pretty_N_char (x `mod` 10)) = Some (Z.of_N (x `mod` 10))) as ->.
  { assert (x `mod` 10 < 10)%N as Hlt by (apply N.mod_lt; lia).
    revert Hlt. generalize (x `mod` 10)%N. intros d Hd.
    do 10 (destruct d as [|d] using N.peano_ind; [done|clear IHd]); lia. }
  f_equal. rewrite N2Z.inj_div, N2Z.inj_mod.
  pose proof (Z.div_mod (Z.of_N x) 10). lia.
Qed.

(** The characters of a decimal number. *)
Definition is_digit (c : ascii) : bool := match digit_value c with Some _ => true | None => false end.

Fixpoint all_chars (p : ascii → bool) (s : string) : bool :=
  match s with
  | EmptyString => true
  | String c s' => p c && all_chars p s'
  end.

Lemma pretty_char_digit d : (d < 10)%N → is_digit (pretty_N_char d) = true.
Proof.
  intros Hd. do 10 (destruct d as [|d] using N.peano_ind; [done|clear IHd]); lia.
Qed.

Lemma pretty_go_digits x s :
  all_chars is_digit s = true → all_chars is_digit (pretty_N_go x s) = true.
Proof.
  revert s. induction (N.lt_wf_0 x) as [x _ IH]. intros s Hs.
  destruct (decide (x = 0%N)) as [->|Hx]; [done|].
  rewrite pretty_N_go_step by lia. apply IH; [apply N.div_lt; lia|].
  cbn [all_chars]. rewrite Hs, pretty_char_digit by (apply N.mod_lt; lia). done.
Qed.

Lemma pretty_go_nonempty x s : (0 < x)%N ∨ s ≠ "" → pretty_N_go x s ≠ "".
Proof.
  revert s. induction (N.lt_wf_0 x) as [x _ IH]. intros s Hs.
  destruct (decide (x = 0%N)) as [->|Hx]; [destruct Hs; [lia|done]|].
  rewrite pretty_N_go_step by lia. apply IH; [apply N.div_lt; lia|by right].
Qed.

Lemma pretty_pos (z : Z) : 0 < z → pretty z = pretty_N_go (Z.to_N z) "".
Proof. destruct z as [|p|]; try lia. intros _. done. Qed.

(** [strtol] at a digit: no space and no sign to skip. *)
Lemma strtol10_digit c s :
  is_digit c = true →
  strtol10 (String c s)
  = (clamp_i64 (read_digits 0 (String c s)).1, (read_digits 0 (String c s)).2).
Proof.
  intros Hd.
  assert (isspace c = false) as Hsp.
  { revert Hd. unfold is_digit, digit_value, isspace. intros Hd.
    destruct ((48 <=? N_of_ascii c)%N && _) eqn:Hc; [|done].
    apply andb_true_iff in Hc as [H1%N.leb_le H2%N.leb_le].
    apply orb_false_iff. rewrite N.eqb_neq, andb_false_iff, !N.leb_gt. lia. }
  unfold strtol10. cbn [skip_spaces]. rewrite Hsp.
  assert (match c with "-"%char => (true, s) | "+"%char => (false, s)
          | _ => (false, String c s) end = (false, String c s)) as ->.
  { destruct c as [[] [] [] [] [] [] [] []]; done. }
  cbn [starts_with_digit]. unfold is_digit in Hd. destruct (digit_value c); [|done].
  by destruct (read_digits 0 (String c s)).
Qed.

(** A number printed with [fmt::format] is read back by [strtol]. *)
Lemma strtol10_pretty z : 0 < z ≤ i64_max → strtol10 (pretty z) = (z, "").
Proof.
  intros Hz. rewrite pretty_pos by lia.
  assert (pretty_N_go (Z.to_N z) "" ≠ "") as Hne by (apply pretty_go_nonempty; left; lia).
  assert (all_chars is_digit (pretty_N_go (Z.to_N z) "") = true) as Hd
    by by apply pretty_go_digits.
  pose proof (read_digits_pretty_go (Z.to_N z) "") as Hr.
  destruct (pretty_N_go (Z.to_N z) "") as [|c s]; [done|].
  cbn [all_chars] in Hd. apply andb_true_iff in Hd as [Hd _].
  rewrite strtol10_digit, Hr by done. cbn [read_digits fst snd].
  f_equal. unfold clamp_i64, i64_min, i64_max in *. lia.
Qed.

(** ** Lemmas on paths *)

Lemma slash_not_digit : is_digit "/" = false.
Proof. reflexivity. Qed.

Lemma find_last_slash_digits t : all_chars is_digit t = true → find_last_slash t = None.
Proof.
  induction t as [|c t IH]; [done|]. cbn [all_chars find_last_slash].
  intros [Hc Ht]%andb_true_iff. rewrite IH by done.
  destruct (Ascii.eqb_spec c "/") as [->|]; [|done]. by rewrite slash_not_digit in Hc.
Qed.

Lemma find_last_slash_app s t :
  find_last_slash t = None →
  find_last_slash (s +:+ t) = (λ '(d, n), (d, n +:+ t)) <$> find_last_slash s.
Proof.
  intros Ht. induction s as [|c s IH]; [done|].
  change (String c s +:+ t) with (String c (s +:+ t)). cbn [find_last_slash]. rewrite IH.
  destruct (find_last_slash s) as [[d n]|]; [done|]. simpl. by destruct (Ascii.eqb c "/").
Qed.

Lemma find_last_slash_Some s d n :
  find_last_slash s = Some (d, n) → s = d +:+ "/" +:+ n ∧ find_last_slash n = None.
Proof.
  revert d. induction s as [|c s IH]; intros d; [done|]. cbn [find_last_slash].
  destruct (find_last_slash s) as [[d' n']|] eqn:Hs.
  - intros [= <- <-]. destruct (IH d') as [-> ?]; [done|]. split; done.
  - destruct (Ascii.eqb_spec c "/") as [->|]; [|done]. by intros [= <- <-].
Qed.

(** A numeric suffix extends the name and leaves the directory. *)
Lemma resolve_app s t :
  all_chars is_digit t = true →
  resolve (s +:+ t) = ((resolve s).1, (resolve s).2 +:+ t).
Proof.
  intros Ht. unfold resolve. rewrite find_last_slash_app by by apply find_last_slash_digits.
  destruct (find_last_slash s) as [[d n]|]; done.
Qed.

Lemma str_app_cons c s t : String c s +:+ t = String c (s +:+ t).
Proof. reflexivity. Qed.

Lemma str_app_inj s t u : s +:+ t = s +:+ u → t = u.
Proof. induction s as [|c s IH]; [done|]. rewrite !str_app_cons. intros [= H]. by apply IH. Qed.

Lemma str_app_assoc s t u : (s +:+ t) +:+ u = s +:+ (t +:+ u).
Proof. induction s as [|c s IH]; [done|]. rewrite !str_app_cons. cbn. by rewrite IH. Qed.

Lemma str_app_nil s : s +:+ "" = s.
Proof. induction s as [|c s IH]; [done|]. rewrite !str_app_cons. cbn. by rewrite IH. Qed.

Lemma str_drop_app s t : str_drop (String.length s) (s +:+ t) = t.
Proof. by induction s. Qed.

Lemma str_length_app s t : String.length (s +:+ t) = (String.length s + String.length t)%nat.
Proof.
  induction s as [|c s IH]; [done|]. rewrite str_app_cons. cbn. by rewrite IH.
Qed.

Lemma prefix_app s t : String.prefix s (s +:+ t) = true.
Proof. induction s as [|c s IH]; [by destruct t|]. rewrite str_app_cons. cbn. by case_match. Qed.

Lemma prefix_spec s t : String.prefix s t = true → ∃ u, t = s +:+ u.
Proof.
  revert t. induction s as [|c s IH]; intros t; [by exists t|].
  destruct t as [|c' t]; [done|]. cbn. destruct (ascii_dec c c') as [->|]; [|done].
  intros [u ->]%IH. by exists u.
Qed.

(** ** The file system operations, as seen through names *)

(** Names designate distinct, already allocated inodes. *)
Definition fs_wf (f : fs) : Prop :=
  (∀ k i, f.(names) !! k = Some i → (i < f.(next))%nat) ∧
  (∀ k k' i, f.(names) !! k = Some i → f.(names) !! k' = Some i → k = k').

(** The data under a name; nothing when there is no such file. *)
Definition named (f : fs) (k : string * string) : list Z :=
  match f.(names) !! k with Some i => data_of f i | None => [] end.

Lemma open_append_spec path f h f' :
  fs_wf f → open_append path f = (h, f') →
  fs_wf f' ∧ f'.(names) !! resolve path = Some h.(file_inode) ∧
  (∀ k, k ≠ resolve path → f'.(names) !! k = f.(names) !! k) ∧
  (∀ k, named f' k = named f k) ∧
  (∀ i, f.(names) !! resolve path = Some i → f'.(names) = f.(names) ∧ h.(file_inode) = i).
Proof.
  intros [Hlt Hinj]. unfold open_append.
  destruct (f.(names) !! resolve path) as [i|] eqn:Hp; intros [= <- <-]; cbn [file_inode names].
  - split_and!; try done.
    + split; cbn; [|done]. intros k j ?%Hlt. lia.
    + by intros j [= <-].
  - split_and!; try done.
    + split; cbn [names next].
      * intros k j. rewrite lookup_insert_Some. intros [[_ <-]|[_ ?%Hlt]]; lia.
      * intros k k' j. rewrite !lookup_insert_Some.
        intros [[<- <-]|[? Hk]] [[<- ?]|[? Hk']]; try done.
        -- apply Hlt in Hk'. lia.
        -- apply Hlt in Hk. lia.
        -- by eapply Hinj.
    + by rewrite lookup_insert_eq.
    + intros k ?. by rewrite lookup_insert_ne.
    + intros k. unfold named. cbn [names]. destruct (decide (k = resolve path)) as [->|Hne].
      * rewrite lookup_insert_eq, Hp. unfold data_of. cbn [inodes]. by rewrite lookup_insert_eq.
      * rewrite lookup_insert_ne by done. destruct (f.(names) !! k) as [j|] eqn:Hk; [|done].
        unfold data_of. cbn [inodes]. rewrite lookup_insert_ne; [done|].
        apply Hlt in Hk. lia.
Qed.

Lemma open_existing_spec path f :
  fs_wf f →
  match f.(names) !! resolve path with
  | Some i => ∃ h f', open_existing path f = Some (h, f') ∧ fs_wf f' ∧ h.(file_inode) = i ∧
      f'.(names) = f.(names) ∧ f'.(inodes) = f.(inodes)
  | None => open_existing path f = None
  end.
Proof.
  intros [Hlt Hinj]. unfold open_existing.
  destruct (f.(names) !! resolve path) as [i|] eqn:Hp; [|done].
  do 2 eexists. split_and!; try done. split; cbn; [|done]. intros k j ?%Hlt. lia.
Qed.

Lemma append_wf h buf f : fs_wf f → fs_wf (append h buf f).
Proof. intros [??]. by split. Qed.

Lemma named_append h buf f k :
  fs_wf f → f.(names) !! k = Some h.(file_inode) →
  named (append h buf f) k = (named f k ++ buf)%list ∧
  (∀ k', k' ≠ k → named (append h buf f) k' = named f k').
Proof.
  intros [_ Hinj] Hk. unfold named, append, data_of. cbn [names inodes]. split.
  - rewrite Hk. by rewrite lookup_insert_eq.
  - intros k' Hne. destruct (f.(names) !! k') as [j|] eqn:Hk'; [|done].
    rewrite lookup_insert_ne; [done|]. intros <-. by apply Hne, (Hinj _ _ h.(file_inode)).
Qed.

Lemma unlink_wf path f : fs_wf f → fs_wf (unlink path f).
Proof.
  intros [Hlt Hinj]. split; cbn.
  - intros k i [_ ?]%lookup_delete_Some. eauto.
  - intros k k' i [_ ?]%lookup_delete_Some [_ ?]%lookup_delete_Some. eauto.
Qed.

Lemma named_unlink path f k :
  named (unlink path f) k = if decide (k = resolve path) then [] else named f k.
Proof.
  unfold named, unlink, data_of. cbn [names inodes]. case_decide as Hk.
  - subst. by rewrite lookup_delete_eq.
  - by rewrite lookup_delete_ne.
Qed.

(** Does the limit leave room for [n] more bytes? *)
Definition room (n : nat) (d : disk_accessor) : bool :=
  (d.(_limit_size) =? 0) || (wrap_u64 (d.(_current_size) + Z.of_nat n) <=? d.(_limit_size)).

Lemma fwrite_healthy os buf h d :
  healthy os →
  fwrite os buf h d =
    if room (length buf) d
    then (Z.of_nat (length buf),
          Disk d.(_limit_size) (wrap_u64 (d.(_current_size) + Z.of_nat (length buf)))
            (append h buf d.(disk_fs)))
    else (0, d).
Proof.
  intros (_ & _ & Hc & _). unfold fwrite, room. rewrite Hc, Nat.min_id.
  by rewrite firstn_all.
Qed.

(** ** Accounting *)

Definition msum (m : gmap (string * string) Z) : Z := map_fold (λ _ v acc, v + acc) 0 m.

Lemma msum_insert m k v : m !! k = None → msum (<[k := v]> m) = v + msum m.
Proof. intros Hk. unfold msum. apply map_fold_insert_L; [intros; lia|done]. Qed.

Lemma msum_delete m k v : m !! k = Some v → msum m = v + msum (delete k m).
Proof. intros Hk. rewrite <- (msum_insert _ k) by apply lookup_delete_eq. by rewrite insert_delete_id. Qed.

Lemma msum_update m k v v' : m !! k = Some v → msum (<[k := v']> m) = msum m - v + v'.
Proof.
  intros Hk. rewrite (msum_delete m k v) by done.
  rewrite <- (insert_delete_eq m k v'), msum_insert by apply lookup_delete_eq. lia.
Qed.

Definition sizes (f : fs) : gmap (string * string) Z :=
  (λ i, Z.of_nat (length (data_of f i))) <$> f.(names).

(** The bytes the named files occupy. *)
Definition total (f : fs) : Z := msum (sizes f).

Lemma total_nonneg f : 0 ≤ total f.
Proof.
  unfold total, msum, sizes. apply (map_fold_weak_ind (λ r m, map_Forall (λ _ v, 0 ≤ v) m → 0 ≤ r)).
  - done.
  - intros k v m r Hk IH Hall. apply map_Forall_insert in Hall as [? ?]; [|done].
    specialize (IH ltac:(done)). lia.
  - intros k v. rewrite lookup_fmap_Some. intros (i & <- & _). lia.
Qed.

Lemma sizes_named f f' :
  (∀ k, f'.(names) !! k = f.(names) !! k) → (∀ k, named f' k = named f k) → sizes f' = sizes f.
Proof.
  intros Hn Hd. apply map_eq. intros k. unfold sizes. rewrite !lookup_fmap, Hn.
  destruct (f.(names) !! k) as [i|] eqn:Hk; [|done]. simpl. do 3 f_equal.
  specialize (Hd k). unfold named in Hd. by rewrite Hn, Hk in Hd.
Qed.

Lemma sizes_lookup f k :
  sizes f !! k = (λ _, Z.of_nat (length (named f k))) <$> f.(names) !! k.
Proof. unfold sizes, named. rewrite lookup_fmap. by destruct (f.(names) !! k). Qed.

Lemma total_append h buf f k :
  fs_wf f → f.(names) !! k = Some h.(file_inode) →
  total (append h buf f) = total f + Z.of_nat (length buf).
Proof.
  intros Hwf Hk. destruct (named_append h buf f k) as [Hap Hoth]; [done..|]. unfold total.
  assert (sizes (append h buf f) =
    <[k := Z.of_nat (length (named f k)) + Z.of_nat (length buf)]> (sizes f)) as ->.
  { apply map_eq. intros k'. rewrite sizes_lookup. cbn [append names].
    destruct (decide (k' = k)) as [->|Hne].
    - rewrite lookup_insert_eq, Hk. simpl. rewrite Hap, length_app. f_equal. lia.
    - rewrite lookup_insert_ne, sizes_lookup, Hoth by done. done. }
  rewrite (msum_update _ _ (Z.of_nat (length (named f k)))); [lia|].
  by rewrite sizes_lookup, Hk.
Qed.

Lemma total_open_append path f h f' :
  fs_wf f → open_append path f = (h, f') → total f' = total f.
Proof.
  intros Hwf Hop. pose proof Hop as Hop'.
  apply open_append_spec in Hop as (_ & Hk & Hoth & Hnam & _); [|done]. unfold total.
  destruct (f.(names) !! resolve path) as [i|] eqn:Hp.
  - f_equal. apply sizes_named; [|done]. intros k.
    unfold open_append in Hop'. rewrite Hp in Hop'. by injection Hop' as <- <-.
  - assert (sizes f' = <[resolve path := 0]> (sizes f)) as ->.
    { apply map_eq. intros k. rewrite sizes_lookup. destruct (decide (k = resolve path)) as [->|Hne].
      - rewrite lookup_insert_eq, Hk, Hnam. unfold named. by rewrite Hp.
      - rewrite lookup_insert_ne, sizes_lookup, Hnam, Hoth by done. done. }
    rewrite msum_insert; [lia|]. by rewrite sizes_lookup, Hp.
Qed.

Lemma total_unlink path f :
  total (unlink path f) = total f - default 0 (file_size f path).
Proof.
  unfold total, file_size.
  assert (sizes (unlink path f) = delete (resolve path) (sizes f)) as ->.
  { unfold sizes, unlink. cbn [names]. by rewrite <- fmap_delete. }
  destruct (f.(names) !! resolve path) as [i|] eqn:Hp; simpl.
  - rewrite (msum_delete (sizes f) (resolve path) (Z.of_nat (length (data_of f i)))); [lia|].
    unfold sizes. by rewrite lookup_fmap, Hp.
  - rewrite delete_id; [lia|]. by rewrite sizes_lookup, Hp.
Qed.

(** The accessor counts the bytes of the named files, within its limit. *)
Definition accounted (d : disk_accessor) : Prop :=
  d.(_current_size) = total d.(disk_fs) ∧ total d.(disk_fs) ≤ d.(_limit_size) ∧
  0 < d.(_limit_size) < 2 ^ 63.

Lemma fwrite_accounted os buf h d k n d' :
  healthy os → fs_wf d.(disk_fs) → d.(disk_fs).(names) !! k = Some h.(file_inode) →
  accounted d → Z.of_nat (length buf) < 2 ^ 63 → fwrite os buf h d = (n, d') → accounted d'.
Proof.
  intros Hos Hwf Hk (Hc & Hl & Hlim) Hb. rewrite fwrite_healthy by done.
  pose proof (total_nonneg d.(disk_fs)). unfold room.
  rewrite (proj2 (Z.eqb_neq _ 0)) by lia. cbn [orb].
  rewrite wrap_u64_small by lia.
  destruct (Z.leb_spec (d.(_current_size) + Z.of_nat (length buf)) d.(_limit_size)) as [Hr|Hr];
    intros [= <- <-]; [|done].
  unfold accounted. cbn [_current_size disk_fs _limit_size].
  rewrite (total_append _ _ _ k) by done. lia.
Qed.

Lemma remove_accounted name d : accounted d → accounted (remove name d).
Proof.
  intros (Hc & Hl & Hlim). pose proof (total_nonneg (unlink name d.(disk_fs))) as Hn.
  unfold accounted, remove. cbn [_current_size disk_fs _limit_size].
  rewrite total_unlink in Hn |- *.
  destruct (file_size d.(disk_fs) name) as [sz|] eqn:Hs; cbn [default] in *; [|lia].
  assert (0 ≤ sz).
  { unfold file_size in Hs. opt_inv Hs. injection Hs as <-. lia. }
  simpl in Hn |- *. rewrite wrap_u64_small by lia. lia.
Qed.

(** ** Directory listings *)

Lemma prefix_cancel s t u : String.prefix (s +:+ t) (s +:+ u) = String.prefix t u.
Proof. induction s as [|c s IH]; [done|]. rewrite !str_app_cons. cbn. by case_match. Qed.

Lemma ends_with_slash_app s : ends_with_slash (s +:+ "/") = true.
Proof.
  induction s as [|c s IH]; [done|]. rewrite str_app_cons. cbn.
  destruct (s +:+ "/") eqn:E; [|done]. by destruct s.
Qed.

Lemma find_last_slash_end s : find_last_slash (s +:+ "/") = Some (s, "").
Proof. induction s as [|c s IH]; [done|]. rewrite str_app_cons. cbn. by rewrite IH. Qed.

Lemma elem_of_dir_entries f key prefix p :
  p ∈ ((λ '((d, n), _), prefix +:+ n) <$>
        filter (λ '((d, _), _), d = key) (map_to_list f.(names))) ↔
  ∃ n, is_Some (f.(names) !! (key, n)) ∧ p = prefix +:+ n.
Proof.
  rewrite list_elem_of_fmap. split.
  - intros ([[d n] i] & -> & [-> Hin]%list_elem_of_filter). exists n.
    split; [|done]. apply elem_of_map_to_list in Hin. by exists i.
  - intros (n & [i Hi] & ->). exists ((key, n), i). split; [done|].
    apply list_elem_of_filter. split; [done|]. by apply elem_of_map_to_list.
Qed.

(** The listing of a directory given without its final slash. *)
Lemma elem_of_dir_filter f dir base p :
  dir ≠ "" → ends_with_slash dir = false →
  p ∈ dir_content_with_filter dir base f ↔
  ∃ t, is_Some (f.(names) !! (dir, base +:+ t)) ∧ p = dir +:+ "/" +:+ base +:+ t.
Proof.
  intros Hne Hs. unfold dir_content_with_filter, dir_content.
  rewrite (proj2 (String.eqb_neq _ _)), Hs by done.
  rewrite list_elem_of_filter, elem_of_dir_entries. split.
  - intros [Hp (n & Hn & ->)]. rewrite <- str_app_assoc, prefix_cancel in Hp.
    apply prefix_spec in Hp as [t ->]. exists t. by rewrite str_app_assoc.
  - intros (t & Ht & ->). rewrite !prefix_cancel, prefix_app.
    split; [done|]. exists (base +:+ t). by rewrite str_app_assoc.
Qed.

(** The same with the final slash. *)
Lemma elem_of_dir_filter_slash f dir base p :
  p ∈ dir_content_with_filter (dir +:+ "/") base f ↔
  ∃ t, is_Some (f.(names) !! (dir, base +:+ t)) ∧ p = dir +:+ "/" +:+ base +:+ t.
Proof.
  unfold dir_content_with_filter, dir_content. rewrite ends_with_slash_app, find_last_slash_end.
  rewrite (proj2 (String.eqb_neq _ _)) by (by destruct dir).
  rewrite list_elem_of_filter, elem_of_dir_entries. split.
  - intros [Hp (n & Hn & ->)]. rewrite prefix_cancel in Hp.
    apply prefix_spec in Hp as [t ->]. exists t. by rewrite str_app_assoc.
  - intros (t & Ht & ->). rewrite str_app_assoc, !prefix_cancel, prefix_app.
    split; [done|]. exists (base +:+ t). by rewrite str_app_assoc.
Qed.

(** A path listed in a directory names the file it was listed for. *)
Lemma resolve_listed dir n : find_last_slash n = None → resolve (dir +:+ "/" +:+ n) = (dir, n).
Proof.
  intros Hn. unfold resolve. rewrite <- str_app_assoc.
  rewrite find_last_slash_app, find_last_slash_end by done. done.
Qed.
