(* ===== verification/Splitter.v ===== *)
(** * The splitter: a byte queue over numbered file parts

    [broker/core/src/file/splitter.cc].  A queue file is kept as parts [path],
    [path1], [path2], ...; each starts with an 8-byte header.  The writer
    appends to part [_wid] and rolls over to the next one when
    [_max_file_size] would be exceeded; the reader consumes part [_rid] and, with
    [auto_delete], removes a part once it is read.  Each method is one call made
    by one thread: the reader and the writer share a part only under
    [_write_m]. *)

From Stdlib Require Import Ascii.
From S2P Require Import Prelude DiskFs.

#[local] Open Scope Z_scope.

(** [2 * sizeof(uint32_t)] *)
Definition header_size : Z := 8.
(** [integers[0] = 0; integers[1] = htonl(8)], as bytes. *)
Definition header : list Z := [0; 0; 0; 0; 0; 0; 0; 8].

Definition get_file_path (_base_path : string) (id : Z) : string :=
  if id =? 0 then _base_path else (_base_path +:+ pretty id).

Record splitter := Splitter {
  _auto_delete : bool;
  _base_path : string;
  _max_file_size : Z;
  _rfile : option FILE;
  _rid : Z;
  _roffset : nat;
  _wfile : option FILE;
  _wid : Z;
  _woffset : Z;
  (** [disk_accessor::instance()] *)
  disk : disk_accessor;
}.

Definition set_r (f : option FILE) (id : Z) (off : nat) (s : splitter) : splitter :=
  Splitter s.(_auto_delete) s.(_base_path) s.(_max_file_size) f id off
    s.(_wfile) s.(_wid) s.(_woffset) s.(disk).
Definition set_w (f : option FILE) (id off : Z) (s : splitter) : splitter :=
  Splitter s.(_auto_delete) s.(_base_path) s.(_max_file_size) s.(_rfile) s.(_rid) s.(_roffset)
    f id off s.(disk).
Definition set_disk (d : disk_accessor) (s : splitter) : splitter :=
  Splitter s.(_auto_delete) s.(_base_path) s.(_max_file_size) s.(_rfile) s.(_rid) s.(_roffset)
    s.(_wfile) s.(_wid) s.(_woffset) d.

Definition path_of (s : splitter) (id : Z) : string := get_file_path s.(_base_path) id.

Definition _open_write_file (os : os_env) : St splitter bool := λ s,
  let fname := path_of s s.(_wid) in
  if os.(can_open) fname then
    let '(f, fs1) := open_append fname s.(disk).(disk_fs) in
    let d1 := set_fs fs1 s.(disk) in
    let woffset := Z.of_nat (length (data_of fs1 f.(file_inode))) in
    if woffset <? header_size then
      let '(size, d2) := fwrite os header f d1 in
      if size =? header_size
      then (Ret true, set_disk d2 (set_w (Some f) s.(_wid) header_size s))
      else (Ret false, set_disk d2 (set_w None s.(_wid) woffset s))
    else (Ret true, set_disk d1 (set_w (Some f) s.(_wid) woffset s))
  else (Throw msg_fmt, set_w None s.(_wid) s.(_woffset) s).

Definition _open_read_file (os : os_env) : St splitter unit := λ s,
  let opened f s := (Ret tt, set_r (Some f) s.(_rid) (Z.to_nat header_size) s) in
  match (if s.(_rid) =? s.(_wid) then s.(_wfile) else None) with
  | Some f => opened f s
  | None =>
      let fname := path_of s s.(_rid) in
      if os.(can_open) fname then
        match open_existing fname s.(disk).(disk_fs) with
        | Some (f, fs1) => opened f (set_disk (set_fs fs1 s.(disk)) s)
        | None => (Ret tt, s)
        end
      else if decide (os.(errno_value) = ENOENT) then (Ret tt, s) else (Throw msg_fmt, s)
  end.

(** The end of a part was reached: erase it. *)
Definition erase_read_part (s : splitter) : splitter :=
  let s1 := if (s.(_rid) =? s.(_wid)) && bool_decide (s.(_wfile) = s.(_rfile))
            then set_w None s.(_wid) s.(_woffset) s else s in
  let s2 := set_r None s1.(_rid) s1.(_roffset) s1 in
  set_disk (remove (path_of s s.(_rid)) s2.(disk)) s2.

(** The bytes put in [buffer]; the result of the C++ method is their number. *)
Fixpoint read (fuel : nat) (os : os_env) (max_size : nat) : St splitter (list Z) := λ s,
  match fuel with
  | O => (Throw fuel_exhausted, s)
  | S fuel =>
      match (match s.(_rfile) with Some _ => (Ret tt, s) | None => _open_read_file os s end) with
      | (Throw e, s1) => (Throw e, s1)
      | (Ret _, s1) =>
          match s1.(_rfile) with
          | None => (Ret [], s1)
          | Some f =>
              let buffer := fread os max_size s1.(_roffset) f s1.(disk) in
              let s2 := set_r s1.(_rfile) s1.(_rid) (s1.(_roffset) + length buffer)%nat s1 in
              if (length buffer =? 0)%nat then
                (* feof: a short read that is no error *)
                if negb os.(fread_fault) && (0 <? max_size)%nat then
                  let s3 := if s2.(_auto_delete) then erase_read_part s2 else s2 in
                  if s3.(_rid) <? s3.(_wid)
                  then read fuel os max_size (set_r s3.(_rfile) (s3.(_rid) + 1) s3.(_roffset) s3)
                  else (Throw shutdown, s3)
                else if decide (os.(errno_value) = EAGAIN) then (Ret [], s2)
                else if decide (os.(errno_value) = EINTR) then (Ret [], s2)
                else (Throw msg_fmt, s2)
              else (Ret buffer, s2)
          end
      end
  end.

(** The bytes go to [_wfile]. *)
Definition write_part (os : os_env) (buffer : list Z) : St splitter Z := λ s,
  let size := Z.of_nat (length buffer) in
  match s.(_wfile) with
  | None => (Ret 0, s)
  | Some f =>
      let '(wb, d) := fwrite os buffer f s.(disk) in
      if wb =? size
      then (Ret size, set_disk d (set_w s.(_wfile) s.(_wid) (s.(_woffset) + size) s))
      else (Ret 0, set_disk d s)
  end.

Definition write (os : os_env) (buffer : list Z) : St splitter Z := λ s,
  let size := Z.of_nat (length buffer) in
  match (match s.(_wfile) with Some _ => (Ret true, s) | None => _open_write_file os s end) with
  | (Throw e, s1) => (Throw e, s1)
  | (Ret false, s1) => (Ret 0, s1)
  | (Ret true, s1) =>
      if s1.(_max_file_size) <? s1.(_woffset) + size then
        if os.(flush_ok) then
          match _open_write_file os (set_w s1.(_wfile) (wrap_i32 (s1.(_wid) + 1)) s1.(_woffset) s1) with
          | (Ret true, s2) => write_part os buffer s2
          | (Ret false, s2) => (Ret 0, s2)
          | (Throw e, s2) => (Throw e, s2)
          end
        else (Throw msg_fmt, s1)
      else write_part os buffer s1
  end.

Definition close (s : splitter) : splitter :=
  set_w None s.(_wid) s.(_woffset) (set_r None s.(_rid) s.(_roffset) s).

Definition seek (offset : Z) : St splitter unit := st_throw msg_fmt.
Definition tell (s : splitter) : Z := Z.of_nat s.(_roffset).
Definition flush (os : os_env) : St splitter unit :=
  if os.(flush_ok) then mret tt else st_throw msg_fmt.

Definition remove_all_files (s : splitter) : splitter :=
  let '(base_dir, base_name) :=
    match find_last_slash s.(_base_path) with
    | None => ("./"%string, s.(_base_path))
    | Some (d, n) => (d +:+ "/", n)
    end in
  let parts := dir_content_with_filter base_dir base_name s.(disk).(disk_fs) in
  let s1 := close s in
  let s2 := set_disk (foldl (λ d f, remove f d) s1.(disk) parts) s1 in
  set_w s2.(_wfile) 0 s2.(_woffset) (set_r s2.(_rfile) 0 s2.(_roffset) s2).

(** The state of the loop of the constructor: [_rid], [_wid] and [size]. *)
Definition scan_part (f : fs) (offset : nat) (acc : Z * Z * Z) (part : string) : Z * Z * Z :=
  let '(rid, wid, size) := acc in
  let ptr := str_drop offset part in
  let '(val, endptr) :=
    if String.eqb ptr "" then (0, ""%string)
    else let '(v, e) := strtol10 ptr in (wrap_i32 v, e) in
  if String.eqb endptr "" then
    (Z.min rid val, Z.max wid val, size + default 0 (file_size f part))
  else acc.

Definition ctor (os : os_env) (path : string) (max_file_size : Z) (auto_delete : bool)
    (d : disk_accessor) : res unit * splitter :=
  let '(base_dir, base_name) :=
    match find_last_slash path with
    | None => ("."%string, path)
    | Some dn => dn
    end in
  let parts := dir_content_with_filter base_dir base_name d.(disk_fs) in
  let offset := (String.length base_dir + String.length base_name +
    if negb (String.eqb base_dir "") && negb (ends_with_slash base_dir) then 1 else 0)%nat in
  let '(rid, wid, size) := foldl (scan_part d.(disk_fs) offset) (i32_max, 0, 0) parts in
  let rid := if (rid =? i32_max) || (rid <? 0) then 0 else rid in
  let s := Splitter auto_delete path
             (if max_file_size =? 0 then u32_max else Z.max max_file_size 10000)
             None rid 0 None wid 0 (set_current_size (wrap_u64 size) d) in
  match _open_write_file os s with
  | (Ret _, s) => (Ret tt, s)
  | (Throw e, s) => (Throw e, s)
  end.

(** ** The parts as a byte queue *)

Definition sfs (s : splitter) : fs := s.(disk).(disk_fs).
Definition pk (s : splitter) (id : Z) : string * string := resolve (path_of s id).
Definition part (s : splitter) (id : Z) : option nat := (sfs s).(names) !! pk s id.
Definition pdata (s : splitter) (id : Z) : list Z := named (sfs s) (pk s id).

(** Where the unread bytes of a part start. *)
Definition part_offset (s : splitter) (id : Z) : nat :=
  if id =? s.(_rid) then match s.(_rfile) with Some _ => s.(_roffset) | None => 8%nat end
  else 8%nat.
Definition piece (s : splitter) (id : Z) : list Z := drop (part_offset s id) (pdata s id).

(** The concatenation of [f] over [n] parts from part [a] on. *)
Definition range (a n : Z) (f : Z → list Z) : list Z := mjoin (f <$> seqZ a n).

(** The bytes written and not yet read. *)
Definition contents (s : splitter) : list Z :=
  range s.(_rid) (s.(_wid) - s.(_rid) + 1) (piece s).

Lemma range_cons a n f : 0 < n → range a n f = f a ++ range (a + 1) (n - 1) f.
Proof.
  intros Hn. unfold range. rewrite seqZ_cons by done.
  replace (Z.succ a) with (a + 1) by lia. by replace (Z.pred n) with (n - 1) by lia.
Qed.

Lemma range_snoc a n f : 0 ≤ n → range a (n + 1) f = range a n f ++ f (a + n).
Proof.
  intros Hn. unfold range. rewrite seqZ_app by lia. rewrite fmap_app, join_app.
  f_equal. rewrite seqZ_cons by lia. rewrite seqZ_nil by lia. simpl. by rewrite app_nil_r.
Qed.

Lemma range_ext a n f g : (∀ id, a ≤ id < a + n → f id = g id) → range a n f = range a n g.
Proof.
  intros H. unfold range. f_equal. apply list_fmap_ext. intros i id [-> ?]%lookup_seqZ.
  apply H. lia.
Qed.

Lemma pretty_digits z : 0 < z → all_chars is_digit (pretty z) = true.
Proof. intros ?. rewrite pretty_pos by done. by apply pretty_go_digits. Qed.

Lemma resolve_part base id :
  0 ≤ id →
  resolve (get_file_path base id) =
    ((resolve base).1, (resolve base).2 +:+ (if id =? 0 then "" else pretty id)).
Proof.
  intros Hid. unfold get_file_path. destruct (Z.eqb_spec id 0) as [->|Hne].
  - rewrite str_app_nil. by destruct (resolve base).
  - apply resolve_app, pretty_digits. lia.
Qed.

(** Different parts are different files. *)
Lemma resolve_part_inj base id id' :
  0 ≤ id → 0 ≤ id' →
  resolve (get_file_path base id) = resolve (get_file_path base id') → id = id'.
Proof.
  intros H0 H0'. rewrite !resolve_part by done. intros [= H%str_app_inj].
  assert (∀ z, 0 < z → pretty z ≠ ""%string) as Hne.
  { intros z Hz. rewrite pretty_pos by done. apply pretty_go_nonempty. left. lia. }
  destruct (Z.eqb_spec id 0), (Z.eqb_spec id' 0); subst; try done.
  - symmetry in H. by apply Hne in H; [|lia].
  - by apply Hne in H; [|lia].
  - by apply (inj pretty).
Qed.

Record sp_inv (s : splitter) : Prop := {
  inv_auto : s.(_auto_delete) = true;
  inv_ids : 0 ≤ s.(_rid) ≤ s.(_wid) ∧ s.(_wid) ≤ i32_max;
  inv_fs : fs_wf (sfs s);
  (** the parts from the one read to the one before the one written are there *)
  inv_mid id : s.(_rid) ≤ id < s.(_wid) → is_Some (part s id) ∧ (8 ≤ length (pdata s id))%nat;
  (** nothing beyond the part written *)
  inv_beyond id : s.(_wid) < id → part s id = None;
  (** [_wfile] is open on its part and [_woffset] is its size *)
  inv_w : match s.(_wfile) with
          | Some h => part s s.(_wid) = Some h.(file_inode) ∧ (8 ≤ length (pdata s s.(_wid)))%nat ∧
              s.(_woffset) = Z.of_nat (length (pdata s s.(_wid)))
          | None => pdata s s.(_wid) = []
          end;
  (** [_rfile] is open on its part, the same [FILE] when the part is shared *)
  inv_r : match s.(_rfile) with
          | Some h => part s s.(_rid) = Some h.(file_inode) ∧
              (8 ≤ s.(_roffset) ≤ length (pdata s s.(_rid)))%nat ∧
              (s.(_rid) = s.(_wid) → s.(_wfile) = Some h)
          | None => True
          end;
}.

(** The state [_open_write_file] is called in. *)
Record open_pre (s : splitter) : Prop := {
  op_auto : s.(_auto_delete) = true;
  op_ids : 0 ≤ s.(_rid) ≤ s.(_wid) ∧ s.(_wid) ≤ i32_max;
  op_fs : fs_wf (sfs s);
  op_mid id : s.(_rid) ≤ id < s.(_wid) → is_Some (part s id) ∧ (8 ≤ length (pdata s id))%nat;
  op_beyond id : s.(_wid) < id → part s id = None;
  op_w : pdata s s.(_wid) = [] ∨ (8 ≤ length (pdata s s.(_wid)))%nat;
  op_r : match s.(_rfile) with
         | Some h => part s s.(_rid) = Some h.(file_inode) ∧
             (8 ≤ s.(_roffset) ≤ length (pdata s s.(_rid)))%nat ∧ s.(_rid) < s.(_wid)
         | None => True
         end;
}.

Lemma pk_inj s id id' : 0 ≤ id → 0 ≤ id' → pk s id = pk s id' → id = id'.
Proof. apply resolve_part_inj. Qed.

(** Only the part written differs, and the writer's fields. *)
Definition same_but_w (s s' : splitter) : Prop :=
  (s'.(_auto_delete), s'.(_base_path), s'.(_max_file_size), s'.(_rfile), s'.(_rid),
   s'.(_roffset), s'.(_wid), s'.(disk).(_limit_size)) =
  (s.(_auto_delete), s.(_base_path), s.(_max_file_size), s.(_rfile), s.(_rid),
   s.(_roffset), s.(_wid), s.(disk).(_limit_size)) ∧
  (∀ k, k ≠ pk s s.(_wid) →
     (sfs s').(names) !! k = (sfs s).(names) !! k ∧ named (sfs s') k = named (sfs s) k).

Lemma same_but_w_refl s : same_but_w s s.
Proof. by split. Qed.

Lemma same_but_w_trans s1 s2 s3 : same_but_w s1 s2 → same_but_w s2 s3 → same_but_w s1 s3.
Proof.
  intros [H1 K1] [H2 K2]. split; [congruence|]. intros k Hk. rewrite <- !(proj1 (K1 k Hk)), <- (proj2 (K1 k Hk)).
  apply K2. injection H1 as ? Hb. unfold pk, path_of in *. congruence.
Qed.

Lemma same_pk s s' id : same_but_w s s' → pk s' id = pk s id.
Proof. intros [[= ? Hb] _]. unfold pk, path_of. congruence. Qed.

Lemma same_other s s' id :
  same_but_w s s' → 0 ≤ id → 0 ≤ s.(_wid) → id ≠ s.(_wid) →
  part s' id = part s id ∧ pdata s' id = pdata s id.
Proof.
  intros Hs H0 Hw Hne. unfold part, pdata. rewrite (same_pk s s') by done.
  apply Hs. intros ?%pk_inj; done.
Qed.

Lemma same_contents s s' :
  same_but_w s s' → 0 ≤ s.(_rid) ≤ s.(_wid) → piece s' s.(_wid) = piece s s.(_wid) →
  contents s' = contents s.
Proof.
  intros Hs Hid Hp. pose proof Hs as [[= _ _ _ Hf Hr Ho Hw _] _].
  unfold contents. rewrite Hr, Hw. apply range_ext. intros id Hr'.
  destruct (decide (id = s.(_wid))) as [->|Hne]; [done|].
  unfold piece, part_offset. rewrite Hf, Hr, Ho. f_equal.
  by apply same_other; [|lia..|].
Qed.

Lemma open_pre_inv s s' :
  open_pre s → same_but_w s s' → fs_wf (sfs s') →
  match s'.(_wfile) with
  | Some h => part s' s.(_wid) = Some h.(file_inode) ∧ (8 ≤ length (pdata s' s.(_wid)))%nat ∧
      s'.(_woffset) = Z.of_nat (length (pdata s' s.(_wid)))
  | None => pdata s' s.(_wid) = []
  end → sp_inv s'.
Proof.
  intros [Ha Hid Hfs Hmid Hbey Hw Hr] Hs Hfs' Hw'.
  pose proof Hs as [[= Ea _ _ Ef Er Eo Ew _] _].
  constructor; rewrite ?Ea, ?Ef, ?Er, ?Eo, ?Ew; try done.
  - intros id Hlt. destruct (same_other s s' id) as [-> ->]; [done|lia..|]. by apply Hmid.
  - intros id Hlt. destruct (same_other s s' id) as [-> _]; [done|lia..|]. by apply Hbey.
  - destruct s.(_rfile) as [h|]; [|done].
    destruct Hr as (? & ? & ?). destruct (same_other s s' s.(_rid)) as [-> ->]; [done|lia..|].
    split_and!; [done|lia|lia|lia].
Qed.

(** The outcome of [_open_write_file] is a new disk and a new [_wfile]: what
    they must satisfy for the queue to be unchanged. *)
Lemma reopened s f off d :
  open_pre s → d.(_limit_size) = s.(disk).(_limit_size) → fs_wf d.(disk_fs) →
  (∀ k, k ≠ pk s s.(_wid) →
     d.(disk_fs).(names) !! k = (sfs s).(names) !! k ∧ named d.(disk_fs) k = named (sfs s) k) →
  drop 8 (named d.(disk_fs) (pk s s.(_wid))) = drop 8 (pdata s s.(_wid)) →
  match f with
  | Some h => d.(disk_fs).(names) !! pk s s.(_wid) = Some h.(file_inode) ∧
      (8 ≤ length (named d.(disk_fs) (pk s s.(_wid))))%nat ∧
      off = Z.of_nat (length (named d.(disk_fs) (pk s s.(_wid))))
  | None => named d.(disk_fs) (pk s s.(_wid)) = []
  end →
  sp_inv (set_disk d (set_w f s.(_wid) off s)) ∧
  same_but_w s (set_disk d (set_w f s.(_wid) off s)) ∧
  contents (set_disk d (set_w f s.(_wid) off s)) = contents s.
Proof.
  intros Hpre Hl Hfs Hoth Hdrop Hw. set (s' := set_disk _ _).
  assert (same_but_w s s') as Hs by (split; [cbn; congruence|exact Hoth]).
  pose proof Hpre as [_ Hid _ _ _ _ Hr]. split_and!; [|done|].
  - by apply (open_pre_inv s).
  - apply same_contents; [done|lia|]. unfold piece.
    assert (part_offset s s.(_wid) = 8%nat) as Hoff.
    { unfold part_offset. destruct (Z.eqb_spec s.(_wid) s.(_rid)); [|done].
      destruct s.(_rfile); [lia|done]. }
    change (part_offset s' s.(_wid)) with (part_offset s s.(_wid)). by rewrite Hoff.
Qed.

(** [_open_write_file], when the system answers: it opens the part written, or
    leaves it closed when the limit refuses the header; the queue is unchanged. *)
Lemma open_write_spec os s :
  healthy os → open_pre s →
  ∃ b s', _open_write_file os s = (Ret b, s') ∧
    (sp_inv s' ∧ same_but_w s s' ∧ contents s' = contents s) ∧
    (b = true ↔ is_Some s'.(_wfile)) ∧
    (s.(disk).(_limit_size) = 0 → b = true) ∧
    (pdata s' s.(_wid) = pdata s s.(_wid) ∨ pdata s' s.(_wid) = header) ∧
    (b = true → pdata s s.(_wid) = [] → pdata s' s.(_wid) = header).
Proof.
  intros Hos Hpre. pose proof Hos as (Hopen & _).
  pose proof (op_fs _ Hpre) as Hfs. pose proof (op_w _ Hpre) as Hw.
  unfold _open_write_file. rewrite Hopen.
  destruct (open_append _ _) as [h fs1] eqn:Hop.
  apply open_append_spec in Hop as (Hfs1 & Hk & Hoth & Hnam & _); [|done].
  change (disk_fs (disk s)) with (sfs s) in *.
  assert (data_of fs1 h.(file_inode) = pdata s s.(_wid)) as ->.
  { unfold pdata. rewrite <- Hnam. unfold named, pk. by rewrite Hk. }
  unfold header_size. destruct (Z.ltb_spec (Z.of_nat (length (pdata s s.(_wid)))) 8) as [Hl|Hl].
  - assert (pdata s s.(_wid) = []) as He by (destruct Hw; [done|lia]).
    rewrite fwrite_healthy by done.
    destruct (room (length header) (set_fs fs1 s.(disk))) eqn:Hroom.
    + replace (Z.of_nat (length header) =? 8) with true by done.
      destruct (named_append h header fs1 (pk s s.(_wid))) as [Hap Hap']; [done..|].
      rewrite Hnam in Hap. fold (pdata s (_wid s)) in Hap. rewrite He in Hap.
      eexists true, _. split; [reflexivity|]. split; [|by split_and!; [..|right|]].
      apply reopened; [done|done|by apply append_wf| |by cbn [disk_fs set_fs]; rewrite Hap, He|].
      * intros k Hne. cbn [disk_fs set_fs]. rewrite Hap', Hnam by done. by split; [apply Hoth|].
      * cbn [disk_fs set_fs]. rewrite Hap. by split.
    + replace (0 =? 8) with false by done.
      eexists false, _. split; [reflexivity|]. split.
      * apply reopened; [done..|by intros k ?; split; [apply Hoth|]| |].
        all: cbn [disk_fs set_fs]; by rewrite Hnam.
      * split_and!; [split; [done|by intros []]| |left; apply Hnam|done]. intros Hz.
        unfold room in Hroom. cbn in Hroom. by rewrite Hz in Hroom.
  - eexists true, _. split; [reflexivity|]. split.
    + apply reopened; [done..|by intros k ?; split; [apply Hoth|]| |].
      * cbn [disk_fs set_fs]. by rewrite Hnam.
      * cbn [disk_fs set_fs]. rewrite Hnam. fold (pdata s (_wid s)). split_and!; [done|lia|done].
    + split_and!; [done|done|left; apply Hnam|]. intros _ He. rewrite He in Hl. simpl in Hl. lia.
Qed.

(** ** Writing *)

Lemma piece_absent s id : part s id = None → piece s id = [].
Proof. unfold part, piece, pdata, named. intros ->. apply drop_nil. Qed.

Lemma set_disk_set_w_id s : set_disk s.(disk) (set_w s.(_wfile) s.(_wid) s.(_woffset) s) = s.
Proof. by destruct s. Qed.

(** The splitter after [buffer] went to the part written. *)
Definition appended (h : FILE) (buffer : list Z) (s : splitter) : splitter :=
  let size := Z.of_nat (length buffer) in
  set_disk (Disk s.(disk).(_limit_size) (wrap_u64 (s.(disk).(_current_size) + size))
              (append h buffer s.(disk).(disk_fs)))
    (set_w s.(_wfile) s.(_wid) (s.(_woffset) + size) s).

Lemma write_part_eq os buffer s h :
  healthy os → s.(_wfile) = Some h →
  write_part os buffer s =
    if room (length buffer) s.(disk) then (Ret (Z.of_nat (length buffer)), appended h buffer s)
    else (Ret 0, s).
Proof.
  intros Hos Hh. unfold write_part, appended. rewrite Hh, fwrite_healthy by done.
  destruct (room _ _).
  - by rewrite Z.eqb_refl.
  - destruct (Z.eqb_spec 0 (Z.of_nat (length buffer))) as [<-|].
    + rewrite Z.add_0_r, <- Hh. by rewrite set_disk_set_w_id.
    + f_equal. by destruct s.
Qed.

Lemma appended_spec h buffer s :
  sp_inv s → s.(_wfile) = Some h →
  sp_inv (appended h buffer s) ∧ same_but_w s (appended h buffer s) ∧
  pdata (appended h buffer s) s.(_wid) = pdata s s.(_wid) ++ buffer ∧
  contents (appended h buffer s) = contents s ++ buffer.
Proof.
  intros [Ha Hid Hfs Hmid Hbey Hw Hr] Hh. rewrite Hh in Hw. destruct Hw as (Hp & Hl & Ho).
  set (s' := appended h buffer s).
  destruct (named_append h buffer (sfs s) (pk s s.(_wid))) as [Hap Hap']; [done..|].
  assert (same_but_w s s') as Hs.
  { split; [done|]. intros k Hk. split; [done|]. by apply Hap'. }
  assert (pdata s' s.(_wid) = pdata s s.(_wid) ++ buffer) as Hd by exact Hap.
  assert (∀ id, part s' id = part s id) as Hpart by done.
  assert (∀ id, 0 ≤ id → id ≠ s.(_wid) → pdata s' id = pdata s id) as Hoth.
  { intros id ??. by apply same_other; [..|lia|]. }
  split_and!; try done.
  - constructor; try done.
    + intros id Hlt. cbn in Hlt. rewrite Hpart, Hoth by lia. by apply Hmid.
    + cbn [_wfile s' appended set_disk set_w _wid _woffset]. rewrite Hh, Hpart.
      fold s'. rewrite Hd, length_app. split_and!; [done|lia|lia].
    + cbn [_rfile _rid _roffset _wid _wfile s' appended set_disk set_w].
      destruct s.(_rfile) as [g|]; [|done]. rewrite Hpart. destruct Hr as (? & Hle & ?).
      split_and!; [done|lia| |done].
      destruct (decide (s.(_rid) = s.(_wid))) as [E|]; fold s'.
      * rewrite E in Hle |- *. rewrite Hd, length_app. lia.
      * rewrite Hoth by lia. lia.
  - unfold contents. cbn [_rid _wid s' appended set_disk set_w].
    rewrite !range_snoc, <- app_assoc by lia. f_equal.
    + apply range_ext. intros id Hlt. unfold piece. f_equal. apply Hoth; lia.
    + replace (s.(_rid) + (s.(_wid) - s.(_rid))) with s.(_wid) by lia.
      unfold piece. fold s'. rewrite Hd. change (part_offset s' (_wid s)) with (part_offset s (_wid s)).
      apply drop_app_le. unfold part_offset.
      destruct (Z.eqb_spec s.(_wid) s.(_rid)) as [E|]; [|done].
      destruct s.(_rfile); [|done]. rewrite E. lia.
Qed.

Lemma inv_open_pre s : sp_inv s → s.(_wfile) = None → open_pre s.
Proof.
  intros [Ha Hid Hfs Hmid Hbey Hw Hr] Hn. rewrite Hn in *. constructor; try done; [by left|].
  destruct s.(_rfile) as [h|]; [|done]. destruct Hr as (? & ? & Hsh). split_and!; [done|lia|lia|].
  destruct (decide (s.(_rid) = s.(_wid))); [|lia]. by specialize (Hsh ltac:(done)).
Qed.

(** The state after [++_wid]. *)
Lemma rolled_open_pre s h :
  sp_inv s → s.(_wfile) = Some h → s.(_wid) < i32_max →
  open_pre (set_w s.(_wfile) (s.(_wid) + 1) s.(_woffset) s) ∧
  contents (set_w s.(_wfile) (s.(_wid) + 1) s.(_woffset) s) = contents s ∧
  pdata s (s.(_wid) + 1) = [].
Proof.
  intros [Ha Hid Hfs Hmid Hbey Hw Hr] Hh Hmax. rewrite Hh in Hw. destruct Hw as (Hp & Hl & Ho).
  set (s' := set_w _ _ _ _).
  assert (part s (s.(_wid) + 1) = None) as Hnone by (apply Hbey; lia).
  assert (pdata s (s.(_wid) + 1) = []) as Hnil.
  { unfold pdata, named. unfold part in Hnone. by rewrite Hnone. }
  split_and!; [| |done].
  - constructor; cbn [s' set_w _auto_delete _rid _wid _rfile _roffset]; try done.
    + lia.
    + intros id Hlt. change (part s' id) with (part s id). change (pdata s' id) with (pdata s id).
      destruct (decide (id = s.(_wid))) as [->|]; [|apply Hmid; lia]. by rewrite Hp.
    + intros id Hlt. apply Hbey. lia.
    + by left.
    + destruct s.(_rfile); [|done]. destruct Hr as (? & ? & ?). split_and!; [done|lia|change (pdata s') with (pdata s); lia|lia].
  - unfold contents. cbn [s' set_w _rid _wid].
    replace (s.(_wid) + 1 - s.(_rid) + 1) with (s.(_wid) - s.(_rid) + 1 + 1) by lia.
    rewrite (range_snoc _ (s.(_wid) - s.(_rid) + 1)) by lia.
    replace (s.(_rid) + (s.(_wid) - s.(_rid) + 1)) with (s.(_wid) + 1) by lia.
    change (piece s') with (piece s). rewrite piece_absent by done. by rewrite app_nil_r.
Qed.

(** No part is larger than [m]. *)
Definition parts_le (m : Z) (s : splitter) : Prop :=
  ∀ id, 0 ≤ id → Z.of_nat (length (pdata s id)) ≤ m.

Lemma parts_le_step m s s' :
  same_but_w s s' → 0 ≤ s.(_wid) → parts_le m s →
  Z.of_nat (length (pdata s' s.(_wid))) ≤ m → parts_le m s'.
Proof.
  intros Hs Hw Hle Hlast id Hid. destruct (decide (id = s.(_wid))) as [->|]; [done|].
  destruct (same_other s s' id) as [_ ->]; [done..|]. by apply Hle.
Qed.

(** What [write] does with the part that is open. *)
Lemma write_tail os buffer s :
  healthy os → sp_inv s → is_Some s.(_wfile) →
  ∃ r s', write_part os buffer s = (Ret r, s') ∧ sp_inv s' ∧ same_but_w s s' ∧
    (∀ m, parts_le m s → Z.of_nat (length (pdata s s.(_wid)) + length buffer) ≤ m → parts_le m s') ∧
    (r = Z.of_nat (length buffer) ∧ contents s' = contents s ++ buffer ∨
     r = 0 ∧ contents s' = contents s ∧ s.(disk).(_limit_size) ≠ 0).
Proof.
  intros Hos Hinv [h Hh]. rewrite (write_part_eq _ _ _ h) by done.
  destruct (room (length buffer) s.(disk)) eqn:Hr.
  - destruct (appended_spec h buffer s) as (Hi & Hs & Hd & Hc); [done..|].
    do 2 eexists. split; [reflexivity|]. split_and!; [done..| |by left].
    intros m Hm Hlen. apply (parts_le_step _ s); [done| |done|].
    + pose proof (inv_ids _ Hinv). lia.
    + rewrite Hd, length_app. lia.
  - do 2 eexists. split; [reflexivity|]. split_and!; [done|apply same_but_w_refl|done|].
    right. split_and!; [done..|]. intros Hz. unfold room in Hr. by rewrite Hz in Hr.
Qed.

(** [_open_write_file] before a write: opened, or refused by the limit. *)
Lemma open_write_tail os s :
  healthy os → open_pre s →
  ∃ b s', _open_write_file os s = (Ret b, s') ∧ sp_inv s' ∧ same_but_w s s' ∧
    contents s' = contents s ∧ (∀ m, parts_le m s → 8 ≤ m → parts_le m s') ∧
    (if b then is_Some s'.(_wfile) else s.(disk).(_limit_size) ≠ 0) ∧
    (b = true → pdata s s.(_wid) = [] → pdata s' s.(_wid) = header).
Proof.
  intros Hos Hpre.
  destruct (open_write_spec os s) as (b & s' & -> & (Hi & Hs & Hc) & Hb & Hl & Hd & Hn); [done..|].
  exists b, s'. split_and!; try done.
  - intros m Hm H8. pose proof (op_ids _ Hpre). apply (parts_le_step _ s); [done|lia|done|].
    destruct Hd as [-> | ->]; [|done]. apply Hm. lia.
  - destruct b; [by apply Hb|]. intros Hz. by specialize (Hl Hz).
Qed.

(** The largest part a write of [buffer] can leave. *)
Definition max_part (s : splitter) (buffer : list Z) : Z :=
  Z.max s.(_max_file_size) (header_size + Z.of_nat (length buffer)).

(** The outcome of [write]: all the bytes are queued, or none, and then only
    because there is a limit. *)
Definition write_post (buffer : list Z) (s : splitter) (r : Z) (s' : splitter) : Prop :=
  sp_inv s' ∧ s.(_wid) ≤ s'.(_wid) ≤ s.(_wid) + 1 ∧
  s'.(_max_file_size) = s.(_max_file_size) ∧
  s'.(disk).(_limit_size) = s.(disk).(_limit_size) ∧
  (∀ m, max_part s buffer ≤ m → parts_le m s → parts_le m s') ∧
  (r = Z.of_nat (length buffer) ∧ contents s' = contents s ++ buffer ∨
   r = 0 ∧ contents s' = contents s ∧ s.(disk).(_limit_size) ≠ 0).

(** [write] from the point where [_wfile] is open. *)
Definition write_open (os : os_env) (buffer : list Z) : St splitter Z := λ s,
  if s.(_max_file_size) <? s.(_woffset) + Z.of_nat (length buffer) then
    match _open_write_file os (set_w s.(_wfile) (wrap_i32 (s.(_wid) + 1)) s.(_woffset) s) with
    | (Ret true, s2) => write_part os buffer s2
    | (Ret false, s2) => (Ret 0, s2)
    | (Throw e, s2) => (Throw e, s2)
    end
  else write_part os buffer s.

Lemma write_eq os buffer s :
  os.(flush_ok) = true →
  write os buffer s =
    match (match s.(_wfile) with Some _ => (Ret true, s) | None => _open_write_file os s end) with
    | (Throw e, s1) => (Throw e, s1)
    | (Ret false, s1) => (Ret 0, s1)
    | (Ret true, s1) => write_open os buffer s1
    end.
Proof. intros Hf. unfold write, write_open. by rewrite Hf. Qed.

Lemma write_open_spec os buffer s :
  healthy os → sp_inv s → is_Some s.(_wfile) → s.(_wid) < i32_max →
  ∃ r s', write_open os buffer s = (Ret r, s') ∧ write_post buffer s r s'.
Proof.
  intros Hos Hinv [h Hh] Hmax. pose proof (inv_ids _ Hinv) as Hid. unfold write_open.
  pose proof (inv_w _ Hinv) as Hw. rewrite Hh in Hw. destruct Hw as (_ & H8 & Hoff).
  destruct (Z.ltb_spec s.(_max_file_size) (s.(_woffset) + Z.of_nat (length buffer))) as [Hroll|Hfit].
  - rewrite wrap_i32_small by (unfold i32_max in *; lia).
    destruct (rolled_open_pre s h) as (Hpre & Hc & Hnil); [done..|].
    destruct (open_write_tail os _ Hos Hpre) as (b & s2 & -> & Hi2 & Hs2 & Hc2 & Hm2 & Hb & Hnew).
    pose proof Hs2 as [[= _ _ Em _ _ _ Ew El] _]. destruct b.
    + destruct (write_tail os buffer s2) as (r & s' & -> & Hi' & Hs' & Hm' & Hr); [done..|].
      pose proof Hs' as [[= _ _ Em' _ _ _ Ew' El'] _]. rewrite El, Hc2, Hc in Hr.
      exists r, s'. split; [done|]. unfold write_post. rewrite El', Em', Ew'.
      split_and!; try done; try lia. intros m Hle Hm.
      specialize (Hnew eq_refl Hnil). cbn [_wid set_w] in Hnew.
      unfold max_part, header_size in Hle. apply Hm'; [apply Hm2; [exact Hm|lia]|].
      rewrite Ew, Hnew. cbn [header length]. lia.
    + exists 0, s2. split; [done|]. unfold write_post. split_and!; try done; try lia.
      * intros m Hle Hm. unfold max_part, header_size in Hle. apply Hm2; [exact Hm|lia].
      * right. by rewrite Hc2, Hc.
  - destruct (write_tail os buffer s) as (r & s' & -> & Hi' & Hs' & Hm' & Hr); [done..|].
    exists r, s'. pose proof Hs' as [[= _ _ Em' _ _ _ Ew' El'] _]. split; [done|].
    unfold write_post. rewrite Ew'. split_and!; try done; try lia. intros m Hle Hm. apply Hm'; [done|].
    unfold max_part in Hle. lia.
Qed.

(** The functional behaviour of [write] on a healthy system. *)
Lemma write_spec os buffer s :
  healthy os → sp_inv s → s.(_wid) < i32_max →
  ∃ r s', write os buffer s = (Ret r, s') ∧ write_post buffer s r s'.
Proof.
  intros Hos Hinv Hmax. pose proof Hos as (_ & Hfl & _). rewrite write_eq by done.
  destruct s.(_wfile) as [h|] eqn:Hh; [by apply write_open_spec; rewrite ?Hh|].
  destruct (open_write_tail os s Hos) as (b & s1 & -> & Hi1 & Hs1 & Hc1 & Hm1 & Hb & _);
    [by apply inv_open_pre|].
  pose proof Hs1 as [[= _ _ Em _ _ _ Ew El] _]. destruct b.
  - destruct (write_open_spec os buffer s1) as (r & s' & -> & Hp); [done..|by rewrite Ew|].
    exists r, s'. split; [done|]. unfold write_post, max_part in *. rewrite Em, El, Ew, Hc1 in Hp.
    destruct Hp as (? & ? & ? & ? & Hm & ?). split_and!; try done; try lia.
    intros m Hle Hm0. apply Hm; [done|]. apply Hm1; [done|]. unfold header_size in Hle. lia.
  - exists 0, s1. split; [done|]. unfold write_post. split_and!; try done; try lia.
    + intros m Hle Hm0. apply Hm1; [done|]. unfold max_part, header_size in Hle. lia.
    + right. by split_and!.
Qed.

(** ** Reading *)

Definition closed_r (s : splitter) : splitter := set_r None s.(_rid) s.(_roffset) s.

Lemma closed_r_inv s : sp_inv s → sp_inv (closed_r s).
Proof. intros [? ? ? ? ? ? ?]. by constructor. Qed.

Lemma removed_other s s' id :
  s'.(_base_path) = s.(_base_path) →
  sfs s' = unlink (path_of s s.(_rid)) (sfs s) →
  0 ≤ id → 0 ≤ s.(_rid) → id ≠ s.(_rid) →
  part s' id = part s id ∧ pdata s' id = pdata s id.
Proof.
  intros Hb Hf ? ? Hne.
  assert (pk s id ≠ pk s s.(_rid)) as Hk by by intros ?%pk_inj.
  unfold part, pdata, pk, path_of in *. rewrite Hb, Hf. rewrite named_unlink, decide_False by done.
  unfold unlink. cbn [names]. by rewrite lookup_delete_ne by congruence.
Qed.

(** The part read is exhausted and erased, the next one comes. *)
Lemma erase_next s :
  sp_inv (closed_r s) → s.(_rid) < s.(_wid) → s.(_auto_delete) = true →
  sp_inv (set_r None (s.(_rid) + 1) s.(_roffset) (erase_read_part s)) ∧
  contents (set_r None (s.(_rid) + 1) s.(_roffset) (erase_read_part s)) =
    range (s.(_rid) + 1) (s.(_wid) - s.(_rid)) (λ id, drop 8 (pdata s id)).
Proof.
  intros [_ Hid Hfs Hmid Hbey Hw _] Hlt Ha. set (s' := set_r _ _ _ _).
  assert (s' = set_disk (remove (path_of s s.(_rid)) s.(disk)) (set_r None (s.(_rid) + 1) s.(_roffset) s))
    as Es.
  { unfold s', erase_read_part. rewrite (proj2 (Z.eqb_neq _ _)) by lia. done. }
  assert (∀ id, s.(_rid) < id → part s' id = part s id ∧ pdata s' id = pdata s id) as Hoth.
  { intros id Hi. cbn in Hid. apply removed_other; [by rewrite Es|by rewrite Es|lia..]. }
  cbn in Hid, Hfs, Hmid, Hbey, Hw. split.
  - constructor; rewrite Es; try done; cbn; try lia.
    + by apply unlink_wf.
    + intros id Hi. rewrite <- Es. destruct (Hoth id) as [-> ->]; [lia|]. apply Hmid. lia.
    + intros id Hi. rewrite <- Es. destruct (Hoth id) as [-> _]; [lia|]. by apply Hbey.
    + rewrite <- Es. destruct (Hoth s.(_wid)) as [-> ->]; [lia|]. done.
  - unfold contents. replace (s'.(_rid)) with (s.(_rid) + 1) by by rewrite Es.
    replace (s'.(_wid)) with s.(_wid) by by rewrite Es.
    replace (s.(_wid) - (s.(_rid) + 1) + 1) with (s.(_wid) - s.(_rid)) by lia.
    apply range_ext. intros id Hi. unfold piece. destruct (Hoth id) as [_ ->]; [lia|].
    f_equal. unfold part_offset. rewrite Es. cbn. by destruct (id =? _).
Qed.

(** The last part is exhausted and erased. *)
Lemma erase_last s :
  sp_inv (closed_r s) → s.(_rid) = s.(_wid) → (s.(_wfile) = s.(_rfile) ∨ s.(_wfile) = None) →
  sp_inv (erase_read_part s) ∧ contents (erase_read_part s) = [].
Proof.
  intros [Ha Hid Hfs Hmid Hbey Hw _] Heq Hwr. set (s' := erase_read_part s).
  assert (s' = set_disk (remove (path_of s s.(_rid)) s.(disk))
                 (set_w None s.(_wid) s.(_woffset) (closed_r s))) as Es.
  { unfold s', erase_read_part. rewrite (proj2 (Z.eqb_eq _ _)) by done. cbn [andb].
    case_bool_decide as Hd; [done|]. destruct Hwr as [|Hn]; [done|].
    unfold closed_r, set_w, set_r, set_disk. cbn. by rewrite Hn. }
  cbn in Ha, Hid, Hfs, Hmid, Hbey, Hw.
  assert (pdata s' s.(_rid) = []) as Hnil.
  { unfold pdata. rewrite Es. unfold sfs. cbn [disk set_disk remove disk_fs].
    by rewrite named_unlink, decide_True. }
  assert (∀ id, s.(_wid) < id → part s' id = None) as Hb'.
  { intros id Hi. destruct (removed_other s s' id) as [-> _]; [by rewrite Es|by rewrite Es|lia..|].
    by apply Hbey. }
  split.
  - constructor; rewrite Es; try done; cbn; try lia.
    + by apply unlink_wf.
    + intros id Hi. rewrite <- Es. by apply Hb'.
    + rewrite <- Es, <- Heq. done.
  - unfold contents. replace (s'.(_rid)) with s.(_rid) by by rewrite Es.
    replace (s'.(_wid)) with s.(_wid) by by rewrite Es.
    rewrite range_cons by lia. unfold piece at 1. rewrite Hnil, drop_nil.
    replace (s.(_wid) - s.(_rid) + 1 - 1) with 0 by lia. done.
Qed.

(** [_rfile] is open.  A part that holds no header yet can be open too: it has
    nothing to read. *)
Record readable (s : splitter) (h : FILE) : Prop := {
  rd_file : s.(_rfile) = Some h;
  rd_part : part s s.(_rid) = Some h.(file_inode);
  rd_closed : sp_inv (closed_r s);
  rd_offset : (8 ≤ s.(_roffset))%nat;
  rd_shared : s.(_rid) = s.(_wid) → s.(_wfile) = s.(_rfile) ∨ s.(_wfile) = None;
  rd_inv : drop s.(_roffset) (pdata s s.(_rid)) ≠ [] → sp_inv s;
}.

Lemma inv_readable s h : sp_inv s → s.(_rfile) = Some h → readable s h.
Proof.
  intros Hinv Hh. pose proof (inv_r _ Hinv) as Hr. rewrite Hh in Hr. destruct Hr as (Hp & Ho & Hs).
  constructor; try done; [by apply closed_r_inv|lia|]. intros Heq. left. rewrite Hh. by apply Hs.
Qed.

(** The invariant only depends on the view of the parts. *)
Lemma sp_inv_view s s' :
  sp_inv s → fs_wf (sfs s') → s'.(_auto_delete) = true →
  (s'.(_rid), s'.(_wid), s'.(_wfile), s'.(_woffset)) =
    (s.(_rid), s.(_wid), s.(_wfile), s.(_woffset)) →
  (∀ id, part s' id = part s id ∧ pdata s' id = pdata s id) →
  match s'.(_rfile) with
  | Some h => part s s.(_rid) = Some h.(file_inode) ∧
      (8 ≤ s'.(_roffset) ≤ length (pdata s s.(_rid)))%nat ∧
      (s.(_rid) = s.(_wid) → s.(_wfile) = Some h)
  | None => True
  end → sp_inv s'.
Proof.
  intros [Ha Hid Hfs Hmid Hbey Hw _] Hf' Ha' [= Er Ew Ef Eo] Hv Hr.
  constructor; rewrite ?Er, ?Ew, ?Ef, ?Eo; try done.
  - intros id Hi. destruct (Hv id) as [-> ->]. by apply Hmid.
  - intros id Hi. destruct (Hv id) as [-> _]. by apply Hbey.
  - destruct (Hv s.(_wid)) as [-> ->]. done.
  - destruct (Hv s.(_rid)) as [-> ->]. done.
Qed.

Lemma contents_view s s' :
  (s'.(_rid), s'.(_wid)) = (s.(_rid), s.(_wid)) →
  (∀ id, pdata s' id = pdata s id) → part_offset s' s.(_rid) = part_offset s s.(_rid) →
  contents s' = contents s.
Proof.
  intros [= Er Ew] Hv Ho. unfold contents. rewrite Er, Ew. apply range_ext. intros id _.
  unfold piece. rewrite Hv. f_equal. destruct (decide (id = s.(_rid))) as [->|Hne]; [done|].
  unfold part_offset. rewrite Er. by rewrite (proj2 (Z.eqb_neq _ _)).
Qed.

Lemma opened_readable s h f' :
  sp_inv s → s.(_rfile) = None → fs_wf f' →
  f'.(names) = (sfs s).(names) → f'.(inodes) = (sfs s).(inodes) →
  part s s.(_rid) = Some h.(file_inode) →
  (s.(_rid) = s.(_wid) → s.(_wfile) = Some h ∨ s.(_wfile) = None) →
  readable (set_r (Some h) s.(_rid) 8 (set_disk (set_fs f' s.(disk)) s)) h ∧
  contents (set_r (Some h) s.(_rid) 8 (set_disk (set_fs f' s.(disk)) s)) = contents s.
Proof.
  intros Hinv Hn Hf' En Ei Hp Hs. pose proof (inv_auto _ Hinv) as Ha. set (s' := set_r _ _ _ _).
  assert (∀ id, part s' id = part s id ∧ pdata s' id = pdata s id) as Hv.
  { intros id. unfold part, pdata, named, data_of. cbn [sfs s' disk set_r set_disk set_fs disk_fs].
    change (pk s' id) with (pk s id). unfold sfs in En, Ei. unfold sfs. cbn. by rewrite En, Ei. }
  split.
  - constructor; try done.
    + by rewrite (proj1 (Hv _)).
    + by apply (sp_inv_view s).
    + intros Hne. apply (sp_inv_view s); try done. cbn [_rfile s' set_r _roffset].
      rewrite (proj2 (Hv _)) in Hne. cbn [_rid _roffset s' set_r] in Hne.
      assert (length (drop 8 (pdata s s.(_rid))) ≠ 0%nat) as Hl
        by by intros ?%nil_length_inv.
      rewrite length_drop in Hl. split_and!; [done|lia|lia|]. intros Heq.
      destruct (Hs Heq) as [|Hw]; [done|]. pose proof (inv_w _ Hinv) as Hi.
      rewrite Hw, <- Heq in Hi. by rewrite Hi, drop_nil in Hne.
  - apply contents_view; [done|apply Hv|]. unfold part_offset. cbn.
    by rewrite Z.eqb_refl, Hn.
Qed.

(** [_open_read_file]: the part is opened, or it is not there and nothing waits. *)
Lemma open_read_spec os s :
  healthy os → sp_inv s → s.(_rfile) = None →
  ∃ s1, _open_read_file os s = (Ret tt, s1) ∧
    (s1 = s ∧ contents s = [] ∨
     ∃ h, readable s1 h ∧ contents s1 = contents s ∧ s1.(_rid) = s.(_rid) ∧ s1.(_wid) = s.(_wid)).
Proof.
  intros (Hopen & _) Hinv Hn. unfold _open_read_file, header_size. rewrite Hopen.
  pose proof Hinv as [_ Hid Hfs Hmid _ Hw _].
  destruct (if s.(_rid) =? s.(_wid) then s.(_wfile) else None) as [h|] eqn:Hsh.
  - destruct (Z.eqb_spec s.(_rid) s.(_wid)) as [Heq|]; [|done].
    eexists. split; [reflexivity|]. right. exists h.
    rewrite Hsh, <- Heq in Hw. destruct Hw as (Hp & _).
    destruct (opened_readable s h (sfs s)) as [Hr Hc]; [done..|by left|].
    replace (set_disk (set_fs (sfs s) s.(disk)) s) with s in Hr, Hc
      by by destruct s as [????????? [? ? ?]].
    by split_and!.
  - pose proof (open_existing_spec (path_of s s.(_rid)) (sfs s) Hfs) as Hoe.
    fold (pk s s.(_rid)) in Hoe. fold (part s s.(_rid)) in Hoe.
    change (disk_fs (disk s)) with (sfs s).
    destruct (part s s.(_rid)) as [i|] eqn:Hp.
    + destruct Hoe as (h & f' & -> & Hf' & <- & En & Ei).
      eexists. split; [reflexivity|]. right. exists h.
      destruct (opened_readable s h f') as [Hr Hc]; [done..| |by split_and!].
      intros Heq. right. by rewrite (proj2 (Z.eqb_eq _ _)) in Hsh.
    + rewrite Hoe. eexists. split; [reflexivity|]. left. split; [done|].
      assert (s.(_rid) = s.(_wid)) as Heq.
      { destruct (decide (s.(_rid) = s.(_wid))); [done|].
        destruct (Hmid s.(_rid)) as [[? ?] _]; [lia|congruence]. }
      unfold contents. rewrite range_cons by lia. rewrite piece_absent by done.
      by replace (s.(_wid) - s.(_rid) + 1 - 1) with 0 by lia.
Qed.

Lemma fread_part os n s h :
  os.(fread_fault) = false → readable s h →
  fread os n s.(_roffset) h s.(disk) = take n (drop s.(_roffset) (pdata s s.(_rid))).
Proof.
  intros Hos Hr. unfold fread. rewrite Hos. unfold read_at, pdata, named.
  pose proof (rd_part _ _ Hr) as Hp. unfold part in Hp. by rewrite Hp.
Qed.

(** Bytes were read: they leave the queue. *)
Lemma read_advance s h k :
  readable s h → (0 < k)%nat → (k ≤ length (drop s.(_roffset) (pdata s s.(_rid))))%nat →
  sp_inv (set_r s.(_rfile) s.(_rid) (s.(_roffset) + k)%nat s) ∧
  contents s = take k (drop s.(_roffset) (pdata s s.(_rid))) ++
    contents (set_r s.(_rfile) s.(_rid) (s.(_roffset) + k)%nat s).
Proof.
  intros Hr Hk Hle. assert (sp_inv s) as Hinv.
  { apply (rd_inv _ _ Hr). intros E. rewrite E in Hle. simpl in Hle. lia. }
  set (s' := set_r _ _ _ _). rewrite length_drop in Hle.
  pose proof Hinv as [Ha Hid Hfs _ _ _ Hrr]. pose proof (rd_file _ _ Hr) as Hf. split.
  - apply (sp_inv_view s); try done. cbn [s' set_r _rfile _roffset]. rewrite Hf in Hrr |- *.
    destruct Hrr as (? & ? & ?). split_and!; [done|lia|lia|done].
  - unfold contents. cbn [s' set_r _rid _wid]. rewrite !(range_cons _ (_ + 1)) by lia.
    rewrite app_assoc. f_equal.
    + unfold piece, part_offset. cbn [s' _rid _rfile _roffset set_r]. rewrite Z.eqb_refl, Hf.
      fold s'. change (pdata s') with (pdata s).
      rewrite <- drop_drop. by rewrite take_drop.
    + apply range_ext. intros id Hi. unfold piece, part_offset. cbn [s' _rid _rfile set_r].
      by rewrite (proj2 (Z.eqb_neq id s.(_rid))) by lia.
Qed.

(** The part read is exhausted: what is left is in the next parts. *)
Lemma contents_exhausted s h :
  readable s h → drop s.(_roffset) (pdata s s.(_rid)) = [] → 0 ≤ s.(_rid) ≤ s.(_wid) →
  contents s = range (s.(_rid) + 1) (s.(_wid) - s.(_rid)) (λ id, drop 8 (pdata s id)).
Proof.
  intros Hr He Hid. unfold contents. rewrite range_cons by lia.
  unfold piece at 1. unfold part_offset. rewrite Z.eqb_refl, (rd_file _ _ Hr), He.
  replace (s.(_wid) - s.(_rid) + 1 - 1) with (s.(_wid) - s.(_rid)) by lia.
  apply range_ext. intros id Hi. unfold piece, part_offset.
  by rewrite (proj2 (Z.eqb_neq id s.(_rid))) by lia.
Qed.

Lemma set_r_id s : set_r s.(_rfile) s.(_rid) s.(_roffset) s = s.
Proof. by destruct s. Qed.

(** What a read returns, from a queue of unread bytes. *)
Definition read_post (n : nat) (before : list Z) (out : res (list Z) * splitter) : Prop :=
  match out with
  | (Ret buffer, s') => sp_inv s' ∧ before = buffer ++ contents s' ∧ (length buffer ≤ n)%nat ∧
      (buffer = [] → before = [])
  | (Throw shutdown, s') => sp_inv s' ∧ before = [] ∧ contents s' = []
  | (Throw _, _) => False
  end.

Lemma read_spec fuel os n s :
  healthy os → (0 < n)%nat → sp_inv s → (Z.to_nat (s.(_wid) - s.(_rid)) < fuel)%nat →
  read_post n (contents s) (read fuel os n s).
Proof.
  intros Hos Hn. revert s. induction fuel as [|fuel IH]; intros s Hinv Hfuel; [lia|].
  cbn [read].
  assert (∃ s1, match s.(_rfile) with Some _ => (Ret tt, s) | None => _open_read_file os s end
      = (Ret tt, s1) ∧ (s1 = s ∧ s1.(_rfile) = None ∧ contents s = [] ∨
        ∃ h, readable s1 h ∧ contents s1 = contents s ∧ s1.(_rid) = s.(_rid) ∧ s1.(_wid) = s.(_wid)))
    as (s1 & -> & Hs1).
  { destruct s.(_rfile) as [h|] eqn:Hf.
    - exists s. split; [done|]. right. exists h. split; [by apply inv_readable|done].
    - destruct (open_read_spec os s) as (s1 & -> & [[-> ?]|?]); [done..| |]; eexists; split; eauto. }
  destruct Hs1 as [(-> & -> & Hc)|(h & Hr & <- & Er & Ew)].
  { cbn. rewrite Hc. split_and!; [done..|cbn; lia|done]. }
  rewrite (rd_file _ _ Hr). pose proof Hos as (_ & _ & _ & Hff).
  rewrite (fread_part _ _ _ h), Hff by done. cbn [negb andb].
  pose proof (inv_ids _ (rd_closed _ _ Hr)) as Hid. cbn in Hid.
  set (l := drop s1.(_roffset) (pdata s1 s1.(_rid))).
  destruct (Nat.eqb_spec (length (take n l)) 0) as [Hz|Hz].
  - assert (l = []) as Hl.
    { rewrite length_take in Hz. apply nil_length_inv. lia. }
    rewrite (proj2 (Nat.ltb_lt 0 n)) by done. rewrite Hz, Nat.add_0_r.
    rewrite <- (rd_file _ _ Hr), set_r_id.
    pose proof (inv_auto _ (rd_closed _ _ Hr)) as Ha. cbn in Ha. rewrite Ha.
    rewrite (contents_exhausted s1 h) by (done || lia).
    assert ((erase_read_part s1).(_rid) = s1.(_rid) ∧ (erase_read_part s1).(_wid) = s1.(_wid) ∧
            (erase_read_part s1).(_roffset) = s1.(_roffset) ∧ (erase_read_part s1).(_rfile) = None)
      as (-> & -> & -> & ->) by (unfold erase_read_part; by destruct (_ && _)).
    destruct (Z.ltb_spec s1.(_rid) s1.(_wid)) as [Hlt|Hge].
    + destruct (erase_next s1) as [Hi Hc]; [apply Hr|done..|]. rewrite <- Hc.
      apply IH; [done|]. unfold erase_read_part. destruct (_ && _); cbn; lia.
    + destruct (erase_last s1) as [Hi Hc]; [apply Hr|lia|apply (rd_shared _ _ Hr); lia|].
      cbn. replace (s1.(_wid) - s1.(_rid)) with 0 by lia. by rewrite Hc.
  - rewrite <- (rd_file _ _ Hr).
    destruct (read_advance s1 h (length (take n l))) as [Hi Hc];
      [done|lia|fold l; rewrite length_take; lia|].
    unfold read_post. split_and!; [done| |rewrite length_take; lia|].
    + rewrite Hc at 1. f_equal. fold l. rewrite length_take.
      destruct (decide (n ≤ length l)%nat).
      * by rewrite Nat.min_l.
      * by rewrite Nat.min_r, !take_ge by lia.
    + intros E. by rewrite E in Hz.
Qed.

(** ** What the operations keep *)

Lemma open_write_accounted os s :
  healthy os → fs_wf (sfs s) → accounted s.(disk) → accounted (_open_write_file os s).2.(disk).
Proof.
  intros Hos Hfs Hac. unfold _open_write_file. rewrite (proj1 Hos).
  destruct (open_append _ _) as [h fs1] eqn:Hop.
  assert (accounted (set_fs fs1 s.(disk))) as Hac1.
  { unfold accounted. cbn. by rewrite (total_open_append _ _ _ _ Hfs Hop). }
  apply open_append_spec in Hop as (Hfs1 & Hk & _); [|done].
  destruct (_ <? header_size); [|done].
  destruct (fwrite os header h (set_fs fs1 s.(disk))) as [n d2] eqn:Hw.
  eapply fwrite_accounted in Hw; [|done..|cbn; lia]. by destruct (n =? header_size).
Qed.

Lemma write_part_accounted os buffer s :
  healthy os → sp_inv s → accounted s.(disk) → Z.of_nat (length buffer) < 2 ^ 63 →
  accounted (write_part os buffer s).2.(disk).
Proof.
  intros Hos Hinv Hac Hb. unfold write_part. pose proof (inv_w _ Hinv) as Hw.
  destruct s.(_wfile) as [h|]; [|done]. destruct Hw as (Hp & _).
  destruct (fwrite os buffer h s.(disk)) as [n d2] eqn:Hf.
  eapply fwrite_accounted in Hf; [|done|apply Hinv|exact Hp|done..].
  by destruct (n =? _).
Qed.

Lemma write_open_accounted os buffer s :
  healthy os → sp_inv s → is_Some s.(_wfile) → s.(_wid) < i32_max → accounted s.(disk) →
  Z.of_nat (length buffer) < 2 ^ 63 → accounted (write_open os buffer s).2.(disk).
Proof.
  intros Hos Hi1 [h Hh] Hm1 Ha1 Hb. unfold write_open.
  destruct (_ <? _); [|by apply write_part_accounted].
  pose proof (inv_ids _ Hi1). rewrite wrap_i32_small by (unfold i32_max in *; lia).
  destruct (rolled_open_pre s h) as (Hpre & _); [done..|].
  pose proof (open_write_accounted os _ Hos (op_fs _ Hpre) Ha1) as Ha2.
  destruct (open_write_spec os _ Hos Hpre) as (b & s2 & E & (Hi2 & _) & _).
  rewrite E in Ha2 |- *. destruct b; [|done]. by apply write_part_accounted.
Qed.

Lemma write_accounted os buffer s :
  healthy os → sp_inv s → s.(_wid) < i32_max → accounted s.(disk) →
  Z.of_nat (length buffer) < 2 ^ 63 → accounted (write os buffer s).2.(disk).
Proof.
  intros Hos Hinv Hmax Hac Hb. pose proof Hos as (_ & Hfl & _). rewrite write_eq by done.
  destruct s.(_wfile) as [h|] eqn:Hh; [by apply write_open_accounted; rewrite ?Hh|].
  pose proof (inv_open_pre s Hinv Hh) as Hpre.
  pose proof (open_write_accounted os s Hos (op_fs _ Hpre) Hac) as Ha2.
  destruct (open_write_spec os _ Hos Hpre) as (b & s2 & E & (Hi2 & Hs2 & _) & Hb2 & _).
  rewrite E in Ha2 |- *. destruct b; [|done].
  pose proof Hs2 as [[= _ _ _ _ _ _ Ew _] _].
  apply write_open_accounted; [done|done|by apply Hb2|by rewrite Ew|done|done].
Qed.

(** A property of the disk that survives the removal of a file survives a read:
    a read changes the disk in no other way. *)
Lemma read_keeps (P : disk_accessor → Prop) fuel os n s :
  (∀ d f', f'.(names) = d.(disk_fs).(names) → f'.(inodes) = d.(disk_fs).(inodes) →
     P d → P (set_fs f' d)) →
  (∀ d name, P d → P (remove name d)) →
  P s.(disk) →
  P (read fuel os n s).2.(disk) ∧ (read fuel os n s).2.(_wid) = s.(_wid) ∧
  (read fuel os n s).2.(_max_file_size) = s.(_max_file_size) ∧
  (read fuel os n s).2.(_base_path) = s.(_base_path).
Proof.
  intros Hopen Hrem. revert s. induction fuel as [|fuel IH]; intros s HP; [done|].
  cbn [read].
  assert (∃ r s1, match s.(_rfile) with Some _ => (Ret tt, s) | None => _open_read_file os s end
    = (r, s1) ∧ P s1.(disk) ∧ s1.(_wid) = s.(_wid) ∧ s1.(_max_file_size) = s.(_max_file_size) ∧
      s1.(_base_path) = s.(_base_path)) as (r & s1 & -> & HP1 & <- & <- & <-).
  { unfold _open_read_file, open_existing. destruct s.(_rfile); [by do 2 eexists|].
    destruct (if s.(_rid) =? s.(_wid) then s.(_wfile) else None); [by do 2 eexists|].
    destruct (can_open _ _); [|destruct (decide _); by do 2 eexists].
    destruct (_ !! _); do 2 eexists; (split; [reflexivity|]); split_and!; try done.
    by apply Hopen. }
  destruct r; [|done]. destruct s1.(_rfile) as [h|]; [|done].
  destruct (_ =? 0)%nat; [|done]. destruct (_ && _); [|by repeat destruct (decide _)].
  set (s2 := set_r _ _ _ s1).
  assert (P (if s2.(_auto_delete) then erase_read_part s2 else s2).(disk) ∧
    (if s2.(_auto_delete) then erase_read_part s2 else s2).(_wid) = s1.(_wid) ∧
    (if s2.(_auto_delete) then erase_read_part s2 else s2).(_max_file_size) = s1.(_max_file_size) ∧
    (if s2.(_auto_delete) then erase_read_part s2 else s2).(_base_path) = s1.(_base_path))
    as (HP3 & E1 & E2 & E3).
  { destruct (_auto_delete s2); [|done]. unfold erase_read_part.
    destruct (_ && _); split_and!; try done; by apply Hrem. }
  destruct (_ <? _); [|done]. rewrite <- E1, <- E2, <- E3.
  match goal with |- context [read fuel os n ?s4] => exact (IH s4 HP3) end.
Qed.
