(* ===== verification/Stream.v ===== *)
(** * The stream interface

    [io::stream] ([broker/core/inc/com/centreon/broker/io/stream.hh]) is the
    interface of the layers an event goes through: each layer reads and writes
    its sub-stream.  The class gives the two operations, the laws what a layer
    that transports bytes promises to the layer above. *)

From S2P Require Import Prelude.

(** The data a stream is given: raw bytes, or an event of another type. *)
Inductive io_data (E : Type) := raw (buffer : list Z) | other_data (e : E).
Arguments raw {E} _.
Arguments other_data {E} _.

Class Substream (E D : Type) := {
  (** [read(d, deadline)]: false on a timeout; [None] is a null event *)
  sub_read : St D (bool * option (io_data E));
  (** [write(d)], whose acknowledgement count the layers above ignore *)
  sub_write : io_data E → St D unit;
  (** [flush()] and [stop()], whose counts are ignored too *)
  sub_flush : St D unit;
  sub_stop : St D unit;
}.

Class SubstreamLaws (E D : Type) `{!Substream E D} := {
  sub_inv : D → Prop;
  (** so many more writes can be accepted *)
  sub_room : nat → D → Prop;
  (** the bytes written and not yet read *)
  pending : D → list Z;
  sub_read_spec d : sub_inv d →
    match sub_read d with
    | (Ret (true, Some (raw b)), d') => sub_inv d' ∧ b ≠ [] ∧ pending d = b ++ pending d'
    | (Ret (true, None), d') => sub_inv d' ∧ pending d = [] ∧ pending d' = []
    | (Throw shutdown, d') => sub_inv d' ∧ pending d = [] ∧ pending d' = []
    | _ => False
    end;
  sub_room_S n d : sub_room (S n) d → sub_room n d;
  sub_write_spec n d b : sub_inv d → sub_room (S n) d →
    ∃ d', sub_write (raw b) d = (Ret tt, d') ∧ sub_inv d' ∧ sub_room n d' ∧
      pending d' = pending d ++ b;
}.

(** What a connection with a peer promises: the bytes it delivers are the bytes
    of the peer, in order, cut anywhere; a read may time out, which loses
    nothing; writes go to the other direction. *)
Class DuplexLaws (E D : Type) `{!Substream E D} := {
  dx_inv : D → Prop;
  (** the bytes on their way to us *)
  incoming : D → list Z;
  (** the data handed over to the peer, oldest first *)
  sent : D → list (list Z);
  (** no read will time out while bytes are on their way *)
  live : D → Prop;
  dx_read_spec d : dx_inv d →
    match sub_read d with
    | (Ret (true, Some (raw b)), d') =>
        dx_inv d' ∧ b ≠ [] ∧ incoming d = b ++ incoming d' ∧ sent d' = sent d ∧ (live d → live d')
    | (Ret (false, None), d') =>
        dx_inv d' ∧ incoming d' = incoming d ∧ sent d' = sent d ∧ (live d → incoming d = [] ∧ live d')
    | (Throw shutdown, d') => dx_inv d' ∧ incoming d = [] ∧ incoming d' = [] ∧ sent d' = sent d ∧
        (live d → live d')
    | _ => False
    end;
  dx_write_spec d b : dx_inv d →
    ∃ d', sub_write (raw b) d = (Ret tt, d') ∧ dx_inv d' ∧
      incoming d' = incoming d ∧ sent d' = sent d ++ [b] ∧ (live d → live d');
}.

(** ** A connection

    The interface is not empty: bytes in flight, with a schedule of the reads.

    [rx] are the bytes that arrive, [tx] what was written and [sched] decides of
    the reads: how many bytes the next ones return at most, 0 for a timeout. *)
Record socket := Socket { rx : list Z; tx : list (list Z); sched : list nat }.

#[export] Instance socket_substream {E} : Substream E socket := {|
  sub_read := λ d,
    match d.(sched), d.(rx) with
    | S k :: sched', b :: rx' =>
        (Ret (true, Some (raw (b :: take k rx'))), Socket (drop k rx') d.(tx) sched')
    | _, _ => (Ret (false, None), Socket d.(rx) d.(tx) (tail d.(sched)))
    end;
  sub_write := λ x d,
    match x with
    | raw b => (Ret tt, Socket d.(rx) (d.(tx) ++ [b]) d.(sched))
    | other_data _ => (Ret tt, d)
    end;
  sub_flush := mret tt;
  sub_stop := mret tt;
|}.

(** Every read returns something while bytes remain. *)
Definition socket_live (d : socket) : Prop :=
  (length d.(rx) ≤ length d.(sched))%nat ∧ Forall (λ k, 0 < k)%nat d.(sched).

#[export] #[program] Instance socket_laws {E} : DuplexLaws E socket := {|
  dx_inv := λ _, True;
  incoming := rx;
  sent := tx;
  live := socket_live;
|}.
Next Obligation.
  intros E d _. cbn [sub_read socket_substream]. destruct d as [rx0 tx0 [|[|k] sched0]]; cbn.
  - split_and!; try done. intros [Hl _]. cbn in Hl. destruct rx0; [done|cbn in Hl; lia].
  - split_and!; try done. intros [_ Hp]. by apply Forall_cons in Hp as [? _]; lia.
  - destruct rx0 as [|b rx0]; cbn; split_and!; try done.
    + intros [Hl Hp]. split; [done|]. split; [cbn; lia|]. by apply Forall_cons in Hp as [_ ?].
    + by rewrite take_drop.
    + intros [Hl Hp]. split; cbn in *; [rewrite length_drop; lia|]. by apply Forall_cons in Hp as [_ ?].
Qed.
Next Obligation. intros E d b _. by eexists. Qed.
