(* ===== verification/FileQueue.v ===== *)
(** * What the queue files promise

    The theorems on sequences of splitter calls: a splitter is a first-in
    first-out queue of bytes, its parts stay within the configured size, the
    bytes on disk within the configured limit; a splitter built again on the
    same path resumes the queue.  Then [file::stream]
    ([broker/core/src/file/stream.cc]), the layer the streams above read and
    write, and the behaviours of the constructor and of the limit that the
    promises leave out. *)

From Stdlib Require Import Ascii.
From S2P Require Import Prelude DiskFs Splitter Stream.

#[local] Open Scope Z_scope.

(** ** Sequences of calls *)

Inductive sp_op :=
  | OpWrite (os : os_env) (buffer : list Z)
  | OpRead (os : os_env) (max_size : nat).

(** The system answers; a read asks for something; a buffer is addressable. *)
Definition op_ok (o : sp_op) : Prop :=
  match o with
  | OpWrite os buffer => healthy os ∧ Z.of_nat (length buffer) < 2 ^ 63
  | OpRead os n => healthy os ∧ (0 < n)%nat
  end.

(** Each part costs one recursive call. *)
Definition read_fuel (s : splitter) : nat := S (Z.to_nat (s.(_wid) - s.(_rid))).

(** The bytes a call accepts, the bytes it delivers, and the next state. *)
Definition exec (o : sp_op) (s : splitter) : list Z * list Z * splitter :=
  match o with
  | OpWrite os buffer =>
      match write os buffer s with
      | (Ret r, s') => (if r =? Z.of_nat (length buffer) then buffer else [], [], s')
      | (Throw _, s') => ([], [], s')
      end
  | OpRead os n =>
      match read (read_fuel s) os n s with
      | (Ret buffer, s') => ([], buffer, s')
      | (Throw _, s') => ([], [], s')
      end
  end.

Fixpoint exec_all (ops : list sp_op) (s : splitter) : list Z * list Z * splitter :=
  match ops with
  | [] => ([], [], s)
  | o :: ops =>
      let '(w1, r1, s1) := exec o s in
      let '(w2, r2, s2) := exec_all ops s1 in
      (w1 ++ w2, r1 ++ r2, s2)
  end.

Definition buffers (ops : list sp_op) : list Z :=
  mjoin ((λ o, match o with OpWrite _ b => b | OpRead _ _ => [] end) <$> ops).

(** A bound on the size of the parts these calls leave. *)
Definition op_fits (m : Z) (s : splitter) (o : sp_op) : Prop :=
  match o with OpWrite _ b => max_part s b ≤ m | OpRead _ _ => True end.

Lemma op_fits_same m s s' o :
  s'.(_max_file_size) = s.(_max_file_size) → op_fits m s o → op_fits m s' o.
Proof. intros E. unfold op_fits, max_part. destruct o; [|done]. by rewrite E. Qed.

Lemma read_parts_le m fuel os n s : parts_le m s → parts_le m (read fuel os n s).2.
Proof.
  intros Hm. pose (P d := ∀ id, 0 ≤ id → Z.of_nat (length (named d.(disk_fs) (pk s id))) ≤ m).
  destruct (read_keeps P fuel os n s) as (HP & _ & _ & Hb).
  - intros d f' En Ei HP id Hid. unfold named, data_of. cbn. rewrite En, Ei. by apply HP.
  - intros d name HP id Hid. cbn [remove disk_fs]. rewrite named_unlink. case_decide; [|by apply HP].
    specialize (HP id Hid). simpl. lia.
  - exact Hm.
  - intros id Hid. specialize (HP id Hid). unfold pdata, pk, path_of in *. by rewrite Hb.
Qed.

Lemma read_accounted fuel os n s : accounted s.(disk) → accounted (read fuel os n s).2.(disk).
Proof.
  intros Ha. apply (read_keeps accounted); [|by intros; apply remove_accounted|done].
  intros d f' En Ei (? & ? & ?).
  assert (total f' = total d.(disk_fs)) as E.
  { unfold total, sizes, data_of. by rewrite En, Ei. }
  unfold accounted. cbn. by rewrite E.
Qed.

(** One call, on all counts. *)
Lemma exec_spec o s w r s' :
  op_ok o → sp_inv s → s.(_wid) < i32_max → exec o s = (w, r, s') →
  sp_inv s' ∧ s'.(_wid) ≤ s.(_wid) + 1 ∧ s'.(_max_file_size) = s.(_max_file_size) ∧
  contents s ++ w = r ++ contents s' ∧
  (s.(disk).(_limit_size) = 0 → s'.(disk).(_limit_size) = 0 ∧ w = buffers [o]) ∧
  (∀ m, op_fits m s o → parts_le m s → parts_le m s') ∧
  (accounted s.(disk) → accounted s'.(disk)).
Proof.
  intros Hok Hinv Hmax He. destruct o as [os buffer|os n]; destruct Hok as [Hos Hn]; cbn [exec] in He.
  - pose proof (write_accounted os buffer s Hos Hinv Hmax) as Hac.
    destruct (write_spec os buffer s) as (z & s1 & E & Hi & Hw & Hms & Hl & Hm & Hres); [done..|].
    rewrite E in He, Hac. injection He as <- <- <-.
    split_and!; [done|lia|done| | |done|by intros; apply Hac].
    + destruct Hres as [[-> ->]|(-> & -> & _)]; [by rewrite Z.eqb_refl|].
      destruct (Z.eqb_spec 0 (Z.of_nat (length buffer))) as [Hz|]; [|by rewrite app_nil_r].
      destruct buffer; [by rewrite app_nil_r|simpl in Hz; lia].
    + intros Hz. destruct Hres as [[-> _]|(_ & _ & ?)]; [|done].
      rewrite Z.eqb_refl. unfold buffers. simpl. rewrite app_nil_r. split; [congruence|done].
  - pose proof (read_spec (read_fuel s) os n s Hos Hn Hinv) as Hr.
    pose proof (λ m, read_parts_le m (read_fuel s) os n s) as Hm.
    pose proof (read_accounted (read_fuel s) os n s) as Hac.
    destruct (read_keeps (λ d, d.(_limit_size) = s.(disk).(_limit_size)) (read_fuel s) os n s)
      as (Hl & Hw & Hms & _); [done..|].
    destruct (read (read_fuel s) os n s) as [[b|e] s1] eqn:E; injection He as <- <- <-; cbn in *;
      specialize (Hr ltac:(unfold read_fuel; lia)).
    + destruct Hr as (? & Hc & _). rewrite app_nil_r. split_and!; try done; try lia.
      * intros Hz. by rewrite Hl.
      * intros m _. apply Hm.
    + destruct e; try done. destruct Hr as (? & -> & ->). split_and!; try done; try lia.
      * intros Hz. by rewrite Hl.
      * intros m _. apply Hm.
Qed.

(** Sequences of calls. *)
Lemma exec_all_spec ops s w r s' :
  Forall op_ok ops → sp_inv s → s.(_wid) + Z.of_nat (length ops) ≤ i32_max →
  exec_all ops s = (w, r, s') →
  sp_inv s' ∧ contents s ++ w = r ++ contents s' ∧
  (s.(disk).(_limit_size) = 0 → w = buffers ops) ∧
  (∀ m, Forall (op_fits m s) ops → parts_le m s → parts_le m s') ∧
  (accounted s.(disk) → accounted s'.(disk)).
Proof.
  revert s w r. induction ops as [|o ops IH]; intros s w r Hok Hinv Hmax; cbn [exec_all].
  { intros [= <- <- <-]. rewrite app_nil_r. by split_and!. }
  apply Forall_cons in Hok as [Ho Hok]. cbn [length] in Hmax.
  destruct (exec o s) as [[w1 r1] s1] eqn:E1.
  destruct (exec_spec o s w1 r1 s1) as (Hi1 & Hw1 & Hms1 & Hc1 & Hl1 & Hm1 & Ha1); [done..|lia|done|].
  destruct (exec_all ops s1) as [[w2 r2] s2] eqn:E2. intros [= <- <- <-].
  destruct (IH s1 w2 r2) as (Hi2 & Hc2 & Hl2 & Hm2 & Ha2); [done..|lia|done|].
  split_and!; [done|..].
  - rewrite app_assoc, Hc1, <- !app_assoc. by f_equal.
  - intros Hz. destruct (Hl1 Hz) as [Hz1 ->]. rewrite Hl2 by done.
    unfold buffers. simpl. by rewrite app_nil_r.
  - intros m [Hf Hfs]%Forall_cons Hm. apply Hm2; [|by apply Hm1].
    eapply Forall_impl; [exact Hfs|]. intros o'. by apply op_fits_same.
  - auto.
Qed.



(** A read ends, whatever the number of parts, with one recursive call per
    part: it delivers bytes when bytes are queued, and reports the end
    ([exceptions::shutdown], or no byte when the part is already erased) only
    when the queue is empty. *)
Theorem splitter_read_progress os n s :
  healthy os → (0 < n)%nat → sp_inv s →
  match read (read_fuel s) os n s with
  | (Ret [], s') => contents s = [] ∧ sp_inv s'
  | (Ret buffer, s') => contents s = buffer ++ contents s' ∧ (length buffer ≤ n)%nat ∧ sp_inv s'
  | (Throw shutdown, s') => contents s = [] ∧ sp_inv s'
  | (Throw _, _) => False
  end.
Proof.
  intros Hos Hn Hinv.
  pose proof (read_spec (read_fuel s) os n s Hos Hn Hinv ltac:(unfold read_fuel; lia)) as Hr.
  destruct (read (read_fuel s) os n s) as [[[|z b]|[]] s1]; cbn in Hr; naive_solver.
Qed.

(** ** The constructor *)

(** The suffix of part [id]. *)
Definition suffix (id : Z) : string := if id =? 0 then "" else pretty id.

Lemma suffix_digits id : 0 ≤ id → all_chars is_digit (suffix id) = true.
Proof. intros ?. unfold suffix. case_match; [done|]. apply pretty_digits. lia. Qed.

Lemma scan_part_path f dir name id rid wid size :
  0 ≤ id ≤ i32_max →
  let p := dir +:+ "/" +:+ name +:+ suffix id in
  scan_part f (String.length dir + String.length name + 1) (rid, wid, size) p =
    (Z.min rid id, Z.max wid id, size + default 0 (file_size f p)).
Proof.
  intros Hid p. unfold scan_part.
  replace (str_drop _ p) with (suffix id).
  2:{ unfold p. rewrite <- !str_app_assoc. symmetry.
      replace (_ + _ + 1)%nat with (String.length ((dir +:+ "/") +:+ name)); [apply str_drop_app|].
      rewrite !str_length_app. simpl. lia. }
  unfold suffix. destruct (Z.eqb_spec id 0) as [->|Hne]; [done|].
  assert (pretty id ≠ ""%string) as Hp.
  { rewrite pretty_pos by lia. apply pretty_go_nonempty. left. lia. }
  rewrite (proj2 (String.eqb_neq _ _)) by done.
  rewrite strtol10_pretty by (unfold i64_max, i32_max in *; lia).
  by rewrite wrap_i32_small by (unfold i32_max in *; lia).
Qed.

Section Scan.
Context (f : fs) (dir name : string).

Definition listed (id : Z) : string := dir +:+ "/" +:+ name +:+ suffix id.

(** The loop over the parts keeps the least and the greatest number. *)
Lemma scan_parts parts rid wid size :
  (∀ p, p ∈ parts → ∃ id, 0 ≤ id ≤ i32_max ∧ p = listed id) →
  ∃ r w size',
    foldl (scan_part f (String.length dir + String.length name + 1)) (rid, wid, size) parts =
      (r, w, size') ∧
    r ≤ rid ∧ wid ≤ w ∧
    (∀ id, 0 ≤ id ≤ i32_max → listed id ∈ parts → r ≤ id ≤ w) ∧
    (r = rid ∨ 0 ≤ r ≤ i32_max ∧ listed r ∈ parts) ∧ (w = wid ∨ 0 ≤ w ≤ i32_max ∧ listed w ∈ parts).
Proof.
  revert rid wid size. induction parts as [|p parts IH]; intros rid wid size Hp.
  { exists rid, wid, size. split_and!; try done; try lia; [|by left..]. intros ? _ []%not_elem_of_nil. }
  destruct (Hp p) as (i & Hi & ->); [by left|]. cbn [foldl].
  unfold listed at 1. rewrite scan_part_path by done. fold (listed i).
  destruct (IH (Z.min rid i) (Z.max wid i) (size + default 0 (file_size f (listed i))))
    as (r & w & size' & -> & Hr & Hw & Hall & Hr' & Hw'); [by intros; apply Hp; right|].
  exists r, w, size'. split_and!; [done|lia|lia|..].
  - intros id Hid [E|?]%elem_of_cons; [|by apply Hall].
    assert (id = i) as ->; [|lia]. unfold listed in E. do 3 apply str_app_inj in E.
    unfold suffix in E. assert (∀ z, 0 < z → pretty z ≠ ""%string) as Hne.
    { intros z Hz. rewrite pretty_pos by done. apply pretty_go_nonempty. left. lia. }
    destruct (Z.eqb_spec id 0), (Z.eqb_spec i 0); subst; try done.
    + symmetry in E. apply Hne in E; [done|lia].
    + apply Hne in E; [done|lia].
    + by apply (inj pretty).
  - destruct Hr' as [->|[? ?]]; [|right; split; [done|by right]].
    destruct (decide (rid ≤ i)); [left; lia|]. right. rewrite Z.min_r by lia. split; [lia|by left].
  - destruct Hw' as [->|[? ?]]; [|right; split; [done|by right]].
    destruct (decide (i ≤ wid)); [left; lia|]. right. rewrite Z.max_r by lia. split; [lia|by left].
Qed.
End Scan.

(** A path whose directory the constructor can list. *)
Definition plain_path (path : string) : Prop :=
  (resolve path).1 ≠ ""%string ∧ ends_with_slash (resolve path).1 = false.

(** The files of the directory whose name starts with the base name are parts
    of this queue, numbered from [lo] to [hi]. *)
Definition only_parts (path : string) (f : fs) (lo hi : Z) : Prop :=
  ∀ t, is_Some (f.(names) !! ((resolve path).1, (resolve path).2 +:+ t)) →
       ∃ id, lo ≤ id ≤ hi ∧ t = suffix id.

(** What the constructor finds: the first and the last part. *)
Lemma ctor_finds os path size_max auto d lo hi :
  plain_path path → 0 ≤ lo ≤ hi → hi < i32_max → only_parts path d.(disk_fs) lo hi →
  (∀ id, lo ≤ id ≤ hi → is_Some (d.(disk_fs).(names) !! resolve (get_file_path path id))) →
  ∃ size, ctor os path size_max auto d =
    let s := Splitter auto path
               (if size_max =? 0 then u32_max else Z.max size_max 10000)
               None lo 0 None hi 0 (set_current_size (wrap_u64 size) d) in
    match _open_write_file os s with
    | (Ret _, s) => (Ret tt, s)
    | (Throw e, s) => (Throw e, s)
    end.
Proof.
  intros [Hd Hs] Hlo Hhi Honly Hall.
  assert (∀ id, 0 ≤ id → resolve (get_file_path path id) =
    ((resolve path).1, (resolve path).2 +:+ suffix id)) as Hres by (intros; by apply resolve_part).
  unfold ctor. replace (match find_last_slash path with None => ("."%string, path) | Some dn => dn end)
    with (resolve path) by (unfold resolve; by destruct (find_last_slash path) as [[]|]).
  destruct (resolve path) as [dir name] eqn:Hrp. cbn [fst snd] in *.
  rewrite Hs. rewrite (proj2 (String.eqb_neq _ _)) by done. cbn [negb andb].
  set (parts := dir_content_with_filter dir name d.(disk_fs)).
  assert (∀ p, p ∈ parts ↔ ∃ id, lo ≤ id ≤ hi ∧ p = listed dir name id) as Hparts.
  { intros p. unfold parts. rewrite elem_of_dir_filter by done. split.
    - intros (t & Ht & ->). unfold only_parts in Honly. rewrite Hrp in Honly. cbn in Honly.
      destruct (Honly t Ht) as (id & ? & ->). by exists id.
    - intros (id & Hid & ->). exists (suffix id). split; [|done].
      rewrite <- Hres by lia. by apply Hall. }
  destruct (scan_parts d.(disk_fs) dir name parts i32_max 0 0)
    as (r & w & size & -> & Hr & Hw & Hall' & Hr' & Hw').
  { intros p (id & ? & ->)%Hparts. exists id. split; [lia|done]. }
  assert (r = lo) as ->.
  { assert (r ≤ lo) by (apply (Hall' lo); [lia|apply Hparts; by exists lo; split; [lia|]]).
    destruct Hr' as [->|[Hri Hin]]; [lia|].
    apply Hparts in Hin as (id & Hid & E). unfold listed in E. do 3 apply str_app_inj in E.
    assert (id = r) as ->; [|lia].
    apply (resolve_part_inj path); [lia..|]. rewrite !Hres by lia. by rewrite E. }
  assert (w = hi) as ->.
  { assert (hi ≤ w) by (apply (Hall' hi); [lia|apply Hparts; by exists hi; split; [lia|]]).
    destruct Hw' as [->|[Hwi Hin]]; [lia|].
    apply Hparts in Hin as (id & Hid & E). unfold listed in E. do 3 apply str_app_inj in E.
    assert (id = w) as ->; [|lia].
    apply (resolve_part_inj path); [lia..|]. rewrite !Hres by lia. by rewrite E. }
  exists size. rewrite (proj2 (Z.eqb_neq lo i32_max)) by lia. by rewrite (proj2 (Z.ltb_ge lo 0)) by lia.
Qed.

(** The state the constructor opens the last part in. *)
Lemma ctor_open_pre path size_max d lo hi size :
  plain_path path → 0 ≤ lo ≤ hi → hi < i32_max → only_parts path d.(disk_fs) lo hi →
  fs_wf d.(disk_fs) →
  (∀ id, lo ≤ id < hi → is_Some (d.(disk_fs).(names) !! resolve (get_file_path path id)) ∧
     (8 ≤ length (named d.(disk_fs) (resolve (get_file_path path id))))%nat) →
  named d.(disk_fs) (resolve (get_file_path path hi)) = [] ∨
    (8 ≤ length (named d.(disk_fs) (resolve (get_file_path path hi))))%nat →
  open_pre (Splitter true path size_max None lo 0 None hi 0 (set_current_size size d)).
Proof.
  intros _ Hlo Hhi Honly Hfs Hmid Hlast. constructor; try done; cbn.
  - unfold i32_max in *. lia.
  - intros id Hid. unfold part, pk, path_of, sfs. cbn.
    destruct (d.(disk_fs).(names) !! resolve (get_file_path path id)) as [i|] eqn:E; [|done].
    rewrite resolve_part in E by lia. fold (suffix id) in E.
    destruct (Honly (suffix id)) as (id' & Hid' & Es); [by rewrite E|].
    assert (id = id'); [|lia]. apply (resolve_part_inj path); [lia..|].
    rewrite !resolve_part by lia. fold (suffix id) (suffix id'). by rewrite Es.
Qed.

(** A queue survives its object: a splitter built on the path of a splitter
    that was destroyed finds the same parts, delivers again the bytes already
    read from the part that was being read, and then every byte not yet read. *)
Theorem splitter_restart os s size_max :
  healthy os → sp_inv s → s.(_wid) < i32_max → plain_path s.(_base_path) →
  only_parts s.(_base_path) (sfs s) s.(_rid) s.(_wid) → is_Some (part s s.(_wid)) →
  ∃ s', ctor os s.(_base_path) size_max true (close s).(disk) = (Ret tt, s') ∧ sp_inv s' ∧
    contents s' =
      match s.(_rfile) with
      | Some _ => drop 8 (take s.(_roffset) (pdata s s.(_rid)))
      | None => []
      end ++ contents s.
Proof.
  intros Hos Hinv Hmax Hplain Honly Hlast. pose proof Hinv as [_ Hid Hfs Hmid _ Hw Hr].
  destruct (ctor_finds os s.(_base_path) size_max true s.(disk) s.(_rid) s.(_wid))
    as [size Hc]; try done; try lia.
  { intros id Hi. destruct (decide (id = s.(_wid))) as [->|]; [exact Hlast|].
    apply (Hmid id). lia. }
  assert (open_pre (Splitter true s.(_base_path)
    (if size_max =? 0 then u32_max else Z.max size_max 10000)
    None s.(_rid) 0 None s.(_wid) 0 (set_current_size (wrap_u64 size) s.(disk)))) as Hpre.
  { apply ctor_open_pre; try done; try lia. change (named (disk_fs (disk s)) _) with (pdata s s.(_wid)).
    destruct s.(_wfile); [right; apply Hw|by left]. }
  destruct (open_write_spec os _ Hos Hpre) as (b & s' & E & (Hi' & _ & Hc') & _).
  exists s'. cbn [close disk set_w set_r]. rewrite Hc. cbv zeta. rewrite E. split_and!; [done..|].
  rewrite Hc'. unfold contents. cbn [_rid _wid]. rewrite !(range_cons _ (_ + 1)), app_assoc by lia.
  f_equal.
  - unfold piece, part_offset. cbn [_rid _rfile]. rewrite !Z.eqb_refl.
    match goal with |- drop 8 ?x = _ => change x with (pdata s s.(_rid)) end.
    destruct s.(_rfile) as [h|]; [|done]. destruct Hr as (_ & Ho & _).
    rewrite <- (take_drop s.(_roffset) (pdata s s.(_rid))) at 1.
    apply drop_app_le. rewrite length_take. lia.
  - apply range_ext. intros id Hi. unfold piece, part_offset. cbn [_rid _rfile].
    by rewrite (proj2 (Z.eqb_neq id s.(_rid))) by lia.
Qed.

(** ** [remove_all_files] *)

(** A file name has no slash. *)
Definition names_valid (f : fs) : Prop :=
  ∀ k, is_Some (f.(names) !! k) → find_last_slash k.2 = None.

Definition has_base (path : string) (k : string * string) : Prop :=
  k.1 = (resolve path).1 ∧ String.prefix (resolve path).2 k.2 = true.

#[export] Instance has_base_dec path k : Decision (has_base path k).
Proof. unfold has_base. apply _. Defined.

Lemma names_foldl_remove parts d k :
  (foldl (λ d f, remove f d) d parts).(disk_fs).(names) !! k =
    if decide (k ∈ resolve <$> parts) then None else d.(disk_fs).(names) !! k.
Proof.
  revert d. induction parts as [|p parts IH]; intros d; [done|]. cbn [foldl]. rewrite IH.
  cbn [remove disk_fs unlink names fmap list_fmap].
  destruct (decide (k = resolve p)) as [->|Hne].
  - rewrite (decide_True _ _ (P := resolve p ∈ resolve p :: _)) by by left.
    case_decide; [done|]. by rewrite lookup_delete_eq.
  - rewrite lookup_delete_ne by done. repeat case_decide; try done; set_solver.
Qed.

(** [remove_all_files] removes every file of the directory whose name starts
    with the base name of the queue, and nothing else; it closes both files and
    restarts the numbering.  In particular a queue whose name extends this
    queue's name loses its files. *)
Theorem remove_all_files_spec s k :
  names_valid (sfs s) →
  (sfs (remove_all_files s)).(names) !! k =
    (if decide (has_base s.(_base_path) k) then None else (sfs s).(names) !! k) ∧
  (remove_all_files s).(_rfile) = None ∧ (remove_all_files s).(_wfile) = None ∧
  (remove_all_files s).(_rid) = 0 ∧ (remove_all_files s).(_wid) = 0.
Proof.
  intros Hv. set (dir := (resolve s.(_base_path)).1). set (base := (resolve s.(_base_path)).2).
  assert (match find_last_slash s.(_base_path) with
          | None => ("./"%string, s.(_base_path))
          | Some (d, n) => (d +:+ "/", n) end = (dir +:+ "/", base)) as E.
  { unfold dir, base, resolve. by destruct (find_last_slash s.(_base_path)) as [[]|]. }
  unfold remove_all_files. rewrite E. split_and!; try done.
  unfold sfs. cbn [disk set_w set_r set_disk disk_fs close].
  rewrite names_foldl_remove.
  assert (∀ t, is_Some ((sfs s).(names) !! (dir, base +:+ t)) →
    resolve (dir +:+ "/" +:+ base +:+ t) = (dir, base +:+ t)) as Hres.
  { intros t Ht. apply resolve_listed. apply (Hv _ Ht). }
  assert (k ∈ resolve <$> dir_content_with_filter (dir +:+ "/") base s.(disk).(disk_fs) ↔
          is_Some ((sfs s).(names) !! k) ∧ has_base s.(_base_path) k) as Hiff.
  { rewrite list_elem_of_fmap. split.
    - intros (p & -> & (t & Ht & ->)%elem_of_dir_filter_slash). rewrite Hres by done.
      split; [done|]. split; [done|]. apply prefix_app.
    - intros [Hk [H1 H2]]. destruct k as [kd kn]. cbn in H1, H2.
      apply prefix_spec in H2 as [t ->]. subst kd. fold dir base in Hk |- *.
      exists (dir +:+ "/" +:+ base +:+ t). split; [by rewrite Hres|].
      apply elem_of_dir_filter_slash. by exists t. }
  unfold sfs in *.
  destruct (decide (k ∈ _)) as [H|H].
  - apply Hiff in H as [_ H]. by rewrite decide_True.
  - case_decide as Hb; [|done]. apply eq_None_not_Some. intros Hk. by apply H, Hiff.
Qed.

(** ** [file::stream] *)

Definition BUFSIZ : nat := Z.to_nat 8192.
#[global] Arguments BUFSIZ : simpl never.

Definition stream_read (os : os_env) : St splitter (option (list Z)) := λ s,
  match read (read_fuel s) os BUFSIZ s with
  | (Ret data, s') => (Ret (if (length data =? 0)%nat then None else Some data), s')
  | (Throw e, s') => (Throw e, s')
  end.

(** [while (size > 0) { wb = _splitter.write(memory, size); size -= wb; memory += wb; }] *)
Fixpoint stream_write_loop (fuel : nat) (os : os_env) (memory : list Z) : St splitter unit := λ s,
  if (length memory =? 0)%nat then (Ret tt, s)
  else match fuel with
       | O => (Throw fuel_exhausted, s)
       | S fuel =>
           match write os memory s with
           | (Ret wb, s') => stream_write_loop fuel os (drop (Z.to_nat wb) memory) s'
           | (Throw e, s') => (Throw e, s')
           end
       end.

Definition stream_write {E} (fuel : nat) (os : os_env) (d : option (io_data E)) : St splitter Z := λ s,
  match d with
  | None => (Ret 1, s)
  | Some (other_data _) => (Ret 1, s)
  | Some (raw buffer) =>
      match stream_write_loop fuel os buffer s with
      | (Ret _, s') => (Ret 1, s')
      | (Throw e, s') => (Throw e, s')
      end
  end.

Lemma stream_write_spec {E} fuel os buffer s :
  healthy os → sp_inv s → s.(_wid) < i32_max → s.(disk).(_limit_size) = 0 → (0 < fuel)%nat →
  ∃ s', stream_write fuel os (Some (raw (E:=E) buffer)) s = (Ret 1, s') ∧ sp_inv s' ∧
        contents s' = contents s ++ buffer ∧ s'.(_wid) ≤ s.(_wid) + 1 ∧
        s'.(disk).(_limit_size) = 0.
Proof.
  intros Hos Hinv Hmax Hl Hf. cbn [stream_write]. destruct fuel as [|fuel]; [lia|].
  cbn [stream_write_loop]. destruct (Nat.eqb_spec (length buffer) 0) as [Hz|Hz].
  { apply nil_length_inv in Hz as ->. exists s. rewrite app_nil_r. split_and!; [done..|lia|done]. }
  destruct (write_spec os buffer s) as (r & s1 & -> & Hi & Hw & _ & El & _ & Hr); [done..|].
  destruct Hr as [[-> Hc]|(_ & _ & ?)]; [|done].
  rewrite Nat2Z.id, drop_all. destruct fuel; cbn; exists s1; split_and!; (done || lia).
Qed.

(** Without a disk limit, [file::stream::write] returns after one call to the
    splitter, acknowledges one event and appends its bytes to the queue. *)
Theorem file_stream_write_appends {E} fuel os buffer s :
  healthy os → sp_inv s → s.(_wid) < i32_max → s.(disk).(_limit_size) = 0 → (0 < fuel)%nat →
  ∃ s', stream_write fuel os (Some (raw (E:=E) buffer)) s = (Ret 1, s') ∧ sp_inv s' ∧
        contents s' = contents s ++ buffer.
Proof.
  intros Hos Hinv Hmax Hl Hf.
  destruct (stream_write_spec (E:=E) fuel os buffer s) as (s' & ? & ? & ? & _); [done..|]. by exists s'.
Qed.

(** [file::stream] is a byte transport: the layers above rely on it. *)
Definition file_substream {E} (os : os_env) : Substream E splitter := {|
  sub_read := λ s, match stream_read os s with
                   | (Ret d, s') => (Ret (true, raw <$> d), s')
                   | (Throw e, s') => (Throw e, s')
                   end;
  sub_write := λ d s, match stream_write 1 os (Some d) s with
                      | (Ret _, s') => (Ret tt, s')
                      | (Throw e, s') => (Throw e, s')
                      end;
  sub_flush := mret tt;
  sub_stop := mret tt;
|}.

#[program] Definition file_substream_laws {E} (os : os_env) (Hos : healthy os) :
    @SubstreamLaws E splitter (file_substream os) :=
  @Build_SubstreamLaws E splitter (file_substream os) sp_inv
    (λ n s, s.(_wid) + Z.of_nat n ≤ i32_max ∧ s.(disk).(_limit_size) = 0) contents _ _ _.
Next Obligation.
  intros E os Hos s Hinv. cbn [sub_read file_substream]. unfold stream_read.
  pose proof (read_spec (read_fuel s) os BUFSIZ s Hos) as Hr.
  specialize (Hr ltac:(unfold BUFSIZ; lia) Hinv ltac:(unfold read_fuel; lia)).
  destruct (read (read_fuel s) os BUFSIZ s) as [[b|e] s1]; cbn in Hr.
  - destruct Hr as (Hi & Hc & _ & He). destruct b as [|z b]; cbn; [|by split_and!].
    specialize (He eq_refl). by rewrite He in Hc |- *.
  - by destruct e.
Qed.
Next Obligation. intros E os Hos n s [? ?]. split; [lia|done]. Qed.
Next Obligation.
  intros E os Hos n s b Hinv [Hw Hl]. cbn [sub_write file_substream].
  destruct (stream_write_spec (E:=E) 1 os b s) as (s' & -> & ? & ? & ? & ?); [done|done|lia|done|lia|].
  exists s'. split_and!; (done || lia).
Qed.

(** When the disk limit refuses the bytes of an event, the loop of
    [file::stream::write] never ends: [splitter::write] returns 0, the loop
    calls it again in the same state. *)
Theorem file_stream_write_spins {E} fuel os buffer s h :
  healthy os → s.(_wfile) = Some h →
  s.(_woffset) + Z.of_nat (length buffer) ≤ s.(_max_file_size) →
  (0 < length buffer)%nat → room (length buffer) s.(disk) = false →
  stream_write fuel os (Some (raw (E:=E) buffer)) s = (Throw fuel_exhausted, s).
Proof.
  intros Hos Hh Hfit Hlen Hroom. cbn [stream_write].
  assert (stream_write_loop fuel os buffer s = (Throw fuel_exhausted, s)) as ->; [|done].
  induction fuel as [|fuel IH]; cbn [stream_write_loop];
    rewrite (proj2 (Nat.eqb_neq _ _)) by lia; [done|].
  rewrite write_eq by apply Hos. rewrite Hh. unfold write_open.
  rewrite (proj2 (Z.ltb_ge _ _)) by done.
  rewrite (write_part_eq _ _ _ h), Hroom by done. exact IH.
Qed.

(** ** Without [auto_delete]

    The part that was read stays open when the reader moves to the next part. *)

Lemma read_skip fuel os n s h :
  os.(fread_fault) = false → (0 < n)%nat → s.(_auto_delete) = false → s.(_rfile) = Some h →
  drop s.(_roffset) (data_of (sfs s) h.(file_inode)) = [] →
  read (S fuel) os n s =
    if s.(_rid) <? s.(_wid) then read fuel os n (set_r (Some h) (s.(_rid) + 1) s.(_roffset) s)
    else (Throw shutdown, s).
Proof.
  intros Hff Hn Ha Hh He.
  assert (fread os n s.(_roffset) h s.(disk) = []) as Hf.
  { unfold fread, read_at. rewrite Hff. change (disk_fs (disk s)) with (sfs s).
    by rewrite He, take_nil. }
  cbn [read]. rewrite Hh. cbv beta iota. rewrite Hh. cbv beta iota zeta. rewrite Hf.
  cbn [length Nat.eqb]. rewrite Hff, (proj2 (Nat.ltb_lt 0 n)) by done. cbn [negb andb].
  rewrite Nat.add_0_r, <- Hh, set_r_id, Ha. done.
Qed.

(** Without [auto_delete], once the first part is read to its end the reader
    walks [_rid] to [_wid] on the same exhausted [FILE] and reports the end: the
    bytes of the parts that follow are never delivered. *)
Theorem no_auto_delete_skips_parts os n s h :
  healthy os → (0 < n)%nat → s.(_auto_delete) = false → s.(_rfile) = Some h →
  s.(_rid) ≤ s.(_wid) → drop s.(_roffset) (data_of (sfs s) h.(file_inode)) = [] →
  read (read_fuel s) os n s = (Throw shutdown, set_r (Some h) s.(_wid) s.(_roffset) s).
Proof.
  intros (_ & _ & _ & Hff) Hn. unfold read_fuel.
  remember (Z.to_nat (s.(_wid) - s.(_rid))) as k eqn:Hk.
  revert s Hk. induction k as [|k IH]; intros s Hk Ha Hh Hid He; rewrite (read_skip _ _ _ _ h) by done.
  - rewrite (proj2 (Z.ltb_ge _ _)) by lia. replace s.(_wid) with s.(_rid) by lia.
    by rewrite <- Hh, set_r_id.
  - rewrite (proj2 (Z.ltb_lt _ _)) by lia. rewrite IH; cbn; try done; lia.
Qed.

(** ** Two queues on one accessor *)

Definition empty_disk (limit : Z) : disk_accessor := Disk limit 0 (Fs ∅ ∅ 0).

(** Two muxers with queue files, as [disk_accessor] sees them. *)
Definition queue_a : splitter :=
  (write healthy_os (replicate 100 1) (ctor healthy_os "/q/a" 10000 true (empty_disk 10000)).2).2.
Definition queue_b : splitter := (ctor healthy_os "/q/b" 10000 true queue_a.(disk)).2.
(** [queue_a] again, after [queue_b] was built and [queue_a] was read entirely. *)
Definition queue_a' : splitter :=
  let s1 := set_disk queue_b.(disk) queue_a in
  let s2 := (read (read_fuel s1) healthy_os 200 s1).2 in
  (read (read_fuel s2) healthy_os 200 s2).2.

(** The constructor overwrites the counter shared by all the queues with the
    size of its own parts: a second queue hides the bytes of the first, and
    when the first erases a part the counter wraps below zero; from then on the
    limit refuses every write although the disk is almost empty. *)
Theorem second_queue_breaks_accounting :
  queue_b.(disk).(_current_size) = 8 ∧ total (sfs queue_b) = 116 ∧
  queue_a'.(disk).(_current_size) = 2 ^ 64 - 100 ∧ total (sfs queue_a') = 8 ∧
  room 1 queue_a'.(disk) = false.
Proof. vm_compute. by split_and!. Qed.

(** ** Witnesses *)

Definition fresh_queue (limit : Z) : splitter :=
  (ctor healthy_os "/q/a" 10000 true (empty_disk limit)).2.

Lemma fresh_queue_spec limit : sp_inv (fresh_queue limit) ∧ contents (fresh_queue limit) = [].
Proof.
  set (s := Splitter true "/q/a" 10000 None 0 0 None 0 0 (set_current_size 0 (empty_disk limit))).
  assert (fresh_queue limit = (_open_write_file healthy_os s).2) as ->.
  { unfold fresh_queue. change (ctor healthy_os "/q/a" 10000 true (empty_disk limit)) with
      (match _open_write_file healthy_os s with
       | (Ret _, s) => (Ret tt, s) | (Throw e, s) => (Throw e, s) end).
    by destruct (_open_write_file healthy_os s) as [[]]. }
  assert (∀ id, part s id = None) as Hnone by (intros; apply lookup_empty).
  assert (open_pre s) as Hpre.
  { constructor; try done; cbn; try (unfold i32_max; lia).
    by left. }
  destruct (open_write_spec healthy_os s healthy_os_healthy Hpre) as (b & s' & -> & (Hi & _ & Hc) & _).
  split; [done|]. cbn [snd]. rewrite Hc. unfold contents. rewrite range_cons by done.
  by rewrite piece_absent.
Qed.

Definition demo_ops : list sp_op :=
  [OpWrite healthy_os [1; 2; 3]; OpRead healthy_os 2; OpWrite healthy_os [4]; OpRead healthy_os 10;
   OpRead healthy_os 10; OpWrite healthy_os [5]].

Lemma demo_ops_ok : Forall op_ok demo_ops.
Proof. repeat constructor; cbn; try lia. Qed.



Lemma splitter_read_progress_witness :
  match read (read_fuel (fresh_queue 0)) healthy_os 4 (fresh_queue 0) with
  | (Throw shutdown, s') => contents (fresh_queue 0) = [] ∧ sp_inv s'
  | _ => False
  end.
Proof.
  pose proof (splitter_read_progress healthy_os 4 (fresh_queue 0) healthy_os_healthy
    ltac:(lia) (proj1 (fresh_queue_spec 0))) as H.
  assert ((read (read_fuel (fresh_queue 0)) healthy_os 4 (fresh_queue 0)).1 = Throw shutdown) as E
    by (vm_compute; reflexivity).
  destruct (read (read_fuel (fresh_queue 0)) healthy_os 4 (fresh_queue 0)) as [r s'].
  cbn in E. subst r. exact H.
Defined.

Definition written_queue : splitter := (write healthy_os [7; 8; 9] (fresh_queue 0)).2.

Lemma written_queue_inv : sp_inv written_queue.
Proof.
  destruct (write_spec healthy_os [7; 8; 9] (fresh_queue 0)) as (r & s' & E & Hi & _);
    [done|apply fresh_queue_spec|by vm_compute|].
  unfold written_queue. by rewrite E.
Qed.

Lemma splitter_restart_witness :
  ∃ s', ctor healthy_os "/q/a" 10000 true (close written_queue).(disk) = (Ret tt, s') ∧
    contents s' = [7; 8; 9].
Proof.
  destruct (splitter_restart healthy_os written_queue 10000 healthy_os_healthy written_queue_inv)
    as (s' & E & _ & Hc).
  - by vm_compute.
  - by vm_compute.
  - intros t Ht. exists 0. split; [by vm_compute|].
    destruct Ht as [i Hi]. assert ((sfs written_queue).(names) = {[ ("/q"%string, "a"%string) := 0%nat ]}) as En
      by (vm_compute; reflexivity).
    rewrite En in Hi. change (resolve (_base_path written_queue)) with ("/q"%string, "a"%string) in Hi.
    apply lookup_singleton_Some in Hi as [[= H] _]. cbn in H. symmetry in H.
    exact H.
  - by exists 0%nat.
  - exists s'. split; [exact E|]. rewrite Hc. vm_compute. reflexivity.
Defined.

Lemma remove_all_files_spec_witness :
  (sfs (remove_all_files queue_b)).(names) !! ("/q"%string, "b"%string) = None ∧
  (sfs (remove_all_files queue_b)).(names) !! ("/q"%string, "a"%string) = Some 0%nat.
Proof.
  assert (names_valid (sfs queue_b)) as Hv.
  { assert ((sfs queue_b).(names) =
      <[("/q"%string, "b"%string) := 1%nat]> {[ ("/q"%string, "a"%string) := 0%nat ]}) as En
      by (vm_compute; reflexivity).
    intros k [i Hi]. rewrite En in Hi.
    apply lookup_insert_Some in Hi as [[<- _]|[_ [<- _]%lookup_singleton_Some]]; done. }
  split.
  - destruct (remove_all_files_spec queue_b ("/q"%string, "b"%string) Hv) as [-> _].
    by rewrite decide_True.
  - destruct (remove_all_files_spec queue_b ("/q"%string, "a"%string) Hv) as [-> _].
    vm_compute. reflexivity.
Defined.

Lemma file_stream_write_appends_witness :
  ∃ s', stream_write 1 healthy_os (Some (raw (E:=unit) [1; 2])) (fresh_queue 0) = (Ret 1, s') ∧
        contents s' = [1; 2].
Proof.
  destruct (file_stream_write_appends (E:=unit) 1 healthy_os [1; 2] (fresh_queue 0)) as (s' & E & _ & Hc);
    [done|apply fresh_queue_spec|by vm_compute|by vm_compute|lia|].
  exists s'. split; [done|]. rewrite Hc. by rewrite (proj2 (fresh_queue_spec 0)).
Defined.

Lemma file_stream_write_spins_witness :
  stream_write 50 healthy_os (Some (raw (E:=unit) [1; 2])) (fresh_queue 9) = (Throw fuel_exhausted, fresh_queue 9).
Proof.
  apply (file_stream_write_spins (E:=unit) 50 healthy_os [1; 2] (fresh_queue 9) (MkFILE 0 0)).
  - done.
  - reflexivity.
  - vm_compute. discriminate.
  - cbn. lia.
  - reflexivity.
Defined.

(** Two parts, the first one read entirely, without [auto_delete]. *)
Definition kept_queue : splitter :=
  let s := (ctor healthy_os "/q/a" 10000 false (empty_disk 0)).2 in
  let s := (write healthy_os (replicate (Z.to_nat 9000) 1) s).2 in
  let s := (write healthy_os (replicate (Z.to_nat 2000) 2) s).2 in
  (read (read_fuel s) healthy_os (Z.to_nat 10000) s).2.

Lemma no_auto_delete_skips_parts_witness :
  (read (read_fuel kept_queue) healthy_os 10 kept_queue).1 = Throw shutdown ∧
  Z.of_nat (length (contents kept_queue)) = 2000.
Proof.
  split; [|by vm_compute].
  rewrite (no_auto_delete_skips_parts healthy_os 10 kept_queue (MkFILE 2 0)).
  - reflexivity.
  - done.
  - lia.
  - vm_compute. reflexivity.
  - vm_compute. reflexivity.
  - vm_compute. discriminate.
  - vm_compute. reflexivity.
Defined.
