(* ===== verification/Compression.v ===== *)
(** * Compression of the byte stream

    [broker/core/src/compression/]: [stack_array], the read buffer; the [zlib]
    wrapper around the zlib library; and [compression::stream], which groups the
    bytes written into compressed frames (a 4-byte size, then the block) and
    cuts the bytes read back into frames, skipping what is corrupted one byte at
    a time.

    The zlib library and the sub-stream are interfaces: the theorems hold for
    every zlib that decompresses what it compressed, over every sub-stream that
    transports bytes in order. *)

From S2P Require Import Prelude DiskFs Splitter Stream FileQueue.

#[local] Open Scope Z_scope.

(** ** The size in front of a frame *)

(** [(b0 << 24) | (b1 << 16) | (b2 << 8) | b3] of four unsigned chars, an [int] *)
Definition int_of_be (l : list Z) : Z :=
  match l with
  | b0 :: b1 :: b2 :: b3 :: _ =>
      wrap_i32 (Z.lor (Z.lor (Z.lor (Z.shiftl b0 24) (Z.shiftl b1 16)) (Z.shiftl b2 8)) b3)
  | _ => 0
  end.

#[global] Arguments int_of_be : simpl never.

Lemma int_of_be32 n l : 0 ≤ n < 2 ^ 31 → int_of_be (be32 n ++ l) = n.
Proof.
  intros Hn. unfold be32, int_of_be. cbn [app]. rewrite be32_lor by lia.
  apply wrap_i32_small. lia.
Qed.

(** ** [stack_array] *)

Record stack_array := Stack { _buffer : list Z; _offset : nat }.

Definition sa_data (a : stack_array) : list Z := drop a.(_offset) a.(_buffer).
Definition sa_pop (bytes : nat) (a : stack_array) : stack_array :=
  Stack a.(_buffer) (a.(_offset) + bytes).
Definition sa_push (buffer : list Z) (a : stack_array) : stack_array :=
  if (a.(_offset) =? 0)%nat then Stack (a.(_buffer) ++ buffer) 0
  else Stack (drop a.(_offset) a.(_buffer) ++ buffer) 0.
Definition sa_size (a : stack_array) : Z := Z.of_nat (length a.(_buffer)) - Z.of_nat a.(_offset).

(** What was popped was there. *)
Definition sa_wf (a : stack_array) : Prop := (a.(_offset) ≤ length a.(_buffer))%nat.

Lemma sa_size_data a : sa_wf a → sa_size a = Z.of_nat (length (sa_data a)).
Proof. unfold sa_wf, sa_size, sa_data. intros ?. rewrite length_drop. lia. Qed.

Lemma sa_push_data b a : sa_data (sa_push b a) = sa_data a ++ b ∧ sa_wf (sa_push b a).
Proof.
  unfold sa_data, sa_push, sa_wf. destruct (Nat.eqb_spec a.(_offset) 0) as [->|]; cbn; split; try done; lia.
Qed.

Lemma sa_pop_data n a :
  (n ≤ length (sa_data a))%nat → sa_wf a → sa_data (sa_pop n a) = drop n (sa_data a) ∧ sa_wf (sa_pop n a).
Proof.
  unfold sa_data, sa_pop, sa_wf. cbn. rewrite length_drop, drop_drop. intros. split; [done|lia].
Qed.

(** ** zlib *)

Inductive zres := Z_OK (out : list Z) | Z_MEM_ERROR | Z_BUF_ERROR | Z_DATA_ERROR.

(** The three functions of the zlib library the wrapper calls: a size bound, the
    compression into a buffer of [len] bytes, the decompression likewise. *)
Class ZLib := {
  compressBound : Z → Z;
  compress2 : Z → list Z → Z → zres;
  z_uncompress : Z → list Z → zres;
}.

(** zlib's documentation, when memory does not run out: a buffer of
    [compressBound] bytes is enough, the output fits in its buffer and is not
    empty, and decompression into a buffer that is large enough inverts
    compression. *)
Class ZLibLaws `{!ZLib} := {
  compress_ok (data : list Z) (level len : Z) :
    compressBound (Z.of_nat (length data)) ≤ len →
    ∃ out, compress2 len data level = Z_OK out ∧ 0 < Z.of_nat (length out) ≤ len;
  uncompress_compress (data out : list Z) (level len alloc : Z) :
    compress2 len data level = Z_OK out → Z.of_nat (length data) ≤ alloc →
    z_uncompress alloc out = Z_OK data;
  uncompress_fits (c out : list Z) (alloc : Z) :
    z_uncompress alloc c = Z_OK out → Z.of_nat (length out) ≤ alloc;
}.

(** [compression::stream::max_data_size] *)
Definition max_data_size : Z := 100000000.

Section Zlib.
Context `{!ZLib}.

(** The loop that doubles the buffer while zlib finds it too small. *)
Fixpoint compress_loop (fuel : nat) (data : list Z) (level len : Z) : res (list Z) :=
  match fuel with
  | O => Throw fuel_exhausted
  | S fuel =>
      match compress2 len data level with
      | Z_OK out => Ret (be32 (Z.of_nat (length data)) ++ out)
      | Z_MEM_ERROR => Throw msg_fmt
      | Z_BUF_ERROR => compress_loop fuel data level (Z.shiftl len 1)
      | Z_DATA_ERROR => Ret (replicate (Z.to_nat (len + 4)) 0)
      end
  end.

Definition compress (fuel : nat) (data : list Z) (compression_level : Z) : res (list Z) :=
  match data with
  | [] => Ret [0; 0; 0; 0]
  | _ =>
      let level := if (compression_level <? -1) || (9 <? compression_level)
                   then -1 else compression_level in
      compress_loop fuel data level (compressBound (Z.of_nat (length data)))
  end.

(** [uncompress(data, nbytes)]; [data] points to at least [nbytes] bytes. *)
Definition uncompress (data : list Z) (nbytes : Z) : res (list Z) :=
  if (nbytes <=? 4) && ((nbytes <? 4) || negb (bool_decide (take 4 data = [0; 0; 0; 0])))
  then Throw corruption
  else
    (* an [int] converted to [unsigned long] *)
    let expected_size := wrap_u64 (int_of_be data) in
    let len := if 1 <? expected_size then expected_size else 1 in
    if max_data_size <? len then Throw corruption
    else
      match z_uncompress len (drop 4 (take (Z.to_nat nbytes) data)) with
      | Z_OK out => Ret out
      | Z_MEM_ERROR => Throw msg_fmt
      | Z_BUF_ERROR | Z_DATA_ERROR => Throw corruption
      end.

End Zlib.

(** ** [compression::stream] *)

Section Stream.
Context `{!ZLib} {Ev D : Type} `{!Substream Ev D}.

Record stream := Cs {
  _level : Z;
  _rbuffer : stack_array;
  _shutdown : bool;
  _size : Z;
  _wbuffer : list Z;
  _substream : D;
}.

Definition set_rbuffer (a : stack_array) (s : stream) : stream :=
  Cs s.(_level) a s.(_shutdown) s.(_size) s.(_wbuffer) s.(_substream).
Definition set_shutdown (b : bool) (s : stream) : stream :=
  Cs s.(_level) s.(_rbuffer) b s.(_size) s.(_wbuffer) s.(_substream).
Definition set_wbuffer (l : list Z) (s : stream) : stream :=
  Cs s.(_level) s.(_rbuffer) s.(_shutdown) s.(_size) l s.(_substream).
Definition set_sub (d : D) (s : stream) : stream :=
  Cs s.(_level) s.(_rbuffer) s.(_shutdown) s.(_size) s.(_wbuffer) d.

Definition cs_init (level size : Z) (d : D) : stream := Cs level (Stack [] 0) false size [] d.

(** The [while] loop of [_get_data], up to the exceptions it lets out. *)
Fixpoint get_data_loop (fuel : nat) (size : Z) : St stream unit := λ s,
  if sa_size s.(_rbuffer) <? size then
    match fuel with
    | O => (Throw fuel_exhausted, s)
    | S fuel =>
        match sub_read s.(_substream) with
        | (Throw e, d) => (Throw e, set_sub d s)
        | (Ret (false, _), d) => (Throw timeout, set_sub d s)
        | (Ret (true, None), d) => (Throw interrupt, set_sub d s)
        | (Ret (true, Some (raw b)), d) =>
            get_data_loop fuel size (set_rbuffer (sa_push b s.(_rbuffer)) (set_sub d s))
        | (Ret (true, Some (other_data _)), d) => get_data_loop fuel size (set_sub d s)
        end
    end
  else (Ret tt, s).

Definition _get_data (fuel : nat) (size : Z) : St stream unit :=
  st_try (get_data_loop fuel size)
    (λ e, match e with
          | shutdown => Some (λ s, (Ret tt, set_shutdown true s))
          | _ => None
          end).

(** What the inner [try] makes of a block: its data, or nothing when it is
    corrupted. *)
Definition uncompress_block (s : stream) (size : Z) : res (list Z) :=
  if size + 4 <=? sa_size s.(_rbuffer) then
    match uncompress (drop 4 (sa_data s.(_rbuffer))) size with
    | Throw corruption => Ret []
    | r => r
    end
  else Ret [].

(** The two nested [while (corrupted)] loops: each turn reads a size, and a block
    when the size is plausible, or drops one byte and starts again. *)
Fixpoint read_loop (fuel : nat) : St stream (list Z) := λ s,
  match fuel with
  | O => (Throw fuel_exhausted, s)
  | S fuel' =>
      match _get_data fuel 4 s with
      | (Throw e, s1) => (Throw e, s1)
      | (Ret _, s1) =>
          if sa_size s1.(_rbuffer) <? 4 then (Throw shutdown, s1)
          else
            let size := wrap_u32 (int_of_be (sa_data s1.(_rbuffer))) in
            let skip s := read_loop fuel' (set_rbuffer (sa_pop 1 s.(_rbuffer)) s) in
            if (size <=? 0) || (max_data_size <? size) then skip s1
            else
              match _get_data fuel (size + 4) s1 with
              | (Throw e, s2) => (Throw e, s2)
              | (Ret _, s2) =>
                  match uncompress_block s2 size with
                  | Throw e => (Throw e, s2)
                  | Ret [] => skip s2
                  | Ret r => (Ret r, set_rbuffer (sa_pop (Z.to_nat (size + 4)) s2.(_rbuffer)) s2)
                  end
              end
      end
  end.

(** The returned boolean and the event. *)
Definition read (fuel : nat) : St stream (bool * option (list Z)) := λ s,
  if s.(_shutdown) then (Throw shutdown, s)
  else
    match read_loop fuel s with
    | (Ret r, s1) => (Ret (true, Some r), s1)
    | (Throw interrupt, s1) => (Ret (true, None), s1)
    | (Throw timeout, s1) => (Ret (false, None), s1)
    | (Throw shutdown, s1) =>
        let s2 := set_shutdown true s1 in
        match s2.(_wbuffer) with
        | [] => (Throw shutdown, s2)
        | w => (Ret (true, Some w), set_wbuffer [] s2)
        end
    | (Throw e, s1) => (Throw e, s1)
    end.

Definition _flush (fuel : nat) : St stream unit := λ s,
  if s.(_shutdown) then (Throw shutdown, s)
  else
    match s.(_wbuffer) with
    | [] => (Ret tt, s)
    | w =>
        match compress fuel w s.(_level) with
        | Throw e => (Throw e, s)
        | Ret data =>
            let s1 := set_wbuffer [] s in
            match sub_write (raw (be32 (wrap_u32 (Z.of_nat (length data))) ++ data)) s1.(_substream) with
            | (Ret _, d) => (Ret tt, set_sub d s1)
            | (Throw e, d) => (Throw e, set_sub d s1)
            end
        end
    end.

Definition flush (fuel : nat) : St stream Z := λ s,
  match _flush fuel s with (Ret _, s1) => (Ret 0, s1) | (Throw e, s1) => (Throw e, s1) end.

Definition stop : nat → St stream Z := flush.

Definition write (fuel : nat) (d : option (io_data Ev)) : St stream Z := λ s,
  match d with
  | None => (Ret 1, s)
  | Some d =>
      if s.(_shutdown) then (Throw shutdown, s)
      else
        match d with
        | other_data _ => (Ret 1, s)
        | raw r =>
            if max_data_size <? Z.of_nat (length r) then (Throw msg_fmt, s)
            else if (0 <? length r)%nat then
              let s1 := set_wbuffer (s.(_wbuffer) ++ r) s in
              if s1.(_size) <=? Z.of_nat (length s1.(_wbuffer)) then
                match _flush fuel s1 with
                | (Ret _, s2) => (Ret 1, s2)
                | (Throw e, s2) => (Throw e, s2)
                end
              else (Ret 1, s1)
            else (Ret 1, s)
        end
  end.

(** [~stream]: whatever the flush throws is ignored. *)
Definition destroy (fuel : nat) (s : stream) : D := (_flush fuel s).2.(_substream).

End Stream.

Arguments stream : clear implicits.

(** ** Lemmas *)

Section ZlibLaws.
Context `{!ZLib} `{!ZLibLaws}.

(** Compression succeeds at the first try. *)
Lemma compress_spec fuel data level :
  data ≠ [] →
  ∃ out len lvl, compress (S fuel) data level = Ret (be32 (Z.of_nat (length data)) ++ out) ∧
    compress2 len data lvl = Z_OK out ∧
    0 < Z.of_nat (length out) ≤ compressBound (Z.of_nat (length data)).
Proof.
  intros Hne. destruct data as [|z data]; [done|]. unfold compress.
  set (lvl := if (level <? -1) || (9 <? level) then -1 else level).
  destruct (compress_ok (z :: data) lvl (compressBound (Z.of_nat (length (z :: data)))))
    as (out & Hout & Hl); [done|].
  cbn [compress_loop]. rewrite Hout. by exists out, (compressBound (Z.of_nat (length (z :: data)))), lvl.
Qed.

Lemma drop4_be32 n l : drop 4 (be32 n ++ l) = l.
Proof. reflexivity. Qed.

Lemma uncompress_spec data out len lvl x :
  compress2 len data lvl = Z_OK out → (0 < length out)%nat → data ≠ [] →
  Z.of_nat (length data) ≤ max_data_size →
  uncompress (be32 (Z.of_nat (length data)) ++ out ++ x) (4 + Z.of_nat (length out)) = Ret data.
Proof.
  intros Hout Hl Hne Hmax. unfold uncompress, max_data_size in *.
  rewrite (proj2 (Z.leb_gt _ 4)) by lia. cbn [andb].
  rewrite int_of_be32 by lia. rewrite wrap_u64_small by lia.
  assert (0 < length data)%nat by (destruct data; [done|simpl; lia]).
  set (n := if 1 <? Z.of_nat (length data) then Z.of_nat (length data) else 1).
  assert (n = Z.of_nat (length data)) as ->.
  { unfold n. destruct (Z.ltb_spec 1 (Z.of_nat (length data))); lia. }
  rewrite (proj2 (Z.ltb_ge _ _)) by lia.
  replace (drop 4 _) with out.
  2:{ replace (Z.to_nat (4 + Z.of_nat (length out))) with
        (length (be32 (Z.of_nat (length data)) ++ out)) by (rewrite length_app, length_be32; lia).
      rewrite app_assoc, take_app_length. by rewrite drop4_be32. }
  by erewrite uncompress_compress.
Qed.

(** The zlib wrapper: what [compress] returns, [uncompress] gives back, for
    any data up to the size limit, at any level. *)
Theorem zlib_roundtrip data level c :
  data ≠ [] → Z.of_nat (length data) ≤ max_data_size →
  compress 1 data level = Ret c → uncompress c (Z.of_nat (length c)) = Ret data.
Proof.
  intros Hne Hmax Hc.
  destruct (compress_spec 0 data level Hne) as (out & len & lvl & E & Hout & Hl).
  assert (c = be32 (Z.of_nat (length data)) ++ out) as -> by congruence. rewrite length_app, length_be32.
  rewrite <- (app_nil_r out) at 1.
  replace (Z.of_nat (4 + length out)) with (4 + Z.of_nat (length out)) by lia.
  eapply uncompress_spec; [done|lia|done..].
Qed.

End ZlibLaws.

Section StreamLaws.
Context `{!ZLib} {Ev D : Type} `{!Substream Ev D} `{!SubstreamLaws Ev D}.
Implicit Types s : stream D.

(** All the bytes a stream has still to cut into frames. *)
Definition bytes s : list Z := sa_data s.(_rbuffer) ++ pending s.(_substream).
Definition cs_wf s : Prop := sa_wf s.(_rbuffer) ∧ sub_inv s.(_substream).

(** Reading moves bytes from the sub-stream to the buffer. *)
Definition same_bytes s s' : Prop :=
  cs_wf s' ∧ bytes s' = bytes s ∧ s'.(_wbuffer) = s.(_wbuffer) ∧
  (length (pending s'.(_substream)) ≤ length (pending s.(_substream)))%nat.

Lemma get_data_loop_spec fuel size s :
  cs_wf s → (length (pending s.(_substream)) < fuel)%nat →
  match get_data_loop fuel size s with
  | (Ret _, s') => same_bytes s s' ∧ size ≤ sa_size s'.(_rbuffer) ∧ s'.(_shutdown) = s.(_shutdown)
  | (Throw e, s') => (e = shutdown ∨ e = interrupt) ∧ same_bytes s s' ∧
      sa_size s'.(_rbuffer) < size ∧ pending s'.(_substream) = []
  end.
Proof.
  revert s. induction fuel as [|fuel IH]; intros s [Hwf Hinv] Hf; [lia|]. cbn [get_data_loop].
  destruct (Z.ltb_spec (sa_size s.(_rbuffer)) size) as [Hlt|Hge]; [|by repeat split].
  pose proof (sub_read_spec s.(_substream) Hinv) as Hr.
  destruct (sub_read s.(_substream)) as [[[[] [[b|]|]]|[]] d]; try done.
  - destruct Hr as (Hi & Hne & Hp).
    destruct (sa_push_data b s.(_rbuffer)) as [Hd Hw].
    specialize (IH (set_rbuffer (sa_push b s.(_rbuffer)) (set_sub d s))).
    assert (0 < length b)%nat by (destruct b; [done|simpl; lia]).
    rewrite Hp, length_app in Hf. specialize (IH ltac:(done) ltac:(cbn; lia)).
    destruct (get_data_loop fuel size _) as [[u|e] s']; unfold same_bytes, bytes in *; cbn in IH.
    + destruct IH as ((? & Hb & ? & ?) & ? & ?). rewrite Hp, length_app. split_and!; try done; [|lia].
      by rewrite Hb, Hd, <- app_assoc.
    + destruct IH as (? & (? & Hb & ? & ?) & ? & ?). rewrite Hp, length_app. split_and!; try done; [|lia].
      by rewrite Hb, Hd, <- app_assoc.
  - destruct Hr as (? & Hp & Hp'). unfold same_bytes, bytes, cs_wf. cbn.
    rewrite Hp, Hp'. split_and!; try done. by right.
  - destruct Hr as (? & Hp & Hp'). unfold same_bytes, bytes, cs_wf. cbn.
    rewrite Hp, Hp'. split_and!; try done. by left.
Qed.

(** [_get_data]: the bytes are there, or the sub-stream has no more. *)
Lemma get_data_spec fuel size s :
  cs_wf s → (length (pending s.(_substream)) < fuel)%nat →
  match _get_data fuel size s with
  | (Ret _, s') => same_bytes s s' ∧
      (size ≤ sa_size s'.(_rbuffer) ∧ s'.(_shutdown) = s.(_shutdown) ∨
       sa_size s'.(_rbuffer) < size ∧ pending s'.(_substream) = [])
  | (Throw e, s') => e = interrupt ∧ same_bytes s s' ∧
      sa_size s'.(_rbuffer) < size ∧ pending s'.(_substream) = []
  end.
Proof.
  intros Hwf Hf. pose proof (get_data_loop_spec fuel size s Hwf Hf) as Hg.
  unfold _get_data, st_try. destruct (get_data_loop fuel size s) as [[u|e] s'].
  - destruct Hg as (? & ? & ?). split; [done|]. by left.
  - destruct Hg as ([-> | ->] & (? & ? & ? & ?) & ? & ?); split_and!; try done. by right.
Qed.

Lemma bytes_length s :
  cs_wf s → pending s.(_substream) = [] → Z.of_nat (length (bytes s)) = sa_size s.(_rbuffer).
Proof. intros [Hwf _] Hp. unfold bytes. by rewrite Hp, app_nil_r, sa_size_data. Qed.

(** When the bytes asked for exist, [_get_data] brings them. *)
Lemma get_data_enough fuel size s :
  cs_wf s → (length (pending s.(_substream)) < fuel)%nat → size ≤ Z.of_nat (length (bytes s)) →
  ∃ s', _get_data fuel size s = (Ret tt, s') ∧ same_bytes s s' ∧
    size ≤ sa_size s'.(_rbuffer) ∧ s'.(_shutdown) = s.(_shutdown).
Proof.
  intros Hwf Hf Hsz. pose proof (get_data_spec fuel size s Hwf Hf) as Hg.
  destruct (_get_data fuel size s) as [[[]|e] s'].
  - destruct Hg as [Hs [[? ?]|[? Hp]]]; [by exists s'|]. exfalso. destruct Hs as (? & Hb & _).
    rewrite <- Hb, bytes_length in Hsz by done. lia.
  - destruct Hg as (_ & (? & Hb & _) & ? & ?). rewrite <- Hb, bytes_length in Hsz by done. lia.
Qed.

(** A frame on the wire: the size of the block, then the block. *)
Definition framed (data f : list Z) : Prop :=
  ∃ out len lvl, f = be32 (4 + Z.of_nat (length out)) ++ be32 (Z.of_nat (length data)) ++ out ∧
    compress2 len data lvl = Z_OK out ∧ (0 < length out)%nat ∧ data ≠ [] ∧
    Z.of_nat (length data) ≤ max_data_size ∧ 4 + Z.of_nat (length out) ≤ max_data_size.

Lemma int_of_be_app l k : (4 ≤ length l)%nat → int_of_be (l ++ k) = int_of_be l.
Proof. intros Hl. do 4 (destruct l as [|? l]; [simpl in Hl; lia|]). done. Qed.

(** A prefix long enough of some bytes starts with their first part. *)
Lemma app_split {A} (l k a b : list A) :
  l ++ k = a ++ b → (length a ≤ length l)%nat → ∃ x, l = a ++ x ∧ b = x ++ k.
Proof.
  intros E Hl. exists (drop (length a) l). split.
  - rewrite <- (take_drop (length a) l) at 1. f_equal.
    rewrite <- (take_app_le l k) by done. by rewrite E, take_app_length.
  - rewrite <- (drop_app_le l k) by done. by rewrite E, drop_app_length.
Qed.

Context `{!ZLibLaws}.

(** A frame at the front of the bytes is delivered, whatever the pieces the
    sub-stream cuts it into. *)
Lemma read_loop_frame fuel s data f rest :
  cs_wf s → framed data f → bytes s = f ++ rest →
  (length (pending s.(_substream)) < fuel)%nat →
  ∃ s', read_loop fuel s = (Ret data, s') ∧ cs_wf s' ∧ bytes s' = rest ∧
    s'.(_wbuffer) = s.(_wbuffer) ∧ s'.(_shutdown) = s.(_shutdown) ∧
    (length (pending s'.(_substream)) ≤ length (pending s.(_substream)))%nat.
Proof.
  intros Hwf (out & len & lvl & -> & Hout & Hl & Hne & Hmax & Hmaxc) Hb Hf.
  set (n := 4 + Z.of_nat (length out)) in *. unfold max_data_size in *.
  assert (length (bytes s) = 4 + Z.to_nat n + length rest)%nat as Hlen.
  { rewrite Hb, !length_app, !length_be32. lia. }
  destruct fuel as [|fuel]; [lia|]. cbn [read_loop].
  destruct (get_data_enough (S fuel) 4 s) as (s1 & -> & (Hwf1 & Hb1 & Hw1 & Hp1) & Hs1 & Hsh1);
    [done|lia|lia|].
  rewrite (proj2 (Z.ltb_ge _ _)) by done.
  assert (4 ≤ length (sa_data s1.(_rbuffer)))%nat.
  { rewrite sa_size_data in Hs1 by apply Hwf1. lia. }
  replace (int_of_be (sa_data s1.(_rbuffer))) with n.
  2:{ rewrite <- (int_of_be_app _ (pending s1.(_substream))) by done.
      fold (bytes s1). rewrite Hb1, Hb, <- app_assoc. rewrite int_of_be32; lia. }
  rewrite wrap_u32_small by lia. rewrite (proj2 (Z.leb_gt n 0)) by lia.
  unfold max_data_size. rewrite (proj2 (Z.ltb_ge _ n)) by lia. cbn [orb].
  destruct (get_data_enough (S fuel) (n + 4) s1) as (s2 & -> & (Hwf2 & Hb2 & Hw2 & Hp2) & Hs2 & Hsh2);
    [done|lia|rewrite Hb1; lia|].
  rewrite sa_size_data in Hs2 by apply Hwf2.
  destruct (app_split (sa_data s2.(_rbuffer)) (pending s2.(_substream))
    (be32 n ++ be32 (Z.of_nat (length data)) ++ out) rest) as (x & Hx & Hrest).
  { fold (bytes s2). by rewrite Hb2, Hb1, Hb. }
  { rewrite !length_app, !length_be32. lia. }
  assert (uncompress_block s2 n = Ret data) as ->.
  { unfold uncompress_block. rewrite sa_size_data by apply Hwf2.
    rewrite (proj2 (Z.leb_le _ _)) by lia. rewrite Hx, <- app_assoc, drop4_be32, <- app_assoc.
    by erewrite uncompress_spec by done. }
  destruct data as [|z data]; [done|]. eexists. split; [reflexivity|].
  destruct (sa_pop_data (Z.to_nat (n + 4)) s2.(_rbuffer)) as [Hpd Hpw]; [lia|apply Hwf2|].
  split_and!; [by split; [|apply Hwf2]| |cbn; congruence|cbn; congruence|cbn; lia].
  unfold bytes. cbn [_rbuffer set_rbuffer _substream]. rewrite Hpd, Hx, Hrest. f_equal.
  replace (Z.to_nat (n + 4)) with (length (be32 n ++ be32 (Z.of_nat (length (z :: data))) ++ out)).
  - apply drop_app_length.
  - rewrite !length_app, !length_be32. lia.
Qed.

(** What the loop guarantees on any bytes, corrupted or not: a non-empty block
    and the bytes after it, or one of the exceptions [read] handles or a lack of
    memory. *)
Definition loop_post s (out : res (list Z) * stream D) : Prop :=
  match out with
  | (Ret data, s') => data ≠ [] ∧ cs_wf s' ∧ s'.(_wbuffer) = s.(_wbuffer) ∧
      ∃ k, (0 < k)%nat ∧ bytes s' = drop k (bytes s)
  | (Throw e, s') => cs_wf s' ∧ s'.(_wbuffer) = s.(_wbuffer) ∧
      (e = shutdown ∨ e = interrupt ∨ e = msg_fmt)
  end.

Lemma same_bytes_refl s : cs_wf s → same_bytes s s.
Proof. intros. by split_and!. Qed.

Lemma same_bytes_trans s1 s2 s3 : same_bytes s1 s2 → same_bytes s2 s3 → same_bytes s1 s3.
Proof.
  intros (? & ? & ? & ?) (? & ? & ? & ?). split_and!; (done || congruence || lia).
Qed.

Lemma same_bytes_size s s' :
  cs_wf s → same_bytes s s' → sa_size s.(_rbuffer) ≤ sa_size s'.(_rbuffer).
Proof.
  intros [Hs _] ([Hs' _] & Hb & _ & Hp). rewrite !sa_size_data by done.
  apply (f_equal length) in Hb. unfold bytes in Hb. rewrite !length_app in Hb. lia.
Qed.

(** Bytes taken from the buffer. *)
Lemma pop_bytes k s :
  cs_wf s → (k ≤ length (sa_data s.(_rbuffer)))%nat →
  cs_wf (set_rbuffer (sa_pop k s.(_rbuffer)) s) ∧
  bytes (set_rbuffer (sa_pop k s.(_rbuffer)) s) = drop k (bytes s).
Proof.
  intros [Hwf Hi] Hk. destruct (sa_pop_data k s.(_rbuffer)) as [Hd Hw]; [done..|].
  split; [done|]. unfold bytes. cbn [_rbuffer set_rbuffer _substream]. rewrite Hd. symmetry. by apply drop_app_le.
Qed.

Lemma loop_post_skip fuel s t :
  (∀ t, cs_wf t → (length (bytes t) < fuel)%nat → loop_post t (read_loop fuel t)) →
  same_bytes s t → 4 ≤ sa_size t.(_rbuffer) → (length (bytes s) < S fuel)%nat →
  loop_post s (read_loop fuel (set_rbuffer (sa_pop 1 t.(_rbuffer)) t)).
Proof.
  intros IH (Ht & Hb & Hw & _) H4 Hf. rewrite sa_size_data in H4 by apply Ht.
  destruct (pop_bytes 1 t) as [Ht' Hb']; [done|lia|].
  assert (length (bytes s) ≠ 0)%nat by (rewrite <- Hb; unfold bytes; rewrite length_app; lia).
  specialize (IH _ Ht'). rewrite Hb', Hb, length_drop in IH. specialize (IH ltac:(lia)).
  unfold loop_post in *. destruct (read_loop fuel _) as [[data|e] s'].
  - destruct IH as (? & ? & Hw' & k & ? & Hk). rewrite Hb', Hb, drop_drop in Hk.
    split_and!; [done|done|by rewrite Hw'|]. exists (1 + k)%nat. split; [lia|done].
  - destruct IH as (? & Hw' & ?). split_and!; [done|by rewrite Hw'|done].
Qed.

Lemma uncompress_block_cases s n :
  match uncompress_block s n with
  | Ret [] => True
  | Ret _ => n + 4 ≤ sa_size s.(_rbuffer)
  | Throw e => e = msg_fmt
  end.
Proof.
  unfold uncompress_block, uncompress.
  destruct (Z.leb_spec (n + 4) (sa_size s.(_rbuffer))) as [Hle|]; [|done].
  destruct (_ && _); [done|]. destruct (_ <? _); [done|].
  destruct (z_uncompress _ _) as [[]| | |]; done.
Qed.

Lemma read_loop_ends fuel s :
  cs_wf s → (length (bytes s) < fuel)%nat → loop_post s (read_loop fuel s).
Proof.
  revert s. induction fuel as [|fuel IH]; intros s Hwf Hf; [lia|]. cbn [read_loop].
  assert (∀ t, same_bytes s t → (length (pending t.(_substream)) < S fuel)%nat) as Hpend.
  { intros t (_ & Hb & _). rewrite <- Hb in Hf. unfold bytes in Hf. rewrite length_app in Hf. lia. }
  pose proof (get_data_spec (S fuel) 4 s Hwf (Hpend s (same_bytes_refl s Hwf))) as Hg.
  destruct (_get_data (S fuel) 4 s) as [[[]|e] s1].
  2:{ destruct Hg as (-> & (? & _ & ? & _) & _). split_and!; try done. by right; left. }
  destruct Hg as [Hs1 _]. destruct (Z.ltb_spec (sa_size s1.(_rbuffer)) 4) as [H4|H4].
  { destruct Hs1 as (? & _ & ? & _). split_and!; try done. by left. }
  set (n := wrap_u32 _). destruct ((n <=? 0) || _) eqn:Hn; [by apply loop_post_skip|].
  apply orb_false_iff in Hn as [Hn _]. apply Z.leb_gt in Hn.
  pose proof (get_data_spec (S fuel) (n + 4) s1 (proj1 Hs1) (Hpend s1 Hs1)) as Hg.
  destruct (_get_data (S fuel) (n + 4) s1) as [[[]|e] s2].
  2:{ destruct Hg as (-> & Hs2 & _). destruct (same_bytes_trans _ _ _ Hs1 Hs2) as (? & _ & ? & _).
      split_and!; try done. by right; left. }
  destruct Hg as [Hs2 _]. pose proof (same_bytes_size _ _ (proj1 Hs1) Hs2) as Hle.
  pose proof (same_bytes_trans _ _ _ Hs1 Hs2) as Hs12. pose proof Hs12 as (Hwf2 & Hb2 & Hw2 & _).
  pose proof (uncompress_block_cases s2 n) as Hu.
  destruct (uncompress_block s2 n) as [[|z data]|e].
  - apply loop_post_skip; [done|done|lia|done].
  - rewrite sa_size_data in Hu by apply Hwf2.
    destruct (pop_bytes (Z.to_nat (n + 4)) s2) as [Hwf3 Hb3]; [done|lia|].
    split_and!; [done|done|done|]. exists (Z.to_nat (n + 4)). rewrite Hb3, Hb2. split; [lia|done].
  - subst e. split_and!; try done. by right; right.
Qed.

(** ** Writing *)

(** Sizes for which neither the data nor the compressed block can exceed the
    limit the reader enforces. *)
Definition fits (t : Z) : Prop :=
  t ≤ max_data_size ∧ ∀ n, 0 ≤ n ≤ t → compressBound n + 4 ≤ max_data_size.

(** [s'] is [s] after some blocks went to the sub-stream, with room for [n]
    more. *)
Definition sent (n : nat) (chunks : list (list Z)) s s' : Prop :=
  ∃ fs, Forall2 framed chunks fs ∧
    pending s'.(_substream) = pending s.(_substream) ++ mjoin fs ∧
    sub_inv s'.(_substream) ∧ sub_room n s'.(_substream) ∧
    s'.(_shutdown) = false ∧ s'.(_level) = s.(_level) ∧ s'.(_size) = s.(_size).

Lemma sent_app n m c1 c2 s1 s2 s3 : sent n c1 s1 s2 → sent m c2 s2 s3 → sent m (c1 ++ c2) s1 s3.
Proof.
  intros (f1 & F1 & P1 & ? & ? & ? & E1 & Z1) (f2 & F2 & P2 & ? & ? & ? & E2 & Z2).
  exists (f1 ++ f2). split_and!; try done; [by apply Forall2_app| |congruence..].
  by rewrite P2, P1, join_app, app_assoc.
Qed.

Lemma cs_flush_spec fuel n s t :
  s.(_shutdown) = false → sub_inv s.(_substream) → sub_room (S n) s.(_substream) →
  Z.of_nat (length s.(_wbuffer)) ≤ t → fits t →
  ∃ chunks s', _flush (S fuel) s = (Ret tt, s') ∧ sent n chunks s s' ∧
    mjoin chunks = s.(_wbuffer) ∧ s'.(_wbuffer) = [].
Proof.
  intros Hsh Hi Hr Hl [Ht Hb]. unfold _flush. rewrite Hsh.
  destruct s.(_wbuffer) as [|z w] eqn:Hw.
  { exists [], s. split_and!; try done. exists []. rewrite app_nil_r. split_and!; try done.
    by apply sub_room_S. }
  destruct (compress_spec fuel (z :: w) s.(_level)) as (out & len & lvl & -> & Hout & Ho); [done|].
  specialize (Hb (Z.of_nat (length (z :: w))) ltac:(lia)).
  destruct (sub_write_spec n s.(_substream)
    (be32 (wrap_u32 (Z.of_nat (length (be32 (Z.of_nat (length (z :: w))) ++ out)))) ++
     be32 (Z.of_nat (length (z :: w))) ++ out)) as (d & E & Hi' & Hr' & Hp); [done..|].
  cbn [set_wbuffer _substream]. rewrite E. exists [z :: w]. eexists. split; [reflexivity|].
  split_and!; [|by cbn; rewrite app_nil_r|done].
  exists [be32 (4 + Z.of_nat (length out)) ++ be32 (Z.of_nat (length (z :: w))) ++ out].
  split_and!; try done.
  - constructor; [|constructor]. exists out, len, lvl. unfold max_data_size in *.
    split_and!; try done; lia.
  - cbn [_substream set_sub]. rewrite Hp. f_equal. cbn [mjoin list_join]. rewrite app_nil_r. f_equal.
    rewrite length_app, length_be32. unfold max_data_size in *.
    rewrite wrap_u32_small by lia. f_equal. lia.
Qed.

Lemma cs_write_spec fuel n s r t :
  s.(_shutdown) = false → sub_inv s.(_substream) → sub_room (S n) s.(_substream) →
  Z.of_nat (length s.(_wbuffer) + length r) ≤ t → fits t →
  ∃ chunks s', write (S fuel) (Some (raw r)) s = (Ret 1, s') ∧ sent n chunks s s' ∧
    mjoin chunks ++ s'.(_wbuffer) = s.(_wbuffer) ++ r.
Proof.
  intros Hsh Hi Hr Hl Ht. unfold write. rewrite Hsh.
  rewrite (proj2 (Z.ltb_ge _ _)) by (destruct Ht; lia).
  assert (sent n [] s (set_wbuffer (s.(_wbuffer) ++ r) s)) as Hsent.
  { exists []. rewrite app_nil_r. split_and!; try done. by apply sub_room_S. }
  destruct (Nat.ltb_spec 0 (length r)) as [Hpos|Hz].
  - destruct (_ <=? _).
    + destruct (cs_flush_spec fuel n (set_wbuffer (s.(_wbuffer) ++ r) s) t)
        as (chunks & s' & -> & Hs & Hj & Hw); try done.
      { cbn. rewrite length_app. lia. }
      exists chunks, s'. split_and!; [done|exact Hs|]. by rewrite Hj, Hw, app_nil_r.
    + by exists [], (set_wbuffer (s.(_wbuffer) ++ r) s).
  - assert (r = []) as -> by (apply nil_length_inv; lia). rewrite app_nil_r in *.
    exists [], s. split_and!; try done.
Qed.

(** Successive writes. *)
Fixpoint write_all (fuel : nat) (rs : list (list Z)) : St (stream D) unit := λ s,
  match rs with
  | [] => (Ret tt, s)
  | r :: rs =>
      match write fuel (Some (raw r)) s with
      | (Ret _, s1) => write_all fuel rs s1
      | (Throw e, s1) => (Throw e, s1)
      end
  end.

Lemma write_all_spec fuel n rs s t :
  s.(_shutdown) = false → sub_inv s.(_substream) → sub_room (length rs + n) s.(_substream) →
  Z.of_nat (length s.(_wbuffer) + length (mjoin rs)) ≤ t → fits t →
  ∃ chunks s', write_all (S fuel) rs s = (Ret tt, s') ∧ sent n chunks s s' ∧
    mjoin chunks ++ s'.(_wbuffer) = s.(_wbuffer) ++ mjoin rs.
Proof.
  revert s. induction rs as [|r rs IH]; intros s Hsh Hi Hr Hl Ht.
  { exists [], s. rewrite app_nil_r. split_and!; try done. exists []. rewrite app_nil_r.
    by split_and!. }
  cbn [write_all length] in *. change (mjoin (r :: rs)) with (r ++ mjoin rs) in *.
  rewrite length_app in Hl.
  destruct (cs_write_spec fuel (length rs + n) s r t) as (c1 & s1 & -> & Hs1 & Hj1);
    [done..|lia|done|].
  pose proof Hs1 as (f1 & _ & _ & Hi1 & Hr1 & Hsh1 & _).
  destruct (IH s1) as (c2 & s2 & -> & Hs2 & Hj2); [done..| |done|].
  { apply (f_equal length) in Hj1. rewrite !length_app in Hj1. lia. }
  exists (c1 ++ c2), s2. split_and!; [done|by eapply sent_app|].
  by rewrite join_app, <- app_assoc, Hj2, app_assoc, Hj1, <- app_assoc.
Qed.

(** Successive reads: the blocks delivered. *)
Fixpoint read_all (n : nat) (fuel : nat) (s : stream D) : list (list Z) * stream D :=
  match n with
  | O => ([], s)
  | S n =>
      match read fuel s with
      | (Ret (_, Some b), s1) => let '(bs, s2) := read_all n fuel s1 in (b :: bs, s2)
      | (_, s1) => ([], s1)
      end
  end.

Lemma read_all_spec fuel chunks fs rest s :
  cs_wf s → s.(_shutdown) = false → Forall2 framed chunks fs → bytes s = mjoin fs ++ rest →
  (length (pending s.(_substream)) < fuel)%nat →
  ∃ s', read_all (length chunks) fuel s = (chunks, s') ∧ cs_wf s' ∧ bytes s' = rest ∧
    s'.(_shutdown) = false ∧ s'.(_wbuffer) = s.(_wbuffer).
Proof.
  intros Hwf Hsh Hfr. revert s Hwf Hsh.
  induction Hfr as [|c f chunks fs Hcf Hfr IH]; intros s Hwf Hsh Hb Hf.
  { by exists s. }
  cbn [length read_all] in *. change (mjoin (f :: fs)) with (f ++ mjoin fs) in Hb.
  rewrite <- app_assoc in Hb.
  destruct (read_loop_frame fuel s c f (mjoin fs ++ rest)) as (s1 & E & Hwf1 & Hb1 & Hw1 & Hsh1 & Hp1);
    [done..|].
  unfold read. rewrite Hsh, E. destruct (IH s1) as (s2 & -> & ? & ? & ? & ?); [done|congruence|done|lia|].
  exists s2. split_and!; (done || congruence).
Qed.
End StreamLaws.

Section StreamTheorems.
Context `{!ZLib} {Ev D : Type} `{!Substream Ev D} `{!SubstreamLaws Ev D} `{!ZLibLaws}.

(** C7: what goes through the compression layer comes back: buffers written to a
    compression stream and flushed into an empty sub-stream are delivered, byte
    for byte and in order, to a stream that reads this sub-stream, whatever the
    buffer size that groups them and the pieces the sub-stream cuts. *)
Theorem compression_roundtrip rs level size level' size' (d : D) t :
  sub_inv d → pending d = [] → sub_room (S (length rs)) d →
  Z.of_nat (length (mjoin rs)) ≤ t → fits t →
  ∃ s1 s2 chunks,
    write_all 1 rs (cs_init level size d) = (Ret tt, s1) ∧ flush 1 s1 = (Ret 0, s2) ∧
    mjoin chunks = mjoin rs ∧
    let reader := cs_init level' size' s2.(_substream) in
    let fuel := S (length (pending s2.(_substream))) in
    ∃ s3, read_all (length chunks) fuel reader = (chunks, s3) ∧ bytes s3 = [].
Proof.
  intros Hi Hp Hr Hl Ht.
  destruct (write_all_spec 0 1 rs (cs_init level size d) t) as (c1 & s1 & E1 & Hs1 & Hj1); try done.
  { by rewrite Nat.add_1_r. }
  pose proof Hs1 as (f1 & _ & _ & Hi1 & Hr1 & Hsh1 & _).
  destruct (cs_flush_spec 0 0 s1 t) as (c2 & s2 & E2 & Hs2 & Hj2 & Hw2); try done.
  { apply (f_equal length) in Hj1. cbn in Hj1. rewrite length_app in Hj1. lia. }
  destruct (sent_app _ _ _ _ _ _ _ Hs1 Hs2) as (fs & Hfs & Hps & Hi2 & _).
  exists s1, s2, (c1 ++ c2). unfold flush. rewrite E1, E2. split_and!; try done.
  { by rewrite join_app, Hj2, Hj1. }
  cbv zeta. destruct (read_all_spec (S (length (pending s2.(_substream)))) (c1 ++ c2) fs []
    (cs_init level' size' s2.(_substream))) as (s3 & -> & _ & ? & _); try done.
  - split; [unfold sa_wf; cbn; lia|done].
  - unfold bytes. change (sa_data (cs_init level' size' s2.(_substream)).(_rbuffer)) with (@nil Z).
    cbn [app cs_init _substream] in Hps |- *. by rewrite Hps, Hp, app_nil_r.
  - cbn. lia.
  - by exists s3.
Qed.

(** A read ends on any bytes, corrupted or torn: with one turn of fuel per
    byte it returns a non-empty block cut from the bytes, nothing for now, the
    bytes still waiting to be compressed when the sub-stream is finished, or the
    end; only a lack of memory escapes.  Once finished, it stays finished. *)
Theorem compression_read_ends fuel (s : stream D) :
  cs_wf s → (length (bytes s) < fuel)%nat →
  match read fuel s with
  | (Ret (more, Some b), s') =>
      more = true ∧ b ≠ [] ∧ s.(_shutdown) = false ∧
      ((∃ k, (0 < k)%nat ∧ bytes s' = drop k (bytes s)) ∧ s'.(_wbuffer) = s.(_wbuffer) ∨
       b = s.(_wbuffer) ∧ s'.(_wbuffer) = [] ∧ s'.(_shutdown) = true)
  | (Ret (more, None), s') => more = true ∧ s'.(_wbuffer) = s.(_wbuffer)
  | (Throw shutdown, s') =>
      s'.(_shutdown) = true ∧ (s.(_shutdown) = true ∨ s.(_wbuffer) = [])
  | (Throw e, _) => e = msg_fmt
  end.
Proof.
  intros Hwf Hf. unfold read. destruct s.(_shutdown) eqn:Hsh; [by split; [|left]|].
  pose proof (read_loop_ends fuel s Hwf Hf) as Hl.
  destruct (read_loop fuel s) as [[b|e] s1]; cbn [loop_post] in Hl.
  - destruct Hl as (? & _ & ? & ?). split_and!; try done. by left.
  - destruct Hl as (_ & Hw & [-> | [-> | ->]]); [|done|done].
    cbn [set_shutdown _wbuffer]. rewrite Hw. destruct s.(_wbuffer) as [|z w].
    + by split; [|right].
    + split_and!; try done. by right.
Qed.

(** After the end no byte is accepted: writes and flushes on a stream that is
    shut down throw and change nothing; a null event is acknowledged. *)
Theorem compression_shutdown_refuses fuel (s : stream D) d :
  s.(_shutdown) = true →
  write fuel (Some d) s = (Throw shutdown, s) ∧ flush fuel s = (Throw shutdown, s) ∧
  stop fuel s = (Throw shutdown, s) ∧ read fuel s = (Throw shutdown, s) ∧
  write fuel None s = (Ret 1, s) ∧ destroy fuel s = s.(_substream).
Proof.
  intros Hsh. unfold write, stop, flush, destroy, _flush, read. by rewrite Hsh.
Qed.
End StreamTheorems.

(** ** Witnesses

    A zlib that stores the data behind one byte, and the queue file as the
    sub-stream: the two layers of a persistent file put together. *)
Definition store_zlib : ZLib := {|
  compressBound n := n + 1;
  compress2 len data _ := if Z.of_nat (length data) + 1 <=? len then Z_OK (1 :: data) else Z_BUF_ERROR;
  z_uncompress alloc c :=
    match c with
    | [] => Z_DATA_ERROR
    | _ :: data => if Z.of_nat (length data) <=? alloc then Z_OK data else Z_BUF_ERROR
    end;
|}.

Lemma store_zlib_laws : @ZLibLaws store_zlib.
Proof.
  constructor.
  - intros data level len Hlen. cbn in *. rewrite (proj2 (Z.leb_le _ _)) by lia.
    eexists. split; [done|]. cbn. lia.
  - intros data out level len alloc. cbn. destruct (_ <=? len); [|done]. intros [= <-] Hle.
    by rewrite (proj2 (Z.leb_le _ _)).
  - intros [|z c] out alloc; cbn; [done|].
    destruct (Z.leb_spec (Z.of_nat (length c)) alloc) as [Hle|]; [|done]. by intros [= <-].
Qed.

Lemma zlib_roundtrip_witness :
  @uncompress store_zlib (be32 3 ++ [1; 7; 8; 9]) 8 = Ret [7; 8; 9].
Proof.
  apply (@zlib_roundtrip store_zlib store_zlib_laws [7; 8; 9] (-1)).
  - done.
  - vm_compute. discriminate.
  - vm_compute. reflexivity.
Defined.

Definition file_laws : @SubstreamLaws unit splitter (file_substream healthy_os) :=
  file_substream_laws healthy_os healthy_os_healthy.

Lemma compression_roundtrip_witness :
  ∃ s1 s2 chunks,
    @write_all store_zlib unit splitter (file_substream healthy_os) 1 [[1; 2]; [3]]
      (cs_init (-1) 0 (fresh_queue 0)) = (Ret tt, s1) ∧
    @flush store_zlib unit splitter (file_substream healthy_os) 1 s1 = (Ret 0, s2) ∧
    mjoin chunks = [1; 2; 3].
Proof.
  destruct (@compression_roundtrip store_zlib unit splitter (file_substream healthy_os) file_laws
    store_zlib_laws [[1; 2]; [3]] (-1) 0 (-1) 0 (fresh_queue 0) 3)
    as (s1 & s2 & chunks & H1 & H2 & H3 & _).
  - exact (proj1 (fresh_queue_spec 0)).
  - exact (proj2 (fresh_queue_spec 0)).
  - split; vm_compute; [discriminate|reflexivity].
  - vm_compute. discriminate.
  - split; [vm_compute; discriminate|]. intros n Hn. cbn. unfold max_data_size. lia.
  - by exists s1, s2, chunks.
Defined.

(** Five bytes that hold no frame. *)
Definition torn_queue : splitter :=
  (stream_write 1 healthy_os (Some (raw (E:=unit) [0; 0; 0; 9; 1])) (fresh_queue 0)).2.

Lemma torn_queue_spec : sp_inv torn_queue ∧ contents torn_queue = [0; 0; 0; 9; 1].
Proof.
  destruct (stream_write_spec (E:=unit) 1 healthy_os [0; 0; 0; 9; 1] (fresh_queue 0)) as (s' & E & Hi & Hc & _);
    [done|apply fresh_queue_spec|by vm_compute|by vm_compute|lia|].
  unfold torn_queue. rewrite E. cbn [snd]. by rewrite Hc, (proj2 (fresh_queue_spec 0)).
Qed.

Lemma compression_read_ends_witness :
  (@read store_zlib unit splitter (file_substream healthy_os) 6 (cs_init (-1) 0 torn_queue)).1
    = Ret (true, None) ∧
  (@read store_zlib unit splitter (file_substream healthy_os) 6 (cs_init (-1) 0 torn_queue)).2.(_wbuffer)
    = [].
Proof.
  assert ((@read store_zlib unit splitter (file_substream healthy_os) 6 (cs_init (-1) 0 torn_queue)).1
    = Ret (true, None)) as E by (vm_compute; reflexivity).
  split; [exact E|].
  pose proof (@compression_read_ends store_zlib unit splitter (file_substream healthy_os) file_laws 6
    (cs_init (-1) 0 torn_queue)) as H.
  destruct (read 6 (cs_init (-1) 0 torn_queue)) as [r s']. cbn [fst] in E. subst r. apply (H).
  - split; [unfold sa_wf; cbn; lia|exact (proj1 torn_queue_spec)].
  - unfold bytes. cbn [_rbuffer _substream cs_init].
    change (@pending unit splitter (file_substream healthy_os) file_laws) with contents.
    rewrite (proj2 torn_queue_spec). cbn. lia.
Defined.

Lemma compression_shutdown_refuses_witness :
  @write store_zlib unit splitter (file_substream healthy_os) 1 (Some (raw [1]))
    (set_shutdown true (cs_init (-1) 0 (fresh_queue 0)))
  = (Throw shutdown, set_shutdown true (cs_init (-1) 0 (fresh_queue 0))).
Proof.
  apply (@compression_shutdown_refuses store_zlib unit splitter (file_substream healthy_os) 1
    (set_shutdown true (cs_init (-1) 0 (fresh_queue 0))) (raw [1])).
  reflexivity.
Defined.
