(* ===== verification/Wire.v ===== *)
(** * The bytes of the BBDO protocol

    What [broker/core/src/bbdo/stream.cc] puts on the wire: the checksum of
    [broker/core/src/misc/misc.cc], the fields of the mapped events, the 16-byte
    header and the packets an event is cut into. *)

From Stdlib Require Import SpecFloat.
From S2P Require Import Prelude.

#[local] Open Scope Z_scope.

(** ** Network byte order *)

(** The two bytes of [htons]; [be32] of the prelude are the four of [htonl]. *)
Definition be16 (n : Z) : list Z := [Z.land (Z.shiftr n 8) 255; Z.land n 255].

Definition ntohs (l : list Z) : Z :=
  match l with
  | b0 :: b1 :: _ => Z.lor (Z.shiftl b0 8) b1
  | _ => 0
  end.

Definition ntohl (l : list Z) : Z :=
  match l with
  | b0 :: b1 :: b2 :: b3 :: _ =>
      Z.lor (Z.lor (Z.lor (Z.shiftl b0 24) (Z.shiftl b1 16)) (Z.shiftl b2 8)) b3
  | _ => 0
  end.

#[global] Arguments be16 : simpl never.
#[global] Arguments ntohs : simpl never.
#[global] Arguments ntohl : simpl never.

Lemma length_be16 n : length (be16 n) = 2%nat.
Proof. reflexivity. Qed.

Lemma ntohl_be32 n l : 0 ≤ n < 2 ^ 32 → ntohl (be32 n ++ l) = n.
Proof. intros Hn. unfold be32, ntohl. cbn [app]. by apply be32_lor. Qed.

Lemma ntohs_be16 n l : 0 ≤ n < 2 ^ 16 → ntohs (be16 n ++ l) = n.
Proof.
  intros Hn. unfold be16, ntohs. cbn [app]. rewrite <- (be32_lor n) at 3 by lia.
  rewrite !(Z.shiftr_div_pow2 n) by lia.
  rewrite (Z.div_small n (2 ^ 24)), (Z.div_small n (2 ^ 16)) by lia.
  by rewrite Z.land_0_l, !Z.shiftl_0_l, !Z.lor_0_l.
Qed.

(** A byte. *)
Definition is_byte (b : Z) : Prop := 0 ≤ b < 256.
#[export] Instance is_byte_dec b : Decision (is_byte b).
Proof. unfold is_byte. apply _. Defined.

Lemma land_255_byte n : is_byte (Z.land n 255).
Proof. unfold is_byte. change 255 with (Z.ones 8). rewrite Z.land_ones by lia. apply Z.mod_pos_bound. lia. Qed.

Lemma be32_bytes n : Forall is_byte (be32 n).
Proof. unfold be32. repeat constructor; apply land_255_byte. Qed.

Lemma be16_bytes n : Forall is_byte (be16 n).
Proof. unfold be16. repeat constructor; apply land_255_byte. Qed.

Lemma be32_inj m n : 0 ≤ m < 2 ^ 32 → 0 ≤ n < 2 ^ 32 → be32 m = be32 n → m = n.
Proof. intros Hm Hn E. by rewrite <- (ntohl_be32 m []), <- (ntohl_be32 n []), E by done. Qed.

Lemma lor_shift a b k : 0 ≤ k → 0 ≤ b < 2 ^ k → Z.lor (Z.shiftl a k) b = a * 2 ^ k + b.
Proof.
  intros Hk Hb. assert (Z.land (Z.shiftl a k) b = 0) as H0.
  { apply Z.bits_inj'. intros i Hi. rewrite Z.land_spec, Z.bits_0. destruct (decide (i < k)).
    - by rewrite Z.shiftl_spec_low by lia.
    - rewrite (testbit_high b k) by lia. apply andb_false_r. }
  by rewrite <- Z.lxor_lor, <- Z.add_nocarry_lxor, Z.shiftl_mul_pow2.
Qed.

Lemma land_255 z : Z.land z 255 = z mod 256.
Proof. change 255 with (Z.ones 8). by rewrite Z.land_ones. Qed.

(** The bytes of a number read from bytes are these bytes. *)
Lemma be16_ntohs b0 b1 : is_byte b0 → is_byte b1 → be16 (ntohs [b0; b1]) = [b0; b1].
Proof.
  unfold is_byte, be16, ntohs. intros H0 H1. rewrite lor_shift by lia.
  rewrite !land_255, Z.shiftr_div_pow2 by lia. change (2 ^ 8) with 256.
  rewrite Z.div_add_l, (Z.div_small b1) by lia.
  rewrite (Z.add_comm (b0 * 256)), Z.mod_add, !Z.mod_small by lia. by rewrite Z.add_0_r.
Qed.

Lemma be32_ntohl b0 b1 b2 b3 :
  is_byte b0 → is_byte b1 → is_byte b2 → is_byte b3 → be32 (ntohl [b0; b1; b2; b3]) = [b0; b1; b2; b3].
Proof.
  unfold is_byte, be32, ntohl. intros H0 H1 H2 H3.
  assert (Z.lor (Z.lor (Z.lor (Z.shiftl b0 24) (Z.shiftl b1 16)) (Z.shiftl b2 8)) b3 =
    ((b0 * 256 + b1) * 256 + b2) * 256 + b3) as ->.
  { change 24 with (8 + 16). rewrite <- (Z.shiftl_shiftl b0), <- Z.shiftl_lor, (lor_shift b0) by lia.
    change 16 with (8 + 8). rewrite <- (Z.shiftl_shiftl (b0 * 2 ^ 8 + b1)), <- Z.shiftl_lor by lia.
    rewrite !lor_shift by lia. lia. }
  rewrite !land_255, !Z.shiftr_div_pow2 by lia.
  change (2 ^ 24) with 16777216. change (2 ^ 16) with 65536. change (2 ^ 8) with 256.
  repeat f_equal; Z.div_mod_to_equations; lia.
Qed.

(** ** [misc::crc16_ccitt] *)

Definition crc_tbl : list Z :=
  [0x0000; 0x1081; 0x2102; 0x3183; 0x4204; 0x5285; 0x6306; 0x7387;
   0x8408; 0x9489; 0xa50a; 0xb58b; 0xc60c; 0xd68d; 0xe70e; 0xf78f].

(** [((crc >> 4) & 0x0fff) ^ crc_tbl[(crc ^ c) & 15]] *)
Definition crc_nibble (crc c : Z) : Z :=
  Z.lxor (Z.land (Z.shiftr crc 4) 0x0fff) (nth (Z.to_nat (Z.land (Z.lxor crc c) 15)) crc_tbl 0).

(** One turn of the loop: the low half of the byte, then the high half. *)
Definition crc_byte (crc c : Z) : Z := crc_nibble (crc_nibble crc c) (Z.shiftr c 4).

(** [~crc & 0xffff] *)
Definition crc16_ccitt (data : list Z) : Z :=
  Z.land (Z.lnot (foldl crc_byte 0xffff data)) 0xffff.

(** The reference: division by the polynomial [x^16 + x^12 + x^5 + 1], one bit
    at a time, least significant bit first. *)
Definition crc_bit (x : Z) : Z :=
  Z.lxor (Z.shiftr x 1) (if Z.testbit x 0 then 0x8408 else 0).

Definition crc_byte_ref (crc c : Z) : Z :=
  Nat.iter 8 crc_bit (Z.lxor crc c).

Definition crc16_ref (data : list Z) : Z :=
  Z.lxor (foldl crc_byte_ref 0xffff data) 0xffff.

(** Splits a number at bit [k]. *)
Lemma lxor_split z k : 0 ≤ k → z = Z.lxor (Z.land z (Z.ones k)) (Z.shiftl (Z.shiftr z k) k).
Proof.
  intros Hk. apply Z.bits_inj'. intros i Hi.
  rewrite Z.lxor_spec, Z.land_spec. destruct (decide (i < k)).
  - rewrite Z.ones_spec_low, Z.shiftl_spec_low by lia. by rewrite andb_true_r, xorb_false_r.
  - rewrite Z.ones_spec_high, Z.shiftl_spec, Z.shiftr_spec by lia.
    rewrite andb_false_r, xorb_false_l. f_equal. lia.
Qed.

Lemma shiftr_16 z k n : 0 ≤ z < 2 ^ n → 0 ≤ k ≤ n → 0 ≤ Z.shiftr z k < 2 ^ (n - k).
Proof.
  intros Hz Hk. rewrite Z.shiftr_div_pow2 by lia. split.
  - apply Z.div_pos; [lia|]. apply Z.pow_pos_nonneg; lia.
  - apply Z.div_lt_upper_bound; [apply Z.pow_pos_nonneg; lia|].
    rewrite <- Z.pow_add_r by lia. replace (k + (n - k)) with n by lia. lia.
Qed.

Lemma lxor_range a b n : 0 ≤ n → 0 ≤ a < 2 ^ n → 0 ≤ b < 2 ^ n → 0 ≤ Z.lxor a b < 2 ^ n.
Proof.
  intros Hn Ha Hb. assert (0 ≤ Z.lxor a b) by (apply Z.lxor_nonneg; lia). split; [done|].
  assert (Z.lxor a b = Z.lxor a b mod 2 ^ n) as ->.
  { apply Z.bits_inj'. intros i Hi. destruct (decide (i < n)).
    - by rewrite Z.mod_pow2_bits_low by lia.
    - rewrite Z.mod_pow2_bits_high, Z.lxor_spec, !(testbit_high _ n) by lia. done. }
  apply Z.mod_pos_bound. lia.
Qed.

Lemma lxor_cancel_r a b c : Z.lxor a c = Z.lxor b c → a = b.
Proof.
  intros E. apply (f_equal (λ z, Z.lxor z c)) in E.
  by rewrite !Z.lxor_assoc, Z.lxor_nilpotent, !Z.lxor_0_r in E.
Qed.

(** The bits that have not reached the end of the register only move. *)
Lemma crc_bit_lxor x y : crc_bit (Z.lxor x (Z.shiftl y 1)) = Z.lxor (crc_bit x) y.
Proof.
  unfold crc_bit. rewrite Z.lxor_spec, Z.shiftl_spec_low, xorb_false_r by lia.
  rewrite Z.shiftr_lxor, Z.shiftr_shiftl_r, Z.shiftr_0_r by lia.
  by rewrite !Z.lxor_assoc, (Z.lxor_comm y).
Qed.

Lemma crc_bits_lxor k x y :
  Nat.iter k crc_bit (Z.lxor x (Z.shiftl y (Z.of_nat k))) = Z.lxor (Nat.iter k crc_bit x) y.
Proof.
  revert x y. induction k as [|k IH]; intros x y; [by rewrite Z.shiftl_0_r|].
  rewrite !Nat.iter_succ.
  replace (Z.shiftl y (Z.of_nat (S k))) with (Z.shiftl (Z.shiftl y 1) (Z.of_nat k)).
  - by rewrite IH, crc_bit_lxor.
  - rewrite Z.shiftl_shiftl by lia. f_equal. lia.
Qed.

Lemma crc_bit_range x : 0 ≤ x < 2 ^ 16 → 0 ≤ crc_bit x < 2 ^ 16.
Proof.
  intros Hx. pose proof (shiftr_16 x 1 16 Hx ltac:(lia)). apply lxor_range; [lia|lia|].
  destruct (Z.testbit x 0); lia.
Qed.

Lemma crc_bits_range k x : 0 ≤ x < 2 ^ 16 → 0 ≤ Nat.iter k crc_bit x < 2 ^ 16.
Proof. intros Hx. induction k; [done|]. rewrite Nat.iter_succ. by apply crc_bit_range. Qed.

(** A bit step loses nothing: its top bit tells which bit went out. *)
Lemma crc_bit_inj x y :
  0 ≤ x < 2 ^ 16 → 0 ≤ y < 2 ^ 16 → crc_bit x = crc_bit y → x = y.
Proof.
  assert (∀ z, 0 ≤ z < 2 ^ 16 → Z.testbit (crc_bit z) 15 = Z.testbit z 0) as Htop.
  { intros z Hz. unfold crc_bit. rewrite Z.lxor_spec, Z.shiftr_spec by lia.
    rewrite (testbit_high z 16) by lia. by destruct (Z.testbit z 0). }
  intros Hx Hy E. pose proof (Htop x Hx) as E0. rewrite E, (Htop y Hy) in E0.
  unfold crc_bit in E. rewrite E0 in E. apply lxor_cancel_r in E.
  apply Z.bits_inj'. intros i Hi. destruct (decide (i = 0)) as [->|]; [done|].
  apply (f_equal (λ z, Z.testbit z (i - 1))) in E. rewrite !Z.shiftr_spec in E by lia.
  by replace (i - 1 + 1) with i in E by lia.
Qed.

Lemma crc_bits_inj k x y :
  0 ≤ x < 2 ^ 16 → 0 ≤ y < 2 ^ 16 → Nat.iter k crc_bit x = Nat.iter k crc_bit y → x = y.
Proof.
  intros Hx Hy. induction k as [|k IH]; [done|]. rewrite !Nat.iter_succ. intros E.
  apply IH. by apply crc_bit_inj; try apply crc_bits_range.
Qed.

(** The table holds four bit steps of its indexes. *)
Lemma crc_tbl_spec i :
  0 ≤ i < 16 → nth (Z.to_nat i) crc_tbl 0 = Nat.iter 4 crc_bit i.
Proof.
  intros Hi. assert (i ∈ seqZ 0 16) as Hin by (apply elem_of_seqZ; lia).
  revert i Hi Hin. assert (Forall (λ i, nth (Z.to_nat i) crc_tbl 0 = Nat.iter 4 crc_bit i) (seqZ 0 16)) as H.
  { vm_compute. repeat constructor. }
  rewrite Forall_forall in H. auto.
Qed.

Lemma crc_nibble_ref crc c :
  0 ≤ crc < 2 ^ 16 → crc_nibble crc c = Nat.iter 4 crc_bit (Z.lxor crc (Z.land c 15)).
Proof.
  intros Hc. set (z := Z.lxor crc (Z.land c 15)).
  rewrite (lxor_split z 4) by lia. rewrite (crc_bits_lxor 4). unfold crc_nibble.
  assert (Z.shiftr z 4 = Z.shiftr crc 4) as ->.
  { unfold z. rewrite Z.shiftr_lxor. change 15 with (Z.ones 4).
    rewrite Z.land_ones, (Z.shiftr_div_pow2 (c mod 2 ^ 4)) by lia.
    rewrite Z.div_small by (apply Z.mod_pos_bound; lia). by rewrite Z.lxor_0_r. }
  assert (Z.land (Z.lxor crc c) 15 = Z.land z (Z.ones 4)) as ->.
  { unfold z. change 15 with (Z.ones 4). apply Z.bits_inj'. intros i Hi.
    rewrite !Z.land_spec, !Z.lxor_spec, !Z.land_spec. by destruct (Z.testbit (Z.ones 4) i);
      rewrite ?andb_true_r, ?andb_false_r. }
  rewrite crc_tbl_spec by (rewrite Z.land_ones by lia; apply Z.mod_pos_bound; lia).
  rewrite Z.lxor_comm. f_equal. change 0x0fff with (Z.ones 12). rewrite Z.land_ones by lia.
  apply Z.mod_small. pose proof (shiftr_16 crc 4 16 Hc ltac:(lia)). lia.
Qed.

Lemma byte_range16 crc c : 0 ≤ crc < 2 ^ 16 → is_byte c → 0 ≤ Z.lxor crc c < 2 ^ 16.
Proof. intros Hc Hb. apply lxor_range; [lia|done|unfold is_byte in Hb; lia]. Qed.

Lemma crc_byte_eq_ref crc c :
  0 ≤ crc < 2 ^ 16 → is_byte c → crc_byte crc c = crc_byte_ref crc c.
Proof.
  intros Hc Hb. unfold crc_byte, crc_byte_ref. pose proof Hb as [? ?].
  assert (0 ≤ Z.land c 15 < 2 ^ 16).
  { change 15 with (Z.ones 4). rewrite Z.land_ones by lia.
    pose proof (Z.mod_pos_bound c (2 ^ 4) ltac:(lia)). lia. }
  assert (0 ≤ Z.shiftr c 4 < 2 ^ 4) by (apply (shiftr_16 c 4 8); lia).
  rewrite (crc_nibble_ref crc c) by done.
  rewrite crc_nibble_ref by (by apply crc_bits_range, lxor_range; lia).
  change 15 with (Z.ones 4) at 2. rewrite (Z.land_ones (Z.shiftr c 4)), (Z.mod_small (Z.shiftr c 4)) by lia.
  rewrite <- (crc_bits_lxor 4), <- Nat.iter_add, Z.lxor_assoc. f_equal. f_equal.
  symmetry. exact (lxor_split c 4 ltac:(lia)).
Qed.

Lemma crc_byte_range crc c :
  0 ≤ crc < 2 ^ 16 → is_byte c → 0 ≤ crc_byte crc c < 2 ^ 16.
Proof. intros. rewrite crc_byte_eq_ref by done. by apply crc_bits_range, byte_range16. Qed.

Lemma crc_fold_range l : Forall is_byte l → ∀ crc, 0 ≤ crc < 2 ^ 16 → 0 ≤ foldl crc_byte crc l < 2 ^ 16.
Proof.
  induction 1 as [|c l Hc _ IH]; intros crc Hr; [done|]. cbn [foldl]. by apply IH, crc_byte_range.
Qed.

Lemma lnot_16 z : 0 ≤ z < 2 ^ 16 → Z.land (Z.lnot z) 0xffff = Z.lxor z 0xffff.
Proof.
  intros Hz. change 0xffff with (Z.ones 16). apply Z.bits_inj'. intros i Hi.
  rewrite Z.land_spec, Z.lxor_spec, Z.lnot_spec by lia. destruct (decide (i < 16)).
  - rewrite Z.ones_spec_low by lia. by rewrite andb_true_r, xorb_true_r.
  - rewrite Z.ones_spec_high, (testbit_high z 16) by lia. done.
Qed.

Lemma crc16_range data : 0 ≤ crc16_ccitt data < 2 ^ 16.
Proof.
  unfold crc16_ccitt. generalize (Z.lnot (foldl crc_byte 0xffff data)). intros z.
  change 0xffff with (Z.ones 16). rewrite Z.land_ones by lia.
  apply Z.mod_pos_bound. lia.
Qed.

Lemma crc_fold_inj l : Forall is_byte l → ∀ x y, 0 ≤ x < 2 ^ 16 → 0 ≤ y < 2 ^ 16 →
  foldl crc_byte x l = foldl crc_byte y l → x = y.
Proof.
  induction 1 as [|c l Hc _ IH]; intros x y Hx Hy E; [done|]. cbn [foldl] in E.
  apply IH in E; [|by apply crc_byte_range..]. rewrite !crc_byte_eq_ref in E by done.
  apply crc_bits_inj in E; [|by apply byte_range16..]. by apply lxor_cancel_r in E.
Qed.

(** Two bytes fill the register: what they change cannot be undone. *)
Lemma crc_two_bytes crc a b a' b' :
  0 ≤ crc < 2 ^ 16 → is_byte a → is_byte b → is_byte a' → is_byte b' →
  crc_byte (crc_byte crc a) b = crc_byte (crc_byte crc a') b' → a = a' ∧ b = b'.
Proof.
  intros Hc Ha Hb Ha' Hb'. rewrite (crc_byte_eq_ref _ b), (crc_byte_eq_ref _ b') by
    (try apply crc_byte_range; done).
  rewrite !(crc_byte_eq_ref crc) by done. unfold crc_byte_ref.
  rewrite <- !(crc_bits_lxor 8), <- !Nat.iter_add. intros E.
  assert (∀ z, is_byte z → 0 ≤ Z.shiftl z 8 < 2 ^ 16) as Hs.
  { intros z [? ?]. rewrite Z.shiftl_mul_pow2 by lia. lia. }
  apply crc_bits_inj in E; [|apply lxor_range; [lia|by apply byte_range16|by apply Hs]..].
  rewrite !Z.lxor_assoc in E. rewrite !(Z.lxor_comm crc) in E. apply lxor_cancel_r in E.
  assert (∀ x y, is_byte x → is_byte y → Z.lxor x (Z.shiftl y 8) = x + y * 256) as Hadd.
  { intros x y [? ?] [? ?]. rewrite Z.shiftl_mul_pow2 by lia. symmetry. apply Z.add_nocarry_lxor.
    apply Z.bits_inj'. intros i Hi. rewrite Z.land_spec, Z.bits_0.
    destruct (decide (i < 8)); [rewrite Z.mul_pow2_bits_low by lia; apply andb_false_r|].
    by rewrite (testbit_high x 8) by lia. }
  change (Z.of_nat 8) with 8 in E. rewrite !Hadd in E by done. unfold is_byte in *. lia.
Qed.

(** C34: the table-driven [misc::crc16_ccitt] computes the CRC of the polynomial
    x^16 + x^12 + x^5 + 1 (bits taken least significant first, register set to
    ones, result complemented), on every sequence of bytes. *)
Theorem crc16_is_polynomial_division data :
  Forall is_byte data → crc16_ccitt data = crc16_ref data.
Proof.
  intros Hd. unfold crc16_ccitt, crc16_ref.
  rewrite lnot_16 by (by apply crc_fold_range). f_equal.
  assert (0 ≤ 0xffff < 2 ^ 16) as H by lia. revert H. generalize 0xffff.
  induction Hd as [|c l Hc _ IH]; intros crc Hr; [done|].
  cbn [foldl]. rewrite <- crc_byte_eq_ref by done. by apply IH, crc_byte_range.
Qed.

(** The checksum detects every corruption confined to two consecutive bytes:
    two sequences that differ there and nowhere else have different
    checksums. *)
Theorem crc16_detects_bursts l1 l2 a b a' b' :
  Forall is_byte (l1 ++ l2) → Forall is_byte [a; b; a'; b'] →
  crc16_ccitt (l1 ++ a :: b :: l2) = crc16_ccitt (l1 ++ a' :: b' :: l2) → a = a' ∧ b = b'.
Proof.
  rewrite Forall_app. intros [H1 H2] Hb. inversion_clear Hb as [|?? Ha Hb0].
  inversion_clear Hb0 as [|?? Hb Hb1]. inversion_clear Hb1 as [|?? Ha' Hb2].
  inversion_clear Hb2 as [|?? Hb' _]. unfold crc16_ccitt. rewrite !foldl_app. cbn [foldl].
  pose proof (crc_fold_range l1 H1 0xffff ltac:(lia)) as Hr.
  rewrite !lnot_16 by (repeat (apply crc_fold_range || apply crc_byte_range || done)).
  intros E. apply lxor_cancel_r, crc_fold_inj in E; [|done|by apply crc_byte_range;
    [apply crc_byte_range|]..]. by eapply crc_two_bytes.
Qed.

(** ** Doubles

    A [double] is a [spec_float] of the Standard Library (53 bits of mantissa).
    The mapped events carry it as text: the [%f] of [snprintf] one way, [strtod]
    the other. *)

Definition dbl_prec : Z := 53.
Definition dbl_emax : Z := 1024.

(** The decimal digits of a number, in ASCII. *)
Fixpoint digits (fuel : nat) (n : Z) (acc : list Z) : list Z :=
  match fuel with
  | O => acc
  | S fuel =>
      let acc := (48 + n mod 10) :: acc in
      if n / 10 =? 0 then acc else digits fuel (n / 10) acc
  end.

(** The nearest integer of [a / b], ties to even. *)
Definition div_half_even (a b : Z) : Z :=
  let q := a / b in
  let r := 2 * (a mod b) in
  if (r <? b) || ((r =? b) && Z.even q) then q else q + 1.

(** [%f]: six decimals, correctly rounded. *)
Definition sprintf_f (d : spec_float) : list Z :=
  let signed (s : bool) (l : list Z) := if s then 45 :: l else l in
  match d with
  | S754_nan => [110; 97; 110]
  | S754_infinity s => signed s [105; 110; 102]
  | S754_zero s => signed s [48; 46; 48; 48; 48; 48; 48; 48]
  | S754_finite s m e =>
      let n := div_half_even (Zpos m * 2 ^ Z.max 0 e * 10 ^ 6) (2 ^ Z.max 0 (- e)) in
      let frac := digits 6 (n mod 10 ^ 6) [] in
      signed s (digits 400 (n / 10 ^ 6) [] ++ 46 :: replicate (6 - length frac) 48 ++ frac)
  end.

Definition is_space (c : Z) : bool := (c =? 32) || ((9 <=? c) && (c <=? 13)).
Definition to_lower (c : Z) : Z := if (65 <=? c) && (c <=? 90) then c + 32 else c.
Definition digit_val (c : Z) : option Z :=
  if (48 <=? c) && (c <=? 57) then Some (c - 48) else None.
Definition xdigit_val (c : Z) : option Z :=
  let c := to_lower c in
  if (97 <=? c) && (c <=? 102) then Some (c - 87) else digit_val c.

Fixpoint skip_spaces (l : list Z) : list Z :=
  match l with
  | c :: l' => if is_space c then skip_spaces l' else l
  | [] => []
  end.

(** The digits at the head of [l] in base [base]: value, how many, the rest. *)
Fixpoint read_digits (val : Z → option Z) (base acc : Z) (n : Z) (l : list Z) : Z * Z * list Z :=
  match l with
  | c :: l' => match val c with
               | Some v => read_digits val base (acc * base + v) (n + 1) l'
               | None => (acc, n, l)
               end
  | [] => (acc, n, [])
  end.

(** An optional sign: is it negative, and the rest. *)
Definition read_sign (l : list Z) : bool * list Z :=
  match l with
  | 45 :: l' => (true, l')
  | 43 :: l' => (false, l')
  | _ => (false, l)
  end.

(** The exponent part, introduced by [mark]; none when no digit follows. *)
Definition read_exponent (mark : Z) (l : list Z) : Z :=
  match l with
  | c :: l' =>
      if to_lower c =? mark then
        let '(neg, l') := read_sign l' in
        let '(v, n, _) := read_digits digit_val 10 0 0 l' in
        if n =? 0 then 0 else if neg then - v else v
      else 0
  | [] => 0
  end.

(** Digits with an optional point: mantissa, digits after the point, digits in
    all, the rest. *)
Definition read_mantissa (val : Z → option Z) (base : Z) (l : list Z) : Z * Z * Z * list Z :=
  let '(m, n, rest) := read_digits val base 0 0 l in
  match rest with
  | 46 :: rest' => let '(m', k, rest'') := read_digits val base m 0 rest' in (m', k, n + k, rest'')
  | _ => (m, 0, n, rest)
  end.

(** The double nearest to [m * base^e]. *)
Definition make_double (s : bool) (m base e : Z) : spec_float :=
  match m with
  | Zpos p =>
      if 0 <=? e then binary_normalize dbl_prec dbl_emax ((if s then -1 else 1) * (m * base ^ e)) 0 s
      else match base ^ (- e) with
           | Zpos q => SFdiv dbl_prec dbl_emax (S754_finite s p 0) (S754_finite false q 0)
           | _ => S754_nan
           end
  | _ => S754_zero s
  end.

Definition starts_with (word l : list Z) : bool :=
  bool_decide (to_lower <$> take (length word) l = word).

Definition strtod (str : list Z) : spec_float :=
  let '(s, l) := read_sign (skip_spaces str) in
  if starts_with [105; 110; 102] l then S754_infinity s
  else if starts_with [110; 97; 110] l then S754_nan
  else
    let '(xm, xk, xn, xrest) := read_mantissa xdigit_val 16 (drop 2 l) in
    if starts_with [48; 120] l && negb (xn =? 0)
    then make_double s xm 2 (read_exponent 112 xrest - 4 * xk)
    else
      let '(m, k, n, rest) := read_mantissa digit_val 10 l in
      if n =? 0 then S754_zero false
      else make_double s m 10 (read_exponent 101 rest - k).

(** ** The fields of the mapped events *)

(** [mapping::source::source_type]; [UNKNOWN] ends the array of entries, which
    is a list here. *)
Inductive source_type := BOOL | DOUBLE | INT | SHORT | STRING | TIME | UINT | USHORT | ULONG.

(** [mapping::entry], less the member it points to: the fields of an object are
    listed in the order of its entries. *)
Record entry := Entry { e_type : source_type; e_serialize : bool }.

(** The value of a member.  A string is its bytes, a time its [time_t]. *)
Inductive fval :=
  | VBool (b : bool) | VDouble (d : spec_float) | VInt (z : Z) | VShort (z : Z)
  | VString (s : list Z) | VTime (t : Z) | VUint (z : Z) | VUshort (z : Z) | VUlong (z : Z).

(** The values a member of each type can have. *)
Definition has_type (t : source_type) (v : fval) : Prop :=
  match t, v with
  | BOOL, VBool _ | DOUBLE, VDouble _ => True
  | INT, VInt z => - 2 ^ 31 ≤ z < 2 ^ 31
  | SHORT, VShort z => - 2 ^ 15 ≤ z < 2 ^ 15
  | STRING, VString s => Forall is_byte s
  | TIME, VTime t => - 2 ^ 63 ≤ t < 2 ^ 63
  | UINT, VUint z => 0 ≤ z < 2 ^ 32
  | USHORT, VUshort z => 0 ≤ z < 2 ^ 16
  | ULONG, VUlong z => 0 ≤ z < 2 ^ 64
  | _, _ => False
  end.

#[export] Instance has_type_dec t v : Decision (has_type t v).
Proof. destruct t, v; apply _. Defined.

Definition well_typed (entries : list entry) (fields : list fval) : Prop :=
  Forall2 (λ en v, has_type en.(e_type) v) entries fields.

(** The [get_*] functions append to the buffer. *)
Definition get_boolean (v : bool) (buffer : list Z) : list Z := buffer ++ [if v then 1 else 0].

(** [snprintf] into [char str[32]], which holds at most 31 characters. *)
Definition get_double (v : spec_float) (buffer : list Z) : list Z :=
  buffer ++ take 31 (sprintf_f v) ++ [0].

Definition get_integer (v : Z) (buffer : list Z) : list Z := buffer ++ be32 (wrap_u32 v).
Definition get_short (v : Z) (buffer : list Z) : list Z := buffer ++ be16 (wrap_u16 v).
Definition get_string (v : list Z) (buffer : list Z) : list Z := buffer ++ v ++ [0].

Definition get_timestamp (v : Z) (buffer : list Z) : list Z :=
  let ts := wrap_u64 v in
  buffer ++ be32 (Z.shiftr ts 32) ++ be32 (Z.land ts 0xffffffff).

Definition get_uint (v : Z) (buffer : list Z) : list Z := buffer ++ be32 v.

Definition get_ulong (v : Z) (buffer : list Z) : list Z :=
  buffer ++ be32 (Z.shiftr v 32) ++ be32 (Z.land v 0xffffffff).

(** The switch of [serialize]; [USHORT] has no case.  An entry and its member
    have the same type, the last branch is never taken. *)
Definition get_field (t : source_type) (v : fval) (buffer : list Z) : res (list Z) :=
  match t, v with
  | BOOL, VBool b => Ret (get_boolean b buffer)
  | DOUBLE, VDouble d => Ret (get_double d buffer)
  | INT, VInt z => Ret (get_integer z buffer)
  | SHORT, VShort z => Ret (get_short z buffer)
  | STRING, VString s => Ret (get_string s buffer)
  | TIME, VTime z => Ret (get_timestamp z buffer)
  | UINT, VUint z => Ret (get_uint z buffer)
  | ULONG, VUlong z => Ret (get_ulong z buffer)
  | USHORT, _ => Throw msg_fmt
  | _, _ => Throw undefined
  end.

(** The length of the C string at the head of [data], when it ends there. *)
Fixpoint strlen (data : list Z) : option nat :=
  match data with
  | [] => None
  | 0 :: _ => Some O
  | _ :: data' => S <$> strlen data'
  end.

(** The [set_*] functions: the value of the member and how many bytes it took.
    The strings are looked at beyond [size] when nothing ends them before, and
    the test that follows throws. *)
Definition set_boolean (data : list Z) : res (fval * nat) :=
  match data with
  | [] => Throw msg_fmt
  | b :: _ => Ret (VBool (negb (b =? 0)), 1%nat)
  end.

Definition set_double (data : list Z) : res (fval * nat) :=
  match strlen data with
  | None => Throw msg_fmt
  | Some len => Ret (VDouble (strtod (take len data)), S len)
  end.

Definition set_integer (data : list Z) : res (fval * nat) :=
  if (length data <? 4)%nat then Throw msg_fmt
  else Ret (VInt (wrap_i32 (ntohl data)), 4%nat).

Definition set_short (data : list Z) : res (fval * nat) :=
  if (length data <? 2)%nat then Throw msg_fmt
  else Ret (VShort (wrap_i16 (ntohs data)), 2%nat).

Definition set_string (data : list Z) : res (fval * nat) :=
  match strlen data with
  | None => Throw msg_fmt
  | Some len => Ret (VString (take len data), S len)
  end.

(** [val(ntohl(p)); val <<= 32; val |= ntohl(p + 1)] *)
Definition u64_at (data : list Z) : Z :=
  Z.lor (wrap_u64 (Z.shiftl (ntohl data) 32)) (ntohl (drop 4 data)).

Definition set_timestamp (data : list Z) : res (fval * nat) :=
  if (length data <? 8)%nat then Throw msg_fmt
  else Ret (VTime (wrap_i64 (u64_at data)), 8%nat).

Definition set_uint (data : list Z) : res (fval * nat) :=
  if (length data <? 4)%nat then Throw msg_fmt
  else Ret (VUint (ntohl data), 4%nat).

Definition set_ulong (data : list Z) : res (fval * nat) :=
  if (length data <? 8)%nat then Throw msg_fmt
  else Ret (VUlong (u64_at data), 8%nat).

(** The switch of [unserialize]. *)
Definition set_field (t : source_type) (data : list Z) : res (fval * nat) :=
  match t with
  | BOOL => set_boolean data
  | DOUBLE => set_double data
  | INT => set_integer data
  | SHORT => set_short data
  | STRING => set_string data
  | TIME => set_timestamp data
  | UINT => set_uint data
  | ULONG => set_ulong data
  | USHORT => Throw msg_fmt
  end.

(** The value the peer gets: a double goes through its text. *)
Definition canon (v : fval) : fval :=
  match v with
  | VDouble d => VDouble (strtod (take 31 (sprintf_f d)))
  | v => v
  end.

(** What the wire format can carry: no [USHORT], no NUL inside a string. *)
Definition carried (t : source_type) (v : fval) : Prop :=
  t ≠ USHORT ∧ has_type t v ∧ match v with VString s => 0 ∉ s | _ => True end.

#[export] Instance carried_dec t v : Decision (carried t v).
Proof.
  assert (Decision (t ≠ USHORT)) by (destruct t; (left; discriminate) || (right; intros H; by apply H)).
  unfold carried. destruct v; apply _.
Defined.

(** *** A field comes back *)

Lemma strlen_app s l : 0 ∉ s → strlen (s ++ 0 :: l) = Some (length s).
Proof.
  induction s as [|c s IH]; intros Hs; [done|]. apply not_elem_of_cons in Hs as [Hc Hs].
  cbn [app strlen length]. rewrite (IH Hs). by destruct c.
Qed.

Lemma decimal_no_nul fuel n acc : 0 ≤ n → 0 ∉ acc → 0 ∉ digits fuel n acc.
Proof.
  revert n acc. induction fuel as [|fuel IH]; intros n acc Hn Ha; [done|]. cbn [digits].
  pose proof (Z.mod_pos_bound n 10 ltac:(lia)).
  assert (0 ∉ (48 + n mod 10) :: acc) by (apply not_elem_of_cons; split; [lia|done]).
  destruct (n / 10 =? 0); [done|]. apply IH; [|done]. apply Z.div_pos; lia.
Qed.

Lemma sprintf_f_no_nul d : 0 ∉ sprintf_f d.
Proof.
  assert (∀ (s : bool) l, 0 ∉ l → 0 ∉ (if s then 45 :: l else l)) as Hs.
  { intros [] l Hl; [|done]. by apply not_elem_of_cons. }
  destruct d as [s|s| |s m e]; unfold sprintf_f; try apply Hs;
    try (by repeat (apply not_elem_of_cons; split; [lia|]); apply not_elem_of_nil).
  set (n := div_half_even _ _). assert (0 ≤ n) as Hn.
  { unfold n, div_half_even. set (a := Z.pos m * _ * _). set (b := 2 ^ Z.max 0 (- e)).
    assert (0 ≤ a / b); [|case_match; lia].
    apply Z.div_pos; [apply Z.mul_nonneg_nonneg; [|lia]; apply Z.mul_nonneg_nonneg; [lia|]|];
      [apply Z.pow_nonneg; lia|apply Z.pow_pos_nonneg; lia]. }
  rewrite not_elem_of_app, not_elem_of_cons, not_elem_of_app. split_and!.
  - apply decimal_no_nul; [|set_solver]. apply Z.div_pos; lia.
  - lia.
  - intros Hin%elem_of_replicate. lia.
  - apply decimal_no_nul; [|set_solver]. apply Z.mod_pos_bound. lia.
Qed.

Lemma u64_at_split n l :
  0 ≤ n < 2 ^ 64 → u64_at (be32 (Z.shiftr n 32) ++ be32 (Z.land n 0xffffffff) ++ l) = n.
Proof.
  intros Hn. pose proof (shiftr_16 n 32 64 Hn ltac:(lia)) as Hh.
  assert (0 ≤ Z.land n 0xffffffff < 2 ^ 32) as Hl.
  { change 0xffffffff with (Z.ones 32). rewrite Z.land_ones by lia. apply Z.mod_pos_bound. lia. }
  unfold u64_at. rewrite ntohl_be32 by lia.
  rewrite (drop_app_length' (be32 (Z.shiftr n 32))) by done. rewrite ntohl_be32 by lia.
  rewrite wrap_u64_small by (rewrite Z.shiftl_mul_pow2 by lia; lia).
  apply Z.bits_inj'. intros i Hi. rewrite Z.lor_spec, Z.land_spec.
  change 0xffffffff with (Z.ones 32). destruct (decide (i < 32)).
  - rewrite Z.shiftl_spec_low, Z.ones_spec_low by lia. by rewrite andb_true_r.
  - rewrite Z.shiftl_spec, Z.shiftr_spec, Z.ones_spec_high, andb_false_r, orb_false_r by lia.
    f_equal. lia.
Qed.

(** The bytes of a field. *)
Definition field_bytes (t : source_type) (v : fval) : list Z :=
  match get_field t v [] with Ret b => b | Throw _ => [] end.

Lemma length_ltb_app {A} (l1 l2 : list A) n : length l1 = n → (length (l1 ++ l2) <? n)%nat = false.
Proof. intros <-. apply Nat.ltb_ge. rewrite length_app. lia. Qed.

Lemma set_text s rest :
  0 ∉ s → strlen ((s ++ [0]) ++ rest) = Some (length s) ∧ take (length s) ((s ++ [0]) ++ rest) = s ∧
          length (s ++ [0]) = S (length s).
Proof.
  intros Hs. rewrite <- app_assoc. cbn [app]. rewrite strlen_app by done.
  rewrite take_app_length, length_app. split_and!; [done..|cbn; lia].
Qed.

(** The reader gets the field the writer put, and stops where it ends. *)
Lemma field_roundtrip t v buf rest :
  carried t v →
  get_field t v buf = Ret (buf ++ field_bytes t v) ∧
  set_field t (field_bytes t v ++ rest) = Ret (canon v, length (field_bytes t v)).
Proof.
  intros (Hu & Ht & Hn).
  destruct t, v; try done; cbn [has_type] in Ht; (split; [reflexivity|]);
    unfold field_bytes, get_field, get_boolean, get_double, get_integer, get_short, get_string,
      get_timestamp, get_uint, get_ulong; cbn [app set_field canon].
  - by destruct b.
  - unfold set_double. destruct (set_text (take 31 (sprintf_f d)) rest) as (-> & -> & ->); [|done].
    intros (i & Hi & _)%elem_of_take. by apply (sprintf_f_no_nul d), (list_elem_of_lookup_2 _ i).
  - unfold set_integer. rewrite length_ltb_app by done. rewrite ntohl_be32 by (apply Z.mod_pos_bound; lia).
    unfold wrap_i32, wrap_u32. by rewrite (wrap_signed 32) by lia.
  - unfold set_short. rewrite length_ltb_app by done. rewrite ntohs_be16 by (apply Z.mod_pos_bound; lia).
    unfold wrap_i16, wrap_u16. by rewrite (wrap_signed 16) by lia.
  - unfold set_string. by destruct (set_text s rest) as (-> & -> & ->).
  - unfold set_timestamp. rewrite length_ltb_app by done. rewrite <- app_assoc, u64_at_split by
      (apply Z.mod_pos_bound; lia).
    unfold wrap_i64, wrap_u64. by rewrite (wrap_signed 64) by lia.
  - unfold set_uint. rewrite length_ltb_app by done. by rewrite ntohl_be32.
  - unfold set_ulong. rewrite length_ltb_app by done. by rewrite <- app_assoc, u64_at_split.
Qed.

(** *** A field read has the type of its member *)

Lemma ntohs_range data : Forall is_byte data → 0 ≤ ntohs data < 2 ^ 16.
Proof.
  intros Hd. destruct data as [|b0 [|b1 data]]; try (unfold ntohs; lia).
  inversion_clear Hd as [|?? H0 Hd1]. inversion_clear Hd1 as [|?? H1 _]. unfold is_byte in *.
  apply lor_range; [lia| |lia]. rewrite Z.shiftl_mul_pow2 by lia. lia.
Qed.

Lemma ntohl_range data : Forall is_byte data → 0 ≤ ntohl data < 2 ^ 32.
Proof.
  intros Hd. destruct data as [|b0 [|b1 [|b2 [|b3 data]]]]; try (unfold ntohl; lia).
  rewrite !Forall_cons in Hd. destruct Hd as (H0 & H1 & H2 & H3 & _). unfold is_byte in *.
  unfold ntohl. repeat apply lor_range; try lia; rewrite Z.shiftl_mul_pow2 by lia; lia.
Qed.

Lemma u64_at_range data : Forall is_byte data → 0 ≤ u64_at data < 2 ^ 64.
Proof.
  intros Hd. apply lor_range; [lia|apply Z.mod_pos_bound; lia|].
  pose proof (ntohl_range (drop 4 data) ltac:(by apply Forall_drop)). lia.
Qed.

Lemma strlen_lt data n : strlen data = Some n → (n < length data)%nat ∧ 0 ∉ take n data.
Proof.
  revert n. induction data as [|c data IH]; intros n; [done|]. cbn [strlen length].
  assert (c = 0 ∧ n = O ∨ c ≠ 0 ∧ (S <$> strlen data) = Some n → (n < S (length data))%nat ∧
    0 ∉ take n (c :: data)) as H.
  { intros [[-> ->]|[Hc E]]; [split; [lia|apply not_elem_of_nil]|].
    apply fmap_Some in E as (k & E & ->). destruct (IH k E) as [? Hk]. split; [lia|].
    cbn [take]. by apply not_elem_of_cons. }
  destruct c; intros E; apply H; (left; split; congruence) || (right; done).
Qed.

Lemma signed_range k z : 0 < k → - 2 ^ (k - 1) ≤ (z + 2 ^ (k - 1)) mod 2 ^ k - 2 ^ (k - 1) < 2 ^ (k - 1).
Proof.
  intros Hk. assert (2 ^ k = 2 * 2 ^ (k - 1)) as E.
  { rewrite <- Z.pow_succ_r by lia. f_equal. lia. }
  pose proof (Z.mod_pos_bound (z + 2 ^ (k - 1)) (2 ^ k) ltac:(apply Z.pow_pos_nonneg; lia)). lia.
Qed.

Lemma set_field_typed t data v n :
  Forall is_byte data → set_field t data = Ret (v, n) →
  has_type t v ∧ (0 < n ≤ length data)%nat.
Proof.
  intros Hd. destruct t; cbn [set_field];
    unfold set_boolean, set_double, set_integer, set_short, set_string, set_timestamp, set_uint, set_ulong;
    intros E; repeat case_match; simplify_eq;
    repeat match goal with
           | H : (_ <? _)%nat = false |- _ => apply Nat.ltb_ge in H
           | H : strlen _ = Some _ |- _ => apply strlen_lt in H as [? ?]
           end; cbn [has_type length]; (split; [|lia]).
  - done.
  - done.
  - apply wrap_i32_range.
  - apply (signed_range 16); lia.
  - by apply Forall_take.
  - apply (signed_range 64); lia.
  - by apply ntohl_range.
  - by apply u64_at_range.
Qed.

(** The text of a double is cut after 31 characters, whatever they are: a number
    of 32 digits or more comes back smaller ([10^300] as [10^30]). *)
Lemma large_double_truncated :
  canon (VDouble (make_double false 1 10 300)) = VDouble (make_double false 1 10 30).
Proof. vm_compute. reflexivity. Qed.

(** ** Witnesses *)

(** The check value of this CRC. *)
Lemma crc16_is_polynomial_division_witness :
  crc16_ccitt [49; 50; 51; 52; 53; 54; 55; 56; 57] = 0x906e ∧
  crc16_ref [49; 50; 51; 52; 53; 54; 55; 56; 57] = 0x906e.
Proof.
  assert (crc16_ccitt [49; 50; 51; 52; 53; 54; 55; 56; 57] = 0x906e) as E by (vm_compute; reflexivity).
  split; [exact E|]. rewrite <- E. symmetry. apply crc16_is_polynomial_division.
  apply (bool_decide_unpack _). vm_compute. exact I.
Defined.

Lemma crc16_detects_bursts_witness :
  ¬ crc16_ccitt ([1; 2] ++ 3 :: 4 :: [5]) = crc16_ccitt ([1; 2] ++ 7 :: 4 :: [5]).
Proof.
  intros H. destruct (crc16_detects_bursts [1; 2] [5] 3 4 7 4) as [E _].
  - apply (bool_decide_unpack _). vm_compute. exact I.
  - apply (bool_decide_unpack _). vm_compute. exact I.
  - exact H.
  - discriminate E.
Defined.
