(* ===== verification/Utf8.v ===== *)
(** * UTF-8

    [common/src/utf8.cc] and [common/inc/com/centreon/common/utf8.hh]: outputs of plugins are
    made UTF-8 before they are stored or sent, and cut between two characters. *)

From Stdlib Require Import ZifyBool.
From S2P Require Import Prelude Wire.

(** ** [check_string_utf8] *)

(** A character starts at the start of [l]: how many bytes it takes, [None] when there is
    none.  [after] is what follows the final zero of the string: the tests read up to two
    bytes of it. *)
Definition next_char (after l : list Z) : option nat :=
  let at_ k := Z.land (default 0 ((l ++ 0 :: after) !! k)) 0xff in
  let val := at_ 0%nat in
  if Z.land val 0x80 =? 0 then Some 1%nat
  else
    let val := Z.lor (Z.shiftl val 8) (at_ 1%nat) in
    if Z.land val 0xe0c0 =? 0xc080 then
      if Z.land val 0x1e00 =? 0 then None else Some 2%nat
    else
      let val := Z.lor (Z.shiftl val 8) (at_ 2%nat) in
      if Z.land val 0xf0c0c0 =? 0xe08080 then
        let val := Z.land val 0xf2000 in
        if (val =? 0) || (val =? 0xd2000) then None else Some 3%nat
      else
        let val := Z.lor (Z.shiftl val 8) (at_ 3%nat) in
        if Z.land val 0xf8c0c0c0 =? 0xf0808080 then
          let val := Z.land val 0x7300000 in
          if (val =? 0) || (0x4000000 <? val) then None else Some 4%nat
        else None.

(** The loop: how many bytes are characters. *)
Fixpoint scan (fuel : nat) (after l : list Z) : nat :=
  match fuel with
  | O => O
  | S fuel =>
      match l with
      | [] => O
      | _ => match next_char after l with Some k => (k + scan fuel after (drop k l))%nat | None => O end
      end
  end.

(** Characters of two and three bytes. *)
Definition two (cp : Z) : list Z := [Z.lor 0xc0 (Z.shiftr cp 6); Z.lor (Z.land cp 0x3f) 0x80].
Definition three (cp : Z) : list Z :=
  [Z.lor 0xe0 (Z.shiftr cp 12); Z.lor (Z.land (Z.shiftr cp 6) 0x3f) 0x80; Z.lor (Z.land cp 0x3f) 0x80].
Definition underscore : list Z := [95].

Fixpoint find_code (table : list (Z * list Z)) (c : Z) : option (list Z) :=
  match table with
  | [] => None
  | (x, out) :: table => if x =? c then Some out else find_code table c
  end.

Definition iso8859_15 : list (Z * list Z) :=
  [(0xa4, three 0x20ac); (0xa6, two 0x160); (0xa8, two 0x161); (0xb4, two 0x17d); (0xb8, two 0x17e); (0xbc, two 0x152); (0xbd, two 0x153);
   (0xbe, two 0x178)].
Definition cp1252 : list (Z * list Z) :=
  [(128, three 0x20ac); (129, underscore); (141, underscore); (143, underscore); (144, underscore); (157, underscore);
   (130, three 0x201a); (131, two 0x192); (132, three 0x201e); (133, three 0x2026); (134, three 0x2020); (135, three 0x2021);
   (136, two 0x2c6); (137, three 0x2030); (138, two 0x160); (139, three 0x2039); (140, two 0x152); (142, two 0x17d);
   (145, three 0x2018); (146, three 0x2019); (147, three 0x201c); (148, three 0x201d); (149, three 0x2022); (150, three 0x2013);
   (151, three 0x2014); (152, two 0x2dc); (153, three 0x2122); (154, two 0x161); (155, three 0x203a); (156, two 0x153);
   (158, two 0x17e); (159, two 0x178)].

Definition from_iso8859 (c : Z) : list Z :=
  if c <? 128 then [c] else if c <=? 160 then underscore else default (two c) (find_code iso8859_15 c).
Definition from_cp1252 (c : Z) : list Z := if c <? 128 then [c] else default (two c) (find_code cp1252 c).

(** Which encoding the rest has: [true] for CP-1252. *)
Fixpoint guess_cp1252 (l : list Z) : bool :=
  match l with
  | [] => false
  | c :: l =>
      if (Z.land c 128 =? 128) && ((c =? 129) || (c =? 141) || (c =? 143) || (c =? 144) || (c =? 155)) then false
      else if (126 <? c) && (c <? 160) then true
      else guess_cp1252 l
  end.

Definition check_string_utf8 (after str : list Z) : list Z :=
  let d := scan (length str) after str in
  if (d =? length str)%nat then str
  else
    let rest := drop d str in
    take d str ++ concat ((if guess_cp1252 rest then from_cp1252 else from_iso8859) <$> rest).

(** ** [truncate_utf8], [adjust_size_utf8] *)

Fixpoint step_back (str : list Z) (s : nat) : res nat :=
  if Z.land (default 0 (str !! s)) 0xc0 =? 0x80 then match s with O => Throw undefined | S s => step_back str s end else Ret s.

Definition adjust_size_utf8 (str : list Z) (s : nat) : res nat :=
  if (length str <=? s)%nat then Ret (length str) else if (s =? 0)%nat then Ret s else step_back str s.
Definition truncate_utf8 (str : list Z) (s : nat) : res (list Z) :=
  if (length str <=? s)%nat then Ret str
  else let! s := (if (0 <? s)%nat then step_back str s else Ret s) in Ret (take s str).

(** ** What UTF-8 is *)

Definition cont (b : Z) : bool := (0x80 <=? b) && (b <=? 0xbf).

(** The bytes of one character, as the Unicode standard lists them (table 3-7). *)
Definition is_char (l : list Z) : bool :=
  match l with
  | [a] => (0 <=? a) && (a <=? 0x7f)
  | [a; b] => (0xc2 <=? a) && (a <=? 0xdf) && cont b
  | [a; b; c] =>
      ((a =? 0xe0) && (0xa0 <=? b) && (b <=? 0xbf) || (0xe1 <=? a) && (a <=? 0xec) && cont b ||
       (a =? 0xed) && (0x80 <=? b) && (b <=? 0x9f) || (0xee <=? a) && (a <=? 0xef) && cont b) && cont c
  | [a; b; c; d] =>
      ((a =? 0xf0) && (0x90 <=? b) && (b <=? 0xbf) || (0xf1 <=? a) && (a <=? 0xf3) && cont b || (a =? 0xf4) && (0x80 <=? b) && (b <=? 0x8f)) &&
      cont c && cont d
  | _ => false
  end.

Definition utf8 (s : list Z) : Prop := ∃ cs, s = concat cs ∧ Forall (λ c, is_char c = true) cs.
Definition bytes (s : list Z) : Prop := Forall (λ b, 0 ≤ b ≤ 255) s.

Lemma utf8_app s t : utf8 s → utf8 t → utf8 (s ++ t).
Proof. intros (cs & -> & Hcs) (ds & -> & Hds). exists (cs ++ ds). split; [by rewrite concat_app|]. by apply Forall_app. Qed.

Lemma utf8_char c : is_char c = true → utf8 c.
Proof. intros Hc. exists [c]. split; [cbn; by rewrite app_nil_r|]. by constructor. Qed.

(** *** The tests byte by byte *)

Definition all_bytes : list Z := seqZ 0 256.

Lemma by_bytes (P : Z → bool) : forallb P all_bytes = true → ∀ b, 0 ≤ b ≤ 255 → P b = true.
Proof. intros H b Hb. rewrite forallb_forall in H. apply H. apply list_elem_of_In, elem_of_seqZ. lia. Qed.

Lemma land_byte b m : 0 ≤ b ≤ 255 → 0 ≤ m → 0 ≤ Z.land b m ≤ 255.
Proof.
  intros Hb Hm. assert (0 ≤ Z.land b m) as Hn by (apply Z.land_nonneg; lia). split; [done|].
  destruct (decide (Z.land b m = 0)) as [->|]; [lia|]. assert (Z.land b m < 2 ^ 8); [|lia]. apply Z.log2_lt_pow2; [lia|].
  pose proof (Z.log2_land b m ltac:(lia) Hm). pose proof (Z.log2_le_mono b 255 ltac:(lia)). change (Z.log2 255) with 7 in *. lia.
Qed.

Lemma land_pair a b ma mb : 0 ≤ b ≤ 255 → 0 ≤ mb ≤ 255 →
  Z.land (Z.lor (Z.shiftl a 8) b) (ma * 256 + mb) = Z.land a ma * 256 + Z.land b mb.
Proof.
  intros Hb Hm. change 256 with (2 ^ 8).
  pose proof (land_byte b mb Hb ltac:(lia)) as Hl.
  rewrite <- !lor_shift by lia. apply Z.bits_inj'. intros n Hn. rewrite !Z.land_spec, !Z.lor_spec, !Z.shiftl_spec, !Z.land_spec by done.
  destruct (Z.ltb_spec n 8).
  - by rewrite !(Z.testbit_neg_r _ (n - 8)) by lia.
  - assert (∀ x, 0 ≤ x ≤ 255 → Z.testbit x n = false) as Hhigh.
    { intros x Hx. destruct (decide (x = 0)) as [->|]; [apply Z.testbit_0_l|]. apply Z.bits_above_log2; [lia|].
      apply Z.log2_lt_pow2; [lia|]. assert (2 ^ 8 ≤ 2 ^ n) by (apply Z.pow_le_mono_r; lia). lia. }
    by rewrite !(Hhigh _ Hb), !(Hhigh _ Hm), !orb_false_r.
Qed.

Lemma pair_eqb a b x y : 0 ≤ b ≤ 255 → 0 ≤ y ≤ 255 → (a * 256 + b =? x * 256 + y) = (a =? x) && (b =? y).
Proof.
  intros Hb Hy. destruct (Z.eqb_spec a x), (Z.eqb_spec b y); cbn; try (apply Z.eqb_eq; lia); apply Z.eqb_neq; lia.
Qed.

Lemma scale_eqb x y k : 0 < k → (x * k =? y * k) = (x =? y).
Proof. intros Hk. destruct (Z.eqb_spec x y) as [->|Hne]; [apply Z.eqb_refl|]. apply Z.eqb_neq. nia. Qed.
Lemma scale_ltb x y k : 0 < k → (x * k <? y * k) = (x <? y).
Proof. intros Hk. destruct (Z.ltb_spec x y); [apply Z.ltb_lt|apply Z.ltb_ge]; nia. Qed.

Lemma pair_test a b ma mb x y : 0 ≤ b ≤ 255 → 0 ≤ mb ≤ 255 → 0 ≤ y ≤ 255 →
  (Z.land (Z.lor (Z.shiftl a 8) b) (ma * 256 + mb) =? x * 256 + y) = (Z.land a ma =? x) && (Z.land b mb =? y).
Proof. intros Hb Hm Hy. rewrite land_pair by done. apply pair_eqb; [apply land_byte; lia|done]. Qed.

Lemma is_cont b : 0 ≤ b ≤ 255 → (Z.land b 0xc0 =? 0x80) = cont b.
Proof.
  intros Hb. apply eqb_prop. revert b Hb. apply by_bytes. vm_compute. reflexivity.
Qed.

(** The tests on the first two bytes, with whether the others are continuations. *)
Definition char_masks (c d : bool) (a b : Z) : option nat :=
  if Z.land a 0x80 =? 0 then Some 1%nat
  else if (Z.land a 0xe0 =? 0xc0) && cont b then if (Z.land a 0x1e =? 0) && (Z.land b 0 =? 0) then None else Some 2%nat
  else if (Z.land a 0xf0 =? 0xe0) && cont b && c then
    if (Z.land a 0xf =? 0) && (Z.land b 0x20 =? 0) || (Z.land a 0xf =? 0xd) && (Z.land b 0x20 =? 0x20) then None else Some 3%nat
  else if (Z.land a 0xf8 =? 0xf0) && cont b && c && d then
    if (Z.land a 0x7 =? 0) && (Z.land b 0x30 =? 0) || (0x400 <? Z.land a 0x7 * 256 + Z.land b 0x30) then None else Some 4%nat
  else None.

Definition char_ranges (c d : bool) (a b : Z) : option nat :=
  if a <=? 0x7f then Some 1%nat
  else if (0xc2 <=? a) && (a <=? 0xdf) && cont b then Some 2%nat
  else if ((a =? 0xe0) && (0xa0 <=? b) && (b <=? 0xbf) || (0xe1 <=? a) && (a <=? 0xec) && cont b ||
           (a =? 0xed) && (0x80 <=? b) && (b <=? 0x9f) || (0xee <=? a) && (a <=? 0xef) && cont b) && c then Some 3%nat
  else if ((a =? 0xf0) && (0x90 <=? b) && (b <=? 0xbf) || (0xf1 <=? a) && (a <=? 0xf3) && cont b || (a =? 0xf4) && (0x80 <=? b) && (b <=? 0x8f)) &&
          c && d then Some 4%nat
  else None.

Lemma char_masks_ranges c d a b : 0 ≤ a ≤ 255 → 0 ≤ b ≤ 255 → char_masks c d a b = char_ranges c d a b.
Proof.
  intros Ha Hb. apply (bool_decide_eq_true_1 (char_masks c d a b = char_ranges c d a b)). revert b Hb. apply by_bytes.
  revert a Ha. apply by_bytes. destruct c, d; vm_compute; reflexivity.
Qed.

Lemma mask_test3 a b c : 0 ≤ b ≤ 255 → 0 ≤ c ≤ 255 →
  let val := Z.lor (Z.shiftl (Z.lor (Z.shiftl a 8) b) 8) c in
  (Z.land val 0xf0c0c0 =? 0xe08080) = (Z.land a 0xf0 =? 0xe0) && (Z.land b 0xc0 =? 0x80) && (Z.land c 0xc0 =? 0x80) ∧
  Z.land val 0xf2000 = (Z.land a 0xf * 256 + Z.land b 0x20) * 256.
Proof.
  intros Hb Hc. cbv zeta. split.
  - change 0xf0c0c0 with (0xf0c0 * 256 + 0xc0). change 0xe08080 with (0xe080 * 256 + 0x80). rewrite pair_test by lia.
    change 0xf0c0 with (0xf0 * 256 + 0xc0). change 0xe080 with (0xe0 * 256 + 0x80). by rewrite pair_test by lia.
  - change 0xf2000 with ((0xf * 256 + 0x20) * 256 + 0). rewrite land_pair, land_pair by lia. rewrite Z.land_0_r. lia.
Qed.

Lemma mask_test4 a b c d : 0 ≤ b ≤ 255 → 0 ≤ c ≤ 255 → 0 ≤ d ≤ 255 →
  let val := Z.lor (Z.shiftl (Z.lor (Z.shiftl (Z.lor (Z.shiftl a 8) b) 8) c) 8) d in
  (Z.land val 0xf8c0c0c0 =? 0xf0808080) = (Z.land a 0xf8 =? 0xf0) && (Z.land b 0xc0 =? 0x80) && (Z.land c 0xc0 =? 0x80) && (Z.land d 0xc0 =? 0x80) ∧
  Z.land val 0x7300000 = (Z.land a 0x7 * 256 + Z.land b 0x30) * 65536.
Proof.
  intros Hb Hc Hd. cbv zeta. split.
  - change 0xf8c0c0c0 with (0xf8c0c0 * 256 + 0xc0). change 0xf0808080 with (0xf08080 * 256 + 0x80). rewrite pair_test by lia.
    change 0xf8c0c0 with (0xf8c0 * 256 + 0xc0). change 0xf08080 with (0xf080 * 256 + 0x80). rewrite pair_test by lia.
    change 0xf8c0 with (0xf8 * 256 + 0xc0). change 0xf080 with (0xf0 * 256 + 0x80). by rewrite pair_test by lia.
  - change 0x7300000 with (((0x7 * 256 + 0x30) * 256 + 0) * 256 + 0). rewrite !land_pair by lia. rewrite !Z.land_0_r. lia.
Qed.

(** The bytes that the tests see. *)
Definition seen (after l : list Z) (k : nat) : Z := default 0 ((l ++ 0 :: after) !! k).

Lemma seen_byte after l k : bytes l → bytes after → 0 ≤ seen after l k ≤ 255.
Proof.
  intros Hl Ha. unfold seen. destruct ((l ++ 0 :: after) !! k) as [x|] eqn:Hx; cbn; [|lia].
  assert (bytes (l ++ 0 :: after)) as Hb by (apply Forall_app; split; [done|]; by constructor). eapply Forall_lookup_1 in Hb; [|exact Hx]. done.
Qed.

Lemma next_char_ranges after l : bytes l → bytes after →
  next_char after l = char_ranges (cont (seen after l 2)) (cont (seen after l 3)) (seen after l 0) (seen after l 1).
Proof.
  intros Hl Ha. pose proof (λ k, seen_byte after l k Hl Ha) as Hs. rewrite <- char_masks_ranges by done. unfold next_char. fold (seen after l).
  assert (∀ k, Z.land (seen after l k) 0xff = seen after l k) as Hff.
  { intros k. apply (bool_decide_eq_true_1 _). generalize (Hs k). generalize (seen after l k). apply by_bytes. vm_compute. reflexivity. }
  cbv zeta. change (default 0 ((l ++ 0 :: after) !! ?k)) with (seen after l k). rewrite !Hff. unfold char_masks.
  set (a := seen after l 0) in *. set (b := seen after l 1) in *. set (c := seen after l 2) in *. set (d := seen after l 3) in *.
  destruct (mask_test3 a b c (Hs 1%nat) (Hs 2%nat)) as [H3 H3']. destruct (mask_test4 a b c d (Hs 1%nat) (Hs 2%nat) (Hs 3%nat)) as [H4 H4'].
  cbv zeta in *. rewrite H3, H3', H4, H4'. rewrite !is_cont by apply Hs.
  change 0xe0c0 with (0xe0 * 256 + 0xc0). change 0xc080 with (0xc0 * 256 + 0x80). rewrite pair_test, is_cont by (apply Hs || lia).
  change 0x1e00 with (0x1e * 256 + 0). rewrite land_pair by (apply Hs || lia). rewrite !Z.land_0_r.
  pose proof (land_byte a 0xf (Hs 0%nat) ltac:(lia)). pose proof (land_byte b 0x20 (Hs 1%nat) ltac:(lia)).
  pose proof (land_byte a 0x7 (Hs 0%nat) ltac:(lia)). pose proof (land_byte b 0x30 (Hs 1%nat) ltac:(lia)). pose proof (land_byte a 0x1e (Hs 0%nat) ltac:(lia)).
  rewrite Z.add_0_r, (scale_eqb _ 0 256), (scale_eqb _ 0 256), (scale_eqb _ (0xd * 256 + 0x20) 256), (scale_eqb _ 0 65536), (scale_ltb 0x400 _ 65536) by lia.
  rewrite (pair_eqb _ _ 0 0), (pair_eqb _ _ 0xd 0x20), (pair_eqb _ _ 0 0) by lia. by rewrite andb_true_r.
Qed.

(** A character that is found is one, and in the string: the final zero is no continuation. *)
Lemma next_char_sound after l k : bytes l → bytes after → l ≠ [] → next_char after l = Some k → (0 < k ≤ length l)%nat ∧ is_char (take k l) = true.
Proof.
  intros Hl Ha Hne. rewrite next_char_ranges by done.
  destruct l as [|a l]; [done|]. assert (0 ≤ a) by (by apply Forall_cons in Hl as [? _]; lia).
  destruct l as [|b [|c [|d l]]]; unfold seen; cbn [app lookup list_lookup default from_option id]; unfold char_ranges, cont; cbn [Z.leb Z.compare andb];
    repeat case_match; intros [= <-]; cbn [length take is_char]; unfold cont; rewrite ?take_0; (split; [cbn [length]; lia|]); lia.
Qed.

Lemma next_char_complete after c r : bytes (c ++ r) → bytes after → is_char c = true → next_char after (c ++ r) = Some (length c).
Proof.
  intros Hb Ha Hc. rewrite next_char_ranges by done. unfold seen. rewrite <- app_assoc.
  destruct c as [|x [|y [|z [|t [|u c]]]]]; cbn [is_char] in Hc; try done; cbn [app lookup list_lookup default from_option id length];
    unfold char_ranges; unfold cont in *; repeat case_match; try done; lia.
Qed.

Lemma bytes_drop k l : bytes l → bytes (drop k l).
Proof. apply Forall_drop. Qed.

Lemma scan_sound after fuel : bytes after → ∀ l, bytes l → (scan fuel after l ≤ length l)%nat ∧ utf8 (take (scan fuel after l) l).
Proof.
  intros Ha. induction fuel as [|fuel IH]; intros l Hl; [split; [cbn; lia|by exists []]|]. destruct l as [|a l]; [split; [done|by exists []]|].
  cbn [scan]. destruct (next_char after (a :: l)) as [k|] eqn:Hk; [|split; [cbn; lia|by exists []]].
  destruct (next_char_sound after (a :: l) k Hl Ha) as [Hkl Hc]; [done..|]. destruct (IH (drop k (a :: l)) (bytes_drop k _ Hl)) as [Hle Hu].
  rewrite length_drop in Hle. split; [lia|]. rewrite <- take_take_drop. by apply utf8_app; [apply utf8_char|].
Qed.

Lemma scan_complete after fuel cs : bytes after → Forall (λ c, is_char c = true) cs → bytes (concat cs) → (length (concat cs) ≤ fuel)%nat →
  scan fuel after (concat cs) = length (concat cs).
Proof.
  intros Ha Hcs. revert fuel. induction Hcs as [|c cs Hc Hcs IH]; intros fuel Hb Hf; [by destruct fuel|]. cbn [concat] in *.
  assert (0 < length c)%nat as Hl by (destruct c; [done|cbn; lia]). rewrite length_app in Hf. destruct fuel as [|fuel]; [lia|]. cbn [scan].
  destruct (c ++ concat cs) as [|x y] eqn:Hx; [apply (f_equal length) in Hx; rewrite length_app in Hx; cbn in Hx; lia|]. rewrite <- Hx in *.
  rewrite next_char_complete by done. rewrite drop_app_length, IH; [by rewrite length_app|by apply Forall_app in Hb as [_ ?]|lia].
Qed.

(** What follows the string does not matter. *)
Lemma next_char_after after after' l : bytes l → bytes after → bytes after' → l ≠ [] → next_char after l = next_char after' l.
Proof.
  intros Hl Ha Ha' Hne.
  assert (∀ a a' k, bytes a → bytes a' → next_char a l = Some k → next_char a' l = Some k) as Hsame.
  { intros a a' k Hba Hba' Hk. destruct (next_char_sound a l k Hl Hba Hne Hk) as [Hkl Hc].
    rewrite <- (take_drop k l), next_char_complete; [by rewrite length_take_le by lia|by rewrite take_drop|done..]. }
  destruct (next_char after l) as [k|] eqn:Hk; [symmetry; by eapply (Hsame after after')|].
  destruct (next_char after' l) as [k|] eqn:Hk'; [|done]. rewrite <- Hk. by apply (Hsame after' after).
Qed.

Lemma scan_after after after' fuel : bytes after → bytes after' → ∀ l, bytes l → scan fuel after l = scan fuel after' l.
Proof.
  intros Ha Ha'. induction fuel as [|fuel IH]; intros l Hl; [done|]. destruct l as [|a l]; [done|]. cbn [scan].
  rewrite (next_char_after after after') by done. destruct (next_char after' (a :: l)); [|done]. by rewrite IH by (by apply bytes_drop).
Qed.

Lemma converted_char cp c : 0 ≤ c ≤ 255 → is_char ((if cp : bool then from_cp1252 else from_iso8859) c) = true.
Proof. revert c. apply by_bytes. destruct cp; vm_compute; reflexivity. Qed.

(** ** Cuts *)

Lemma step_back_app c s m k : step_back s m = Ret k → step_back (c ++ s) (length c + m) = Ret (length c + k)%nat.
Proof.
  revert k. induction m as [|m IH]; intros k; cbn [step_back].
  - destruct (_ =? 128) eqn:E; [done|]. intros [= <-]. rewrite !Nat.add_0_r.
    assert (default 0 ((c ++ s) !! length c) = default 0 (s !! 0%nat)) as Hh by (by rewrite lookup_app_r, Nat.sub_diag by lia).
    destruct (length c) as [|n]; cbn [step_back]; by rewrite Hh, E.
  - rewrite Nat.add_succ_r. cbn [step_back]. rewrite lookup_app_r by lia. replace (S (length c + m) - length c)%nat with (S m) by lia.
    destruct (_ =? 128); [apply IH|]. intros [= <-]. by rewrite Nat.add_succ_r.
Qed.

(** Inside a character, the cut goes back to its start. *)
Lemma step_back_char c s n : is_char c = true → bytes c → (n < length c)%nat → step_back (c ++ s) n = Ret 0%nat ∧ (n < 4)%nat.
Proof.
  intros Hc Hb Hn.
  assert (∀ k x, (0 < k)%nat → c !! k = Some x → (Z.land x 0xc0 =? 0x80) = true) as Hcont.
  { intros k x Hk Hx. rewrite is_cont by (by eapply Forall_lookup_1 in Hb; [|exact Hx]). unfold is_char, cont in *.
    destruct c as [|c0 [|c1 [|c2 [|c3 [|]]]]]; try done; destruct k as [|[|[|[|k]]]]; try lia; cbn in Hx; simplify_eq; lia. }
  assert (∀ x, c !! 0%nat = Some x → (Z.land x 0xc0 =? 0x80) = false) as Hfirst.
  { intros x Hx. rewrite is_cont by (by eapply Forall_lookup_1 in Hb; [|exact Hx]). unfold is_char, cont in *.
    destruct c as [|c0 [|c1 [|c2 [|c3 [|]]]]]; try done; cbn in Hx; simplify_eq; lia. }
  split; [|by destruct c as [|c0 [|c1 [|c2 [|c3 [|]]]]]; cbn [is_char length] in *; try done; lia].
  induction n as [|n IH]; cbn [step_back]; rewrite lookup_app_l by done.
  - destruct (c !! 0%nat) as [x|] eqn:Hx; [cbn [default from_option id]; by rewrite (Hfirst _ eq_refl)|apply lookup_ge_None in Hx; lia].
  - destruct (c !! S n) as [x|] eqn:Hx; [|apply lookup_ge_None in Hx; lia]. cbn [default from_option id].
    rewrite (Hcont (S n) x ltac:(lia) Hx). apply IH. lia.
Qed.

Lemma step_back_chars cs n : Forall (λ c, is_char c = true) cs → bytes (concat cs) → (n < length (concat cs))%nat →
  ∃ j k, step_back (concat cs) n = Ret k ∧ take k (concat cs) = concat (take j cs) ∧ (k ≤ n < k + 4)%nat.
Proof.
  intros Hcs. revert n. induction Hcs as [|c cs Hc Hcs IH]; intros n Hb Hn; [cbn in Hn; lia|]. cbn [concat] in *.
  pose proof Hb as [Hbc Hbs]%Forall_app. destruct (decide (n < length c)%nat) as [Hlt|Hge].
  - destruct (step_back_char c (concat cs) n Hc Hbc Hlt) as [-> H4]. exists O, O. split_and!; [done..|lia|lia].
  - rewrite length_app in Hn. destruct (IH (n - length c)%nat Hbs ltac:(lia)) as (j & k & Hk & Ht & Hb1 & Hb2).
    exists (S j), (length c + k)%nat. split_and!; [|by rewrite take_app_add, Ht|lia|lia].
    replace n with (length c + (n - length c))%nat by lia. by apply step_back_app.
Qed.

(** ** Theorems *)



(** A UTF-8 string that is cut stays UTF-8, has at most the size asked for, and loses
    three bytes more than needed at most. *)
Theorem truncate_utf8_valid s n : bytes s → utf8 s → ∃ r, truncate_utf8 s n = Ret r ∧ utf8 r ∧ r `prefix_of` s ∧
  (length r ≤ n)%nat ∧ (Nat.min n (length s) < length r + 4)%nat.
Proof.
  intros Hb (cs & -> & Hcs). unfold truncate_utf8. destruct (Nat.leb_spec (length (concat cs)) n) as [Hle|Hlt].
  - exists (concat cs). split_and!; [done|by exists cs|done|lia|lia].
  - destruct (step_back_chars cs n Hcs Hb Hlt) as (j & k & Hk & Ht & Hk1 & Hk2).
    assert ((if (0 <? n)%nat then step_back (concat cs) n else Ret n) = Ret k) as ->.
    { destruct (Nat.ltb_spec 0 n); [done|]. f_equal. lia. }
    exists (take k (concat cs)). split_and!; [done|rewrite Ht; exists (take j cs); split; [done|by apply Forall_take]|apply prefix_take|..];
      rewrite length_take; lia.
Qed.

Lemma truncate_utf8_valid_witness : ∃ r, truncate_utf8 [0x61; 0xc3; 0xa9] 2 = Ret r ∧ utf8 r.
Proof.
  destruct (truncate_utf8_valid [0x61; 0xc3; 0xa9] 2) as (r & Hr & Hu & _); [repeat (apply Forall_cons_2; [lia|]); apply Forall_nil_2| |].
  - exists [[0x61]; [0xc3; 0xa9]]. split; [reflexivity|]. repeat (apply Forall_cons_2; [reflexivity|]). apply Forall_nil_2.
  - exists r. split; [exact Hr|exact Hu].
Defined.

(** A text in CP-1252 with a closing angle quote, which CP-1252 has, and a dash: the quote is
    taken for a byte that CP-1252 does not have, and both are lost. *)
Example angle_quote_lost : check_string_utf8 [] [97; 155; 150] = [97; 95; 95].
Proof. vm_compute. reflexivity. Qed.
