(* ===== verification/BoolExp.v ===== *)
(** * Boolean expressions of BAM: from the text to the tree

    [broker/bam/src/exp_tokenizer.cc] cuts the text of an expression into tokens,
    [exp_parser.cc] puts them in postfix order (shunting yard), [exp_builder.cc]
    builds the tree of operators.  The position [_next] of the tokenizer is the rest
    of the text; [None] is a position beyond its end. *)

From Stdlib Require Import SpecFloat Ascii.
From S2P Require Import Prelude Wire.

#[local] Open Scope string_scope.
#[local] Open Scope list_scope.

(** ** The tokenizer *)

(** [isspace] in the C locale *)
Definition is_space_char (c : ascii) : bool :=
  let n := Ascii.nat_of_ascii c in ((n =? 32) || ((9 <=? n) && (n <=? 13)))%nat.

Definition mem_char (c : ascii) (s : string) : bool := existsb (Ascii.eqb c) (String.list_ascii_of_string s).

Definition _is_special_char (c : ascii) : bool := mem_char c "(),+-*/%=!><|&".
Definition _is_right_brace (c : ascii) : bool := Ascii.eqb c "}".
Definition _is_space_or_right_brace (c : ascii) : bool := is_space_char c || _is_right_brace c.
Definition _is_delimiter (c : ascii) : bool := is_space_char c || _is_special_char c.

Fixpoint _skip_ws (s : string) : string :=
  match s with
  | String c s' => if is_space_char c then _skip_ws s' else s
  | EmptyString => EmptyString
  end.

Definition quote_char : ascii := "'".
Definition double_quote_char : ascii := Ascii.ascii_of_nat 34.
Definition backslash_char : ascii := Ascii.ascii_of_nat 92.
Definition is_quote (c : ascii) : bool := Ascii.eqb c quote_char || Ascii.eqb c double_quote_char.

(** Where the loop of [_extract_until] is: outside of quotes, after a backslash,
    in quotes, in double quotes after a backslash. *)
Inductive scan := Plain | Escaped | Quoted_by (q : ascii) | QuotedEscaped (q : ascii).

Definition push_char (c : ascii) (r : res (string * option string)) : res (string * option string) :=
  match r with Ret (tok, rest) => Ret (String c tok, rest) | Throw e => Throw e end.

(** [_extract_until]: the token and the rest of the text. *)
Fixpoint _extract_until (predicate : ascii → bool) (m : scan) (s : string) : res (string * option string) :=
  match m, s with
  | Plain, EmptyString => Ret ("", Some "")
  | Escaped, EmptyString => Ret ("", None)
  | (Quoted_by _ | QuotedEscaped _), EmptyString => Throw msg_fmt
  | Plain, String c s' =>
      if predicate c then Ret ("", Some s)
      else if is_quote c then _extract_until predicate (Quoted_by c) s'
      else if Ascii.eqb c backslash_char then _extract_until predicate Escaped s'
      else push_char c (_extract_until predicate Plain s')
  | Escaped, String c s' => push_char c (_extract_until predicate Plain s')
  | Quoted_by q, String c s' =>
      if Ascii.eqb c q then _extract_until predicate Plain s'
      else if Ascii.eqb q double_quote_char && Ascii.eqb c backslash_char
      then _extract_until predicate (QuotedEscaped q) s'
      else push_char c (_extract_until predicate (Quoted_by q) s')
  | QuotedEscaped q, String c s' => push_char c (_extract_until predicate (Quoted_by q) s')
  end.

Record tokenizer := Tokenizer { _queue : list string; _next : option string }.

(** The words that stay as they are in braces. *)
Definition brace_words : list string :=
  ["IS"; "NOT"; "AND"; "XOR"; "OR"; "OK"; "WARNING"; "CRITICAL"; "UNKNOWN"; "UP"; "DOWN"; "UNREACHABLE"].

(** [_extract_token], with the rest of the text at [_current]. *)
Definition _extract_token (s : string) : res (string * tokenizer) :=
  match s with
  | String c s' =>
      if Ascii.eqb c "{" then
        match _extract_until _is_space_or_right_brace Plain s' with
        | Throw e => Throw e
        | Ret (word, rest) =>
            let r :=
              if bool_decide (word ∈ brace_words) then Ret (word, [], rest)
              else
                match rest with
                | None => Throw undefined
                | Some rest =>
                    let rest := _skip_ws rest in
                    match rest with
                    | String c' _ =>
                        if negb (Ascii.eqb c' "}") then
                          match _extract_until _is_right_brace Plain rest with
                          | Ret (svc, rest) => Ret ("SERVICESTATUS", ["("; word; ","; svc; ")"], rest)
                          | Throw e => Throw e
                          end
                        else Ret ("HOSTSTATUS", ["("; word; ")"], Some rest)
                    | EmptyString => Ret ("HOSTSTATUS", ["("; word; ")"], Some rest)
                    end
                end in
            match r with
            | Throw e => Throw e
            | Ret (tok, queue, Some (String c' rest)) =>
                if Ascii.eqb c' "}" then Ret (tok, Tokenizer queue (Some rest)) else Throw msg_fmt
            | Ret _ => Throw msg_fmt
            end
        end
      else
        match _extract_until _is_delimiter Plain s with
        | Ret (tok, rest) => Ret (tok, Tokenizer [] rest)
        | Throw e => Throw e
        end
  | EmptyString =>
      match _extract_until _is_delimiter Plain s with
      | Ret (tok, rest) => Ret (tok, Tokenizer [] rest)
      | Throw e => Throw e
      end
  end.

(** The operators of two characters. *)
Definition double_char (c1 c2 : ascii) : bool :=
  (mem_char c1 "=!<>" && Ascii.eqb c2 "=") || (mem_char c1 "|&" && Ascii.eqb c1 c2).

(** [next]: the empty token is the end of the expression. *)
Definition next (t : tokenizer) : res (string * tokenizer) :=
  match t.(_queue) with
  | tok :: q => Ret (tok, Tokenizer q t.(_next))
  | [] =>
      match t.(_next) with
      | None => Throw undefined
      | Some s =>
          match _skip_ws s with
          | EmptyString => Ret ("", Tokenizer [] (Some ""))
          | String c s' =>
              if _is_special_char c then
                match s' with
                | String c2 s'' =>
                    if double_char c c2 then Ret (String c (String c2 ""), Tokenizer [] (Some s''))
                    else Ret (String c "", Tokenizer [] (Some s'))
                | EmptyString => Ret (String c "", Tokenizer [] (Some s'))
                end
              else _extract_token (String c s')
          end
      end
  end.

(** The loop of [get_postfix] that stores the tokens. *)
Fixpoint tokens_loop (fuel : nat) (t : tokenizer) : res (list string) :=
  match fuel with
  | O => Throw fuel_exhausted
  | S fuel =>
      match next t with
      | Throw e => Throw e
      | Ret (tok, t) =>
          if bool_decide (tok = "") then Ret []
          else match tokens_loop fuel t with Ret toks => Ret (tok :: toks) | Throw e => Throw e end
      end
  end.

(** Each turn takes a character of the text, or one of the five tokens that a brace
    queued. *)
Definition tokens (text : string) : res (list string) :=
  tokens_loop (6 * String.length text + 1) (Tokenizer [] (Some text)).

(** ** The parser *)

Definition is_function (token : string) : bool :=
  bool_decide (token ∈ ["HOSTSTATUS"; "SERVICESTATUS"; "METRICS"; "METRIC"; "AVERAGE"; "COUNT"; "MAX"; "MIN"; "SUM"; "CALL"]).

Definition is_operator (token : string) : bool :=
  bool_decide (token ∈ ["+"; "-"; "-u"; "*"; "/"; "%"; ">"; ">="; "<"; "<="; "=="; "IS"; "NOT"; "!="; "!"; "AND"; "^";
                        "XOR"; "&&"; "OR"; "||"]).

(** [_precedence[token]]: 0 for a token that is not in the map. *)
Definition _precedence (token : string) : Z :=
  if bool_decide (token ∈ ["&&"; "AND"; "||"; "OR"; "^"; "XOR"]) then 2
  else if bool_decide (token ∈ ["IS"; "NOT"; ">"; ">="; "<"; "<="; "=="; "!="]) then 3
  else if bool_decide (token ∈ ["+"; "-"]) then 4
  else if bool_decide (token ∈ ["*"; "/"; "%"]) then 5
  else if bool_decide (token ∈ ["-u"; "!"]) then 6
  else 0.

Record parser := Parser {
  _postfix : list string;
  p_stack : list string;
  p_arity : list Z;
  can_be_unary : bool;
}.

(** The loop up to the left parenthesis, which stays on the stack. *)
Fixpoint pop_to_parenthesis (postfix stack : list string) : list string * list string :=
  match stack with
  | top :: stack' =>
      if bool_decide (top = "(") then (postfix, stack) else pop_to_parenthesis (postfix ++ [top]) stack'
  | [] => (postfix, [])
  end.

(** The loop over the operators that bind at least as tightly as [token]. *)
Fixpoint pop_operators (token : string) (postfix stack : list string) : list string * list string :=
  match stack with
  | top :: stack' =>
      if is_operator top && (_precedence token <=? _precedence top)%Z
      then pop_operators token (postfix ++ [top]) stack'
      else (postfix, stack)
  | [] => (postfix, [])
  end.

(** One token. *)
Definition parse_token (p : parser) (token : string) : res parser :=
  if is_function token then Ret (Parser p.(_postfix) (token :: p.(p_stack)) (1 :: p.(p_arity)) false)
  else if bool_decide (token = ",") then
    match pop_to_parenthesis p.(_postfix) p.(p_stack), p.(p_arity) with
    | (_, []), _ => Throw msg_fmt
    | _, [] => Throw msg_fmt
    | (postfix, stack), n :: arity => Ret (Parser postfix stack ((n + 1)%Z :: arity) false)
    end
  else if is_operator token then
    if p.(can_be_unary) && bool_decide (token = "-")
    then Ret (Parser p.(_postfix) ("-u" :: p.(p_stack)) p.(p_arity) true)
    else if p.(can_be_unary) && bool_decide (token ∈ ["NOT"; "!"])
    then Ret (Parser p.(_postfix) ("!" :: p.(p_stack)) p.(p_arity) true)
    else
      let '(postfix, stack) := pop_operators token p.(_postfix) p.(p_stack) in
      Ret (Parser postfix (token :: stack) p.(p_arity) true)
  else if bool_decide (token = "(") then Ret (Parser p.(_postfix) (token :: p.(p_stack)) p.(p_arity) true)
  else if bool_decide (token = ")") then
    match pop_to_parenthesis p.(_postfix) p.(p_stack) with
    | (_, []) => Throw msg_fmt
    | (postfix, _ :: stack) =>
        match stack with
        | f :: stack' =>
            if is_function f then
              match p.(p_arity) with
              | n :: arity => Ret (Parser (postfix ++ [f; pretty n]) stack' arity false)
              | [] => Throw undefined
              end
            else Ret (Parser postfix stack p.(p_arity) false)
        | [] => Ret (Parser postfix stack p.(p_arity) false)
        end
    end
  else Ret (Parser (p.(_postfix) ++ [token]) p.(p_stack) p.(p_arity) false).

Fixpoint parse_tokens (p : parser) (toks : list string) : res parser :=
  match toks with
  | [] => Ret p
  | tok :: toks => match parse_token p tok with Ret p => parse_tokens p toks | Throw e => Throw e end
  end.

(** The end: the operators left on the stack. *)
Fixpoint unstack (postfix stack : list string) : res (list string) :=
  match stack with
  | [] => Ret postfix
  | top :: stack => if bool_decide (top = "(") then Throw msg_fmt else unstack (postfix ++ [top]) stack
  end.

Definition postfix_of (toks : list string) : res (list string) :=
  match parse_tokens (Parser [] [] [] true) toks with
  | Ret p => unstack p.(_postfix) p.(p_stack)
  | Throw e => Throw e
  end.

(** [exp_parser::get_postfix] *)
Definition get_postfix (text : string) : res (list string) :=
  match tokens text with
  | Ret toks => postfix_of toks
  | Throw e => Throw e
  end.

(** ** The tree *)

Definition of_bool (b : bool) : double := dint (Z.b2z b).

(** [0.000001] and [COMPARE_EPSILON] *)
Definition eps : double := ddiv (dint 1) (dint 1000000).
Definition COMPARE_EPSILON : double := ddiv (dint 1) (dint 10000).

(** [std::abs(d) > eps] *)
Definition nonzero (d : double) : bool := SFltb eps (SFabs d).

(** A [double] as a [bool]. *)
Definition to_bool (d : double) : bool := match d with S754_zero _ => false | _ => true end.

Inductive operation_type := addition | substraction | multiplication | division | modulo.

#[export] Instance operation_type_eq_dec : EqDecision operation_type.
Proof. solve_decision. Defined.

(** The classes of binary operators. *)
Inductive binary :=
  | bool_and | bool_or | bool_xor | bool_equal | bool_not_equal
  | bool_more_than (strict : bool) | bool_less_than (strict : bool)
  | bool_operation (type : operation_type).

#[export] Instance binary_eq_dec : EqDecision binary.
Proof. solve_decision. Defined.

(** The fields of [bool_binary_operator], and [_boolean_value] of [bool_and] and
    [bool_or]. *)
Record cache := Cache {
  _left_hard : double;
  _right_hard : double;
  _boolean_value : bool;
  _in_downtime : bool;
  _state_known : bool;
}.

Definition cache_init : cache := Cache (dint 0) (dint 0) false false false.

(** [bool_value] and its classes. *)
Inductive node :=
  | NConstant (value : double)
  | NService (host_id service_id state_hard : Z) (known in_dt : bool)
  | NNot (value : node)
  | NBinary (op : binary) (left right : node) (k : cache).

Definition op_known (op : binary) (k : cache) : bool :=
  match op with
  | bool_operation (division | modulo) =>
      k.(_state_known) && negb (SFltb (SFabs k.(_right_hard)) COMPARE_EPSILON)
  | _ => k.(_state_known)
  end.

Definition op_value (op : binary) (k : cache) : double :=
  let l := k.(_left_hard) in
  let r := k.(_right_hard) in
  match op with
  | bool_and | bool_or => of_bool k.(_boolean_value)
  | bool_xor => of_bool (xorb (nonzero l) (nonzero r))
  | bool_equal => of_bool (k.(_state_known) && SFltb (SFabs (dsub l r)) COMPARE_EPSILON)
  | bool_not_equal => of_bool (SFleb COMPARE_EPSILON (SFabs (dsub l r)))
  | bool_more_than strict => of_bool (if strict then SFltb r l else SFleb r l)
  | bool_less_than strict => of_bool (if strict then SFltb l r else SFleb l r)
  | bool_operation addition => dadd l r
  | bool_operation substraction => dsub l r
  | bool_operation multiplication => dmul l r
  | bool_operation division => if SFltb (SFabs r) COMPARE_EPSILON then S754_nan else ddiv l r
  | bool_operation modulo =>
      if (dtrunc r =? 0)%Z then S754_nan else dint (Z.rem (dtrunc l) (dtrunc r))
  end.

Definition op_boolean (op : binary) (k : cache) : bool :=
  let l := k.(_left_hard) in
  let r := k.(_right_hard) in
  match op with
  | bool_and | bool_or => k.(_boolean_value)
  | bool_xor => xorb (nonzero l) (nonzero r)
  | bool_equal => k.(_state_known) && SFltb (SFabs (dsub l r)) COMPARE_EPSILON
  | bool_not_equal => SFleb COMPARE_EPSILON (SFabs (dsub l r))
  | bool_more_than strict => if strict then SFltb r l else SFleb r l
  | bool_less_than strict => if strict then SFltb l r else SFleb l r
  | bool_operation addition => to_bool (dadd l r)
  | bool_operation substraction => to_bool (dsub l r)
  | bool_operation multiplication => SFltb COMPARE_EPSILON (SFabs (dmul l r))
  | bool_operation division => if SFltb (SFabs r) COMPARE_EPSILON then false else to_bool (ddiv l r)
  | bool_operation modulo =>
      if (dtrunc r =? 0)%Z then false else negb (Z.rem (dtrunc l) (dtrunc r) =? 0)%Z
  end.

Fixpoint state_known (n : node) : bool :=
  match n with
  | NConstant _ => true
  | NService _ _ _ known _ => known
  | NNot v => state_known v
  | NBinary op _ _ k => op_known op k
  end.

Fixpoint value_hard (n : node) : double :=
  match n with
  | NConstant v => v
  | NService _ _ s _ _ => dint s
  | NNot v => of_bool (SFltb (SFabs (value_hard v)) eps)
  | NBinary op _ _ k => op_value op k
  end.

Definition boolean_value (n : node) : bool :=
  match n with
  | NConstant v => nonzero v
  | NService _ _ s _ _ => negb (s =? 0)%Z
  | NNot v => SFltb (SFabs (value_hard v)) eps
  | NBinary op _ _ k => op_boolean op k
  end.

Fixpoint in_downtime (n : node) : bool :=
  match n with
  | NConstant _ => false
  | NService _ _ _ _ dt => dt
  | NNot v => in_downtime v
  | NBinary _ _ _ k => k.(_in_downtime)
  end.

(** [bool_binary_operator::_update_state]; a child that is not set is [None]. *)
Definition base_update (l r : option node) (k : cache) : cache :=
  match l, r with
  | Some l, Some r =>
      if state_known l && state_known r
      then Cache (value_hard l) (value_hard r) k.(_boolean_value) (in_downtime l || in_downtime r) true
      else Cache k.(_left_hard) k.(_right_hard) k.(_boolean_value) k.(_in_downtime) false
  | _, _ => Cache k.(_left_hard) k.(_right_hard) k.(_boolean_value) k.(_in_downtime) false
  end.

Definition set_boolean_value (b : bool) (k : cache) : cache :=
  Cache k.(_left_hard) k.(_right_hard) b k.(_in_downtime) k.(_state_known).

(** The child is set, known, and is [b]. *)
Definition settles (b : bool) (n : option node) : bool :=
  match n with Some n => state_known n && eqb (boolean_value n) b | None => false end.

Definition _update_state (op : binary) (l r : option node) (k : cache) : cache :=
  match op with
  | bool_and =>
      if settles false l then Cache (of_bool false) k.(_right_hard) false k.(_in_downtime) true
      else if settles false r then Cache k.(_left_hard) (of_bool false) false k.(_in_downtime) true
      else
        let k := base_update l r k in
        set_boolean_value (k.(_state_known) && (nonzero k.(_left_hard) && nonzero k.(_right_hard))) k
  | bool_or =>
      if settles true l then Cache (of_bool true) k.(_right_hard) true k.(_in_downtime) true
      else if settles true r then Cache k.(_left_hard) (of_bool true) true k.(_in_downtime) true
      else base_update l r (set_boolean_value false k)
  | _ => base_update l r k
  end.

(** The constructor, [set_left] and [set_right]. *)
Definition new_binary (op : binary) (l r : node) : node :=
  NBinary op l r (_update_state op (Some l) (Some r) (_update_state op (Some l) None cache_init)).

(** ** The builder *)

(** [any_operand] *)
Inductive operand := Value (n : node) | Text (s : string).

Record builder := Builder { _operands : list operand; _services : list (Z * Z) }.

(** [hst_svc_mapping]: host name and service description to ids. *)
Abbreviation hst_svc_mapping := (gmap (string * string) (Z * Z)).
Definition get_service_id (m : hst_svc_mapping) (hst svc : string) : Z * Z := default (0, 0)%Z (m !! (hst, svc)).

Definition constant_of (value_str : string) : double :=
  if bool_decide (value_str ∈ ["OK"; "UP"]) then dint 0
  else if bool_decide (value_str ∈ ["WARNING"; "DOWN"]) then dint 1
  else if bool_decide (value_str ∈ ["CRITICAL"; "UNREACHABLE"]) then dint 2
  else if bool_decide (value_str = "UNKNOWN") then dint 3
  else strtod (Z.of_nat ∘ Ascii.nat_of_ascii <$> String.list_ascii_of_string value_str).

Definition _pop_operand (b : builder) : res (node * builder) :=
  match b.(_operands) with
  | [] => Throw msg_fmt
  | Value n :: ops => Ret (n, Builder ops b.(_services))
  | Text s :: ops => Ret (NConstant (constant_of s), Builder ops b.(_services))
  end.

Definition _pop_string (b : builder) : res (string * builder) :=
  match b.(_operands) with
  | Text s :: ops => if bool_decide (s = "") then Throw msg_fmt else Ret (s, Builder ops b.(_services))
  | _ => Throw msg_fmt
  end.

Definition push (o : operand) (b : builder) : builder := Builder (o :: b.(_operands)) b.(_services).

Definition _is_static_function (s : string) : bool :=
  bool_decide (s ∈ ["HOSTSTATUS"; "SERVICESTATUS"; "METRICS"; "METRIC"; "CALL"]).

(** The class of a binary operator. *)
Definition binary_of (tok : string) : option binary :=
  if bool_decide (tok ∈ ["&&"; "AND"]) then Some bool_and
  else if bool_decide (tok ∈ ["||"; "OR"]) then Some bool_or
  else if bool_decide (tok ∈ ["^"; "XOR"]) then Some bool_xor
  else if bool_decide (tok ∈ ["=="; "IS"]) then Some bool_equal
  else if bool_decide (tok ∈ ["!="; "NOT"]) then Some bool_not_equal
  else if bool_decide (tok = ">") then Some (bool_more_than true)
  else if bool_decide (tok = ">=") then Some (bool_more_than false)
  else if bool_decide (tok = "<") then Some (bool_less_than true)
  else if bool_decide (tok = "<=") then Some (bool_less_than false)
  else if bool_decide (tok = "+") then Some (bool_operation addition)
  else if bool_decide (tok = "-") then Some (bool_operation substraction)
  else if bool_decide (tok = "*") then Some (bool_operation multiplication)
  else if bool_decide (tok = "/") then Some (bool_operation division)
  else if bool_decide (tok = "%") then Some (bool_operation modulo)
  else None.

#[export] Instance res_bind : MBind res := λ A B f m, match m with Ret a => f a | Throw e => Throw e end.

(** An operator. *)
Definition build_operator (tok : string) (b : builder) : res builder :=
  if bool_decide (tok = "-u") then Ret b
  else if bool_decide (tok = "!") then
    '(arg, b) ← _pop_operand b; Ret (push (Value (NNot arg)) b)
  else
    match binary_of tok with
    | None => Throw msg_fmt
    | Some op =>
        '(r, b) ← _pop_operand b;
        '(l, b) ← _pop_operand b;
        Ret (push (Value (new_binary op l r)) b)
    end.

Definition _check_arity (expected given : Z) (b : builder) : res builder :=
  if (expected =? given)%Z then Ret b else Throw msg_fmt.

(** [strtol] on an arity, which the parser printed in decimal. *)
Fixpoint strtol_loop (acc : Z) (s : string) : Z :=
  match s with
  | String c s' =>
      match digit_val (Z.of_nat (Ascii.nat_of_ascii c)) with
      | Some d => strtol_loop (10 * acc + d) s'
      | None => acc
      end
  | EmptyString => acc
  end.

(** A function that the tree gets from elsewhere. *)
Definition build_static (m : hst_svc_mapping) (func : string) (arity : Z) (b : builder) : res builder :=
  if bool_decide (func = "HOSTSTATUS") then
    b ← _check_arity 1 arity b; '(_, b) ← _pop_string b; Ret b
  else if bool_decide (func = "SERVICESTATUS") then
    b ← _check_arity 2 arity b;
    '(svc, b) ← _pop_string b;
    '(hst, b) ← _pop_string b;
    let ids := get_service_id m hst svc in
    if ((ids.1 =? 0) || (ids.2 =? 0))%Z then Throw msg_fmt
    else Ret (Builder (Value (NService ids.1 ids.2 0 false false) :: b.(_operands)) (b.(_services) ++ [ids]))
  else if bool_decide (func = "METRIC") then
    b ← _check_arity 3 arity b;
    '(_, b) ← _pop_string b; '(_, b) ← _pop_string b; '(_, b) ← _pop_string b; Ret b
  else b ← _check_arity 1 arity b; '(_, b) ← _pop_string b; Ret b.

(** The loop of the constructor of [exp_builder]. *)
Fixpoint build_loop (m : hst_svc_mapping) (postfix : list string) (b : builder) : res builder :=
  match postfix with
  | [] => Ret b
  | tok :: postfix =>
      if is_operator tok then b ← build_operator tok b; build_loop m postfix b
      else if is_function tok then
        match postfix with
        | [] => Throw msg_fmt
        | arity :: postfix =>
            if _is_static_function tok
            then b ← build_static m tok (strtol_loop 0 arity) b; build_loop m postfix b
            else build_loop m postfix b
        end
      else build_loop m postfix (push (Text tok) b)
  end.

(** [exp_builder::exp_builder]: the tree and the services. *)
Definition build (m : hst_svc_mapping) (postfix : list string) : res (node * list (Z * Z)) :=
  b ← build_loop m postfix (Builder [] []);
  '(tree, b) ← _pop_operand b;
  match b.(_operands) with [] => Ret (tree, b.(_services)) | _ => Throw msg_fmt end.

(** The expression of a boolean KPI, from its text. *)
Definition parse_expression (m : hst_svc_mapping) (text : string) : res (node * list (Z * Z)) :=
  postfix ← get_postfix text; build m postfix.

(** ** Expressions and their text *)

Inductive exp :=
  | EConst (w : string)
  | EService (h s : string)
  | ENot (e : exp)
  | EBin (op : string) (l r : exp).

(** A token as it is written: as it is, or in quotes. *)
Inductive ptok := Raw (w : string) | Quoted (n : string).

Definition tok_of (t : ptok) : string := match t with Raw w => w | Quoted n => n end.

(** The tokens of an expression where operators of precedence [p] at least can
    stand without parentheses. *)
Fixpoint print (p : Z) (e : exp) : list ptok :=
  match e with
  | EConst w => [Raw w]
  | EService h s => [Raw "SERVICESTATUS"; Raw "("; Quoted h; Raw ","; Quoted s; Raw ")"]
  | ENot e => Raw "!" :: print 6 e
  | EBin op l r =>
      let q := _precedence op in
      let body := print q l ++ Raw op :: print (q + 1) r in
      if (p <=? q)%Z then body else Raw "(" :: body ++ [Raw ")"]
  end.

Definition text_of (t : ptok) : string :=
  match t with Raw w => w | Quoted n => "'" +:+ n +:+ "'" end.

Fixpoint join (ts : list ptok) : string :=
  match ts with
  | [] => ""
  | [t] => text_of t
  | t :: ts => text_of t +:+ " " +:+ join ts
  end.

(** The text of an expression. *)
Definition print_text (e : exp) : string := join (print 0 e).

Definition reserved (w : string) : bool :=
  is_function w || is_operator w || bool_decide (w ∈ [","; "("; ")"]).

Definition plain_char (c : ascii) : bool :=
  negb (_is_delimiter c || is_quote c || Ascii.eqb c backslash_char || Ascii.eqb c "{").

Definition all_chars (f : ascii → bool) (s : string) : bool := forallb f (String.list_ascii_of_string s).

(** A constant: a word that is not reserved. *)
Definition word_ok (w : string) : Prop := w ≠ "" ∧ all_chars plain_char w = true ∧ reserved w = false.
(** A name: any characters but the quote, in a word that is not reserved. *)
Definition name_ok (n : string) : Prop :=
  n ≠ "" ∧ all_chars (λ c, negb (Ascii.eqb c quote_char)) n = true ∧ reserved n = false.

Fixpoint exp_ok (m : hst_svc_mapping) (e : exp) : Prop :=
  match e with
  | EConst w => word_ok w
  | EService h s => name_ok h ∧ name_ok s ∧ ((get_service_id m h s).1 ≠ 0 ∧ (get_service_id m h s).2 ≠ 0)%Z
  | ENot e => exp_ok m e
  | EBin op l r => is_Some (binary_of op) ∧ exp_ok m l ∧ exp_ok m r
  end.

(** The postfix order. *)
Fixpoint postorder (e : exp) : list string :=
  match e with
  | EConst w => [w]
  | EService h s => [h; s; "SERVICESTATUS"; "2"]
  | ENot e => postorder e ++ ["!"]
  | EBin op l r => postorder l ++ postorder r ++ [op]
  end.

(** The tree an expression means, before any service is known. *)
Fixpoint tree (m : hst_svc_mapping) (e : exp) : node :=
  match e with
  | EConst w => NConstant (constant_of w)
  | EService h s => let ids := get_service_id m h s in NService ids.1 ids.2 0 false false
  | ENot e => NNot (tree m e)
  | EBin op l r =>
      match binary_of op with
      | Some b => new_binary b (tree m l) (tree m r)
      | None => tree m l
      end
  end.

Fixpoint services (m : hst_svc_mapping) (e : exp) : list (Z * Z) :=
  match e with
  | EConst _ => []
  | EService h s => [get_service_id m h s]
  | ENot e => services m e
  | EBin _ l r => services m l ++ services m r
  end.

(** ** Lemmas: the tokenizer *)

Lemma append_assoc (s1 s2 s3 : string) : (s1 +:+ s2) +:+ s3 = s1 +:+ s2 +:+ s3.
Proof.
  induction s1 as [|c s1 IH]; [done|].
  change (String c ((s1 +:+ s2) +:+ s3) = String c (s1 +:+ s2 +:+ s3)). by rewrite IH.
Qed.

Lemma append_empty (s : string) : s +:+ "" = s.
Proof. induction s as [|c s IH]; [done|]. change (String c (s +:+ "") = String c s). by rewrite IH. Qed.

Lemma length_append (s1 s2 : string) : String.length (s1 +:+ s2) = (String.length s1 + String.length s2)%nat.
Proof.
  induction s1 as [|c s1 IH]; [done|].
  change (S (String.length (s1 +:+ s2)) = S (String.length s1 + String.length s2)). by rewrite IH.
Qed.

(** What can follow a token. *)
Definition boundary (cont : string) : Prop := cont = "" ∨ ∃ s, cont = " " +:+ s.

Lemma extract_boundary cont : boundary cont → _extract_until _is_delimiter Plain cont = Ret ("", Some cont).
Proof. by intros [->|[s ->]]. Qed.

Lemma next_space s : next (Tokenizer [] (Some (" " +:+ s))) = next (Tokenizer [] (Some s)).
Proof. done. Qed.

(** The tokens that the printer writes as they are, besides words. *)
Definition symbols : list string :=
  ["("; ")"; ","; "!"; "SERVICESTATUS"; "&&"; "AND"; "||"; "OR"; "^"; "XOR"; "=="; "IS"; "!="; "NOT"; ">"; ">="; "<"; "<=";
   "+"; "-"; "*"; "/"; "%"].

Lemma next_symbol w cont :
  w ∈ symbols → boundary cont → next (Tokenizer [] (Some (w +:+ cont))) = Ret (w, Tokenizer [] (Some cont)).
Proof.
  unfold symbols. intros Hw Hc.
  repeat (apply elem_of_cons in Hw as [->|Hw]; [by destruct Hc as [->|[s ->]]|]). by apply not_elem_of_nil in Hw.
Qed.

Lemma binary_symbol op : is_Some (binary_of op) → op ∈ symbols ∧ is_operator op = true ∧ (2 ≤ _precedence op ≤ 5)%Z.
Proof.
  unfold binary_of. intros [b Hb]. unfold symbols.
  repeat (case_bool_decide as Hin; [try set_unfold in Hin; destruct_or?; subst; (split; [set_solver|split; [by vm_compute|vm_compute; split; congruence]])|clear Hin]). done.
Qed.

Lemma push_ret c tok rest : push_char c (Ret (tok, rest)) = Ret (String c tok, rest).
Proof. done. Qed.

Lemma extract_word w cont :
  all_chars plain_char w = true → boundary cont →
  _extract_until _is_delimiter Plain (w +:+ cont) = Ret (w, Some cont).
Proof.
  intros Hw Hc. induction w as [|c w IH]; [by apply extract_boundary|].
  unfold all_chars in Hw. cbn in Hw. apply andb_true_iff in Hw as [Hp Hw].
  unfold plain_char in Hp. apply negb_true_iff, orb_false_iff in Hp as [Hp _].
  apply orb_false_iff in Hp as [Hp Hb]. apply orb_false_iff in Hp as [Hd Hq].
  change (String c w +:+ cont) with (String c (w +:+ cont)). cbn [_extract_until].
  rewrite Hd, Hq, Hb, IH by done. done.
Qed.

Lemma next_word w cont :
  w ≠ "" → all_chars plain_char w = true → boundary cont →
  next (Tokenizer [] (Some (w +:+ cont))) = Ret (w, Tokenizer [] (Some cont)).
Proof.
  intros Hne Hw Hc. pose proof (extract_word w cont Hw Hc) as Hx.
  destruct w as [|c w]; [done|]. change (String c w +:+ cont) with (String c (w +:+ cont)) in *.
  unfold all_chars in Hw. cbn in Hw. apply andb_true_iff in Hw as [Hp _].
  unfold plain_char in Hp. apply negb_true_iff, orb_false_iff in Hp as [Hp Hbr].
  apply orb_false_iff in Hp as [Hp _]. apply orb_false_iff in Hp as [Hd _].
  unfold _is_delimiter in Hd. apply orb_false_iff in Hd as [Hs Hsp].
  unfold next. cbn [_queue _next]. cbn [_skip_ws]. rewrite Hs, Hsp. unfold _extract_token. by rewrite Hbr, Hx.
Qed.

Lemma extract_quoted n cont :
  all_chars (λ c, negb (Ascii.eqb c quote_char)) n = true → boundary cont →
  _extract_until _is_delimiter (Quoted_by quote_char) (n +:+ "'" +:+ cont) = Ret (n, Some cont).
Proof.
  intros Hn Hc. induction n as [|c n IH].
  { change ("" +:+ "'" +:+ cont) with (String quote_char cont). cbn [_extract_until].
    rewrite Ascii.eqb_refl. by apply extract_boundary. }
  unfold all_chars in Hn. cbn in Hn. apply andb_true_iff in Hn as [Hp Hn]. apply negb_true_iff in Hp.
  change (String c n +:+ "'" +:+ cont) with (String c (n +:+ "'" +:+ cont)). cbn [_extract_until].
  rewrite Hp. change (Ascii.eqb quote_char double_quote_char) with false. cbn [andb]. by rewrite IH.
Qed.

Lemma next_quoted n cont :
  all_chars (λ c, negb (Ascii.eqb c quote_char)) n = true → boundary cont →
  next (Tokenizer [] (Some ("'" +:+ n +:+ "'" +:+ cont))) = Ret (n, Tokenizer [] (Some cont)).
Proof.
  intros Hn Hc. pose proof (extract_quoted n cont Hn Hc) as Hx.
  change ("'" +:+ n +:+ "'" +:+ cont) with (String quote_char (n +:+ "'" +:+ cont)).
  unfold next. cbn [_queue _next]. change (_skip_ws (String quote_char ?s)) with (String quote_char s).
  change (_is_special_char quote_char) with false. cbv iota. unfold _extract_token.
  change (Ascii.eqb quote_char "{") with false. cbv iota. cbn [_extract_until].
  change (_is_delimiter quote_char) with false. change (is_quote quote_char) with true. cbv iota. by rewrite Hx.
Qed.

(** A token of the printer. *)
Definition tok_ok (t : ptok) : Prop :=
  match t with
  | Raw w => w ∈ symbols ∨ (w ≠ "" ∧ all_chars plain_char w = true)
  | Quoted n => n ≠ "" ∧ all_chars (λ c, negb (Ascii.eqb c quote_char)) n = true
  end.

Lemma next_text t cont :
  tok_ok t → boundary cont → next (Tokenizer [] (Some (text_of t +:+ cont))) = Ret (tok_of t, Tokenizer [] (Some cont)).
Proof.
  destruct t as [w|n]; cbn [text_of tok_of tok_ok].
  - intros [Hs|[Hne Hw]] Hc; [by apply next_symbol|by apply next_word].
  - intros [_ Hn] Hc. rewrite !append_assoc. by apply next_quoted.
Qed.

Lemma tok_not_empty t : tok_ok t → tok_of t ≠ "" ∧ (1 ≤ String.length (text_of t))%nat.
Proof.
  destruct t as [w|n]; cbn [text_of tok_of tok_ok].
  - intros [Hs|[Hne Hw]].
    + unfold symbols in Hs. set_unfold in Hs. destruct_or?; subst; cbn; split; (done || lia).
    + split; [done|]. destruct w; [done|cbn; lia].
  - intros [Hne _]. split; [done|]. rewrite length_append. cbn [String.length]. lia.
Qed.

Lemma tokens_join ts : ∀ fuel,
  Forall tok_ok ts → (length ts < fuel)%nat →
  tokens_loop fuel (Tokenizer [] (Some (join ts))) = Ret (tok_of <$> ts).
Proof.
  induction ts as [|t ts IH]; intros fuel Hts Hf; [by destruct fuel; [cbn in Hf; lia|]|].
  apply Forall_cons in Hts as [Ht Hts]. destruct fuel as [|fuel]; [cbn in Hf; lia|]. cbn [length] in Hf.
  cbn [tokens_loop]. destruct (tok_not_empty t Ht) as [Hne _].
  assert (∃ cont, boundary cont ∧ join (t :: ts) = text_of t +:+ cont ∧
            tokens_loop fuel (Tokenizer [] (Some cont)) = Ret (tok_of <$> ts)) as (cont & Hb & -> & Hl).
  { specialize (IH fuel Hts ltac:(lia)). destruct ts as [|t2 ts].
    - exists "". split; [by left|]. split; [|done]. cbn [join].
      by rewrite append_empty.
    - exists (" " +:+ join (t2 :: ts)). split; [right; by eexists|]. split; [done|].
      destruct fuel as [|fuel]; [cbn in Hf; lia|]. cbn [tokens_loop] in *. by rewrite next_space. }
  rewrite next_text by done. rewrite bool_decide_eq_false_2 by done. by rewrite Hl.
Qed.

Lemma length_join ts : Forall tok_ok ts → (length ts ≤ String.length (join ts))%nat.
Proof.
  induction ts as [|t ts IH]; intros Hts; [done|]. apply Forall_cons in Hts as [Ht Hts].
  destruct (tok_not_empty t Ht) as [_ Hl]. specialize (IH Hts). destruct ts as [|t2 ts]; [done|].
  change (join (t :: t2 :: ts)) with (text_of t +:+ " " +:+ join (t2 :: ts)). rewrite !length_append.
  cbn [length String.length] in *. lia.
Qed.

Lemma tokens_of_text ts : Forall tok_ok ts → tokens (join ts) = Ret (tok_of <$> ts).
Proof. intros Hts. unfold tokens. apply tokens_join; [done|]. pose proof (length_join ts Hts). lia. Qed.

(** ** Lemmas: the parser *)

Lemma print_ok m p e : exp_ok m e → Forall tok_ok (print p e).
Proof.
  revert p. induction e as [w|h s|e IH|op l IHl r IHr]; intros p He; cbn [print exp_ok] in *.
  - destruct He as (Hne & Hc & _). constructor; [by right|constructor].
  - destruct He as ((Hh & Hhc & _) & (Hs & Hsc & _) & _).
    do 6 (constructor; [by split || (left; unfold symbols; set_solver)|]). constructor.
  - constructor; [left; unfold symbols; set_solver|by apply IH].
  - destruct He as (Hop & Hl & Hr). destruct (binary_symbol op Hop) as [Hsym _].
    assert (Forall tok_ok (print (_precedence op) l ++ Raw op :: print (_precedence op + 1) r)) as Hb.
    { apply Forall_app. split; [by apply IHl|]. constructor; [by left|by apply IHr]. }
    case_match; [done|]. constructor; [left; unfold symbols; set_solver|].
    apply Forall_app. split; [done|]. constructor; [left; unfold symbols; set_solver|constructor].
Qed.

(** The operators on top of the stack that the expression left pending: they all
    bind at [p] at least. *)
Definition pending (p : Z) (ops : list string) : Prop :=
  Forall (λ o, is_operator o = true ∧ (p ≤ _precedence o)%Z) ops.

(** Nothing below can be popped by an operator that binds at [p]. *)
Definition stops (p : Z) (stack : list string) : Prop :=
  match stack with
  | [] => True
  | top :: _ => is_operator top = false ∨ (_precedence top < p)%Z
  end.

Lemma parse_tokens_app p ts1 ts2 :
  parse_tokens p (ts1 ++ ts2) = match parse_tokens p ts1 with Ret p' => parse_tokens p' ts2 | Throw e => Throw e end.
Proof. revert p. induction ts1 as [|t ts1 IH]; intros p; cbn; [done|]. by destruct (parse_token p t). Qed.

Lemma pop_operators_pending tok ops : ∀ postfix stack,
  pending (_precedence tok) ops → stops (_precedence tok) stack →
  pop_operators tok postfix (ops ++ stack) = (postfix ++ ops, stack).
Proof.
  induction ops as [|o ops IH]; intros postfix stack Hp Hs; cbn [app].
  - rewrite app_nil_r. destruct stack as [|top stack]; [done|]. cbn [pop_operators].
    destruct Hs as [Hs|Hs]; [by rewrite Hs|]. rewrite (proj2 (Z.leb_gt _ _)) by done. by rewrite andb_false_r.
  - apply Forall_cons in Hp as [[Ho Hpr] Hp]. cbn [pop_operators]. rewrite Ho, (proj2 (Z.leb_le _ _)) by done.
    cbn [andb]. rewrite IH by done. by rewrite <- app_assoc.
Qed.

Lemma pop_to_parenthesis_pending p ops : ∀ postfix stack,
  pending p ops → pop_to_parenthesis postfix (ops ++ "(" :: stack) = (postfix ++ ops, "(" :: stack).
Proof.
  induction ops as [|o ops IH]; intros postfix stack Hp; cbn [app pop_to_parenthesis].
  - by rewrite app_nil_r.
  - apply Forall_cons in Hp as [[Ho _] Hp]. rewrite bool_decide_eq_false_2 by (by intros ->).
    rewrite IH by done. by rewrite <- app_assoc.
Qed.

Lemma parse_word p w :
  reserved w = false → parse_token p w = Ret (Parser (p.(_postfix) ++ [w]) p.(p_stack) p.(p_arity) false).
Proof.
  unfold reserved. intros Hr. apply orb_false_iff in Hr as [Hr Hs]. apply orb_false_iff in Hr as [Hf Ho].
  apply bool_decide_eq_false in Hs. unfold parse_token. rewrite Hf, Ho.
  rewrite !bool_decide_eq_false_2; [done|..]; intros ->; apply Hs; set_solver.
Qed.

Definition no_function (stack : list string) : Prop :=
  match stack with [] => True | top :: _ => is_function top = false end.

(** Reading an expression puts its postfix order in the output, except the
    operators that are still pending on the stack. *)
Definition reads_as (p : Z) (ts : list string) (e : exp) : Prop :=
  ∀ postfix stack arity, stops p stack ∨ (6 ≤ p)%Z → no_function stack →
  ∃ out ops,
    parse_tokens (Parser postfix stack arity true) ts = Ret (Parser (postfix ++ out) (ops ++ stack) arity false) ∧
    out ++ ops = postorder e ∧ pending p ops.

Lemma pending_weaken p q ops : (p ≤ q)%Z → pending q ops → pending p ops.
Proof. intros Hpq Ho. apply (Forall_impl _ _ _ Ho). intros o [Hop Hq]. split; [done|lia]. Qed.

Lemma reads_service h s p :
  name_ok h → name_ok s → reads_as p ["SERVICESTATUS"; "("; h; ","; s; ")"] (EService h s).
Proof.
  intros (_ & _ & Hh) (_ & _ & Hs) postfix stack arity _ _. exists (postorder (EService h s)), [].
  cbn [app]. split; [|split; [by rewrite app_nil_r|constructor]].
  cbn [parse_tokens]. change (parse_token ?p "SERVICESTATUS") with
    (Ret (Parser p.(_postfix) ("SERVICESTATUS" :: p.(p_stack)) (1%Z :: p.(p_arity)) false)). cbn [_postfix p_stack p_arity].
  change (parse_token ?p "(") with (Ret (Parser p.(_postfix) ("(" :: p.(p_stack)) p.(p_arity) true)).
  cbn [_postfix p_stack p_arity]. rewrite (parse_word _ h) by done. cbn [_postfix p_stack p_arity].
  match goal with |- context [parse_token ?p ","] =>
    change (parse_token p ",") with (Ret (Parser p.(_postfix) p.(p_stack) (2%Z :: arity) false)) end.
  cbn [_postfix p_stack p_arity]. rewrite (parse_word _ s) by done. cbn [_postfix p_stack p_arity].
  match goal with |- context [parse_token ?p ")"] =>
    change (parse_token p ")") with (Ret (Parser (p.(_postfix) ++ ["SERVICESTATUS"; "2"]) stack arity false)) end.
  cbn [_postfix p_stack p_arity]. by rewrite <- !app_assoc.
Qed.

Lemma reads_not e p : (p ≤ 6)%Z → reads_as 6 (tok_of <$> print 6 e) e → reads_as p ("!" :: (tok_of <$> print 6 e)) (ENot e).
Proof.
  intros Hp IH postfix stack arity _ _. cbn [parse_tokens].
  change (parse_token (Parser postfix stack arity true) "!") with (Ret (Parser postfix ("!" :: stack) arity true)).
  destruct (IH postfix ("!" :: stack) arity) as (out & ops & Hx & Ho & Hpe); [right; lia|done|].
  cbv beta iota. exists out, (ops ++ ["!"]). rewrite Hx. split_and!.
  - by rewrite <- app_assoc.
  - cbn [postorder]. by rewrite app_assoc, Ho.
  - apply Forall_app. split; [by apply (pending_weaken p 6)|]. by repeat constructor.
Qed.

Lemma binary_not_function op : is_Some (binary_of op) → is_function op = false.
Proof.
  intros Hop. unfold is_function. apply bool_decide_eq_false_2. intros Hf. unfold binary_of in Hop.
  set_unfold in Hf. destruct_or?; subst; by destruct Hop.
Qed.

Lemma parse_binary op p :
  is_Some (binary_of op) → can_be_unary p = false →
  parse_token p op =
  let '(postfix, stack) := pop_operators op p.(_postfix) p.(p_stack) in Ret (Parser postfix (op :: stack) p.(p_arity) true).
Proof.
  intros Hop Hu. destruct (binary_symbol op Hop) as (Hs & Ho & _). unfold parse_token. rewrite Ho, Hu. cbn [andb].
  rewrite (binary_not_function op Hop).
  rewrite bool_decide_eq_false_2; [done|]. intros ->. by destruct Hop.
Qed.

Lemma reads_body op l r :
  let q := _precedence op in
  is_Some (binary_of op) → reads_as q (tok_of <$> print q l) l → reads_as (q + 1) (tok_of <$> print (q + 1) r) r →
  reads_as q (tok_of <$> (print q l ++ Raw op :: print (q + 1) r)) (EBin op l r).
Proof.
  intros q Hop IHl IHr postfix stack arity Hst Hnf.
  destruct (binary_symbol op Hop) as (_ & Ho & Hq). fold q in Hq.
  destruct Hst as [Hst|]; [|lia].
  destruct (IHl postfix stack arity (or_introl Hst) Hnf) as (out1 & ops1 & H1 & Hp1 & Hpe1).
  rewrite fmap_app, fmap_cons, parse_tokens_app, H1. cbn [parse_tokens tok_of].
  rewrite (parse_binary op) by done. cbn [_postfix p_stack p_arity]. rewrite pop_operators_pending by done.
  cbv beta iota zeta.
  pose proof (binary_not_function op Hop) as Hf.
  destruct (IHr ((postfix ++ out1) ++ ops1) (op :: stack) arity) as (out2 & ops2 & H2 & Hp2 & Hpe2);
    [left; right; lia|done|].
  rewrite H2. exists (out1 ++ ops1 ++ out2), (ops2 ++ [op]). split_and!.
  - by rewrite <- !app_assoc.
  - cbn [postorder]. by rewrite <- Hp1, <- Hp2, <- !app_assoc.
  - apply Forall_app. split; [apply (pending_weaken q (q + 1)); [lia|done]|].
    constructor; [split; [done|lia]|constructor].
Qed.

Lemma parse_print m e : exp_ok m e → ∀ p, (p ≤ 6)%Z → reads_as p (tok_of <$> print p e) e.
Proof.
  induction e as [w|h s|e IH|op l IHl r IHr]; intros He p Hp; cbn [print exp_ok] in *.
  - destruct He as (_ & _ & Hr). intros postfix stack arity _ _. exists [w], []. cbn [fmap list_fmap tok_of parse_tokens].
    rewrite parse_word by done. split_and!; [done..|constructor].
  - destruct He as (Hh & Hs & _). by apply reads_service.
  - apply reads_not; [done|]. by apply IH.
  - destruct He as (Hop & Hl & Hr). destruct (binary_symbol op Hop) as (_ & _ & Hq).
    pose proof (reads_body op l r Hop (IHl Hl (_precedence op) ltac:(lia)) (IHr Hr (_precedence op + 1)%Z ltac:(lia))) as Hb.
    destruct (Z.leb_spec p (_precedence op)) as [Hle|Hgt].
    + intros postfix stack arity Hst Hnf. destruct (Hb postfix stack arity) as (out & ops & Hx & Ho & Hpe); [|done|].
      { left. destruct Hst as [Hst|]; [|lia]. destruct stack as [|top stack]; [done|].
        destruct Hst as [Hst|Hst]; [by left|right; lia]. }
      exists out, ops. split_and!; [done..|]. by apply (pending_weaken p (_precedence op)).
    + intros postfix stack arity _ Hnf. rewrite fmap_cons, fmap_app.
      cbn [tok_of fmap list_fmap]. change ("(" :: ?a ++ [")"]) with (["("] ++ a ++ [")"]).
      rewrite parse_tokens_app.
      change (parse_tokens (Parser postfix stack arity true) ["("]) with (Ret (Parser postfix ("(" :: stack) arity true)).
      cbv iota. rewrite parse_tokens_app.
      destruct (Hb postfix ("(" :: stack) arity) as (out & ops & Hx & Ho & Hpe); [by left; left|done|].
      rewrite Hx. cbn [parse_tokens].
      exists (out ++ ops), []. cbn [app]. rewrite app_nil_r. split_and!; [|done|constructor].
      unfold parse_token. change (is_function ")") with false. change (is_operator ")") with false.
      change (bool_decide (")" = ",")) with false. change (bool_decide (")" = "(")) with false.
      change (bool_decide (")" = ")")) with true. cbn [_postfix p_stack p_arity].
      rewrite (pop_to_parenthesis_pending _ _ _ _ Hpe). destruct stack as [|f stack]; [by rewrite app_assoc|].
      cbn in Hnf. rewrite Hnf. by rewrite app_assoc.
Qed.

Lemma unstack_pending p ops : ∀ postfix, pending p ops → unstack postfix ops = Ret (postfix ++ ops).
Proof.
  induction ops as [|o ops IH]; intros postfix Hp; cbn [unstack]; [by rewrite app_nil_r|].
  apply Forall_cons in Hp as [[Ho _] Hp]. rewrite bool_decide_eq_false_2 by (by intros ->).
  rewrite IH by done. by rewrite <- app_assoc.
Qed.

Lemma get_postfix_print m e : exp_ok m e → get_postfix (print_text e) = Ret (postorder e).
Proof.
  intros He. unfold get_postfix, print_text. rewrite tokens_of_text by (by apply (print_ok m)).
  unfold postfix_of.
  destruct (parse_print m e He 0 ltac:(lia) [] [] [] (or_introl I) I) as (out & ops & -> & Ho & Hp).
  cbn [app _postfix p_stack]. rewrite app_nil_r, (unstack_pending 0) by done. by rewrite Ho.
Qed.

(** ** Lemmas: the builder *)

Definition operand_of (m : hst_svc_mapping) (e : exp) : operand :=
  match e with EConst w => Text w | _ => Value (tree m e) end.

Lemma pop_operand_of m e ops svcs :
  _pop_operand (Builder (operand_of m e :: ops) svcs) = Ret (tree m e, Builder ops svcs).
Proof. by destruct e. Qed.

Lemma reserved_text w : reserved w = false → is_operator w = false ∧ is_function w = false.
Proof. unfold reserved. by destruct (is_function w), (is_operator w). Qed.

Lemma build_text m w rest b : reserved w = false → build_loop m (w :: rest) b = build_loop m rest (push (Text w) b).
Proof. intros Hr. destruct (reserved_text w Hr) as [Ho Hf]. cbn [build_loop]. by rewrite Ho, Hf. Qed.

Lemma build_postorder m e : exp_ok m e → ∀ rest ops svcs,
  build_loop m (postorder e ++ rest) (Builder ops svcs) =
  build_loop m rest (Builder (operand_of m e :: ops) (svcs ++ services m e)).
Proof.
  induction e as [w|h s|e IH|op l IHl r IHr]; intros He rest ops svcs; cbn [exp_ok postorder services app] in *.
  - destruct He as (_ & _ & Hr). rewrite build_text by done. by rewrite app_nil_r.
  - destruct He as ((Hh & _ & Hhr) & (Hs & _ & Hsr) & Hi1 & Hi2). rewrite !build_text by done.
    change (build_loop m ("SERVICESTATUS" :: "2" :: rest) ?b0) with
      (b ← build_static m "SERVICESTATUS" 2 b0; build_loop m rest b).
    unfold build_static. rewrite bool_decide_eq_false_2, bool_decide_eq_true_2 by done.
    change (_check_arity 2 2 ?b) with (Ret b). cbn [mbind res_bind push _operands _services _pop_string].
    unfold _pop_string. cbn [_operands _services]. rewrite (bool_decide_eq_false_2 (s = "")) by done.
    cbn [mbind res_bind _operands _services]. rewrite (bool_decide_eq_false_2 (h = "")) by done.
    cbn [mbind res_bind _operands _services].
    rewrite (proj2 (Z.eqb_neq _ _) Hi1), (proj2 (Z.eqb_neq _ _) Hi2). done.
  - rewrite <- app_assoc, IH by done. cbn [app].
    change (build_loop m ("!" :: rest) ?b0) with (b ← build_operator "!" b0; build_loop m rest b).
    unfold build_operator. rewrite bool_decide_eq_false_2, bool_decide_eq_true_2 by done.
    rewrite pop_operand_of. done.
  - destruct He as (Hop & Hl & Hr). rewrite <- !app_assoc, IHl, IHr by done. cbn [app].
    destruct (binary_symbol op Hop) as (_ & Ho & _). cbn [build_loop]. rewrite Ho.
    unfold build_operator.
    rewrite !bool_decide_eq_false_2 by (intros ->; by destruct Hop).
    cbn [operand_of tree]. destruct Hop as [b ->].
    rewrite pop_operand_of. cbn [mbind res_bind]. rewrite pop_operand_of. cbn [mbind res_bind].
    unfold push. cbn [_operands _services]. by rewrite <- app_assoc.
Qed.

(** ** Theorems *)

(** C29: the text of an expression, with parentheses only where the precedence of the
    operators needs them, is parsed as the tree of that expression: tokenizer,
    shunting yard and builder together.  Constants, services by quoted names,
    negations and all binary operators are covered. *)
Theorem expression_parses m e :
  exp_ok m e → parse_expression m (print_text e) = Ret (tree m e, services m e).
Proof.
  intros He. unfold parse_expression. rewrite (get_postfix_print m) by done. cbn [mbind res_bind].
  unfold build. rewrite <- (app_nil_r (postorder e)), build_postorder by done. cbn [build_loop mbind res_bind app].
  by rewrite pop_operand_of.
Qed.

Definition sample_mapping : hst_svc_mapping := {[ ("central", "disk /") := (1, 2)%Z ]}.
Definition sample_exp : exp :=
  EBin "OR" (ENot (EBin "IS" (EService "central" "disk /") (EConst "OK")))
    (EBin "AND" (EBin ">" (EBin "+" (EConst "1") (EConst "2")) (EConst "2")) (EService "central" "disk /")).

Lemma expression_parses_witness :
  parse_expression sample_mapping (print_text sample_exp) = Ret (tree sample_mapping sample_exp, [(1, 2); (1, 2)]%Z).
Proof.
  apply (expression_parses sample_mapping sample_exp).
  cbn [exp_ok sample_exp]. unfold name_ok, word_ok. split_and!; vm_compute; (done || by eexists).
Defined.

(** The unary minus is parsed and then forgotten: the tree of [- w] is the tree of
    [w]. *)
Theorem unary_minus_ignored m w :
  word_ok w → parse_expression m ("- " +:+ w) = Ret (NConstant (constant_of w), []).
Proof.
  intros (Hne & Hc & Hr). unfold parse_expression, get_postfix.
  assert (Forall tok_ok [Raw "-"; Raw w]) as Hts.
  { constructor; [left; unfold symbols; set_solver|]. constructor; [by right|constructor]. }
  change ("- " +:+ w) with (join [Raw "-"; Raw w]). rewrite tokens_of_text by done. cbn [fmap list_fmap tok_of].
  unfold postfix_of. cbn [parse_tokens].
  change (parse_token (Parser [] [] [] true) "-") with (Ret (Parser [] ["-u"] [] true)).
  cbv beta iota. cbn [parse_tokens]. rewrite parse_word by done. cbn [mbind res_bind app _postfix p_stack].
  change (unstack [w] ["-u"]) with (Ret [w; "-u"]). cbn [mbind res_bind].
  unfold build. rewrite build_text by done. done.
Qed.
