(* ===== verification/BoolTree.v ===== *)
(** * Boolean expressions of BAM: the value of the tree

    The nodes of [broker/bam/src/bool_*.cc] keep the values they last saw of their
    children; a service that changes tells its parent, which tells its own when its
    value moved.  The theorem compares what the root answers with the value of the
    whole expression computed from the services, in three-valued logic. *)

From Stdlib Require Import SpecFloat.
From S2P Require Import Prelude Wire BoolExp.

(** ** Updates *)

(** What the service book hands to a service node: a status ([service_status],
    [pb_service], [pb_service_status]), an adaptive status, which may hold a
    downtime depth, or a state read from the cache. *)
Inductive svc_event :=
  | Status (host_id service_id last_hard_state downtime_depth : Z)
  | Adaptive (host_id service_id : Z) (downtime_depth : option Z)
  | FromCache (host_id service_id last_hard_state : Z).

(** [bool_service::service_update]: the node, and whether its parents are told. *)
Definition service_update (ev : svc_event) (n : node) : node * bool :=
  match n with
  | NService h s st known dt =>
      match ev with
      | Status h' s' st' depth =>
          let new_dt := 0 <? depth in
          if (h' =? h) && (s' =? s) && (negb (st =? st') || negb known || negb (eqb dt new_dt))
          then (NService h s st' true new_dt, true) else (n, false)
      | Adaptive h' s' (Some depth) =>
          let new_dt := 0 <? depth in
          if (h' =? h) && (s' =? s) && negb (eqb dt new_dt)
          then (NService h s st known new_dt, true) else (n, false)
      | Adaptive _ _ None => (n, false)
      | FromCache _ _ st' =>
          (NService h s (wrap_i16 st') (known || negb (wrap_i16 st' =? 3)) dt, negb (st =? st') || negb known)
      end
  | _ => (n, false)
  end.

(** The test of [bool_binary_operator::update_from]: the child is known or not as the
    operator is, and has the value it had. *)
Definition child_changed (known : bool) (cached : double) (child : node) : bool :=
  negb (eqb (state_known child) known) || SFltb eps (SFabs (dsub cached (value_hard child))).

(** Where a service is in the tree. *)
Inductive turn := GoLeft | GoRight | GoDown.

(** A service is updated and the change goes up, from parent to parent
    ([notify_parents_of_change], [update_from]); the boolean tells whether the node
    tells its own parents. *)
Fixpoint update_at (path : list turn) (ev : svc_event) (n : node) : node * bool :=
  match path, n with
  | [], _ => service_update ev n
  | GoDown :: path, NNot v =>
      let '(v, told) := update_at path ev v in (NNot v, told)
  | GoLeft :: path, NBinary op l r k =>
      let '(l, told) := update_at path ev l in
      if told && child_changed k.(_state_known) k.(_left_hard) l
      then (NBinary op l r (_update_state op (Some l) (Some r) k), true)
      else (NBinary op l r k, false)
  | GoRight :: path, NBinary op l r k =>
      let '(r, told) := update_at path ev r in
      if told && child_changed k.(_state_known) k.(_right_hard) r
      then (NBinary op l r (_update_state op (Some l) (Some r) k), true)
      else (NBinary op l r k, false)
  | _ :: _, _ => (n, false)
  end.

(** The services of the tree that listen to a service, in the order of the
    expression. *)
Fixpoint listeners (h s : Z) (n : node) : list (list turn) :=
  match n with
  | NConstant _ => []
  | NService h' s' _ _ _ => if (h' =? h) && (s' =? s) then [[]] else []
  | NNot v => cons GoDown <$> listeners h s v
  | NBinary _ l r _ => (cons GoLeft <$> listeners h s l) ++ (cons GoRight <$> listeners h s r)
  end.

Definition ids_of (ev : svc_event) : Z * Z :=
  match ev with Status h s _ _ | Adaptive h s _ | FromCache h s _ => (h, s) end.

(** [service_book::update] and [apply_services_state], for the services of one
    expression. *)
Definition book_update (ev : svc_event) (n : node) : node :=
  foldl (λ n path, (update_at path ev n).1) n (listeners (ids_of ev).1 (ids_of ev).2 n).

(** [bool_expression::get_state]: critical (2) when the value is the one that has an
    impact. *)
Definition get_state (impact_if : bool) (n : node) : Z := if eqb (boolean_value n) impact_if then 2 else 0.

(** ** Three-valued logic *)

Definition kleene_and (a b : option Z) : option Z :=
  match a, b with
  | Some 0, _ | _, Some 0 => Some 0
  | Some _, Some _ => Some 1
  | _, _ => None
  end.

Definition kleene_or (a b : option Z) : option Z :=
  match a, b with
  | Some a, Some b => Some (Z.b2z (negb (a =? 0) || negb (b =? 0)))
  | Some a, None => if a =? 0 then None else Some 1
  | None, Some b => if b =? 0 then None else Some 1
  | None, None => None
  end.

Definition compare_with (f : Z → Z → bool) (a b : option Z) : option Z :=
  match a, b with Some a, Some b => Some (Z.b2z (f a b)) | _, _ => None end.

Definition op_meaning (op : binary) : option Z → option Z → option Z :=
  match op with
  | bool_and => kleene_and
  | bool_or => kleene_or
  | bool_xor => compare_with (λ a b, xorb (negb (a =? 0)) (negb (b =? 0)))
  | bool_equal => compare_with Z.eqb
  | bool_not_equal => compare_with (λ a b, negb (a =? b))
  | bool_more_than strict => compare_with (λ a b, if strict then b <? a else b <=? a)
  | bool_less_than strict => compare_with (λ a b, if strict then a <? b else a <=? b)
  | bool_operation _ => λ _ _, None
  end.

(** The integers the logical part works with, as doubles. *)
Definition small_of (d : double) : option Z :=
  if SFeqb d (dint 0) then Some 0 else if SFeqb d (dint 1) then Some 1
  else if SFeqb d (dint 2) then Some 2 else if SFeqb d (dint 3) then Some 3 else None.

(** The value of an expression from the states of its services: [None] is unknown. *)
Fixpoint meaning (n : node) : option Z :=
  match n with
  | NConstant v => small_of v
  | NService _ _ st known _ => if known then Some st else None
  | NNot v => (λ z, Z.b2z (z =? 0)) <$> meaning v
  | NBinary op l r _ => op_meaning op (meaning l) (meaning r)
  end.

(** The value of an expression when the services have the states [σ]. *)
Fixpoint eval (m : hst_svc_mapping) (σ : Z * Z → option Z) (e : exp) : option Z :=
  match e with
  | EConst w => small_of (constant_of w)
  | EService h s => σ (get_service_id m h s)
  | ENot e => (λ z, Z.b2z (z =? 0)) <$> eval m σ e
  | EBin op l r =>
      match binary_of op with
      | Some b => op_meaning b (eval m σ l) (eval m σ r)
      | None => eval m σ l
      end
  end.

(** The state of a service after an event about it: a state from the cache that is
    UNKNOWN does not make the service known. *)
Definition after (ev : svc_event) (v : option Z) : option Z :=
  match ev with
  | Status _ _ st _ => Some st
  | Adaptive _ _ _ => v
  | FromCache _ _ st => match v with None => if st =? 3 then None else Some st | Some _ => Some st end
  end.

Definition hears (ev : svc_event) (σ : Z * Z → option Z) : Z * Z → option Z :=
  λ ids, if decide (ids = ids_of ev) then after ev (σ ids) else σ ids.

(** The states of the services after events. *)
Definition states (evs : list svc_event) : Z * Z → option Z :=
  foldl (λ σ ev, hears ev σ) (λ _, None) evs.

(** No arithmetic, and constants and states in 0..3. *)
Fixpoint logical (n : node) : Prop :=
  match n with
  | NConstant v => ∃ z, 0 ≤ z ≤ 3 ∧ v = dint z
  | NService _ _ st _ _ => 0 ≤ st ≤ 3
  | NNot v => logical v
  | NBinary op l r _ => (∀ t, op ≠ bool_operation t) ∧ logical l ∧ logical r
  end.

(** The same of an expression. *)
Fixpoint logical_exp (e : exp) : Prop :=
  match e with
  | EConst w => ∃ z, 0 ≤ z ≤ 3 ∧ constant_of w = dint z
  | EService _ _ => True
  | ENot e => logical_exp e
  | EBin op l r =>
      match binary_of op with Some (bool_operation _) | None => False | Some _ => True end ∧
      logical_exp l ∧ logical_exp r
  end.

Definition event_ok (ev : svc_event) : Prop :=
  match ev with Status _ _ st _ | FromCache _ _ st => 0 ≤ st ≤ 3 | Adaptive _ _ _ => True end.

(** ** Lemmas: small integers *)

Definition small (z : Z) : Prop := 0 ≤ z ≤ 3.

(** A fact about two small integers, by cases. *)
Ltac small_cases :=
  repeat match goal with H : small ?z |- _ => assert (z = 0 ∨ z = 1 ∨ z = 2 ∨ z = 3) by (unfold small in H; lia); clear H end;
  destruct_or?; subst; vm_compute; try done.

Lemma small_of_dint z : small z → small_of (dint z) = Some z.
Proof. intros Hz. small_cases. Qed.

Lemma nonzero_dint z : small z → nonzero (dint z) = negb (z =? 0).
Proof. intros Hz. small_cases. Qed.

Lemma not_dint z : small z → SFltb (SFabs (dint z)) eps = (z =? 0).
Proof. intros Hz. small_cases. Qed.

Lemma moved_dint a b : small a → small b → SFltb eps (SFabs (dsub (dint a) (dint b))) = negb (a =? b).
Proof. intros Ha Hb. small_cases. Qed.

Lemma equal_dint a b : small a → small b → SFltb (SFabs (dsub (dint a) (dint b))) COMPARE_EPSILON = (a =? b).
Proof. intros Ha Hb. small_cases. Qed.

Lemma not_equal_dint a b : small a → small b → SFleb COMPARE_EPSILON (SFabs (dsub (dint a) (dint b))) = negb (a =? b).
Proof. intros Ha Hb. small_cases. Qed.

Lemma ltb_dint a b : small a → small b → SFltb (dint a) (dint b) = (a <? b).
Proof. intros Ha Hb. small_cases. Qed.

Lemma leb_dint a b : small a → small b → SFleb (dint a) (dint b) = (a <=? b).
Proof. intros Ha Hb. small_cases. Qed.

(** ** The invariant *)

Definition known (a : option Z) : bool := match a with Some _ => true | None => false end.
Definition truthy (a : option Z) : bool := match a with Some z => negb (z =? 0) | None => false end.

(** What a node answers is the value [a]. *)
Definition answers (n : node) (a : option Z) : Prop :=
  state_known n = known a ∧
  ∀ z, a = Some z → small z ∧ value_hard n = dint z ∧ boolean_value n = negb (z =? 0).

(** The cache of an operator whose children have the values [a] and [b]. *)
Definition fresh_cache (op : binary) (a b : option Z) (k : cache) : Prop :=
  ∃ cl cr, small cl ∧ small cr ∧ k.(_left_hard) = dint cl ∧ k.(_right_hard) = dint cr ∧
  k.(_state_known) = known (op_meaning op a b) ∧
  match op with
  | bool_and =>
      k.(_boolean_value) = truthy (kleene_and a b) ∧ (a = Some 0 → cl = 0) ∧ (b = Some 0 → cr = 0 ∨ a = Some 0) ∧
      (k.(_boolean_value) = true → a = Some cl ∧ b = Some cr)
  | bool_or =>
      k.(_boolean_value) = truthy (kleene_or a b) ∧ cl ≤ 1 ∧ cr ≤ 1 ∧ (truthy a = true → cl = 1) ∧
      (truthy b = true → cr = 1 ∨ truthy a = true) ∧
      (k.(_state_known) = true → k.(_boolean_value) = false → a = Some 0 ∧ b = Some 0 ∧ cl = 0 ∧ cr = 0)
  | _ => k.(_state_known) = true → a = Some cl ∧ b = Some cr
  end.

Fixpoint good (n : node) : Prop :=
  match n with
  | NNot v => good v
  | NBinary op l r k => good l ∧ good r ∧ fresh_cache op (meaning l) (meaning r) k
  | _ => True
  end.

Lemma b2z_cases b : Z.b2z b = 0 ∨ Z.b2z b = 1.
Proof. destruct b; auto. Qed.

Lemma op_meaning_bit op a b z : op_meaning op a b = Some z → z = 0 ∨ z = 1.
Proof.
  destruct op; cbn [op_meaning]; unfold kleene_and, kleene_or, compare_with; intros Hz;
    repeat case_match; simplify_eq; auto using b2z_cases.
Qed.

Lemma meaning_small n : logical n → ∀ z, meaning n = Some z → small z.
Proof.
  induction n as [v|h s st kn dt|v IH|op l IHl r IHr k]; cbn [logical meaning]; intros Hl z.
  - destruct Hl as (z' & Hz' & ->). rewrite small_of_dint by done. by intros [= <-].
  - destruct kn; [|done]. by intros [= <-].
  - destruct (meaning v); cbn; [|done]. intros [= <-]. unfold small. destruct (z0 =? 0); cbn; lia.
  - destruct Hl as (Hop & Hl & Hr). intros Hz.
    destruct (op_meaning_bit _ _ _ _ Hz) as [->| ->]; unfold small; lia.
Qed.

Lemma of_bool_dint b : of_bool b = dint (Z.b2z b).
Proof. done. Qed.

Lemma b2z_bool b : negb (Z.b2z b =? 0) = b.
Proof. by destruct b. Qed.

Lemma small_b2z b : small (Z.b2z b).
Proof. unfold small. destruct b; cbn; lia. Qed.

(** The answers of an operator with a fresh cache. *)
Lemma op_answers op a b k l r :
  (∀ t, op ≠ bool_operation t) → fresh_cache op a b k → answers (NBinary op l r k) (op_meaning op a b).
Proof.
  intros Hop (cl & cr & Hcl & Hcr & Hl & Hr & Hk & Hc).
  assert (op_known op k = k.(_state_known)) as Hok by (destruct op; try done; by destruct (Hop type)).
  split; [cbn [state_known]; by rewrite Hok|]. intros z Hz.
  assert (op_boolean op k = negb (z =? 0) ∧ op_value op k = of_bool (op_boolean op k)) as [Hb Hv].
  { rewrite Hz in Hk. cbn in Hk. destruct op; cbn [op_boolean op_value op_meaning] in *.
    - destruct Hc as (Hc & _). rewrite Hc, Hz. done.
    - destruct Hc as (Hc & _). rewrite Hc, Hz. done.
    - destruct (Hc Hk) as [-> ->]. injection Hz as <-. rewrite Hl, Hr, !nonzero_dint, b2z_bool by done. done.
    - destruct (Hc Hk) as [-> ->]. injection Hz as <-. rewrite Hl, Hr, Hk, equal_dint, b2z_bool by done. done.
    - destruct (Hc Hk) as [-> ->]. injection Hz as <-. rewrite Hl, Hr, not_equal_dint, b2z_bool by done. done.
    - destruct (Hc Hk) as [-> ->]. injection Hz as <-. rewrite Hl, Hr, ltb_dint, leb_dint, b2z_bool by done. done.
    - destruct (Hc Hk) as [-> ->]. injection Hz as <-. rewrite Hl, Hr, ltb_dint, leb_dint, b2z_bool by done. done.
    - by destruct (Hop type). }
  cbn [value_hard boolean_value]. rewrite Hv, Hb, of_bool_dint.
  pose proof (op_meaning_bit _ _ _ _ Hz) as Hz01.
  destruct Hz01 as [->| ->]; (split; [unfold small; lia|done]).
Qed.

Lemma good_answers n : logical n → good n → answers n (meaning n).
Proof.
  induction n as [v|h s st kn dt|v IH|op l IHl r IHr k]; cbn [logical good meaning]; intros Hl Hg.
  - destruct Hl as (z & Hz & ->). rewrite small_of_dint by done. split; [done|]. intros z' [= <-].
    split; [done|]. split; [done|]. by apply nonzero_dint.
  - split; [by destruct kn|]. destruct kn; [|done]. intros z [= <-]. done.
  - destruct (IH Hl Hg) as [Hk Hv]. split; [cbn [state_known]; rewrite Hk; by destruct (meaning v)|].
    intros z Hz. destruct (meaning v) as [y|]; [|done]. injection Hz as <-. destruct (Hv y eq_refl) as (Hs & Hvv & _).
    cbn [value_hard boolean_value]. rewrite Hvv, not_dint, b2z_bool by done. split; [apply small_b2z|done].
  - destruct Hl as (Hop & _), Hg as (_ & _ & Hf). by apply op_answers.
Qed.

(** ** Recomputing a cache *)

(** What is always true of the values an operator keeps. *)
Definition cache_ok (op : binary) (k : cache) : Prop :=
  ∃ cl cr, small cl ∧ small cr ∧ k.(_left_hard) = dint cl ∧ k.(_right_hard) = dint cr ∧
  (op = bool_or → cl ≤ 1 ∧ cr ≤ 1).

Lemma fresh_ok op a b k : fresh_cache op a b k → cache_ok op k.
Proof. intros (cl & cr & ? & ? & ? & ? & _ & Hc). exists cl, cr. split_and!; try done. intros ->. by destruct Hc as (_ & ? & ? & _). Qed.

Lemma init_ok op l : cache_ok op (_update_state op (Some l) None cache_init).
Proof.
  destruct op; cbn [_update_state settles base_update cache_init]; repeat case_match;
    solve [ exists 0, 0; repeat split; done | exists 1, 0; repeat split; done ].
Qed.

Lemma answers_settle n a b : answers n a → settles b (Some n) = known a && eqb (truthy a) b.
Proof.
  intros [Hk Hv]. cbn [settles]. rewrite Hk. destruct a as [z|]; [|done]. destruct (Hv z eq_refl) as (_ & _ & ->). done.
Qed.

(** The cached values after [bool_binary_operator::_update_state]. *)
Lemma base_update_fresh l r a b k :
  answers l a → answers r b →
  base_update (Some l) (Some r) k =
  match a, b with
  | Some x, Some y => Cache (dint x) (dint y) k.(_boolean_value) (in_downtime l || in_downtime r) true
  | _, _ => Cache k.(_left_hard) k.(_right_hard) k.(_boolean_value) k.(_in_downtime) false
  end.
Proof.
  intros [Hkl Hl] [Hkr Hr]. cbn [base_update]. rewrite Hkl, Hkr. destruct a as [x|], b as [y|]; try done. cbn.
  destruct (Hl x eq_refl) as (_ & -> & _), (Hr y eq_refl) as (_ & -> & _). done.
Qed.

(** Recomputing the cache of an operator from the values of its children, for each
    kind of operator. *)
Section update_fresh.
Context (l r : node) (a b : option Z) (k : cache) (Ha : answers l a) (Hb : answers r b).

Lemma answers_small n v x : answers n v → v = Some x → small x.
Proof. intros [_ Hv] Hx. by destruct (Hv x Hx). Qed.

(** The values of the cache, read off it; then the facts about them. *)
Ltac solve_fresh :=
  match goal with |- fresh_cache _ _ _ (Cache (dint ?c) (dint ?d) _ _ _) => exists c, d end;
  cbn [_left_hard _right_hard _boolean_value _state_known];
  split_and!; try done; try (unfold small; lia); try (intros; simplify_eq; auto; lia).

Lemma small_cases_of z : small z → z = 0 ∨ z = 1 ∨ z = 2 ∨ z = 3.
Proof. unfold small. lia. Qed.

(** The recomputed cache by cases on the values of the children. *)
Ltac by_values Hl Hr :=
  cbn [_update_state]; unfold set_boolean_value;
  rewrite (answers_settle l a), (answers_settle r b), (base_update_fresh l r a b), !of_bool_dint by done;
  cbn [_left_hard _right_hard _boolean_value _state_known]; rewrite Hl, Hr;
  pose proof (answers_small l a); pose proof (answers_small r b);
  destruct a as [x|], b as [y|];
  try (destruct (small_cases_of x) as [->|[->|[->| ->]]]; [by eauto|..]);
  try (destruct (small_cases_of y) as [->|[->|[->| ->]]]; [by eauto|..]);
  cbn [known truthy andb eqb negb Z.eqb Z.b2z _left_hard _right_hard _boolean_value _state_known];
  rewrite ?nonzero_dint by (unfold small; lia); cbn [andb negb Z.eqb]; solve_fresh.

Lemma update_fresh_and : cache_ok bool_and k → fresh_cache bool_and a b (_update_state bool_and (Some l) (Some r) k).
Proof. intros (cl & cr & Hcl & Hcr & Hl & Hr & _). by_values Hl Hr. Qed.

Lemma update_fresh_or : cache_ok bool_or k → fresh_cache bool_or a b (_update_state bool_or (Some l) (Some r) k).
Proof. intros (cl & cr & Hcl & Hcr & Hl & Hr & Hor). destruct (Hor eq_refl) as [Hcl' Hcr']. by_values Hl Hr. Qed.
End update_fresh.

Lemma update_fresh op l r a b k :
  (∀ t, op ≠ bool_operation t) → answers l a → answers r b → cache_ok op k →
  fresh_cache op a b (_update_state op (Some l) (Some r) k).
Proof.
  intros Hop Ha Hb Hk.
  destruct op; [by apply update_fresh_and|by apply update_fresh_or|..|by destruct (Hop type)].
  all: destruct Hk as (cl & cr & Hcl & Hcr & Hl & Hr & _); cbn [_update_state]; rewrite (base_update_fresh l r a b) by done.
  all: destruct a as [x|], b as [y|]; [exists x, y|exists cl, cr..]; split_and!; try done; by eauto using answers_small.
Qed.

(** ** Updates that an operator does not see *)

Lemma child_unchanged k c l a :
  small c → answers l a → child_changed k (dint c) l = false → if k then a = Some c else a = None.
Proof.
  intros Hc [Hkn Hv] Hch. unfold child_changed in Hch. apply orb_false_iff in Hch as [Hk Hm].
  apply negb_false_iff, eqb_prop in Hk. rewrite Hkn in Hk. subst k. destruct a as [z|]; [|done]. cbn.
  destruct (Hv z eq_refl) as (Hz & Hvz & _). rewrite Hvz, moved_dint in Hm by done.
  apply negb_false_iff, Z.eqb_eq in Hm. by subst.
Qed.

Lemma kleene_and_cases a b :
  kleene_and a b = if decide (a = Some 0 ∨ b = Some 0) then Some 0 else if known a && known b then Some 1 else None.
Proof. case_decide; destruct a as [[| |]|], b as [[| |]|]; cbn in *; try done; naive_solver. Qed.

Lemma kleene_or_cases a b :
  kleene_or a b = if truthy a || truthy b then Some 1 else if known a && known b then Some 0 else None.
Proof. destruct a as [[| |]|], b as [[| |]|]; done. Qed.

Lemma kleene_and_comm a b : kleene_and a b = kleene_and b a.
Proof. destruct a as [[| |]|], b as [[| |]|]; done. Qed.

Lemma kleene_or_comm a b : kleene_or a b = kleene_or b a.
Proof. destruct a as [[| |]|], b as [[| |]|]; done. Qed.

(** An operator that is unknown stays so when a child becomes unknown. *)
Lemma unknown_stays op a b a' b' :
  op_meaning op a b = None → (a' = a ∨ a' = None) → (b' = b ∨ b' = None) → op_meaning op a' b' = None.
Proof.
  intros Hm [->| ->] [->| ->]; try done;
    destruct op, a as [[| |]|], b as [[| |]|]; done.
Qed.

(** The cache of an unknown operator says nothing about its children. *)
Lemma unknown_fresh op a b a' b' k :
  fresh_cache op a b k → k.(_state_known) = false → op_meaning op a' b' = None →
  fresh_cache op a' b' k.
Proof.
  intros (cl & cr & Hcl & Hcr & Hl & Hr & Hk & Hc) Hs Hm. exists cl, cr.
  split_and!; try done; [by rewrite Hs, Hm|]. rewrite Hs in Hk. destruct op; try (by rewrite Hs); cbn [op_meaning] in *.
  - destruct Hc as (Hb & _). destruct (kleene_and a b) eqn:Hab; [done|]. rewrite Hm, Hb. split_and!; try done.
    + intros ->. rewrite kleene_and_cases in Hm. case_decide; naive_solver.
    + intros ->. rewrite kleene_and_cases in Hm. case_decide; naive_solver.
  - destruct Hc as (Hb & ? & ? & _). destruct (kleene_or a b) eqn:Hab; [done|]. rewrite Hm, Hb, Hs.
    rewrite kleene_or_cases in Hm. destruct (truthy a'), (truthy b'); done.
Qed.

Lemma and_false a b :
  true = known (kleene_and a b) → false = truthy (kleene_and a b) ↔ a = Some 0 ∨ b = Some 0.
Proof.
  rewrite kleene_and_cases. case_decide; [done|]. destruct (known a && known b); cbn; [|done]. naive_solver.
Qed.

Lemma and_zero a b : a = Some 0 ∨ b = Some 0 → kleene_and a b = Some 0.
Proof. intros H. rewrite kleene_and_cases. by case_decide. Qed.

Lemma or_true a b : true = truthy (kleene_or a b) ↔ truthy a = true ∨ truthy b = true.
Proof.
  rewrite kleene_or_cases, <- orb_true_iff. destruct (truthy a || truthy b); [done|].
  destruct (known a && known b); cbn; naive_solver.
Qed.

Lemma or_one a b : truthy a = true ∨ truthy b = true → kleene_or a b = Some 1.
Proof. intros H. rewrite kleene_or_cases. apply orb_true_iff in H. by rewrite H. Qed.

Lemma truthy_one c : small c → c ≤ 1 → truthy (Some c) = true → c = 1.
Proof. unfold small. cbn. intros ?? Hc%negb_true_iff%Z.eqb_neq. lia. Qed.

(** The value a child has now was the one the operator keeps, or both are unknown. *)
Definition unseen (k : cache) (cached : double) (a' : option Z) : Prop :=
  ∀ c, cached = dint c → small c → if k.(_state_known) then a' = Some c else a' = None.

(** A change of the left child that is not seen makes no difference. *)
Lemma unseen_left op a a' b k :
  (∀ t, op ≠ bool_operation t) → fresh_cache op a b k → unseen k k.(_left_hard) a' →
  fresh_cache op a' b k ∧ op_meaning op a' b = op_meaning op a b.
Proof.
  intros Hop Hf Ha'. pose proof Hf as (cl & cr & Hcl & Hcr & Hl & Hr & Hk & Hc). specialize (Ha' cl Hl Hcl).
  destruct (_state_known k) eqn:Hs.
  2: { subst a'. destruct (op_meaning op a b) eqn:Hm; [done|].
       pose proof (unknown_stays op a b None b Hm) as Hm'. split; [eapply unknown_fresh; eauto|eauto]. }
  subst a'. destruct op; cbn [op_meaning] in *; try (by destruct (Hc eq_refl) as [-> ->]); try by destruct (Hop type).
  - destruct Hc as (Hb & Hc1 & Hc2 & Hc3).
    destruct (_boolean_value k) eqn:Hbv; [by destruct (Hc3 eq_refl) as [-> ->]|].
    apply and_false in Hb; [|done].
    assert (Some cl = Some 0 ∨ b = Some 0) as Hz by naive_solver.
    split; [|by rewrite !and_zero]. exists cl, cr. cbn [op_meaning]. rewrite (and_zero (Some cl)), Hbv, Hs by done.
    split_and!; try done; naive_solver.
  - destruct Hc as (Hb & Hc1 & Hc2 & Hc3 & Hc4 & Hc5).
    destruct (_boolean_value k) eqn:Hbv; [|by destruct (Hc5 eq_refl eq_refl) as (-> & -> & -> & _)].
    apply or_true in Hb.
    assert (truthy (Some cl) = true ∨ truthy b = true) as Hz by (destruct Hb as [Hb|Hb]; [rewrite (Hc3 Hb)|]; auto).
    split; [|by rewrite !or_one]. exists cl, cr. cbn [op_meaning]. rewrite (or_one (Some cl)), Hbv, Hs by done.
    split_and!; try done; [by apply truthy_one|]. intros [Hx|Hx]%Hc4; [auto|]. right. by rewrite (Hc3 Hx).
Qed.

(** And of the right child. *)
Lemma unseen_right op a b b' k :
  (∀ t, op ≠ bool_operation t) → fresh_cache op a b k → unseen k k.(_right_hard) b' →
  fresh_cache op a b' k ∧ op_meaning op a b' = op_meaning op a b.
Proof.
  intros Hop Hf Hb'. pose proof Hf as (cl & cr & Hcl & Hcr & Hl & Hr & Hk & Hc). specialize (Hb' cr Hr Hcr).
  destruct (_state_known k) eqn:Hs.
  2: { subst b'. destruct (op_meaning op a b) eqn:Hm; [done|].
       pose proof (unknown_stays op a b a None Hm) as Hm'. split; [eapply unknown_fresh; eauto|eauto]. }
  subst b'. destruct op; cbn [op_meaning] in *; try (by destruct (Hc eq_refl) as [-> ->]); try by destruct (Hop type).
  - destruct Hc as (Hb & Hc1 & Hc2 & Hc3).
    destruct (_boolean_value k) eqn:Hbv; [by destruct (Hc3 eq_refl) as [-> ->]|].
    apply and_false in Hb; [|done].
    assert (a = Some 0 ∨ Some cr = Some 0) as Hz by naive_solver.
    split; [|by rewrite !and_zero]. exists cl, cr. cbn [op_meaning]. rewrite (and_zero a (Some cr)), Hbv, Hs by done.
    split_and!; try done; naive_solver.
  - destruct Hc as (Hb & Hc1 & Hc2 & Hc3 & Hc4 & Hc5).
    destruct (_boolean_value k) eqn:Hbv; [|by destruct (Hc5 eq_refl eq_refl) as (-> & -> & _ & ->)].
    apply or_true in Hb.
    assert (truthy a = true ∨ truthy (Some cr) = true) as Hz.
    { destruct Hb as [Hb|Hb]; [auto|]. destruct (Hc4 Hb) as [->|?]; auto. }
    split; [|by rewrite !or_one]. exists cl, cr. cbn [op_meaning]. rewrite (or_one a (Some cr)), Hbv, Hs by done.
    split_and!; try done. intros Hx%truthy_one; auto.
Qed.

(** ** The tree *)

Lemma wrap_i16_small z : small z → wrap_i16 z = z.
Proof. intros Hz. small_cases. Qed.

Lemma service_update_good ev n :
  event_ok ev → logical n → good n →
  let '(n', told) := service_update ev n in logical n' ∧ good n' ∧ (told = false → meaning n' = meaning n).
Proof.
  intros Hev Hl Hg. destruct n as [|h s st kn dt| |]; try done.
  destruct ev as [h' s' st' depth|h' s' [depth|]|h' s' st']; cbn [service_update] in *; try done.
  - destruct (_ && _); by split_and!.
  - destruct (_ && _); by split_and!.
  - rewrite wrap_i16_small by done. split_and!; [done..|]. cbn [meaning]. intros [Hst Hkn]%orb_false_iff.
    apply negb_false_iff in Hst, Hkn. apply Z.eqb_eq in Hst. by subst.
Qed.

(** The effect of telling an operator about a child, on either side. *)
Lemma tell_left op l l' r k told :
  logical (NBinary op l r k) → good (NBinary op l r k) → logical l' → good l' →
  (told = false → meaning l' = meaning l) →
  let '(n', told') := if told && child_changed k.(_state_known) k.(_left_hard) l'
    then (NBinary op l' r (_update_state op (Some l') (Some r) k), true) else (NBinary op l' r k, false) in
  logical n' ∧ good n' ∧ (told' = false → meaning n' = op_meaning op (meaning l) (meaning r)).
Proof.
  intros (Hop & Hll & Hlr) (Hgl & Hgr & Hf) Hll' Hgl' Hsame. pose proof (good_answers l' Hll' Hgl') as Ha.
  destruct (told && _) eqn:Hch.
  - cbn [logical good]. split_and!; try done. apply update_fresh; eauto using good_answers, fresh_ok.
  - destruct told; cbn [andb] in Hch.
    + destruct (unseen_left op (meaning l) (meaning l') (meaning r) k) as [Hf' Hm]; [done..| |done].
      intros c Hc Hs. eapply child_unchanged; [done..|]. by rewrite <- Hc.
    + cbn [good meaning]. by rewrite Hsame.
Qed.

Lemma tell_right op l r r' k told :
  logical (NBinary op l r k) → good (NBinary op l r k) → logical r' → good r' →
  (told = false → meaning r' = meaning r) →
  let '(n', told') := if told && child_changed k.(_state_known) k.(_right_hard) r'
    then (NBinary op l r' (_update_state op (Some l) (Some r') k), true) else (NBinary op l r' k, false) in
  logical n' ∧ good n' ∧ (told' = false → meaning n' = op_meaning op (meaning l) (meaning r)).
Proof.
  intros (Hop & Hll & Hlr) (Hgl & Hgr & Hf) Hlr' Hgr' Hsame. pose proof (good_answers r' Hlr' Hgr') as Hb.
  destruct (told && _) eqn:Hch.
  - cbn [logical good]. split_and!; try done. apply update_fresh; eauto using good_answers, fresh_ok.
  - destruct told; cbn [andb] in Hch.
    + destruct (unseen_right op (meaning l) (meaning r) (meaning r') k) as [Hf' Hm]; [done..| |done].
      intros c Hc Hs. eapply child_unchanged; [done..|]. by rewrite <- Hc.
    + cbn [good meaning]. by rewrite Hsame.
Qed.

Lemma update_at_good path ev n :
  event_ok ev → logical n → good n →
  let '(n', told) := update_at path ev n in logical n' ∧ good n' ∧ (told = false → meaning n' = meaning n).
Proof.
  intros Hev. revert n. induction path as [|[| |] path IH]; intros n Hl Hg.
  - by apply service_update_good.
  - destruct n as [| | |op l r k]; try done. pose proof Hl as (_ & Hll & _). pose proof Hg as (Hgl & _).
    specialize (IH l Hll Hgl). cbn [update_at]. destruct (update_at path ev l) as [l' told], IH as (? & ? & ?).
    cbn [meaning]. by apply tell_left.
  - destruct n as [| | |op l r k]; try done. pose proof Hl as (_ & _ & Hlr). pose proof Hg as (_ & Hgr & _).
    specialize (IH r Hlr Hgr). cbn [update_at]. destruct (update_at path ev r) as [r' told], IH as (? & ? & ?).
    cbn [meaning]. by apply tell_right.
  - destruct n as [| |v|]; try done. specialize (IH v Hl Hg). cbn [update_at].
    destruct (update_at path ev v) as [v' told], IH as (? & ? & Hs). split_and!; [done..|]. intros Ht. cbn [meaning].
    by rewrite Hs.
Qed.

(** ** What the services of the tree say *)

(** The tree without its caches. *)
Fixpoint bare (n : node) : node :=
  match n with
  | NNot v => NNot (bare v)
  | NBinary op l r _ => NBinary op (bare l) (bare r) cache_init
  | _ => n
  end.

(** Every listener has had the event. *)
Fixpoint tell_all (ev : svc_event) (n : node) : node :=
  match n with
  | NService h s _ _ _ => if decide ((h, s) = ids_of ev) then (service_update ev n).1 else n
  | NNot v => NNot (tell_all ev v)
  | NBinary op l r k => NBinary op (tell_all ev l) (tell_all ev r) k
  | NConstant _ => n
  end.

Abbreviation deliver ev := (foldl (λ n path, (update_at path ev n).1)).

Lemma bare_service ev n : bare (service_update ev n).1 = (service_update ev (bare n)).1.
Proof. destruct n; try done. cbn [bare]. destruct ev as [| ? ? []|]; cbn [service_update]; try case_match; done. Qed.

Lemma deliver_not ev paths : ∀ v, deliver ev (NNot v) (cons GoDown <$> paths) = NNot (deliver ev v paths).
Proof.
  induction paths as [|p paths IH]; intros v; [done|]. cbn [fmap list_fmap foldl update_at].
  destruct (update_at p ev v) as [v' told] eqn:Hu. cbn [fst]. by rewrite IH.
Qed.

Lemma deliver_left ev op r paths : ∀ l k,
  ∃ k', deliver ev (NBinary op l r k) (cons GoLeft <$> paths) = NBinary op (deliver ev l paths) r k'.
Proof.
  induction paths as [|p paths IH]; intros l k; [by eexists|]. cbn [fmap list_fmap foldl update_at].
  destruct (update_at p ev l) as [l' told] eqn:Hu. cbn [fst]. case_match; cbn [fst]; apply IH.
Qed.

Lemma deliver_right ev op l paths : ∀ r k,
  ∃ k', deliver ev (NBinary op l r k) (cons GoRight <$> paths) = NBinary op l (deliver ev r paths) k'.
Proof.
  induction paths as [|p paths IH]; intros r k; [by eexists|]. cbn [fmap list_fmap foldl update_at].
  destruct (update_at p ev r) as [r' told] eqn:Hu. cbn [fst]. case_match; cbn [fst]; apply IH.
Qed.

(** Delivered to each listener in turn, the event reaches all of them. *)
Lemma bare_book_update ev n : bare (book_update ev n) = tell_all ev (bare n).
Proof.
  unfold book_update. destruct (ids_of ev) as [h s] eqn:Hi. cbn [fst snd].
  induction n as [v|h' s' st kn dt|v IH|op l IHl r IHr k]; cbn [listeners].
  - done.
  - cbn [bare tell_all]. rewrite Hi. destruct (Z.eqb_spec h' h) as [->|Hh]; cbn [andb].
    + destruct (Z.eqb_spec s' s) as [->|Hs].
      * rewrite decide_True by done. cbn [foldl update_at fst]. by rewrite bare_service.
      * rewrite decide_False by naive_solver. done.
    + rewrite decide_False by naive_solver. done.
  - rewrite deliver_not. cbn [bare tell_all]. by rewrite IH.
  - rewrite foldl_app. destruct (deliver_left ev op r (listeners h s l) l k) as [k1 ->].
    destruct (deliver_right ev op (deliver ev l (listeners h s l)) (listeners h s r) r k1) as [k2 ->].
    cbn [bare tell_all]. by rewrite IHl, IHr.
Qed.

(** The tree is the one of [e], and its services have the states [σ]. *)
Fixpoint shows (m : hst_svc_mapping) (σ : Z * Z → option Z) (e : exp) (n : node) : Prop :=
  match e with
  | EConst w => n = NConstant (constant_of w)
  | EService h s =>
      match n with
      | NService h' s' st kn _ => (h', s') = get_service_id m h s ∧ (if kn then Some st else None) = σ (h', s')
      | _ => False
      end
  | ENot e => match n with NNot v => shows m σ e v | _ => False end
  | EBin op l r =>
      match binary_of op with
      | Some b => match n with NBinary b' l' r' _ => b' = b ∧ shows m σ l l' ∧ shows m σ r r' | _ => False end
      | None => shows m σ l n
      end
  end.

Lemma shows_meaning m σ e : ∀ n, shows m σ e n → meaning n = eval m σ e.
Proof.
  induction e as [w|h s|e IH|op l IHl r IHr]; intros n; cbn [shows eval].
  - by intros ->.
  - destruct n; try done. by intros [<- <-].
  - destruct n; try done. intros Hn. cbn [meaning]. by rewrite (IH _ Hn).
  - destruct (binary_of op); [|apply IHl]. destruct n; try done. intros (-> & Hl & Hr). cbn [meaning].
    by rewrite (IHl _ Hl), (IHr _ Hr).
Qed.

Lemma shows_bare m σ e : ∀ n, shows m σ e (bare n) ↔ shows m σ e n.
Proof.
  induction e as [w|h s|e IH|op l IHl r IHr]; intros n; cbn [shows].
  - by destruct n.
  - by destruct n.
  - destruct n; try done. apply IH.
  - destruct (binary_of op); [|apply IHl]. destruct n; try done. cbn [bare]. by rewrite IHl, IHr.
Qed.

Lemma shows_tree m e : shows m (λ _, None) e (tree m e).
Proof.
  induction e as [w|h s|e IH|op l IHl r IHr]; cbn [shows tree]; [done| |done|by destruct (binary_of op)].
  by destruct (get_service_id m h s).
Qed.

Lemma service_hears ev h s st kn dt :
  event_ok ev → (h, s) = ids_of ev →
  ∃ st' kn' dt', (service_update ev (NService h s st kn dt)).1 = NService h s st' kn' dt' ∧
    (if kn' then Some st' else None) = after ev (if kn then Some st else None).
Proof.
  intros Hev Hi. destruct ev as [h' s' st' depth|h' s' [depth|]|h' s' st']; cbn in Hi; simplify_eq; cbn [service_update after].
  - rewrite !Z.eqb_refl. destruct (negb (st =? st') || _ || _) eqn:Hc; [by do 3 eexists|].
    apply orb_false_iff in Hc as [[Hs Hk]%orb_false_iff _]. apply negb_false_iff in Hs, Hk.
    apply Z.eqb_eq in Hs. subst. by do 3 eexists.
  - rewrite !Z.eqb_refl. destruct (negb _); by do 3 eexists.
  - by do 3 eexists.
  - rewrite wrap_i16_small by done. do 3 eexists. split; [done|]. destruct kn; [done|]. cbn. by destruct (st' =? 3).
Qed.

Lemma shows_tell m ev σ e : event_ok ev → ∀ n, shows m σ e n → shows m (hears ev σ) e (tell_all ev n).
Proof.
  intros Hev. induction e as [w|h s|e IH|op l IHl r IHr]; intros n; cbn [shows].
  - by intros ->.
  - destruct n as [|h' s' st kn dt| |]; try done. cbn [tell_all]. intros [Hi Hs]. unfold hears.
    destruct (decide ((h', s') = ids_of ev)) as [He|He].
    + destruct (service_hears ev h' s' st kn dt Hev He) as (st' & kn' & dt' & -> & Hv).
      rewrite decide_True by done. split; [done|]. by rewrite Hv, Hs.
    + by rewrite decide_False.
  - destruct n; try done. apply IH.
  - destruct (binary_of op); [|apply IHl]. destruct n; try done. cbn [tell_all]. naive_solver.
Qed.

Lemma deliver_good ev paths : event_ok ev → ∀ n, logical n → good n → logical (deliver ev n paths) ∧ good (deliver ev n paths).
Proof.
  intros Hev. induction paths as [|p paths IH]; intros n Hl Hg; [done|]. cbn [foldl].
  pose proof (update_at_good p ev n Hev Hl Hg) as Hu. destruct (update_at p ev n) as [n' told], Hu as (? & ? & _).
  by apply IH.
Qed.

Lemma tree_logical m e : logical_exp e → logical (tree m e).
Proof.
  induction e as [w|h s|e IH|op l IHl r IHr]; cbn [logical_exp tree logical]; [done|done|done|].
  intros (Hop & Hl & Hr). destruct (binary_of op) as [b|]; [|done]. cbn [logical new_binary].
  split_and!; [|by apply IHl|by apply IHr]. by intros t ->.
Qed.

Lemma tree_good m e : logical (tree m e) → good (tree m e).
Proof.
  induction e as [w|h s|e IH|op l IHl r IHr]; cbn [tree]; [done..| |]; [done|].
  destruct (binary_of op) as [b|]; [|done]. intros (Hop & Hl & Hr). split_and!; [by apply IHl|by apply IHr|].
  apply update_fresh; auto using good_answers, init_ok.
Qed.

(** The tree after events. *)
Definition run (evs : list svc_event) (n : node) : node := foldl (λ n ev, book_update ev n) n evs.

Lemma run_shows m e evs : Forall event_ok evs → ∀ n σ,
  logical n → good n → shows m σ e n →
  let n' := run evs n in
  logical n' ∧ good n' ∧ shows m (foldl (λ σ ev, hears ev σ) σ evs) e n'.
Proof.
  induction 1 as [|ev evs Hev _ IH]; intros n σ Hl Hg Hs; [done|].
  cbn [run foldl]. destruct (deliver_good ev (listeners (ids_of ev).1 (ids_of ev).2 n) Hev n Hl Hg) as [Hl' Hg'].
  apply IH; [done..|]. apply shows_bare. rewrite bare_book_update. apply shows_tell; [done|]. by apply shows_bare.
Qed.

(** C28: the value kept in the tree of a boolean expression is the value of the
    expression.  From the tree built for an expression without arithmetic, after any
    sequence of service states, downtimes and states read from the cache, the root is
    known exactly when the expression has a value in three-valued logic for the last
    states of the services, and it then has that value, although each operator
    recomputes only when it sees a child change and keeps values of children that it
    has not read since. *)
Theorem incremental_evaluation m e evs :
  logical_exp e → Forall event_ok evs →
  answers (run evs (tree m e)) (eval m (states evs) e).
Proof.
  intros Hl%(tree_logical m) Hev. destruct (run_shows m e evs Hev _ _ Hl (tree_good m e Hl) (shows_tree m e)) as (Hl' & Hg' & Hs).
  unfold states. rewrite <- (shows_meaning _ _ _ _ Hs). by apply good_answers.
Qed.

Definition sample_kpi : exp :=
  EBin "AND" (EBin "IS" (EService "central" "disk /") (EConst "CRITICAL"))
    (EBin "OR" (ENot (EService "poller" "ping")) (EBin ">" (EService "poller" "cpu") (EConst "1"))).
Definition sample_services : hst_svc_mapping :=
  {[ ("central", "disk /") := (1, 2); ("poller", "ping") := (2, 3); ("poller", "cpu") := (2, 4) ]}.
Definition sample_events : list svc_event :=
  [Status 1 2 2 0; Status 2 3 2 0; FromCache 2 4 3; Adaptive 1 2 (Some 1); Status 2 4 2 0; FromCache 2 3 0].

Lemma incremental_evaluation_witness :
  answers (run sample_events (tree sample_services sample_kpi)) (Some 1) ∧
  answers (run (take 3 sample_events) (tree sample_services sample_kpi)) None.
Proof.
  assert (logical_exp sample_kpi) as Hl.
  { cbn [logical_exp sample_kpi]. split_and!; try (vm_compute; exact I); [exists 2|exists 1]; done. }
  split; apply (incremental_evaluation sample_services sample_kpi); try done; repeat constructor; done.
Defined.

(** A downtime that starts on a service is not seen by the operators above it once
    the operator knows the state of the service: [update_from] compares what is known
    and the values, not the downtimes. *)
Theorem downtime_not_propagated op h s st r k depth dt :
  small st → k.(_state_known) = true → k.(_left_hard) = dint st →
  update_at [GoLeft] (Adaptive h s (Some depth)) (NBinary op (NService h s st true dt) r k) =
  (NBinary op (NService h s st true (0 <? depth)) r k, false).
Proof.
  intros Hs Hk Hl. cbn [update_at service_update]. rewrite !Z.eqb_refl. cbn [andb].
  assert (child_changed k.(_state_known) k.(_left_hard) (NService h s st true (0 <? depth)) = false) as Hc.
  { unfold child_changed. cbn [state_known value_hard]. by rewrite Hk, Hl, moved_dint, Z.eqb_refl. }
  destruct (eqb dt (0 <? depth)) eqn:Hd; cbn [negb].
  - apply eqb_prop in Hd. by subst.
  - cbn [andb]. by rewrite Hc.
Qed.
