(* ===== verification/BbdoEvent.v ===== *)
(** * Events on the wire

    [serialize] and [unserialize] of [broker/core/src/bbdo/stream.cc]: an event
    is looked up in the registry of [io::events], written field by field (mapped
    events) or by the protobuf library (the others), and cut into packets of at
    most 65535 bytes, each behind a 16-byte header.

    The protobuf library is an interface, with the law it documents: parsing
    inverts serialization. *)

From Stdlib Require Import SpecFloat.
From S2P Require Import Prelude Wire.

#[local] Open Scope Z_scope.

(** ** Events *)

(** An object: the members of a mapped event, or a protobuf message. *)
Inductive body (M : Type) := Mapped (fields : list fval) | Proto (m : M).
Arguments Mapped {M} _.
Arguments Proto {M} _.

(** [io::data] *)
Record event (M : Type) := Event {
  ev_type : Z;
  source_id : Z;
  destination_id : Z;
  ev_body : body M;
}.
Arguments Event {M} _ _ _ _.
Arguments ev_type {M} _.
Arguments source_id {M} _.
Arguments destination_id {M} _.
Arguments ev_body {M} _.

(** [io::event_info]: with a mapping, the fields of a new object
    ([get_operations().constructor()], which may return a null pointer) and the
    entries; without, the event holds a protobuf message. *)
Inductive event_info :=
  | with_mapping (constructor : option (list fval)) (entries : list entry)
  | without_mapping.

(** [io::events::_elements] *)
Abbreviation registry := (gmap Z event_info).

(** [get_event_info] *)
Definition get_event_info (r : registry) (type : Z) : option event_info := r !! type.

(** What the code calls of the protobuf library: serialization and parsing of a
    message of a given event type, and the accessors of the messages of the BBDO
    protocol itself. *)
Class Protobuf (M : Type) := {
  SerializeToString : Z → M → option (list Z);
  ParseFromArray : Z → list Z → option M;
  acknowledged_events : M → Z;
  set_acknowledged_events : Z → M;
  poller_id : M → Z;
  set_poller_id : Z → M;
  version_major : M → Z;
}.

(** The documentation of protobuf: a message that serializes is parsed back; the
    setters and getters of a field agree. *)
Class ProtobufLaws (M : Type) `{!Protobuf M} := {
  parse_serialize type m bytes :
    SerializeToString type m = Some bytes → ParseFromArray type bytes = Some m;
  serialize_bytes type m bytes : SerializeToString type m = Some bytes → Forall is_byte bytes;
  get_set_acknowledged_events n : 0 ≤ n < 2 ^ 32 →
    acknowledged_events (set_acknowledged_events n) = n;
  (** a message of one [uint32] takes at most six bytes *)
  serialize_ack type n : 0 ≤ n < 2 ^ 32 →
    ∃ bytes, SerializeToString type (set_acknowledged_events n) = Some bytes ∧ (length bytes ≤ 6)%nat;
}.

(** ** Packets *)

(** 0xffff, the largest content of a packet; a packet of that size is followed
    by another packet of the same event. *)
Definition max_content : nat := Z.to_nat 0xffff.
#[global] Opaque max_content.

Lemma max_content_Z : Z.of_nat max_content = 0xffff.
Proof. Transparent max_content. reflexivity. Opaque max_content. Qed.

(** [BBDO_HEADER_SIZE] *)
Definition BBDO_HEADER_SIZE : nat := 16.

(** The type, source and destination in a header. *)
Record ids := Ids { id_event : Z; id_source : Z; id_dest : Z }.
#[export] Instance ids_eq_dec : EqDecision ids.
Proof. solve_decision. Defined.

Definition ids_of {M} (e : event M) : ids := Ids e.(ev_type) e.(source_id) e.(destination_id).

(** The last 14 bytes of a header, and the header with its checksum. *)
Definition header_tail (i : ids) (size : Z) : list Z :=
  be16 size ++ be32 i.(id_event) ++ be32 i.(id_source) ++ be32 i.(id_dest).
Definition header (i : ids) (size : Z) : list Z :=
  be16 (crc16_ccitt (header_tail i size)) ++ header_tail i size.

#[global] Arguments header_tail : simpl never.
#[global] Arguments header : simpl never.

(** The packet-splitting loop: the full packets go out, the rest stays. *)
Fixpoint split_packets (fuel : nat) (i : ids) (out content : list Z) : list Z * list Z :=
  match fuel with
  | O => (out, content)
  | S fuel =>
      if (max_content <=? length content)%nat
      then split_packets fuel i (out ++ header i 0xffff ++ take max_content content)
             (drop max_content content)
      else (out, content)
  end.

(** The loop over the entries of the mapping. *)
Fixpoint serialize_entries (i : ids) (entries : list entry) (fields : list fval)
    (out content : list Z) : res (list Z * list Z) :=
  match entries, fields with
  | [], _ => Ret (out, content)
  | en :: entries', v :: fields' =>
      match (if en.(e_serialize) then get_field en.(e_type) v content else Ret content) with
      | Ret content =>
          let '(out, content) := split_packets (length content) i out content in
          serialize_entries i entries' fields' out content
      | Throw e => Throw e
      end
  | _ :: _, [] => Throw undefined
  end.

(** The [do] loop of the protobuf case. *)
Fixpoint pb_packets (fuel : nat) (i : ids) (r : list Z) : list Z :=
  match fuel with
  | O => []
  | S fuel =>
      if (length r <? max_content)%nat then header i (Z.of_nat (length r)) ++ r
      else
        let rest := drop max_content r in
        header i 0xffff ++ take max_content r ++
          (if (0 <? length rest)%nat then pb_packets fuel i rest else [])
  end.

Section Serialize.
Context {M : Type} `{!Protobuf M}.

(** [stream::serialize]: the bytes, or a null pointer for an unknown event. *)
Definition serialize (r : registry) (e : event M) : res (option (list Z)) :=
  let i := ids_of e in
  match get_event_info r e.(ev_type), e.(ev_body) with
  | None, _ => Ret None
  | Some (with_mapping _ entries), Mapped fields =>
      match serialize_entries i entries fields [] [] with
      | Ret (out, content) =>
          Ret (Some (out ++ header i (Z.of_nat (length content)) ++ content))
      | Throw e => Throw e
      end
  | Some without_mapping, Proto m =>
      match SerializeToString e.(ev_type) m with
      | Some bytes => Ret (Some (pb_packets (S (length bytes)) i bytes))
      | None => Throw msg_fmt
      end
  | Some _, _ => Throw undefined
  end.

(** The loop over the entries in [unserialize]: the fields of the new object are
    set one after the other. *)
Fixpoint unserialize_entries (entries : list entry) (fields : list fval) (buffer : list Z) :
    res (list fval) :=
  match entries, fields with
  | [], _ => Ret fields
  | en :: entries', v :: fields' =>
      if en.(e_serialize) then
        match set_field en.(e_type) buffer with
        | Ret (v', rb) =>
            match unserialize_entries entries' fields' (drop rb buffer) with
            | Ret fields'' => Ret (v' :: fields'')
            | Throw e => Throw e
            end
        | Throw e => Throw e
        end
      else
        match unserialize_entries entries' fields' buffer with
        | Ret fields'' => Ret (v :: fields'')
        | Throw e => Throw e
        end
  | _ :: _, [] => Throw undefined
  end.

Definition unserialize (r : registry) (event_type source_id destination_id : Z) (buffer : list Z) :
    res (option (event M)) :=
  match get_event_info r event_type with
  | None => Ret None
  | Some (with_mapping None _) => Throw msg_fmt
  | Some (with_mapping (Some fields) entries) =>
      match unserialize_entries entries fields buffer with
      | Ret fields => Ret (Some (Event event_type source_id destination_id (Mapped fields)))
      | Throw e => Throw e
      end
  | Some without_mapping =>
      match ParseFromArray event_type buffer with
      | Some m => Ret (Some (Event event_type source_id destination_id (Proto m)))
      | None => Throw msg_fmt
      end
  end.

End Serialize.

(** ** Packets and their reference

    The packets of an event hold the chunks of its content: full ones, then one
    that is not full, which ends the event. *)

Definition packet (i : ids) (c : list Z) : list Z := header i (Z.of_nat (length c)) ++ c.

Definition wire (i : ids) (cs : list (list Z)) : list Z := mjoin (packet i <$> cs).

Definition chunked (cs : list (list Z)) (content : list Z) : Prop :=
  ∃ full last, cs = full ++ [last] ∧ Forall (λ c, length c = max_content) full ∧
    (length last < max_content)%nat ∧ mjoin cs = content.

Lemma mjoin_cons {A} (l : list A) (ls : list (list A)) : mjoin (l :: ls) = l ++ mjoin ls.
Proof. reflexivity. Qed.

Lemma wire_app i cs1 cs2 : wire i (cs1 ++ cs2) = wire i cs1 ++ wire i cs2.
Proof. unfold wire. by rewrite fmap_app, join_app. Qed.

Lemma wire_singleton i c : wire i [c] = packet i c.
Proof. unfold wire. cbn. by rewrite app_nil_r. Qed.

Lemma packet_full i c : length c = max_content → packet i c = header i 0xffff ++ c.
Proof. intros Hc. unfold packet. by rewrite Hc, max_content_Z. Qed.

Lemma max_content_pos : (0 < max_content)%nat.
Proof. pose proof max_content_Z. lia. Qed.

Lemma split_packets_spec i fuel out content :
  (length content ≤ fuel)%nat →
  ∃ full last, split_packets fuel i out content = (out ++ wire i full, last) ∧
    Forall (λ c, length c = max_content) full ∧ (length last < max_content)%nat ∧
    mjoin full ++ last = content.
Proof.
  pose proof max_content_pos as Hp. revert out content.
  induction fuel as [|fuel IH]; intros out content Hf; cbn [split_packets].
  - exists [], content. unfold wire. cbn. rewrite app_nil_r. split_and!; [done|done|lia|done].
  - destruct (Nat.leb_spec max_content (length content)) as [Hle|Hlt]; cycle 1.
    { exists [], content. unfold wire. cbn. by rewrite app_nil_r. }
    destruct (IH (out ++ header i 0xffff ++ take max_content content) (drop max_content content))
      as (full & last & E & Hfull & Hl & Hj); [rewrite length_drop; lia|].
    assert (length (take max_content content) = max_content) as Ht by (rewrite length_take; lia).
    exists (take max_content content :: full), last. split_and!; [|by constructor|done|].
    + rewrite E. f_equal. change (take max_content content :: full) with ([take max_content content] ++ full).
      by rewrite wire_app, wire_singleton, packet_full, !app_assoc.
    + rewrite mjoin_cons, <- app_assoc, Hj. apply take_drop.
Qed.

(** The bytes of a mapped object. *)
Fixpoint content_of (entries : list entry) (fields : list fval) : list Z :=
  match entries, fields with
  | en :: entries', v :: fields' =>
      (if en.(e_serialize) then field_bytes en.(e_type) v else []) ++ content_of entries' fields'
  | _, _ => []
  end.

(** What the wire carries of an object, and what the peer makes of it. *)
Definition fields_ok (entries : list entry) (fields : list fval) : Prop :=
  Forall2 (λ en v, en.(e_serialize) = true → carried en.(e_type) v) entries fields.

Fixpoint received (entries : list entry) (fresh fields : list fval) : list fval :=
  match entries, fresh, fields with
  | en :: entries', f :: fresh', v :: fields' =>
      (if en.(e_serialize) then canon v else f) :: received entries' fresh' fields'
  | _, _, _ => []
  end.

(** Cutting while the fields are written gives the same packets as cutting the
    whole content at the end. *)
Lemma serialize_entries_spec i entries fields full last :
  fields_ok entries fields → Forall (λ c, length c = max_content) full →
  (length last < max_content)%nat →
  ∃ full' last', serialize_entries i entries fields (wire i full) last = Ret (wire i full', last') ∧
    Forall (λ c, length c = max_content) full' ∧ (length last' < max_content)%nat ∧
    mjoin full' ++ last' = mjoin full ++ last ++ content_of entries fields.
Proof.
  intros Hok. revert full last. induction Hok as [|en v entries fields Hv _ IH]; intros full last Hf Hl.
  { exists full, last. cbn. by rewrite app_nil_r. }
  cbn [serialize_entries content_of].
  assert ((if e_serialize en then get_field (e_type en) v last else Ret last) =
    Ret (last ++ if e_serialize en then field_bytes (e_type en) v else [])) as ->.
  { destruct (e_serialize en); [|by rewrite app_nil_r]. by apply (field_roundtrip _ _ _ []), Hv. }
  set (fb := if e_serialize en then _ else _).
  destruct (split_packets_spec i (length (last ++ fb)) (wire i full) (last ++ fb))
    as (f1 & l1 & -> & Hf1 & Hl1 & Hj1); [done|].
  rewrite <- wire_app. destruct (IH (full ++ f1) l1) as (f2 & l2 & -> & Hf2 & Hl2 & Hj2);
    [by apply Forall_app|done|].
  exists f2, l2. split_and!; [done..|]. rewrite Hj2, join_app, <- !app_assoc.
  by rewrite (app_assoc (mjoin f1)), Hj1, <- app_assoc.
Qed.

(** Reading the fields back. *)
Lemma unserialize_entries_spec entries fresh fields rest :
  fields_ok entries fields → length fresh = length entries →
  unserialize_entries entries fresh (content_of entries fields ++ rest) =
    Ret (received entries fresh fields).
Proof.
  intros Hok. revert fresh rest. induction Hok as [|en v entries fields Hv _ IH]; intros fresh rest Hlen.
  { by destruct fresh. }
  destruct fresh as [|f fresh]; [done|]. injection Hlen as Hlen.
  cbn [unserialize_entries content_of received]. destruct (e_serialize en).
  - rewrite <- app_assoc. destruct (field_roundtrip (e_type en) v [] (content_of entries fields ++ rest)
      (Hv eq_refl)) as [_ ->].
    by rewrite drop_app_length, IH.
  - by rewrite IH.
Qed.

(** The loop of the protobuf case: right unless the payload is a positive
    multiple of the largest content. *)
Lemma pb_packets_spec i fuel r :
  (length r < fuel)%nat → r = [] ∨ ¬ (max_content | length r)%nat →
  ∃ cs, chunked cs r ∧ pb_packets fuel i r = wire i cs.
Proof.
  pose proof max_content_pos as Hp. revert r.
  induction fuel as [|fuel IH]; intros r Hf Hr; [lia|]. cbn [pb_packets].
  destruct (Nat.ltb_spec (length r) max_content) as [Hlt|Hge].
  { exists [r]. split; [|by rewrite wire_singleton].
    exists [], r. cbn. rewrite app_nil_r. by split_and!. }
  destruct Hr as [->|Hr]; [cbn in Hge; lia|].
  assert (¬ (max_content | length (drop max_content r))%nat) as Hd.
  { rewrite length_drop. intros [k Hk]. apply Hr. exists (S k). lia. }
  assert (0 < length (drop max_content r))%nat as Hpos.
  { destruct (length (drop max_content r)); [|lia]. destruct Hd. by exists O. }
  rewrite (proj2 (Nat.ltb_lt _ _) Hpos). rewrite length_drop in Hpos.
  destruct (IH (drop max_content r)) as (cs & (full & last & -> & Hfull & Hl & Hj) & ->);
    [rewrite length_drop; lia|by right|].
  assert (length (take max_content r) = max_content) as Ht by (rewrite length_take; lia).
  exists (take max_content r :: full ++ [last]). split.
  - exists (take max_content r :: full), last. split_and!; [done|by constructor|done|].
    rewrite mjoin_cons, Hj. apply take_drop.
  - change (take max_content r :: full ++ [last]) with ([take max_content r] ++ full ++ [last]).
    by rewrite (wire_app i [_]), wire_singleton, (packet_full _ _ Ht), <- app_assoc.
Qed.

Lemma pb_packets_fuel i f f' p :
  (length p < f)%nat → (length p < f')%nat → pb_packets f i p = pb_packets f' i p.
Proof.
  revert f' p. induction f as [|f IH]; intros [|f'] p Hf Hf'; try lia. cbn [pb_packets].
  destruct (Nat.ltb_spec (length p) max_content); [done|]. pose proof max_content_pos. f_equal. f_equal.
  rewrite (IH f') by (rewrite length_drop; lia). done.
Qed.

(** Nothing marks the end of a payload that fills its packets. *)
Lemma pb_packets_glued i k p1 p2 :
  length p1 = (S k * max_content)%nat → p2 ≠ [] →
  pb_packets (S (length (p1 ++ p2))) i (p1 ++ p2) =
    pb_packets (S (length p1)) i p1 ++ pb_packets (S (length p2)) i p2.
Proof.
  pose proof max_content_pos as Hp. revert p1.
  set (end2 := pb_packets (S (length p2)) i p2).
  induction k as [|k IH]; intros p1 Hl Hp2; cbn [pb_packets];
    rewrite (proj2 (Nat.ltb_ge (length p1) _)), (proj2 (Nat.ltb_ge (length (p1 ++ p2)) _))
      by (rewrite ?length_app; lia);
    rewrite take_app_le, drop_app_le, length_app by lia; rewrite <- !app_assoc; f_equal; f_equal.
  - assert (drop max_content p1 = []) as -> by (apply drop_ge; lia). cbn [app length].
    assert (0 < length p2)%nat by (destruct p2; [done|cbn; lia]).
    rewrite (proj2 (Nat.ltb_lt _ _)) by done. apply pb_packets_fuel; rewrite ?length_app; lia.
  - assert (length (drop max_content p1) = S k * max_content)%nat as Hd by (rewrite length_drop; lia).
    rewrite !(proj2 (Nat.ltb_lt 0 _)) by (rewrite ?length_app; lia).
    rewrite (pb_packets_fuel i _ (S (length (drop max_content p1 ++ p2)))),
      (pb_packets_fuel i (length p1) (S (length (drop max_content p1)))) by (rewrite ?length_app; lia).
    by apply IH.
Qed.

(** ** From an event to its bytes and back *)

(** A registry whose constructors make objects of the type their entries give. *)
Definition registry_ok (r : registry) : Prop :=
  map_Forall (λ _ info, match info with
                        | with_mapping (Some fresh) entries => well_typed entries fresh
                        | _ => True
                        end) r.

Definition u32_ok (z : Z) : Prop := 0 ≤ z < 2 ^ 32.
Definition ids_ok (i : ids) : Prop := u32_ok i.(id_event) ∧ u32_ok i.(id_source) ∧ u32_ok i.(id_dest).

#[export] Instance ids_ok_dec i : Decision (ids_ok i).
Proof. unfold ids_ok, u32_ok. apply _. Defined.

Section Roundtrip.
Context {M : Type} `{!Protobuf M} `{!ProtobufLaws M}.
Variable (r : registry).

(** The events the protocol carries: registered, with fields in range and
    strings without NUL; the payload of a protobuf event is not a positive
    multiple of 65535 bytes (see [pb_payload_multiple_lost] for those). *)
Definition sendable (e : event M) : Prop :=
  ids_ok (ids_of e) ∧
  match get_event_info r e.(ev_type), e.(ev_body) with
  | Some (with_mapping (Some fresh) entries), Mapped fields =>
      fields_ok entries fields ∧ length fresh = length entries
  | Some without_mapping, Proto m =>
      match SerializeToString e.(ev_type) m with
      | Some bytes => bytes = [] ∨ ¬ (max_content | length bytes)%nat
      | None => False
      end
  | _, _ => False
  end.

(** The event the peer builds. *)
Definition received_event (e : event M) : event M :=
  match get_event_info r e.(ev_type), e.(ev_body) with
  | Some (with_mapping (Some fresh) entries), Mapped fields =>
      Event e.(ev_type) e.(source_id) e.(destination_id) (Mapped (received entries fresh fields))
  | _, _ => e
  end.

Lemma event_on_wire e :
  sendable e →
  ∃ cs content, serialize r e = Ret (Some (wire (ids_of e) cs)) ∧ chunked cs content ∧
    unserialize r e.(ev_type) e.(source_id) e.(destination_id) content = Ret (Some (received_event e)).
Proof.
  intros [_ Hs]. unfold serialize, unserialize, received_event.
  destruct (get_event_info r (ev_type e)) as [[[fresh|] entries|]|], (ev_body e) as [fields|m] eqn:Eb;
    try done.
  - destruct Hs as [Hok Hlen]. set (i := ids_of e).
    destruct (serialize_entries_spec i entries fields [] [] Hok (Forall_nil_2 _) max_content_pos)
      as (full & last & E & Hf & Hl & Hj).
    change (wire i []) with (@nil Z) in E. rewrite E. change (mjoin [] ++ [] ++ ?l) with l in Hj.
    exists (full ++ [last]), (content_of entries fields). split_and!.
    + by rewrite wire_app, wire_singleton.
    + exists full, last. split_and!; [done..|]. rewrite join_app, <- Hj. cbn. by rewrite app_nil_r.
    + pose proof (unserialize_entries_spec entries fresh fields [] Hok Hlen) as Hu.
      rewrite app_nil_r in Hu. by rewrite Hu.
  - destruct (SerializeToString (ev_type e) m) as [bytes|] eqn:Es; [|done].
    destruct (pb_packets_spec (ids_of e) (S (length bytes)) bytes) as (cs & Hcs & ->); [lia|done|].
    exists cs, bytes. split_and!; [done..|].
    rewrite (parse_serialize _ _ _ Es). destruct e; cbn in *. by subst.
Qed.

Lemma unserialize_entries_typed entries fresh buffer :
  well_typed entries fresh → Forall is_byte buffer →
  match unserialize_entries entries fresh buffer with
  | Ret fields => well_typed entries fields
  | Throw e => e = msg_fmt
  end.
Proof.
  intros Hw. revert buffer. induction Hw as [|en v entries fresh Hv Hw IH]; intros buffer Hb.
  { constructor. }
  cbn [unserialize_entries]. destruct (e_serialize en).
  - destruct (set_field (e_type en) buffer) as [[v' rb]|ex] eqn:Es.
    + apply set_field_typed in Es as [Ht _]; [|done]. specialize (IH (drop rb buffer) (Forall_drop _ _ _ Hb)).
      destruct unserialize_entries; [|done]. by constructor.
    + destruct (e_type en); cbn [set_field] in Es;
        unfold set_boolean, set_double, set_integer, set_short, set_string, set_timestamp, set_uint, set_ulong in Es;
        by repeat case_match; simplify_eq.
  - specialize (IH buffer Hb). destruct unserialize_entries; [|done]. by constructor.
Qed.

Lemma unserialize_throws event_type src dst buffer :
  registry_ok r → Forall is_byte buffer →
  match unserialize (M:=M) r event_type src dst buffer with
  | Ret _ => True
  | Throw ex => ex = msg_fmt
  end.
Proof.
  intros Hr Hb. unfold unserialize. destruct (get_event_info r event_type) as [[[fresh|] entries|]|] eqn:Ei;
    [|done|by destruct ParseFromArray|done].
  pose proof (unserialize_entries_typed entries fresh buffer (Hr _ _ Ei) Hb) as Ht.
  by destruct unserialize_entries.
Qed.

(** C39: whatever bytes the peer sends, [unserialize] builds an object whose
    members have the type the mapping gives them (integers within their width),
    ignores an event that is not registered, or throws; it never runs into a
    member of the wrong type. *)
Theorem unserialize_typed event_type src dst buffer :
  registry_ok r → Forall is_byte buffer →
  match unserialize (M:=M) r event_type src dst buffer with
  | Ret None => get_event_info r event_type = None
  | Ret (Some e) =>
      ids_of e = Ids event_type src dst ∧
      match get_event_info r event_type, e.(ev_body) with
      | Some (with_mapping _ entries), Mapped fields => well_typed entries fields
      | Some without_mapping, Proto _ => True
      | _, _ => False
      end
  | Throw ex => ex = msg_fmt
  end.
Proof.
  intros Hr Hb. unfold unserialize. destruct (get_event_info r event_type) as [[[fresh|] entries|]|] eqn:Ei;
    [| done | by destruct ParseFromArray |done].
  pose proof (Hr event_type _ Ei) as Hw. cbn in Hw.
  pose proof (unserialize_entries_typed entries fresh buffer Hw Hb) as Ht.
  by destruct unserialize_entries.
Qed.

(** The protobuf case forgets the packet that ends an event when its payload
    is a positive multiple of 65535 bytes: such an event followed by another one
    of the same type, source and destination gives the very bytes of a single
    event whose payload is the two payloads glued together, so that no reader can
    tell them apart (the first event is lost, the second one corrupted). *)
Theorem pb_payload_multiple_lost e1 e2 e3 m1 m2 m3 p1 p2 k :
  get_event_info r e1.(ev_type) = Some without_mapping →
  ids_of e2 = ids_of e1 → ids_of e3 = ids_of e1 →
  e1.(ev_body) = Proto m1 → e2.(ev_body) = Proto m2 → e3.(ev_body) = Proto m3 →
  SerializeToString e1.(ev_type) m1 = Some p1 → SerializeToString e1.(ev_type) m2 = Some p2 →
  SerializeToString e1.(ev_type) m3 = Some (p1 ++ p2) →
  length p1 = (S k * max_content)%nat → p2 ≠ [] →
  ∃ w1 w2, serialize r e1 = Ret (Some w1) ∧ serialize r e2 = Ret (Some w2) ∧
           serialize r e3 = Ret (Some (w1 ++ w2)).
Proof.
  intros Hi E2 E3 B1 B2 B3 S1 S2 S3 Hl Hp2.
  assert (ev_type e2 = ev_type e1 ∧ ev_type e3 = ev_type e1) as [T2 T3] by (unfold ids_of in *; by simplify_eq).
  exists (pb_packets (S (length p1)) (ids_of e1) p1), (pb_packets (S (length p2)) (ids_of e1) p2).
  unfold serialize. rewrite T2, T3, Hi, B1, B2, B3, S1, S2, S3, E2, E3. split_and!; [done|done|].
  f_equal. f_equal. by apply (pb_packets_glued _ k).
Qed.

End Roundtrip.

(** ** Witnesses *)

(** A protobuf library whose messages are their bytes. *)
Definition demo_protobuf : Protobuf (list Z) := {|
  SerializeToString := λ _ m, if decide (Forall is_byte m) then Some m else None;
  ParseFromArray := λ _ b, Some b;
  acknowledged_events := ntohl;
  set_acknowledged_events := be32;
  poller_id := ntohl;
  set_poller_id := be32;
  version_major := λ _, 3;
|}.

#[program] Definition demo_protobuf_laws : @ProtobufLaws (list Z) demo_protobuf :=
  @Build_ProtobufLaws (list Z) demo_protobuf _ _ _ _.
Next Obligation. intros type m bytes. cbn. case_decide; [|done]. by intros [= ->]. Qed.
Next Obligation. intros type m bytes. cbn. case_decide; [|done]. by intros [= <-]. Qed.
Next Obligation. intros n Hn. cbn. rewrite <- (app_nil_r (be32 n)). by apply ntohl_be32. Qed.
Next Obligation.
  intros type n Hn. exists (be32 n). cbn. rewrite decide_True by apply be32_bytes. split; [done|].
  rewrite length_be32. lia.
Qed.

(** A mapped event (a number and a text) and a protobuf one. *)
Definition demo_registry : registry :=
  <[65549 := with_mapping (Some [VUint 0; VString []]) [Entry UINT true; Entry STRING true]]>
  (<[65563 := without_mapping]> ∅).

Lemma demo_registry_ok : registry_ok demo_registry.
Proof.
  apply map_Forall_insert_2; [|apply map_Forall_insert_2; [done|apply map_Forall_empty]].
  repeat constructor; cbn; lia.
Qed.

Lemma unserialize_typed_witness :
  match @unserialize (list Z) demo_protobuf demo_registry 65549 1 2 [0; 0; 1; 0; 104; 105; 0] with
  | Ret (Some e) => e.(ev_body) = Mapped [VUint 256; VString [104; 105]]
  | _ => False
  end.
Proof.
  pose proof (@unserialize_typed (list Z) demo_protobuf demo_registry 65549 1 2 [0; 0; 1; 0; 104; 105; 0]
    demo_registry_ok) as H.
  assert (Forall is_byte [0; 0; 1; 0; 104; 105; 0]) as Hb by (apply (bool_decide_unpack _); vm_compute; exact I).
  specialize (H Hb). destruct (unserialize demo_registry 65549 1 2 [0; 0; 1; 0; 104; 105; 0]) as [[e|]|] eqn:E.
  - vm_compute in E. injection E as <-. reflexivity.
  - exact (ltac:(discriminate H)).
  - vm_compute in E. discriminate E.
Defined.

Lemma pb_payload_multiple_lost_witness :
  let p1 := replicate max_content 0 in
  ∃ w1 w2, @serialize (list Z) demo_protobuf demo_registry (Event 65563 1 0 (Proto p1)) = Ret (Some w1) ∧
    @serialize (list Z) demo_protobuf demo_registry (Event 65563 1 0 (Proto [7])) = Ret (Some w2) ∧
    @serialize (list Z) demo_protobuf demo_registry (Event 65563 1 0 (Proto (p1 ++ [7]))) = Ret (Some (w1 ++ w2)).
Proof.
  intros p1. assert (Forall is_byte p1) as H1 by (apply Forall_replicate; unfold is_byte; lia).
  assert (Forall is_byte [7]) as H2 by (constructor; [unfold is_byte; lia|constructor]).
  assert (∀ m, Forall is_byte m → @SerializeToString _ demo_protobuf 65563 m = Some m) as Hs
    by (intros m Hm; cbn; by rewrite decide_True).
  apply (@pb_payload_multiple_lost (list Z) demo_protobuf demo_registry
    (Event 65563 1 0 (Proto p1)) (Event 65563 1 0 (Proto [7])) (Event 65563 1 0 (Proto (p1 ++ [7])))
    p1 [7] (p1 ++ [7]) p1 [7] 0).
  1-6: reflexivity.
  - by apply Hs.
  - by apply Hs.
  - by apply Hs, Forall_app.
  - unfold p1. rewrite length_replicate. lia.
  - discriminate.
Defined.
