(* ===== verification/Bbdo.v ===== *)
(** * The BBDO stream

    [broker/core/src/bbdo/stream.cc]: [bbdo::stream] turns events into packets on
    its sub-stream and back, resynchronises on the checksum of the headers when
    the bytes are corrupted, puts the parts of long events together, and counts
    the events to acknowledge in both directions.

    The state of the object is grouped by role: what the reader keeps between
    two calls, the acknowledgement counters, the settings. *)

From S2P Require Import Prelude Wire BbdoEvent Stream.

#[local] Open Scope Z_scope.

(** ** State *)

(** [stream::buffer]: the parts of a long event received so far. *)
Record buffer := Buffer { b_ids : ids; _buf : list (list Z) }.

Definition b_matches (i : ids) (b : buffer) : bool := bool_decide (b.(b_ids) = i).
Definition b_push_back (v : list Z) (b : buffer) : buffer := Buffer b.(b_ids) (b.(_buf) ++ [v]).
Definition to_vector (b : buffer) : list Z := mjoin b.(_buf).

(** [bbdo_version]: [total_version] overlays the three numbers. *)
Record bbdo_version := Version { major_v : Z; minor_v : Z; patch : Z }.
Definition total_version (v : bbdo_version) : Z :=
  v.(patch) + Z.shiftl v.(minor_v) 16 + Z.shiftl v.(major_v) 32.

(** What does not change after the negotiation. [broker_id] is
    [io::data::broker_id], [this_poller_id] the [poller_id()] of the process, and
    [known_events] the registry of [io::events]. *)
Record settings := Settings {
  _is_input : bool;
  _coarse : bool;
  _ack_limit : Z;
  _grpc_serialized : bool;
  _bbdo_version : bbdo_version;
  known_events : registry;
  broker_id : Z;
  this_poller_id : Z;
}.

Section Stream.
Context {M D : Type} `{!Protobuf M} `{!Substream (event M) D}.

(** What the reader keeps. *)
Record reader := Reader {
  _packet : list Z;
  _buffer : list buffer;
  _skipped : Z;
  _grpc_serialized_queue : list (event M);
}.

Record counters := Counters {
  _acknowledged_events : Z;
  _events_received_since_last_ack : Z;
  _last_sent_ack : Z;
}.

(** [published]: the poller ids of the [local::pb_stop] events given to the
    multiplexing publisher. *)
Record stream := Stream {
  conf : settings;
  rd : reader;
  acks : counters;
  published : list Z;
  _substream : D;
}.

Definition set_rd (r : reader) (s : stream) : stream :=
  Stream s.(conf) r s.(acks) s.(published) s.(_substream).
Definition set_acks (a : counters) (s : stream) : stream :=
  Stream s.(conf) s.(rd) a s.(published) s.(_substream).
Definition set_published (p : list Z) (s : stream) : stream :=
  Stream s.(conf) s.(rd) s.(acks) p s.(_substream).
Definition set_substream (d : D) (s : stream) : stream :=
  Stream s.(conf) s.(rd) s.(acks) s.(published) d.

Definition set_packet (p : list Z) (r : reader) : reader :=
  Reader p r.(_buffer) r.(_skipped) r.(_grpc_serialized_queue).
Definition set_buffer (b : list buffer) (r : reader) : reader :=
  Reader r.(_packet) b r.(_skipped) r.(_grpc_serialized_queue).
Definition set_skipped (n : Z) (r : reader) : reader :=
  Reader r.(_packet) r.(_buffer) n r.(_grpc_serialized_queue).
Definition set_queue (q : list (event M)) (r : reader) : reader :=
  Reader r.(_packet) r.(_buffer) r.(_skipped) q.

Definition set_acknowledged (n : Z) (a : counters) : counters :=
  Counters n a.(_events_received_since_last_ack) a.(_last_sent_ack).
Definition set_received (n : Z) (a : counters) : counters :=
  Counters a.(_acknowledged_events) n a.(_last_sent_ack).
Definition set_last_sent (t : Z) (a : counters) : counters :=
  Counters a.(_acknowledged_events) a.(_events_received_since_last_ack) t.

(** The constructor; [now] is [time(nullptr)]. *)
Definition make_stream (c : settings) (now : Z) (d : D) : stream :=
  Stream c (Reader [] [] 0 []) (Counters 0 0 now) [] d.

(** A call on the sub-stream. *)
Definition on_substream {A} (m : St D A) : St stream A := λ s,
  match m s.(_substream) with
  | (Ret a, d) => (Ret a, set_substream d s)
  | (Throw e, d) => (Throw e, set_substream d s)
  end.

(** ** Reading *)

(** [_read_packet(size, deadline)]: the deadline is the sub-stream's business. *)
Fixpoint _read_packet (fuel : nat) (size : nat) : St stream unit := λ s,
  if (length s.(rd).(_packet) <? size)%nat then
    match fuel with
    | O => (Throw fuel_exhausted, s)
    | S fuel =>
        match on_substream sub_read s with
        | (Ret (_, Some (other_data d)), s) =>
            (Ret tt, set_rd (set_queue (s.(rd).(_grpc_serialized_queue) ++ [d]) s.(rd)) s)
        | (Ret (ok, d), s) =>
            let new_v := match d with Some (raw v) => v | _ => [] end in
            let s := set_rd (set_packet (s.(rd).(_packet) ++ new_v) s.(rd)) s in
            if ok then _read_packet fuel size s else (Throw timeout, s)
        | (Throw e, s) => (Throw e, s)
        end
    end
  else (Ret tt, s).

(** The header at the head of [_packet]. *)
Definition chksum_of (pack : list Z) : Z := ntohs pack.
Definition size_of (pack : list Z) : Z := ntohs (drop 2 pack).
Definition header_ids (pack : list Z) : ids :=
  Ids (ntohl (drop 4 pack)) (ntohl (drop 8 pack)) (ntohl (drop 12 pack)).
Definition expected_chksum (pack : list Z) : Z := crc16_ccitt (take 14 (drop 2 pack)).

(** The first buffer that matches, with the buffers before and after it. *)
Fixpoint find_buffer (i : ids) (bs : list buffer) : option (list buffer * buffer * list buffer) :=
  match bs with
  | [] => None
  | b :: bs =>
      if b_matches i b then Some ([], b, bs)
      else match find_buffer i bs with
           | Some (pre, b', post) => Some (b :: pre, b', post)
           | None => None
           end
  end.

(** [while (_buffer.size() > n) _buffer.pop_front()] *)
Definition purge (n : nat) (bs : list buffer) : list buffer := drop (length bs - n) bs.

(** The last part of an event: the whole content, and the buffers left. *)
Definition last_part (i : ids) (content : list Z) (bs : list buffer) : list Z * list buffer :=
  let '(content, bs) :=
    match find_buffer i bs with
    | Some (pre, b, post) => (to_vector (b_push_back content b), pre ++ post)
    | None => (content, bs)
    end in
  (content, if (0 <? length bs)%nat then purge 3 bs else bs).

(** Another part of a long event. *)
Definition more_part (i : ids) (content : list Z) (bs : list buffer) : list buffer :=
  let bs :=
    match find_buffer i bs with
    | Some (pre, b, post) => pre ++ b_push_back content b :: post
    | None => bs ++ [Buffer i [content]]
    end in
  if (1 <? length bs)%nat then purge 4 bs else bs.

(** The [for (;;)] of [_read_any].  When an object comes from the gRPC layer in
    the middle of a packet, the second [_read_packet] returns before the packet
    is complete, and the iterators run past the end of [_packet]. *)
Fixpoint read_any_loop (fuel : nat) : St stream (option (event M)) := λ s,
  match fuel with
  | O => (Throw fuel_exhausted, s)
  | S fuel' =>
      match _read_packet fuel BBDO_HEADER_SIZE s with
      | (Throw e, s) => (Throw e, s)
      | (Ret _, s) =>
          match s.(rd).(_grpc_serialized_queue) with
          | d :: q => (Ret (Some d), set_rd (set_queue q s.(rd)) s)
          | [] =>
              let pack := s.(rd).(_packet) in
              let packet_size := size_of pack in
              let i := header_ids pack in
              if negb (expected_chksum pack =? chksum_of pack) then
                (* corrupted: one byte is skipped *)
                read_any_loop fuel'
                  (set_rd (set_packet (drop 1 pack) (set_skipped (s.(rd).(_skipped) + 1) s.(rd))) s)
              else
                let s := set_rd (set_skipped 0 s.(rd)) s in
                let whole := (BBDO_HEADER_SIZE + Z.to_nat packet_size)%nat in
                match _read_packet fuel whole s with
                | (Throw e, s) => (Throw e, s)
                | (Ret _, s) =>
                    let pack := s.(rd).(_packet) in
                    if (length pack <? whole)%nat then (Throw undefined, s)
                    else
                      let content := drop BBDO_HEADER_SIZE (take whole pack) in
                      let s := set_rd (set_packet (drop whole pack) s.(rd)) s in
                      if negb (packet_size =? 0xffff) then
                        let '(content, bs) := last_part i content s.(rd).(_buffer) in
                        let s := set_rd (set_buffer bs s.(rd)) s in
                        match unserialize s.(conf).(known_events) i.(id_event) i.(id_source) i.(id_dest)
                                content with
                        | Ret d => (Ret d, s)
                        | Throw e => (Throw e, s)
                        end
                      else
                        read_any_loop fuel'
                          (set_rd (set_buffer (more_part i content s.(rd).(_buffer)) s.(rd)) s)
                end
          end
      end
  end.

(** [_read_any(d, deadline)]: the boolean and the event. *)
Definition _read_any (fuel : nat) : St stream (bool * option (event M)) := λ s,
  match read_any_loop fuel s with
  | (Ret d, s) => (Ret (true, d), s)
  | (Throw timeout, s) => (Ret (false, None), s)
  | (Throw e, s) => (Throw e, s)
  end.

(** ** Writing *)

Definition _write (d : event M) : St stream unit := λ s,
  if negb s.(conf).(_grpc_serialized) || (if d.(ev_body) is Mapped _ then true else false) then
    match serialize s.(conf).(known_events) d with
    | Ret (Some bytes) => on_substream (sub_write (raw bytes)) s
    | Ret None => (Ret tt, s)
    | Throw e => (Throw e, s)
    end
  else on_substream (sub_write (other_data d)) s.

(** [int32_t retval = _acknowledged_events; _acknowledged_events -= retval;] *)
Definition take_acknowledged : St stream Z := λ s,
  let n := s.(acks).(_acknowledged_events) in
  (Ret (wrap_i32 n), set_acks (set_acknowledged 0 s.(acks)) s).

Definition write (d : event M) : St stream Z := _write d ≫= λ _, take_acknowledged.

Definition flush : St stream Z := on_substream sub_flush ≫= λ _, take_acknowledged.

Definition acknowledge_events (events : Z) (s : stream) : stream :=
  set_acks (set_acknowledged (wrap_u32 (s.(acks).(_acknowledged_events) + events)) s.(acks)) s.

(** [make_type(io::bbdo, n)] *)
Definition bbdo_type (n : Z) : Z := Z.lor (Z.shiftl 2 16) n.
Definition ty_version_response : Z := bbdo_type 1.
Definition ty_ack : Z := bbdo_type 2.
Definition ty_stop : Z := bbdo_type 3.
Definition ty_welcome : Z := bbdo_type 7.
Definition ty_pb_ack : Z := bbdo_type 8.
Definition ty_pb_stop : Z := bbdo_type 9.

(** [bbdo::load]: the events of the protocol itself. *)
Definition bbdo_load (r : registry) : registry :=
  <[ty_version_response :=
      with_mapping (Some [VShort 2; VShort 0; VShort 0; VString []])
        [Entry SHORT true; Entry SHORT true; Entry SHORT true; Entry STRING true]]>
  (<[ty_welcome := without_mapping]>
  (<[ty_ack := with_mapping (Some [VUint 0]) [Entry UINT true]]>
  (<[ty_stop := with_mapping (Some []) []]>
  (<[ty_pb_ack := without_mapping]>
  (<[ty_pb_stop := without_mapping]>
  (<[Z.lor (Z.shiftl 9 16) 1 := without_mapping]> r)))))).

(** The acknowledgement of [n] events: the old event up to version 3.0.0 of the
    protocol, the protobuf one after. *)
Definition ack_event (c : settings) (n : Z) : event M :=
  if 0x0300000001 <=? total_version c.(_bbdo_version)
  then Event ty_pb_ack c.(broker_id) 0 (Proto (set_acknowledged_events n))
  else Event ty_ack c.(broker_id) 0 (Mapped [VUint n]).

Definition send_event_acknowledgement : St stream unit := λ s,
  if s.(conf).(_coarse) then (Ret tt, s)
  else
    (_write (ack_event s.(conf) s.(acks).(_events_received_since_last_ack)) ≫= λ _,
     st_modify (λ s, set_acks (set_received 0 s.(acks)) s)) s.

(** The number an acknowledgement event carries. *)
Definition acked_by (d : event M) : option Z :=
  if decide (d.(ev_type) = ty_ack) then
    match d.(ev_body) with Mapped [VUint n] => Some n | _ => None end
  else if decide (d.(ev_type) = ty_pb_ack) then
    match d.(ev_body) with Proto m => Some (acknowledged_events m) | _ => None end
  else None.

(** The switch of [read] on a control message.  A [stop] that is not a protobuf
    is cast to [pb_stop], which it is not. *)
Definition control (d : event M) : St stream unit := λ s,
  let ty := d.(ev_type) in
  if decide (ty = ty_version_response) then
    match d.(ev_body) with
    | Mapped (VShort maj :: _) =>
        if maj =? s.(conf).(_bbdo_version).(major_v) then (Ret tt, s) else (Throw msg_fmt, s)
    | _ => (Throw undefined, s)
    end
  else if decide (ty = ty_welcome) then
    match d.(ev_body) with
    | Proto m =>
        if version_major m =? s.(conf).(_bbdo_version).(major_v) then (Ret tt, s) else (Throw msg_fmt, s)
    | _ => (Throw undefined, s)
    end
  else if decide (ty = ty_ack ∨ ty = ty_pb_ack) then
    match acked_by d with
    | Some n => (Ret tt, acknowledge_events n s)
    | None => (Throw undefined, s)
    end
  else if decide (ty = ty_stop) then (Throw undefined, s)
  else if decide (ty = ty_pb_stop) then
    match d.(ev_body) with
    | Proto m =>
        (send_event_acknowledgement ≫= λ _,
         st_modify (λ s, set_published (s.(published) ++ [poller_id m]) s)) s
    | _ => (Throw undefined, s)
    end
  else (Ret tt, s).

(** [(event_id >> 16) == io::bbdo] *)
Definition is_control (d : option (event M)) : bool :=
  match d with
  | Some d => Z.shiftr d.(ev_type) 16 =? 2
  | None => false
  end.

(** Control messages are handled until an event or a timeout comes. *)
Fixpoint skip_control (fuel n : nat) : St stream (bool * option (event M)) := λ s,
  match n with
  | O => (Throw fuel_exhausted, s)
  | S n =>
      match _read_any fuel s with
      | (Ret (true, Some d), s) =>
          if is_control (Some d)
          then (control d ≫= λ _, skip_control fuel n) s
          else (Ret (true, Some d), s)
      | r => r
      end
  end.

(** The end of [read]: one more event, and maybe an acknowledgement. *)
Definition count_and_ack (now : Z) (got : bool) : St stream unit := λ s,
  let a := s.(acks) in
  let received :=
    if got then wrap_u32 (a.(_events_received_since_last_ack) + 1)
    else a.(_events_received_since_last_ack) in
  let s := set_acks (set_received received a) s in
  if (s.(conf).(_ack_limit) <=? received) ||
     (negb (received =? 0) && (a.(_last_sent_ack) + 5 <? now))
  then send_event_acknowledgement (set_acks (set_last_sent now s.(acks)) s)
  else (Ret tt, s).

(** [read(d, deadline)] at time [now]. *)
Definition read (fuel : nat) (now : Z) : St stream (bool * option (event M)) :=
  skip_control fuel fuel ≫= λ r,
  count_and_ack now r.1 ≫= λ _,
  mret r.

(** ** Stopping *)

Definition _send_event_stop_and_wait_for_ack (fuel : nat) : St stream unit := λ s,
  if s.(conf).(_coarse) then (Ret tt, s)
  else
    (_write (Event ty_pb_stop s.(conf).(broker_id) 0 (Proto (set_poller_id s.(conf).(this_poller_id)))) ≫= λ _,
     _read_any fuel ≫= λ r,
     match r.2 with
     | None => mret tt
     | Some d =>
         if decide (d.(ev_type) = ty_ack ∨ d.(ev_type) = ty_pb_ack) then
           match acked_by d with
           | Some n => st_modify (acknowledge_events n)
           | None => st_throw undefined
           end
         else mret tt
     end) s.

(** A call whose exceptions are logged. *)
Definition ignoring_errors (m : St stream unit) : St stream unit :=
  st_try m (λ e, match e with
                 | undefined | fuel_exhausted => None
                 | _ => Some (mret tt)
                 end).

Definition stop (fuel : nat) : St stream Z := λ s,
  ((if s.(conf).(_is_input) then mret tt
    else ignoring_errors (_send_event_stop_and_wait_for_ack fuel)) ≫= λ _,
   (λ s, if s.(acks).(_events_received_since_last_ack) =? 0 then (Ret tt, s)
         else send_event_acknowledgement s) ≫= λ _,
   on_substream sub_stop ≫= λ _,
   take_acknowledged) s.

End Stream.

Arguments reader : clear implicits.
Arguments stream : clear implicits.
