(* ===== verification/BbdoFacts.v ===== *)
(** * Correctness of the BBDO stream

    A reader that gets the packets of a sequence of events delivers these events
    in order, however the connection cuts the bytes and whenever it times out;
    after corrupted bytes it finds the next header; every event counted is
    acknowledged once. *)

From S2P Require Import Prelude Wire BbdoEvent Stream Bbdo.

#[local] Open Scope Z_scope.

(** ** Headers *)

Lemma length_header i size : length (header i size) = BBDO_HEADER_SIZE.
Proof. reflexivity. Qed.

Lemma length_packet i c : length (packet i c) = (BBDO_HEADER_SIZE + length c)%nat.
Proof. unfold packet. by rewrite length_app. Qed.

Lemma packet_content i c : drop BBDO_HEADER_SIZE (packet i c) = c.
Proof. unfold packet. by rewrite drop_app_length'. Qed.

(** A header is recognised by the reader, whatever follows. *)
Lemma header_decodes i size rest :
  ids_ok i → 0 ≤ size < 2 ^ 16 →
  let pack := header i size ++ rest in
  expected_chksum pack = chksum_of pack ∧ size_of pack = size ∧ header_ids pack = i.
Proof.
  intros (He & Hs & Hd) Hz. set (c := crc16_ccitt (header_tail i size)).
  assert (header i size ++ rest = be16 c ++ header_tail i size ++ rest) as ->.
  { unfold header. by rewrite <- app_assoc. }
  cbv zeta. unfold chksum_of, size_of, header_ids, expected_chksum.
  rewrite ntohs_be16 by apply crc16_range.
  rewrite (drop_app_length' (be16 c)) by done. split_and!.
  - by rewrite take_app_length'.
  - unfold header_tail. rewrite <- app_assoc. by apply ntohs_be16.
  - destruct i as [a b d]. unfold header_tail. cbn [id_event id_source id_dest] in *.
    assert (∀ n, drop (2 + n) (be16 c ++ (be16 size ++ be32 a ++ be32 b ++ be32 d) ++ rest) =
      drop n ((be16 size ++ be32 a ++ be32 b ++ be32 d) ++ rest)) as Hdrop by done.
    f_equal.
    + change 4%nat with (2 + 2)%nat. rewrite Hdrop, <- !app_assoc.
      rewrite (drop_app_length' (be16 size)) by done. by apply ntohl_be32.
    + change 8%nat with (2 + 6)%nat. rewrite Hdrop, <- !app_assoc.
      rewrite (app_assoc (be16 size)), (drop_app_length' (be16 size ++ be32 a)) by done.
      by apply ntohl_be32.
    + change 12%nat with (2 + 10)%nat. rewrite Hdrop, <- !app_assoc.
      rewrite (app_assoc (be16 size)), (app_assoc (be16 size ++ be32 a)),
        (drop_app_length' ((be16 size ++ be32 a) ++ be32 b)) by done.
      by apply ntohl_be32.
Qed.

(** Sixteen bytes that pass the test are a header. *)
Lemma header_encodes pack :
  Forall is_byte pack → (BBDO_HEADER_SIZE ≤ length pack)%nat → expected_chksum pack = chksum_of pack →
  ids_ok (header_ids pack) ∧ 0 ≤ size_of pack < 2 ^ 16 ∧
  pack = header (header_ids pack) (size_of pack) ++ drop BBDO_HEADER_SIZE pack.
Proof.
  intros Hb Hl Hc. split; [|split].
  - unfold header_ids, ids_ok, u32_ok. cbn [id_event id_source id_dest].
    split_and!; apply ntohl_range; by apply Forall_drop.
  - apply ntohs_range. by apply Forall_drop.
  - unfold BBDO_HEADER_SIZE in *. do 16 (destruct pack as [|? pack]; [cbn in Hl; lia|]). clear Hl.
    do 16 (apply Forall_cons in Hb as [? Hb]).
    revert Hc. unfold expected_chksum, chksum_of, header_ids, size_of. cbn [drop take]. rewrite take_0, !drop_0. intros Hc.
    unfold header. assert (∀ a b c d l, is_byte a → is_byte b → is_byte c → is_byte d →
      be32 (ntohl (a :: b :: c :: d :: l)) = [a; b; c; d]) as Hbe32 by (intros; by apply be32_ntohl).
    assert (∀ a b l, is_byte a → is_byte b → be16 (ntohs (a :: b :: l)) = [a; b]) as Hbe16
      by (intros; by apply be16_ntohs).
    unfold header_tail. cbn [id_event id_source id_dest]. rewrite Hbe16, !Hbe32 by done. cbn [app].
    rewrite Hc, Hbe16 by done. reflexivity.
Qed.

(** Only the first 16 bytes matter. *)
Lemma header_of_prefix pack rest :
  (BBDO_HEADER_SIZE ≤ length pack)%nat →
  expected_chksum (pack ++ rest) = expected_chksum pack ∧ chksum_of (pack ++ rest) = chksum_of pack ∧
  size_of (pack ++ rest) = size_of pack ∧ header_ids (pack ++ rest) = header_ids pack.
Proof.
  unfold BBDO_HEADER_SIZE. intros Hl.
  assert (∀ l, (2 ≤ length l)%nat → ntohs (l ++ rest) = ntohs l) as H2.
  { intros [|? [|? l]] ?; cbn in *; (lia || done). }
  assert (∀ l, (4 ≤ length l)%nat → ntohl (l ++ rest) = ntohl l) as H4.
  { intros [|? [|? [|? [|? l]]]] ?; cbn in *; (lia || done). }
  unfold expected_chksum, chksum_of, size_of, header_ids.
  rewrite !drop_app_le by lia. rewrite take_app_le by (rewrite length_drop; lia).
  rewrite !H2, !H4 by (rewrite ?length_drop; lia). done.
Qed.

#[local] Opaque crc16_ccitt ntohs ntohl expected_chksum chksum_of size_of header_ids.

(** ** Reading packets from a connection *)

Section Reader.
Context {M D : Type} `{!Protobuf M} `{!Substream (event M) D} `{!DuplexLaws (event M) D}.
Implicit Types s : stream M D.

(** Every byte received and not yet consumed. *)
Definition stream_bytes s : list Z := s.(rd).(_packet) ++ incoming s.(_substream).

Definition bbdo_inv s : Prop := dx_inv s.(_substream) ∧ s.(rd).(_grpc_serialized_queue) = [].

(** Nothing but the bytes that moved from the connection to [_packet]. *)
Definition same_but_packet s s' : Prop :=
  s'.(conf) = s.(conf) ∧ s'.(acks) = s.(acks) ∧ s'.(published) = s.(published) ∧
  s'.(rd).(_buffer) = s.(rd).(_buffer) ∧ s'.(rd).(_skipped) = s.(rd).(_skipped) ∧
  sent s'.(_substream) = sent s.(_substream) ∧ (live s.(_substream) → live s'.(_substream)) ∧
  stream_bytes s' = stream_bytes s.

Lemma same_refl s : same_but_packet s s.
Proof. by split_and!. Qed.

Lemma same_trans s1 s2 s3 : same_but_packet s1 s2 → same_but_packet s2 s3 → same_but_packet s1 s3.
Proof. unfold same_but_packet. intros (?&?&?&?&?&?&?&?) (?&?&?&?&?&?&?&?). split_and!; auto; congruence. Qed.

Lemma read_packet_spec fuel size s :
  bbdo_inv s → (size ≤ length s.(rd).(_packet) + fuel)%nat →
  match _read_packet fuel size s with
  | (Ret _, s') => bbdo_inv s' ∧ same_but_packet s s' ∧ (size ≤ length s'.(rd).(_packet))%nat ∧
                   ∃ b, s'.(rd).(_packet) = s.(rd).(_packet) ++ b
  | (Throw timeout, s') => bbdo_inv s' ∧ same_but_packet s s' ∧
                           (live s.(_substream) → length (stream_bytes s) < size)%nat
  | (Throw shutdown, s') => bbdo_inv s' ∧ same_but_packet s s' ∧ (length (stream_bytes s) < size)%nat
  | _ => False
  end.
Proof.
  revert s. induction fuel as [|fuel IH]; intros s Hinv Hf; cbn [_read_packet];
    destruct (Nat.ltb_spec (length (_packet (rd s))) size) as [Hlt|Hge]; try lia;
    try (split; [done|split; [apply same_refl|split; [lia|exists []; by rewrite app_nil_r]]]).
  destruct Hinv as [Hd Hq]. unfold on_substream.
  pose proof (dx_read_spec (_substream s) Hd) as Hr.
  destruct (sub_read (_substream s)) as [[[ok od]|e] d'].
  - destruct ok, od as [[b|e]|]; try done.
    + destruct Hr as (Hd' & Hb & Hin & Hsent & Hlive).
      set (s1 := set_rd _ _).
      assert (same_but_packet s s1) as Hs1.
      { split_and!; try done. unfold stream_bytes, s1. cbn. by rewrite <- app_assoc, Hin. }
      assert (0 < length b)%nat by (destruct b; [done|cbn; lia]).
      assert (bbdo_inv s1) as Hi1 by done. assert (stream_bytes s1 = stream_bytes s) as Eb by apply Hs1.
      specialize (IH s1 Hi1 ltac:(unfold s1; cbn; rewrite length_app; lia)).
      destruct (_read_packet fuel size s1) as [[?|e] s2].
      * destruct IH as (Hi2 & Hs2 & Hl2 & c & Hc).
        split; [done|]. split; [by eapply same_trans|]. split; [done|].
        exists (b ++ c). rewrite Hc. unfold s1. cbn. by rewrite <- app_assoc.
      * destruct e; try done; rewrite <- ?Eb.
        -- destruct IH as (? & ? & ?). split; [done|]. split; [by eapply same_trans|done].
        -- destruct IH as (? & ? & Hl). split; [done|]. split; [by eapply same_trans|]. intros ?. by apply Hl, Hlive.
    + destruct Hr as (Hd' & Hin & Hsent & Hlive). rewrite app_nil_r.
      split; [done|]. split; [split_and!; try done|].
      * intros Hl. by apply Hlive.
      * unfold stream_bytes. cbn. by rewrite Hin.
      * intros Hl. unfold stream_bytes. rewrite (proj1 (Hlive Hl)), app_nil_r. lia.
  - destruct e; try done. destruct Hr as (Hd' & Hin & Hin' & Hsent & Hlive).
    assert (stream_bytes s = _packet (rd s)) as Eb by (unfold stream_bytes; rewrite Hin; apply app_nil_r).
    split; [done|]. split; [|by rewrite Eb]. split_and!; try done.
    rewrite Eb. unfold stream_bytes. cbn. by rewrite Hin', app_nil_r.
Qed.

(** The acknowledgements, the settings and what was sent do not change. *)
Definition quiet s s' : Prop :=
  s'.(conf) = s.(conf) ∧ s'.(acks) = s.(acks) ∧ s'.(published) = s.(published) ∧
  sent s'.(_substream) = sent s.(_substream) ∧ (live s.(_substream) → live s'.(_substream)).

Lemma quiet_refl s : quiet s s.
Proof. by split_and!. Qed.

Lemma quiet_trans s1 s2 s3 : quiet s1 s2 → quiet s2 s3 → quiet s1 s3.
Proof. unfold quiet. intros (?&?&?&?&?) (?&?&?&?&?). split_and!; auto; congruence. Qed.

Lemma same_quiet s s' : same_but_packet s s' → quiet s s'.
Proof. intros (?&?&?&?&?&?&?&?). by split_and!. Qed.

(** A timeout loses nothing. *)
Definition interrupted s s' : Prop :=
  bbdo_inv s' ∧ quiet s s' ∧ s'.(rd).(_buffer) = s.(rd).(_buffer) ∧ stream_bytes s' = stream_bytes s.

Lemma same_interrupted s s' : bbdo_inv s' → same_but_packet s s' → interrupted s s'.
Proof. intros ? (?&?&?&?&?&?&?&?). by split_and!. Qed.

(** The reader has consumed [n] bytes. *)
Definition consumed (n : nat) s s' : Prop :=
  bbdo_inv s' ∧ quiet s s' ∧ s'.(rd).(_buffer) = s.(rd).(_buffer) ∧
  stream_bytes s' = drop n (stream_bytes s).

(** One byte that starts no header is skipped. *)
Lemma skip_step fuel s :
  bbdo_inv s → (BBDO_HEADER_SIZE ≤ S fuel)%nat → (BBDO_HEADER_SIZE ≤ length (stream_bytes s))%nat →
  expected_chksum (stream_bytes s) ≠ chksum_of (stream_bytes s) →
  (∃ s', read_any_loop (S fuel) s = (Throw timeout, s') ∧ interrupted s s' ∧ ¬ live s.(_substream)) ∨
  (∃ s', read_any_loop (S fuel) s = read_any_loop fuel s' ∧ consumed 1 s s').
Proof.
  intros Hinv Hf Hl Hbad. cbn [read_any_loop].
  pose proof (read_packet_spec (S fuel) BBDO_HEADER_SIZE s Hinv ltac:(lia)) as Hp.
  destruct (_read_packet (S fuel) BBDO_HEADER_SIZE s) as [[?|e] s1].
  - destruct Hp as (Hi1 & Hs1 & Hl1 & _). rewrite (proj2 Hi1).
    destruct (header_of_prefix (_packet (rd s1)) (incoming (_substream s1)) Hl1) as (E1 & E2 & _ & _).
    assert (stream_bytes s1 = stream_bytes s) as Eb by apply Hs1.
    fold (stream_bytes s1) in E1, E2. rewrite Eb in E1, E2. rewrite <- E1, <- E2.
    rewrite (proj2 (Z.eqb_neq _ _) Hbad). cbn [negb]. right.
    eexists. split; [reflexivity|]. split_and!; try (exact Hi1 || exact (same_quiet _ _ Hs1) || apply Hs1).
    rewrite <- Eb. unfold stream_bytes. cbn. rewrite drop_app_le; [done|unfold BBDO_HEADER_SIZE in *; lia].
  - destruct e; try done.
    + destruct Hp as (_ & _ & ?). lia.
    + left. exists s1. split; [done|]. destruct Hp as (? & ? & Hlv).
      split; [by apply same_interrupted|]. intros Hl'. specialize (Hlv Hl'). lia.
Qed.

(** One packet is taken off; what follows depends on its size. *)
Lemma packet_step fuel s i c rest :
  bbdo_inv s → ids_ok i → (length c ≤ max_content)%nat →
  stream_bytes s = packet i c ++ rest → (length (packet i c) ≤ S fuel)%nat →
  (∃ s', read_any_loop (S fuel) s = (Throw timeout, s') ∧ interrupted s s' ∧ ¬ live s.(_substream)) ∨
  (∃ s', consumed (length (packet i c)) s s' ∧
     read_any_loop (S fuel) s =
       if decide (length c = max_content)
       then read_any_loop fuel (set_rd (set_buffer (more_part i c s.(rd).(_buffer)) s'.(rd)) s')
       else let '(content, bs) := last_part i c s.(rd).(_buffer) in
            (unserialize s.(conf).(known_events) i.(id_event) i.(id_source) i.(id_dest) content,
             set_rd (set_buffer bs s'.(rd)) s')).
Proof.
  intros Hinv Hi Hc Hb Hf. rewrite length_packet in Hf. pose proof max_content_Z as HmZ.
  destruct (header_decodes i (Z.of_nat (length c)) (c ++ rest) Hi ltac:(lia)) as (Hcrc & Hsz & Hids).
  rewrite app_assoc in Hcrc, Hsz, Hids. fold (packet i c) in Hcrc, Hsz, Hids.
  rewrite <- Hb in Hcrc, Hsz, Hids. cbn [read_any_loop].
  pose proof (read_packet_spec (S fuel) BBDO_HEADER_SIZE s Hinv ltac:(lia)) as Hp.
  assert (length (stream_bytes s) = BBDO_HEADER_SIZE + length c + length rest)%nat as HL
    by (rewrite Hb, length_app, length_packet; lia).
  destruct (_read_packet (S fuel) BBDO_HEADER_SIZE s) as [[?|e] s1]; cycle 1.
  { destruct e; try (exfalso; exact Hp); [destruct Hp as (_ & _ & ?); lia|].
    left. exists s1. split; [done|]. destruct Hp as (? & ? & Hlv).
    split; [by apply same_interrupted|]. intros Hl'. specialize (Hlv Hl'). lia. }
  destruct Hp as (Hi1 & Hs1 & Hl1 & _). rewrite (proj2 Hi1).
  destruct (header_of_prefix (_packet (rd s1)) (incoming (_substream s1)) Hl1) as (E1 & E2 & E3 & E4).
  assert (stream_bytes s1 = stream_bytes s) as Eb by apply Hs1.
  fold (stream_bytes s1) in E1, E2, E3, E4. rewrite Eb in E1, E2, E3, E4.
  rewrite <- E1, <- E2, <- E3, <- E4, Hcrc, Hsz, Hids, Z.eqb_refl, Nat2Z.id. cbn [negb].
  set (s1' := set_rd (set_skipped 0 (rd s1)) s1).
  pose proof (read_packet_spec (S fuel) (BBDO_HEADER_SIZE + length c) s1' Hi1 ltac:(lia)) as Hp.
  assert (interrupted s s1') as Hint1.
  { split; [exact Hi1|]. split; [exact (same_quiet _ _ Hs1)|]. split; [apply Hs1|exact Eb]. }
  destruct (_read_packet (S fuel) (BBDO_HEADER_SIZE + length c) s1') as [[?|e] s2]; cycle 1.
  { assert (stream_bytes s1' = stream_bytes s) as Eb' by apply Hint1.
    destruct e; try (exfalso; exact Hp); [destruct Hp as (_ & _ & ?); rewrite Eb' in *; lia|].
    left. exists s2. split; [done|]. destruct Hp as (Hi2 & Hs2 & Hlv).
    split; [|intros Hl'; assert (live (_substream s1')) as Hl1' by (by apply Hs1);
             specialize (Hlv Hl1'); rewrite Eb' in Hlv; lia].
    destruct Hint1 as (? & ? & ? & ?). destruct (same_interrupted _ _ Hi2 Hs2) as (? & ? & ? & ?).
    split; [done|]. split; [by eapply quiet_trans|]. split; congruence. }
  destruct Hp as (Hi2 & Hs2 & Hl2 & _). rewrite (proj2 (Nat.ltb_ge _ _) Hl2).
  destruct Hint1 as (_ & Hq1 & Hbuf1 & Hb1).
  assert (stream_bytes s2 = packet i c ++ rest) as Eb2 by (rewrite <- Hb, <- Hb1; apply Hs2).
  assert (_buffer (rd s2) = _buffer (rd s)) as Hbuf2 by (rewrite <- Hbuf1; apply Hs2).
  assert (take (BBDO_HEADER_SIZE + length c) (_packet (rd s2)) = packet i c) as Ht.
  { rewrite <- (length_packet i c). apply (f_equal (take (length (packet i c)))) in Eb2.
    rewrite take_app_length in Eb2. unfold stream_bytes in Eb2.
    rewrite take_app_le in Eb2 by (rewrite length_packet; lia). done. }
  rewrite Ht, packet_content.
  right. set (s3 := set_rd (set_packet (drop (BBDO_HEADER_SIZE + length c) (_packet (rd s2))) (rd s2)) s2).
  assert (consumed (length (packet i c)) s s3) as Hcons.
  { split_and!; [exact Hi2|eapply quiet_trans; [exact Hq1|exact (same_quiet _ _ Hs2)]|done|].
    unfold stream_bytes at 1, s3. cbn. rewrite Hb, <- Eb2. unfold stream_bytes.
    rewrite drop_app_le by (rewrite length_packet; lia). by rewrite length_packet. }
  exists s3. split; [done|].
  assert (conf s3 = conf s) as Ec by apply Hcons. assert (_buffer (rd s3) = _buffer (rd s)) as Ebuf by done.
  destruct (decide (length c = max_content)) as [Hmax|Hmax].
  - rewrite (proj2 (Z.eqb_eq _ _)) by lia. cbn [negb]. by rewrite Ebuf.
  - rewrite (proj2 (Z.eqb_neq _ _)) by lia. cbn [negb]. rewrite Ebuf.
    destruct (last_part i c (_buffer (rd s))) as [content bs]. cbn [conf set_rd]. rewrite Ec.
    by destruct unserialize.
Qed.

(** ** Streams of events *)

Context `{!ProtobufLaws M}.

(** Bytes that start no header. *)
Definition noise (g rest : list Z) : Prop :=
  ∀ k, (k < length g)%nat → expected_chksum (drop k g ++ rest) ≠ chksum_of (drop k g ++ rest).

(** The bytes that carry a sequence of events: their packets one after the
    other, with noise in front of some. *)
Inductive carries (r : registry) : list (event M) → list Z → Prop :=
  | carries_nil : carries r [] []
  | carries_cons e evs g w b :
      sendable r e → serialize r e = Ret (Some w) → noise g (w ++ b) → carries r evs b →
      carries r (e :: evs) (g ++ w ++ b).

(** The buffer that holds the parts already received of an event. *)
Definition parts (i : ids) (cs : list (list Z)) : list buffer :=
  match cs with [] => [] | _ => [Buffer i cs] end.

(** The reader has still to deliver [evs]: it may be in the middle of the first
    one, the parts [received] of which are in its buffer. *)
Definition owes s (evs : list (event M)) : Prop :=
  bbdo_inv s ∧
  match evs with
  | [] => s.(rd).(_buffer) = [] ∧ stream_bytes s = []
  | e :: evs' =>
      ∃ g received todo content b,
        sendable s.(conf).(known_events) e ∧ chunked (received ++ todo) content ∧ todo ≠ [] ∧
        unserialize s.(conf).(known_events) e.(ev_type) e.(source_id) e.(destination_id) content
          = Ret (Some (received_event s.(conf).(known_events) e)) ∧
        s.(rd).(_buffer) = parts (ids_of e) received ∧
        noise g (wire (ids_of e) todo ++ b) ∧
        stream_bytes s = g ++ wire (ids_of e) todo ++ b ∧
        carries s.(conf).(known_events) evs' b
  end.

Lemma owes_start s evs :
  bbdo_inv s → s.(rd).(_buffer) = [] → carries s.(conf).(known_events) evs (stream_bytes s) → owes s evs.
Proof.
  intros Hinv Hbuf Hc. split; [done|]. inversion Hc as [Hb|e evs' g w b Hs Hw Hn Hc' Eb].
  { by split. }
  destruct (event_on_wire _ e Hs) as (cs & content & Hw' & Hcs & Hu).
  assert (w = wire (ids_of e) cs) as -> by congruence.
  exists g, [], cs, content, b. split_and!; try done.
  destruct Hcs as (full & last & -> & _). by destruct full.
Qed.

Lemma noise_cons x g rest : noise (x :: g) rest → noise g rest.
Proof. intros Hn k Hk. apply (Hn (S k)). cbn. lia. Qed.

(** Puts one more part in the buffer, or takes the event out of it. *)
Lemma more_part_spec i c cs : more_part i c (parts i cs) = parts i (cs ++ [c]).
Proof.
  unfold more_part. destruct cs as [|c0 cs]; [done|]. cbn [parts find_buffer].
  unfold b_matches. rewrite bool_decide_eq_true_2 by done. done.
Qed.

Lemma last_part_spec i c cs : last_part i c (parts i cs) = (mjoin (cs ++ [c]), []).
Proof.
  unfold last_part. destruct cs as [|c0 cs]; [cbn; by rewrite app_nil_r|]. cbn [parts find_buffer].
  unfold b_matches. rewrite bool_decide_eq_true_2 by done. done.
Qed.

(** Chunks are full but for the last one. *)
Lemma chunked_first cs c todo content :
  chunked (cs ++ c :: todo) content →
  match todo with
  | [] => (length c < max_content)%nat ∧ mjoin (cs ++ [c]) = content
  | _ => length c = max_content
  end.
Proof.
  intros (full & last & E & Hf & Hl & Hj). destruct todo as [|c' todo].
  - apply app_inj_tail in E as [-> ->]. by rewrite Hj.
  - destruct (exists_last (l:=c' :: todo)) as (todo' & x & Ex); [done|]. rewrite Ex in E.
    rewrite app_comm_cons, app_assoc in E. apply app_inj_tail in E as [E ->].
    rewrite <- E in Hf. apply Forall_app in Hf as [_ Hf]. by inversion Hf.
Qed.

(** Bytes were consumed, quietly. *)
Definition advanced s s' : Prop :=
  quiet s s' ∧ (length (stream_bytes s') ≤ length (stream_bytes s))%nat.

Lemma advanced_trans s1 s2 s3 : advanced s1 s2 → advanced s2 s3 → advanced s1 s3.
Proof. intros [? ?] [? ?]. split; [by eapply quiet_trans|lia]. Qed.

Lemma interrupted_advanced s s' : interrupted s s' → advanced s s'.
Proof. intros (_ & ? & _ & E). split; [done|by rewrite E]. Qed.

Lemma consumed_advanced n s s' : consumed n s s' → advanced s s'.
Proof. intros (_ & ? & _ & E). split; [done|]. rewrite E, length_drop. lia. Qed.

(** What a call of [_read_any] does to a reader that owes [evs]. *)
Definition read_outcome s (evs : list (event M)) (o : res (option (event M)) * stream M D) : Prop :=
  match o with
  | (Ret (Some d), s') => advanced s s' ∧ ∃ e evs', evs = e :: evs' ∧
      d = received_event s.(conf).(known_events) e ∧ owes s' evs'
  | (Throw timeout, s') => advanced s s' ∧ owes s' evs ∧ (evs ≠ [] → ¬ live s.(_substream))
  | (Throw shutdown, s') => advanced s s' ∧ evs = [] ∧ owes s' []
  | _ => False
  end.

Lemma read_outcome_trans s s1 evs o : advanced s s1 → read_outcome s1 evs o → read_outcome s evs o.
Proof.
  intros Hq. destruct o as [[[d|]|e] s']; try done; cbn.
  - intros (? & Ho). split; [by eapply advanced_trans|]. by destruct Hq as [[<- _] _].
  - destruct e; try done.
    + intros (? & ?). split; [by eapply advanced_trans|done].
    + intros (? & ? & Hl). split; [by eapply advanced_trans|]. split; [done|].
      intros Hne Hlv. apply (Hl Hne). by apply Hq.
Qed.

Lemma owes_interrupted s s' evs : owes s evs → interrupted s s' → owes s' evs.
Proof.
  intros [Hi Ho] (Hi' & (Ec & _) & Eb & Es). split; [done|]. by rewrite Ec, Eb, Es.
Qed.

(** What is owed depends on the reader and on the bytes still to come. *)
Lemma owes_same_reader s s' evs :
  s'.(conf) = s.(conf) → s'.(rd) = s.(rd) → dx_inv s'.(_substream) →
  incoming s'.(_substream) = incoming s.(_substream) → owes s evs → owes s' evs.
Proof.
  intros Ec Er Hd Hin [[_ Hq] Hm]. split; [split; [done|by rewrite Er]|].
  assert (stream_bytes s' = stream_bytes s) as Eb by (unfold stream_bytes; by rewrite Er, Hin).
  by rewrite Ec, Er, Eb.
Qed.

Lemma read_any_loop_spec fuel s evs :
  owes s evs → (length (stream_bytes s) + BBDO_HEADER_SIZE ≤ fuel)%nat →
  read_outcome s evs (read_any_loop fuel s).
Proof.
  revert s. induction fuel as [|fuel IH]; intros s Ho Hf; [unfold BBDO_HEADER_SIZE in Hf; lia|].
  pose proof Ho as [Hinv Hm]. destruct evs as [|e evs].
  { destruct Hm as [Hbuf Hb]. cbn [read_any_loop].
    pose proof (read_packet_spec (S fuel) BBDO_HEADER_SIZE s Hinv ltac:(lia)) as Hp.
    destruct (_read_packet (S fuel) BBDO_HEADER_SIZE s) as [[?|ex] s1].
    - exfalso. destruct Hp as (_ & Hs1 & Hl & _). assert (stream_bytes s1 = []) as E by (rewrite <- Hb; apply Hs1).
      apply (f_equal length) in E. unfold stream_bytes in E. rewrite length_app in E.
      unfold BBDO_HEADER_SIZE in Hl. cbn in E. lia.
    - destruct ex; try (exfalso; exact Hp); cbn;
        assert (bbdo_inv s1 ∧ same_but_packet s s1) as [Hi1 Hs1] by (split; apply Hp);
        pose proof (owes_interrupted _ _ _ Ho (same_interrupted _ _ Hi1 Hs1)) as Ho1;
        pose proof (interrupted_advanced _ _ (same_interrupted _ _ Hi1 Hs1)) as Hq; (exact (conj Hq (conj eq_refl Ho1)) || (split; [exact Hq|split; [exact Ho1|done]])). }
  destruct Hm as (g & cs & todo & content & b & Hse & Hch & Hne & Hu & Hbuf & Hn & Hb & Hc).
  destruct todo as [|c todo]; [done|]. destruct g as [|x g]; cycle 1.
  { assert (BBDO_HEADER_SIZE ≤ length (stream_bytes s))%nat as Hl.
    { rewrite Hb. unfold wire. cbn [fmap list_fmap]. rewrite mjoin_cons, !length_app, length_packet. lia. }
    destruct (skip_step fuel s Hinv ltac:(unfold BBDO_HEADER_SIZE in *; lia) Hl) as [(s' & -> & Hint & Hlv)|(s' & -> & Hcons)].
    - rewrite Hb. apply (Hn O). cbn. lia.
    - split; [by apply interrupted_advanced|split; [by eapply owes_interrupted|done]].
    - eapply read_outcome_trans; [by eapply consumed_advanced|].
      destruct Hcons as (Hi' & Hq & Eb & Es). rewrite Hb in Es. cbn [app drop] in Es. rewrite drop_0 in Es.
      rewrite Hb in Hf. apply IH; [|rewrite Es; cbn [app length] in Hf; lia]. split; [done|]. destruct Hq as (-> & _).
      exists g, cs, (c :: todo), content, b. rewrite Eb. split_and!; try done. by eapply noise_cons. }
  assert (wire (ids_of e) (c :: todo) = packet (ids_of e) c ++ wire (ids_of e) todo) as Ew by done.
  cbn [app] in Hb. rewrite Ew, <- app_assoc in Hb.
  pose proof (chunked_first _ _ _ _ Hch) as Hfirst. pose proof Hse as [Hids _].
  assert (length c ≤ max_content)%nat as Hle by (destruct todo; [destruct Hfirst|]; lia).
  assert (length (packet (ids_of e) c) ≤ length (stream_bytes s))%nat as Hpl by (rewrite Hb, length_app; lia).
  destruct (packet_step fuel s (ids_of e) c (wire (ids_of e) todo ++ b) Hinv Hids Hle Hb ltac:(lia))
    as [(s' & -> & Hint & Hlv)|(s' & Hcons & ->)].
  { split; [by apply interrupted_advanced|split; [by eapply owes_interrupted|done]]. }
  pose proof (consumed_advanced _ _ _ Hcons) as Hadv. destruct Hcons as (Hi' & Hq & Eb & Es).
  rewrite Hb, drop_app_length in Es. rewrite Hbuf, more_part_spec, last_part_spec.
  pose proof (length_packet (ids_of e) c) as HlP. unfold BBDO_HEADER_SIZE in HlP, Hf.
  destruct todo as [|c' todo].
  - destruct Hfirst as [Hlt Hj]. rewrite decide_False by lia. rewrite Hj.
    cbn [id_event id_source id_dest ids_of]. rewrite Hu. split; [exact Hadv|].
    exists e, evs. split_and!; [done..|]. apply owes_start; [done..|]. cbn [conf set_rd].
    destruct Hq as (-> & _). change (stream_bytes (set_rd _ s')) with (stream_bytes s'). by rewrite Es.
  - rewrite decide_True by done. set (s2 := set_rd _ s').
    apply (read_outcome_trans s s2); [exact Hadv|]. apply IH.
    + split; [exact Hi'|]. change (conf s2) with (conf s'). destruct Hq as (-> & _).
      exists [], (cs ++ [c]), (c' :: todo), content, b. rewrite <- app_assoc. split_and!; try done.
      intros k Hk. cbn in Hk. lia.
    + change (stream_bytes s2) with (stream_bytes s'). rewrite Es. rewrite Hb in Hf.
      unfold BBDO_HEADER_SIZE. rewrite length_app, HlP in Hf. lia.
Qed.

(** ** Counting and acknowledging *)

(** The settings of a connection between two brokers: acknowledgements are sent,
    in a protocol whose events are registered. *)
Definition settings_ok (c : settings) : Prop :=
  c.(_coarse) = false ∧ c.(_grpc_serialized) = false ∧ 0 < c.(_ack_limit) ≤ u32_max ∧
  u32_ok c.(broker_id) ∧
  (∃ r, c.(known_events) = bbdo_load r).

Lemma write_raw s e w :
  bbdo_inv s → s.(conf).(_grpc_serialized) = false → serialize s.(conf).(known_events) e = Ret (Some w) →
  ∃ d', _write e s = (Ret tt, set_substream d' s) ∧ dx_inv d' ∧
    incoming d' = incoming s.(_substream) ∧ sent d' = sent s.(_substream) ++ [w] ∧
    (live s.(_substream) → live d').
Proof.
  intros [Hd _] Hg Hs. unfold _write, on_substream. rewrite Hg, Hs. cbn [negb orb].
  destruct (dx_write_spec (_substream s) w Hd) as (d' & -> & ? & ? & ? & ?). by exists d'.
Qed.

(** Looks an event of the protocol up. *)
Ltac lookup_load :=
  unfold bbdo_load; repeat rewrite lookup_insert_ne by (vm_compute; discriminate);
  apply lookup_insert_eq.

Lemma load_pb_ack r : bbdo_load r !! ty_pb_ack = Some without_mapping.
Proof. lookup_load. Qed.

Lemma load_ack r : bbdo_load r !! ty_ack = Some (with_mapping (Some [VUint 0]) [Entry UINT true]).
Proof. lookup_load. Qed.

Lemma protocol_ids k b : 0 ≤ k < 2 ^ 16 → u32_ok b → ids_ok (Ids (bbdo_type k) b 0).
Proof.
  intros Hk Hb. split_and!; [|done|unfold u32_ok; cbn; lia]. cbn [id_event]. unfold u32_ok, bbdo_type.
  apply lor_range; [lia|by vm_compute|lia].
Qed.

(** The acknowledgement events can be sent, and say the number again. *)
Lemma ack_event_ok c n :
  settings_ok c → u32_ok n →
  sendable c.(known_events) (ack_event c n) ∧
  is_control (Some (ack_event (M:=M) c n)) = true ∧
  acked_by (received_event c.(known_events) (ack_event (M:=M) c n)) = Some n.
Proof.
  intros (_ & _ & _ & Hb & r & Er) Hn. unfold ack_event, sendable, received_event, ids_of, get_event_info.
  rewrite Er. destruct (_ <=? total_version _); cbn [ev_type source_id destination_id ev_body].
  - rewrite load_pb_ack. split; [|split; [done|]].
    + split; [by apply protocol_ids|]. destruct (serialize_ack ty_pb_ack n Hn) as (bytes & -> & Hl).
      destruct (decide (bytes = [])) as [|Hne]; [by left|right]. intros [k Hk].
      assert (0 < length bytes)%nat by (destruct bytes; [done|cbn; lia]).
      pose proof max_content_Z. destruct k; lia.
    + unfold acked_by. rewrite decide_False by done. rewrite decide_True by done.
      cbn [ev_body]. by rewrite get_set_acknowledged_events.
  - rewrite load_ack. split; [|split; [done|]].
    + split; [by apply protocol_ids|]. split; [|done]. constructor; [|constructor]. intros _.
      split; [done|]. by split.
    + unfold acked_by. by rewrite decide_True.
Qed.

(** One event counted (or none), and the acknowledgement when it is due. *)
Definition counted (now : Z) (got : bool) s s' : Prop :=
  let n := s.(acks).(_events_received_since_last_ack) + (if got then 1 else 0) in
  s'.(conf) = s.(conf) ∧ s'.(acks).(_acknowledged_events) = s.(acks).(_acknowledged_events) ∧
  s'.(published) = s.(published) ∧ (live s.(_substream) → live s'.(_substream)) ∧
  stream_bytes s' = stream_bytes s ∧
  if decide (s.(conf).(_ack_limit) ≤ n ∨ 0 < n ∧ s.(acks).(_last_sent_ack) + 5 < now) then
    s'.(acks).(_events_received_since_last_ack) = 0 ∧ s'.(acks).(_last_sent_ack) = now ∧
    ∃ w, serialize s.(conf).(known_events) (ack_event s.(conf) n) = Ret (Some w) ∧
         sent s'.(_substream) = sent s.(_substream) ++ [w]
  else
    s'.(acks).(_events_received_since_last_ack) = n ∧
    s'.(acks).(_last_sent_ack) = s.(acks).(_last_sent_ack) ∧
    sent s'.(_substream) = sent s.(_substream).

Lemma count_and_ack_spec now got s evs :
  settings_ok s.(conf) → owes s evs →
  0 ≤ s.(acks).(_events_received_since_last_ack) < u32_max →
  ∃ s', count_and_ack now got s = (Ret tt, s') ∧ owes s' evs ∧ counted now got s s'.
Proof.
  intros Hc Ho Hn. unfold count_and_ack.
  set (n := _events_received_since_last_ack (acks s)) in *.
  assert ((if got then wrap_u32 (n + 1) else n) = n + (if got then 1 else 0)) as ->.
  { unfold u32_max in Hn. destruct got; [|lia]. by rewrite wrap_u32_small by lia. }
  unfold counted. fold n. set (n' := n + _).
  assert (u32_ok n') as Hn' by (unfold u32_ok, n', u32_max in *; destruct got; lia).
  set (s1 := set_acks (set_received n' (acks s)) s).
  change (conf s1) with (conf s). change (acks s1) with (set_received n' (acks s)).
  assert (((_ack_limit (conf s) <=? n') || (negb (n' =? 0) && (_last_sent_ack (acks s) + 5 <? now))) =
    bool_decide (_ack_limit (conf s) ≤ n' ∨ 0 < n' ∧ _last_sent_ack (acks s) + 5 < now)) as ->.
  { unfold u32_ok in Hn'. apply eq_true_iff_eq. rewrite bool_decide_eq_true, orb_true_iff, andb_true_iff,
      negb_true_iff, Z.leb_le, Z.ltb_lt, Z.eqb_neq. lia. }
  destruct (decide (_ack_limit (conf s) ≤ n' ∨ 0 < n' ∧ _last_sent_ack (acks s) + 5 < now)) as [Hd|Hd];
    [rewrite bool_decide_eq_true_2 by done|rewrite bool_decide_eq_false_2 by done]; cycle 1.
  { exists s1. split; [done|]. split; [exact Ho|]. by split_and!. }
  destruct (ack_event_ok (conf s) n' Hc Hn') as (Hse & _ & _).
  destruct (event_on_wire _ _ Hse) as (cs & content & Hw & _ & _).
  set (s2 := set_acks (set_last_sent now (set_received n' (acks s))) s1).
  unfold send_event_acknowledgement. change (conf s2) with (conf s). rewrite (proj1 Hc).
  change (_events_received_since_last_ack (acks s2)) with n'. unfold mbind, st_bind.
  destruct (write_raw s2 (ack_event (conf s) n') _ (proj1 Ho) (proj1 (proj2 Hc)) Hw)
    as (d' & -> & Hd' & Hin & Hsent & Hlv).
  eexists. split; [reflexivity|]. split.
  - by apply (owes_same_reader s).
  - split_and!; try done; [|by eexists]. unfold stream_bytes. cbn. by rewrite Hin.
Qed.

(** ** [read] *)

Lemma received_event_type r (e : event M) : (received_event r e).(ev_type) = e.(ev_type).
Proof. unfold received_event. by repeat case_match. Qed.

Lemma acked_by_control d k s : acked_by d = Some k → is_control (Some d) = true ∧
  control d s = (Ret tt, acknowledge_events k s).
Proof.
  intros Hk. assert (d.(ev_type) = ty_ack ∨ d.(ev_type) = ty_pb_ack) as Ht.
  { unfold acked_by in Hk. repeat case_decide; auto; done. }
  split; [unfold is_control; by destruct Ht as [->| ->]|]. unfold control.
  rewrite (decide_False (P := _ = ty_version_response)), (decide_False (P := _ = ty_welcome)),
    decide_True by (destruct Ht as [->| ->]; done || auto). by rewrite Hk.
Qed.

(** [pre] are acknowledgements, of [ks] events. *)
Definition acknowledge (r : registry) (pre : list (event M)) (ks : list Z) : Prop :=
  Forall2 (λ e k, acked_by (received_event r e) = Some k ∧ 0 ≤ k) pre ks.

(** [n] more events are acknowledged; nothing else is counted or sent. *)
Definition credited (n : Z) s s' : Prop :=
  s'.(conf) = s.(conf) ∧ s'.(published) = s.(published) ∧ sent s'.(_substream) = sent s.(_substream) ∧
  (live s.(_substream) → live s'.(_substream)) ∧
  (length (stream_bytes s') ≤ length (stream_bytes s))%nat ∧
  s'.(acks) = set_acknowledged (wrap_u32 (s.(acks).(_acknowledged_events) + n)) s.(acks).

Lemma credited_trans a b s1 s2 s3 : credited a s1 s2 → credited b s2 s3 → credited (a + b) s1 s3.
Proof.
  unfold credited. intros (?&?&?&?&?&E1) (?&?&?&?&?&E2). split_and!; auto; try congruence; [lia|].
  rewrite E2, E1. unfold set_acknowledged. cbn. f_equal. unfold wrap_u32.
  rewrite Zplus_mod_idemp_l. f_equal. lia.
Qed.

Lemma credited_0 s s' : u32_ok s.(acks).(_acknowledged_events) → advanced s s' → credited 0 s s'.
Proof.
  intros Hu ((?&Ea&?&?&?)&?). split_and!; try done. rewrite Ea, Z.add_0_r, wrap_u32_small by done.
  by destruct (acks s).
Qed.

(** What [_read_any] does, with its timeout caught. *)
Lemma read_any_spec fuel s evs :
  owes s evs → (length (stream_bytes s) + BBDO_HEADER_SIZE ≤ fuel)%nat →
  match _read_any fuel s with
  | (Ret (true, Some d), s') => advanced s s' ∧ ∃ e evs', evs = e :: evs' ∧
      d = received_event s.(conf).(known_events) e ∧ owes s' evs'
  | (Ret (false, None), s') => advanced s s' ∧ owes s' evs ∧ (evs ≠ [] → ¬ live s.(_substream))
  | (Throw shutdown, s') => advanced s s' ∧ evs = [] ∧ owes s' []
  | _ => False
  end.
Proof.
  intros Ho Hf. pose proof (read_any_loop_spec fuel s evs Ho Hf) as H. unfold _read_any.
  destruct (read_any_loop fuel s) as [[[d|]|e] s']; try done. by destruct e.
Qed.

(** The control messages in front of the next event are handled; the others
    here are acknowledgements. *)
Lemma skip_control_spec fuel n s evs :
  owes s evs → u32_ok s.(acks).(_acknowledged_events) → (length evs < n)%nat →
  (length (stream_bytes s) + BBDO_HEADER_SIZE ≤ fuel)%nat →
  Forall (λ e, is_control (Some e) = true →
               ∃ k, acked_by (received_event s.(conf).(known_events) e) = Some k ∧ 0 ≤ k) evs →
  let '(o, s') := skip_control fuel n s in
  ∃ pre ks evs', evs = pre ++ evs' ∧ acknowledge s.(conf).(known_events) pre ks ∧
    credited (foldr Z.add 0 ks) s s' ∧
    match o with
    | Ret (true, Some d) => ∃ e evs'', evs' = e :: evs'' ∧ is_control (Some e) = false ∧
        d = received_event s.(conf).(known_events) e ∧ owes s' evs''
    | Ret (false, None) => owes s' evs' ∧ (evs' ≠ [] → ¬ live s.(_substream))
    | Throw shutdown => evs' = [] ∧ owes s' []
    | _ => False
    end.
Proof.
  revert s evs. induction n as [|n IH]; intros s evs Ho Hu Hn Hf Hall; [lia|]. cbn [skip_control].
  pose proof (read_any_spec fuel s evs Ho Hf) as Hr.
  destruct (_read_any fuel s) as [[[[] [d|]]|ex] s1]; try done.
  - destruct Hr as (Hadv & e & evs' & -> & -> & Ho1). pose proof Hadv as [Hq Hsh].
    assert (is_control (Some (received_event (known_events (conf s)) e)) = is_control (Some e)) as Ec.
    { unfold is_control. by rewrite received_event_type. }
    destruct (is_control (Some (received_event _ e))) eqn:Hc.
    + apply Forall_cons in Hall as [He Hall]. destruct He as (k & Hk & Hk0); [by rewrite <- Ec|].
      destruct (acked_by_control _ k s1 Hk) as [_ Hctl]. unfold mbind, st_bind. rewrite Hctl.
      set (s2 := acknowledge_events k s1). assert (owes s2 evs') as Ho2 by exact Ho1.
      assert (credited k s s2) as Hcr.
      { destruct Hq as (?&Ea&?&?&?). split_and!; try done. unfold s2, acknowledge_events. cbn. by rewrite Ea. }
      assert (conf s2 = conf s) as Ecf by apply Hcr.
      specialize (IH s2 evs' Ho2). cbn [length] in Hn.
      specialize (IH ltac:(apply Z.mod_pos_bound; lia) ltac:(lia)).
      change (stream_bytes s2) with (stream_bytes s1) in IH. specialize (IH ltac:(lia)).
      rewrite Ecf in IH. specialize (IH Hall). destruct (skip_control fuel n s2) as [o s'].
      destruct IH as (pre & ks & rest & -> & Hpre & Hcr2 & Hres).
      exists (e :: pre), (k :: ks), rest. split; [done|]. split; [by constructor|].
      split; [by eapply (credited_trans k)|]. destruct o as [[[] [d|]]|[]]; try done.
      destruct Hres as [? Hl]. split; [done|]. intros Hne Hlv. by apply (Hl Hne), Hcr.
    + exists [], [], (e :: evs'). split; [done|]. split; [constructor|].
      split; [by apply credited_0|]. exists e, evs'. split_and!; [done|by rewrite <- Ec|done|done].
  - destruct Hr as (Hq & Ho1 & Hl). exists [], [], evs. split; [done|]. split; [constructor|].
    split; [by apply credited_0|done].
  - destruct ex; try done. destruct Hr as (Hq & -> & Ho1). exists [], [], [].
    split; [done|]. split; [constructor|]. split; [by apply credited_0|done].
Qed.

(** The counters between two calls. *)
Definition session_inv s : Prop :=
  settings_ok s.(conf) ∧ u32_ok s.(acks).(_acknowledged_events) ∧
  0 ≤ s.(acks).(_events_received_since_last_ack) < s.(conf).(_ack_limit).

Lemma counted_session now got s s' : session_inv s → counted now got s s' → session_inv s'.
Proof.
  intros (Hc & Hu & Hn) (Ec & Ea & _ & _ & _ & Hd). unfold session_inv. rewrite Ec, Ea.
  split; [done|]. split; [done|]. pose proof Hc as (_ & _ & Hl & _).
  destruct (decide _) as [_|Hd'] in Hd; destruct Hd as (-> & _ & _); [lia|]. destruct got; lia.
Qed.

(** The events that may be on the way: acknowledgements, or events that are no
    control messages. *)
Definition plain (r : registry) (e : event M) : Prop :=
  is_control (Some e) = true → ∃ k, acked_by (received_event r e) = Some k ∧ 0 ≤ k.

(** What [read] does when the peer sends such events. *)
Lemma bbdo_read_spec fuel now s evs :
  owes s evs → session_inv s → (length evs < fuel)%nat →
  (length (stream_bytes s) + BBDO_HEADER_SIZE ≤ fuel)%nat →
  Forall (plain s.(conf).(known_events)) evs →
  let '(o, s') := read fuel now s in
  ∃ pre ks evs' s1, evs = pre ++ evs' ∧ acknowledge s.(conf).(known_events) pre ks ∧
    credited (foldr Z.add 0 ks) s s1 ∧
    match o with
    | Ret (true, Some d) => ∃ e evs'', evs' = e :: evs'' ∧ is_control (Some e) = false ∧
        d = received_event s.(conf).(known_events) e ∧ owes s' evs'' ∧
        counted now true s1 s' ∧ session_inv s'
    | Ret (false, None) => owes s' evs' ∧ (evs' ≠ [] → ¬ live s.(_substream)) ∧
        counted now false s1 s' ∧ session_inv s'
    | Throw shutdown => evs' = [] ∧ owes s' [] ∧ s' = s1
    | _ => False
    end.
Proof.
  intros Ho (Hc & Hu & Hn) Hev Hf Hall.
  pose proof (skip_control_spec fuel fuel s evs Ho Hu Hev Hf Hall) as Hs.
  unfold read, mbind, st_bind. destruct (skip_control fuel fuel s) as [o s1].
  destruct Hs as (pre & ks & evs' & -> & Hpre & Hcr & Hs).
  assert (session_inv s1) as Hi1.
  { destruct Hcr as (Ec & _ & _ & _ & _ & Ea). unfold session_inv. rewrite Ec, Ea.
    split; [done|]. split; [apply Z.mod_pos_bound; lia|done]. }
  assert (settings_ok (conf s1)) as Hc1 by apply Hi1.
  assert (0 ≤ _events_received_since_last_ack (acks s1) < u32_max) as Hn1.
  { destruct Hi1 as ((_ & _ & Hl & _) & _ & ?). lia. }
  destruct o as [[[] [d|]]|ex]; try done; cbn [fst].
  - destruct Hs as (e & evs'' & -> & He & -> & Ho1).
    destruct (count_and_ack_spec now true s1 evs'' Hc1 Ho1 Hn1) as (s2 & -> & Ho2 & Hc2).
    exists pre, ks, (e :: evs''), s1. split; [done|]. split; [done|]. split; [done|].
    exists e, evs''. split_and!; try done. by eapply counted_session.
  - destruct Hs as [Ho1 Hl].
    destruct (count_and_ack_spec now false s1 evs' Hc1 Ho1 Hn1) as (s2 & -> & Ho2 & Hc2).
    exists pre, ks, evs', s1. split; [done|]. split; [done|]. split; [done|].
    split_and!; try done. by eapply counted_session.
  - destruct ex; try done. destruct Hs as [-> Ho1].
    exists pre, ks, [], s1. by split_and!.
Qed.

(** The reads of a session, at the times [nows]: the events returned. *)
Fixpoint run_reads (fuel : nat) (nows : list Z) : St (stream M D) (list (event M)) :=
  match nows with
  | [] => mret []
  | now :: nows =>
      read fuel now ≫= λ r,
      run_reads fuel nows ≫= λ ds,
      mret (match r.2 with Some d => d :: ds | None => ds end)
  end.

Lemma run_reads_spec fuel nows s evs :
  owes s evs → session_inv s → (length evs < fuel)%nat →
  (length (stream_bytes s) + BBDO_HEADER_SIZE ≤ fuel)%nat →
  Forall (λ e, is_control (Some e) = false) evs →
  match run_reads fuel nows s with
  | (Ret ds, s') => ∃ evs1 evs2, evs = evs1 ++ evs2 ∧ owes s' evs2 ∧
      ds = received_event s.(conf).(known_events) <$> evs1 ∧
      (live s.(_substream) → length evs1 = Nat.min (length nows) (length evs))
  | (Throw shutdown, s') => owes s' []
  | _ => False
  end.
Proof.
  revert s evs. induction nows as [|now nows IH]; intros s evs Ho Hi Hev Hf Hall.
  { exists [], evs. by split_and!. }
  cbn [run_reads]. unfold mbind, st_bind at 1.
  assert (Forall (plain (known_events (conf s))) evs) as Hpl.
  { eapply Forall_impl; [exact Hall|]. intros e He Hc. by rewrite He in Hc. }
  pose proof (bbdo_read_spec fuel now s evs Ho Hi Hev Hf Hpl) as Hr.
  destruct (read fuel now s) as [o s'].
  destruct Hr as (pre & ks & evs' & s1 & -> & Hpre & Hcr & Hr).
  assert (pre = []) as ->.
  { destruct pre as [|e pre]; [done|]. exfalso. inversion Hpre as [|? k ? ? [Hk _]]; subst.
    apply (acked_by_control _ k s) in Hk as [Hk _]. apply Forall_cons in Hall as [He _].
    unfold is_control in *. by rewrite received_event_type, He in Hk. }
  destruct Hcr as (Ec1 & _ & _ & Hl1 & Hb1 & _).
  destruct o as [[[] [d|]]|ex]; try done; [..|destruct ex; try done; by destruct Hr as (_ & ? & _)].
  - destruct Hr as (e & evs'' & -> & He & -> & Ho' & (Ec' & _ & _ & Hl' & Hb' & _) & Hi').
    apply Forall_app, proj2, Forall_cons in Hall as [_ Hall]. cbn [app length] in *.
    specialize (IH s' evs'' Ho' Hi' ltac:(lia) ltac:(rewrite Hb'; lia) Hall).
    unfold st_bind. destruct (run_reads fuel nows s') as [[ds|ex] s2]; [|by destruct ex].
    destruct IH as (evs1 & evs2 & -> & Ho2 & -> & Hlen). exists (e :: evs1), evs2.
    split; [done|]. split; [done|]. rewrite Ec', Ec1. split; [done|].
    intros Hl. cbn [length]. rewrite Hlen by auto. lia.
  - destruct Hr as (Ho' & Hnl & (Ec' & _ & _ & Hl' & Hb' & _) & Hi'). cbn [app] in *.
    specialize (IH s' evs' Ho' Hi' ltac:(lia) ltac:(rewrite Hb'; lia) Hall).
    unfold st_bind. destruct (run_reads fuel nows s') as [[ds|ex] s2]; [|by destruct ex].
    destruct IH as (evs1 & evs2 & -> & Ho2 & -> & Hlen). exists evs1, evs2.
    split; [done|]. split; [done|]. rewrite Ec', Ec1. split; [done|].
    intros Hl. destruct (decide (evs1 ++ evs2 = [])) as [E|Hne]; [|by destruct (Hnl Hne)].
    apply app_eq_nil in E as [-> ->]. cbn. lia.
Qed.


(** ** Hostile bytes *)

Definition safe_inv s : Prop :=
  bbdo_inv s ∧ Forall is_byte (stream_bytes s) ∧
  Forall (λ b, Forall (Forall is_byte) b.(_buf)) s.(rd).(_buffer) ∧
  (length s.(rd).(_buffer) ≤ 4)%nat.

Lemma find_buffer_Some i bs pre b post :
  find_buffer i bs = Some (pre, b, post) → bs = pre ++ b :: post.
Proof.
  revert pre. induction bs as [|b' bs IH]; intros pre; cbn [find_buffer]; [done|].
  case_match; [by intros [= <- <- <-]|]. destruct (find_buffer i bs) as [[[pre' b''] post']|]; [|done].
  intros [= <- -> ->]. by rewrite (IH pre' eq_refl).
Qed.

Lemma purge_length n bs : (length (purge n bs) ≤ n)%nat.
Proof. unfold purge. rewrite length_drop. lia. Qed.

Lemma purge_Forall (P : buffer → Prop) n bs : Forall P bs → Forall P (purge n bs).
Proof. apply Forall_drop. Qed.

Abbreviation buf_bytes := (λ b, Forall (Forall is_byte) b.(_buf)).

Lemma push_back_bytes c b : buf_bytes b → Forall is_byte c → buf_bytes (b_push_back c b).
Proof. intros. cbn. apply Forall_app. by split; [|constructor]. Qed.

Lemma mjoin_bytes ls : Forall (Forall is_byte) ls → Forall is_byte (mjoin ls).
Proof. induction 1; [constructor|]. rewrite mjoin_cons. by apply Forall_app. Qed.

Lemma last_part_safe i c bs :
  Forall is_byte c → Forall buf_bytes bs → (length bs ≤ 4)%nat →
  let '(content, bs') := last_part i c bs in
  Forall is_byte content ∧ Forall buf_bytes bs' ∧ (length bs' ≤ 4)%nat.
Proof.
  intros Hc Hb Hl. unfold last_part.
  destruct (find_buffer i bs) as [[[pre b] post]|] eqn:E.
  - apply find_buffer_Some in E as ->. apply Forall_app in Hb as [Hpre Hb]. apply Forall_cons in Hb as [Hb Hpost].
    pose proof (purge_length 3 (pre ++ post)). rewrite length_app in Hl. cbn [length] in Hl. split_and!.
    + apply mjoin_bytes. by apply (push_back_bytes c b).
    + case_match; [apply purge_Forall|]; by apply Forall_app.
    + case_match; [|rewrite length_app]; lia.
  - pose proof (purge_length 3 bs). split_and!; [done|case_match; [by apply purge_Forall|done]|case_match; lia].
Qed.

Lemma more_part_safe i c bs :
  Forall is_byte c → Forall buf_bytes bs →
  Forall buf_bytes (more_part i c bs) ∧ (length (more_part i c bs) ≤ 4)%nat.
Proof.
  intros Hc Hb. unfold more_part. set (bs' := match find_buffer i bs with Some _ => _ | None => _ end).
  assert (Forall buf_bytes bs') as Hb'.
  { unfold bs'. destruct (find_buffer i bs) as [[[pre b] post]|] eqn:E.
    - apply find_buffer_Some in E as ->. apply Forall_app in Hb as [Hpre Hb]. apply Forall_cons in Hb as [Hb Hpost].
      apply Forall_app. split; [done|]. constructor; [by apply (push_back_bytes c b)|done].
    - apply Forall_app. split; [done|]. constructor; [|done]. cbn. by constructor. }
  pose proof (purge_length 4 bs'). destruct (Nat.ltb_spec 1 (length bs')); (split; [|lia]); [by apply purge_Forall|done].
Qed.

(** What may come out of arbitrary bytes. *)
Definition safe_outcome s (o : res (option (event M)) * stream M D) : Prop :=
  match o with
  | (Ret _, s') | (Throw (timeout | shutdown | msg_fmt), s') => safe_inv s' ∧ quiet s s'
  | _ => False
  end.

Lemma safe_outcome_trans s s1 o : quiet s s1 → safe_outcome s1 o → safe_outcome s o.
Proof.
  intros Hq. destruct o as [[d|e] s']; cbn; [|destruct e; try done];
    (intros [? ?]; split; [done|by eapply quiet_trans]).
Qed.

Lemma interrupted_safe s s' : safe_inv s → interrupted s s' → safe_inv s' ∧ quiet s s'.
Proof. intros (_ & Hb & Hbuf & Hl) (Hi & Hq & Eb & Es). split; [|done]. unfold safe_inv. by rewrite Eb, Es. Qed.

(** Too few bytes for the packet announced: the call ends without an event. *)
Lemma short_packet fuel s :
  bbdo_inv s → (BBDO_HEADER_SIZE ≤ length (stream_bytes s))%nat →
  expected_chksum (stream_bytes s) = chksum_of (stream_bytes s) →
  (BBDO_HEADER_SIZE + Z.to_nat (size_of (stream_bytes s)) ≤ S fuel)%nat →
  (length (stream_bytes s) < BBDO_HEADER_SIZE + Z.to_nat (size_of (stream_bytes s)))%nat →
  ∃ e s', read_any_loop (S fuel) s = (Throw e, s') ∧ (e = timeout ∨ e = shutdown) ∧ interrupted s s'.
Proof.
  intros Hinv Hl Hc Hf Hsz. cbn [read_any_loop].
  pose proof (read_packet_spec (S fuel) BBDO_HEADER_SIZE s Hinv ltac:(lia)) as Hp.
  destruct (_read_packet (S fuel) BBDO_HEADER_SIZE s) as [[?|e] s1]; cycle 1.
  { exists e, s1. split; [done|]. destruct e; try (exfalso; exact Hp); (split; [by auto|]);
      apply same_interrupted; apply Hp. }
  destruct Hp as (Hi1 & Hs1 & Hl1 & _). rewrite (proj2 Hi1).
  destruct (header_of_prefix (_packet (rd s1)) (incoming (_substream s1)) Hl1) as (E1 & E2 & E3 & E4).
  assert (stream_bytes s1 = stream_bytes s) as Eb by apply Hs1.
  fold (stream_bytes s1) in E1, E2, E3, E4. rewrite Eb in E1, E2, E3, E4.
  rewrite <- E1, <- E2, <- E3, Hc, Z.eqb_refl. cbn [negb].
  set (s1' := set_rd (set_skipped 0 (rd s1)) s1). set (whole := (BBDO_HEADER_SIZE + _)%nat) in *.
  assert (interrupted s s1') as Hint1.
  { split; [exact Hi1|]. split; [exact (same_quiet _ _ Hs1)|]. split; [apply Hs1|exact Eb]. }
  pose proof (read_packet_spec (S fuel) whole s1' Hi1 ltac:(lia)) as Hp.
  destruct (_read_packet (S fuel) whole s1') as [[?|e] s2].
  - exfalso. destruct Hp as (_ & Hs2 & Hl2 & _).
    assert (stream_bytes s2 = stream_bytes s) as Eb2 by (rewrite <- Eb; apply Hs2).
    rewrite <- Eb2 in Hsz. unfold stream_bytes in Hsz. rewrite length_app in Hsz. lia.
  - exists e, s2. split; [done|]. assert (interrupted s1' s2 ∧ (e = timeout ∨ e = shutdown)) as [Hint2 He].
    { destruct e; try (exfalso; exact Hp); (split; [apply same_interrupted; apply Hp|by auto]). }
    split; [done|]. destruct Hint1 as (? & ? & ? & ?), Hint2 as (? & ? & ? & ?).
    split; [done|]. split; [by eapply quiet_trans|]. split; congruence.
Qed.

Lemma read_any_loop_safe fuel s :
  safe_inv s → registry_ok s.(conf).(known_events) →
  (length (stream_bytes s) + BBDO_HEADER_SIZE + max_content ≤ fuel)%nat →
  safe_outcome s (read_any_loop fuel s).
Proof.
  revert s. induction fuel as [|fuel IH]; intros s Hs Hr Hf; [unfold BBDO_HEADER_SIZE in Hf; lia|].
  pose proof Hs as (Hinv & Hb & Hbuf & Hl). pose proof max_content_Z as HmZ.
  destruct (decide (BBDO_HEADER_SIZE ≤ length (stream_bytes s))%nat) as [Hlen|Hshort]; cycle 1.
  { cbn [read_any_loop].
    pose proof (read_packet_spec (S fuel) BBDO_HEADER_SIZE s Hinv ltac:(lia)) as Hp.
    destruct (_read_packet (S fuel) BBDO_HEADER_SIZE s) as [[?|ex] s1].
    - exfalso. destruct Hp as (_ & Hs1 & Hl1 & _).
      assert (stream_bytes s1 = stream_bytes s) as E by apply Hs1.
      apply (f_equal length) in E. unfold stream_bytes at 1 in E. rewrite length_app in E. lia.
    - destruct ex; try (exfalso; exact Hp);
        apply (interrupted_safe s s1 Hs), same_interrupted; apply Hp. }
  destruct (decide (expected_chksum (stream_bytes s) = chksum_of (stream_bytes s))) as [Hc|Hc]; cycle 1.
  { destruct (skip_step fuel s Hinv ltac:(lia) Hlen Hc) as [(s' & -> & Hint & _)|(s' & -> & Hi' & Hq & Eb & Es)].
    - exact (interrupted_safe s s' Hs Hint).
    - eapply safe_outcome_trans; [done|]. apply IH.
      + split; [done|]. rewrite Eb, Es. split; [by apply Forall_drop|exact (conj Hbuf Hl)].
      + by destruct Hq as (-> & _).
      + rewrite Es, length_drop. unfold BBDO_HEADER_SIZE in *. lia. }
  destruct (header_encodes (stream_bytes s) Hb Hlen Hc) as (Hids & Hsz & Epack).
  set (i := header_ids (stream_bytes s)) in *. set (size := size_of (stream_bytes s)) in *.
  set (rest := drop BBDO_HEADER_SIZE (stream_bytes s)) in *.
  assert (length (stream_bytes s) = BBDO_HEADER_SIZE + length rest)%nat as HL.
  { unfold rest. rewrite length_drop. lia. }
  destruct (decide (Z.to_nat size ≤ length rest)%nat) as [Hfull|Hpart]; cycle 1.
  { destruct (short_packet fuel s Hinv Hlen Hc) as (e & s' & -> & He & Hint); fold size; [lia|lia|].
    pose proof (interrupted_safe s s' Hs Hint). by destruct He as [-> | ->]. }
  assert (length (take (Z.to_nat size) rest) = Z.to_nat size) as Hct by (rewrite length_take; lia).
  set (c := take (Z.to_nat size) rest) in *.
  assert (Forall is_byte c) as Hcb by (by apply Forall_take, Forall_drop).
  assert (stream_bytes s = packet i c ++ drop (Z.to_nat size) rest) as Ep.
  { rewrite Epack. unfold packet. rewrite Hct, Z2Nat.id, <- app_assoc by lia. f_equal.
    unfold c. by rewrite take_drop. }
  destruct (packet_step fuel s i c (drop (Z.to_nat size) rest) Hinv Hids ltac:(lia) Ep
    ltac:(rewrite length_packet; lia)) as [(s' & -> & Hint & _)|(s' & Hcons & ->)].
  { exact (interrupted_safe s s' Hs Hint). }
  destruct Hcons as (Hi' & Hq & Eb & Es).
  assert (Forall is_byte (stream_bytes s')) as Hb' by (rewrite Es; by apply Forall_drop).
  case_decide.
  - set (s2 := set_rd _ s'). apply (safe_outcome_trans s s2); [exact Hq|].
    destruct (more_part_safe i c (_buffer (rd s)) Hcb Hbuf) as [? ?]. apply IH.
    + split_and!; [exact Hi'|exact Hb'|done|done].
    + change (conf s2) with (conf s'). by destruct Hq as (-> & _).
    + change (stream_bytes s2) with (stream_bytes s'). rewrite Es, length_drop, length_packet.
      unfold BBDO_HEADER_SIZE in *. lia.
  - pose proof (last_part_safe i c (_buffer (rd s)) Hcb Hbuf Hl) as Hlast.
    destruct (last_part i c (_buffer (rd s))) as [content bs]. destruct Hlast as (Hcc & Hbs & Hlb).
    set (s2 := set_rd _ s'). assert (safe_inv s2 ∧ quiet s s2) as Hs2.
    { split; [|exact Hq]. split_and!; [exact Hi'|exact Hb'|done|done]. }
    pose proof (unserialize_throws (M:=M) _ (id_event i) (id_source i) (id_dest i) content Hr Hcc) as Hu.
    destruct unserialize as [d|ex]; [exact Hs2|]. rewrite Hu. exact Hs2.
Qed.


End Reader.

(** ** Witnesses *)

#[local] Transparent crc16_ccitt ntohs ntohl expected_chksum chksum_of size_of header_ids.
#[local] Existing Instance demo_protobuf.
#[local] Existing Instance demo_protobuf_laws.

Definition demo_settings : settings :=
  Settings true false 1000 false (Version 3 0 1) (bbdo_load demo_registry) 1 1.

(** Two events, with three bytes of noise in front, cut every five bytes. *)
Definition demo_events : list (event (list Z)) :=
  [Event 65549 1 0 (Mapped [VUint 256; VString [104; 105]]); Event 65563 1 0 (Proto [1; 2; 3])].

Definition demo_wire : list Z :=
  [9; 9; 9] ++ mjoin ((λ e, match serialize demo_settings.(known_events) e with
                            | Ret (Some w) => w | _ => [] end) <$> demo_events).

Definition demo_reader : stream (list Z) socket :=
  make_stream demo_settings 0 (Socket demo_wire [] (replicate 60 5%nat)).

Lemma demo_settings_ok : settings_ok demo_settings.
Proof. split_and!; try done. by exists demo_registry. Qed.

Lemma demo_session c : settings_ok c → session_inv (make_stream (M:=list Z) c 0 (Socket [] [] [])).
Proof.
  intros Hc. pose proof Hc as (_ & _ & ? & _). split; [done|]. split; [by vm_compute|cbn; lia].
Qed.

Lemma demo_sendable : Forall (sendable demo_settings.(known_events)) demo_events.
Proof.
  assert (ids_ok (Ids 65549 1 0) ∧ ids_ok (Ids 65563 1 0)) as [H1 H2]
    by (unfold ids_ok, u32_ok; cbn; lia).
  constructor; [|constructor; [|constructor]].
  - split; [exact H1|]. assert (get_event_info (known_events demo_settings) 65549 =
      Some (with_mapping (Some [VUint 0; VString []]) [Entry UINT true; Entry STRING true])) as E
      by (vm_compute; reflexivity).
    cbn [ev_type]. rewrite E. split; [|done].
    repeat constructor; try done; cbn; try lia; try (unfold is_byte; lia). set_solver by lia.
  - split; [exact H2|]. assert (get_event_info (known_events demo_settings) 65563 = Some without_mapping) as E
      by (vm_compute; reflexivity).
    cbn [ev_type]. rewrite E. cbn [ev_body SerializeToString demo_protobuf].
    rewrite decide_True by (apply (bool_decide_unpack _); vm_compute; exact I).
    right. intros [k Hk]. pose proof max_content_Z. cbn [length] in Hk. destruct k; lia.
Qed.

Lemma demo_carries : carries demo_settings.(known_events) demo_events demo_wire.
Proof.
  pose proof demo_sendable as Hs. apply Forall_cons in Hs as [H1 Hs]. apply Forall_cons in Hs as [H2 _].
  destruct (event_on_wire _ _ H1) as (cs1 & c1 & E1 & _), (event_on_wire _ _ H2) as (cs2 & c2 & E2 & _).
  unfold demo_wire, demo_events. cbn [fmap list_fmap]. rewrite E1, E2, !mjoin_cons.
  apply carries_cons; [exact H1|exact E1| |].
  - assert (wire (ids_of (Event 65549 1 0 (Mapped [VUint 256; VString [104; 105]]) : event (list Z))) cs1 ++
      wire (ids_of (Event 65563 1 0 (Proto [1; 2; 3]))) cs2 ++ mjoin [] = drop 3 demo_wire) as ->.
    { unfold demo_wire, demo_events. cbn [fmap list_fmap]. by rewrite E1, E2. }
    intros k Hk. cbn [length] in Hk. destruct k as [|[|[|k]]]; [vm_compute; discriminate..|lia].
  - apply (carries_cons _ _ [] []); [exact H2|exact E2| |constructor]. intros k Hk. cbn in Hk. lia.
Qed.


