(* ===== verification/BbdoLink.v ===== *)
(** * Two brokers on a connection

    A [bbdo::stream] that writes events and one that reads them, over a
    connection that transports bytes in both directions.  The events the reader
    returns are the events written, in order, and the events the writer is told
    to forget are events the reader returned: an acknowledgement never runs ahead
    of a delivery. *)

From S2P Require Import Prelude Wire BbdoEvent Stream Bbdo BbdoFacts.

#[local] Open Scope Z_scope.

(** ** Lemmas on what is owed *)

Section Link.
Context {M : Type} `{!Protobuf M} `{!ProtobufLaws M}.
Implicit Types s : stream M socket.

Lemma serialize_length r (e : event M) w :
  sendable r e → serialize r e = Ret (Some w) → (BBDO_HEADER_SIZE ≤ length w)%nat.
Proof.
  intros Hs Hw. destruct (event_on_wire r e Hs) as (cs & content & Hw' & (full & last & -> & _) & _).
  rewrite Hw in Hw'. injection Hw' as ->. rewrite wire_app, length_app, wire_singleton, length_packet. lia.
Qed.

(** What follows the first sixteen bytes does not turn noise into a header. *)
Lemma noise_app g w x : (BBDO_HEADER_SIZE ≤ length w)%nat → noise g w → noise g (w ++ x).
Proof.
  intros Hl Hn k Hk. rewrite app_assoc.
  destruct (header_of_prefix (drop k g ++ w) x) as (-> & -> & _); [rewrite length_app; lia|].
  by apply Hn.
Qed.

Lemma carries_app r (evs evs' : list (event M)) b b' :
  carries r evs b → carries r evs' b' → carries r (evs ++ evs') (b ++ b').
Proof.
  intros Hc Hc'. induction Hc as [|e evs g w b Hs Hw Hn Hc IH]; [done|].
  rewrite <- !app_assoc. cbn [app]. constructor; [done|done| |done].
  rewrite app_assoc. apply noise_app; [|done]. rewrite length_app.
  pose proof (serialize_length r e w Hs Hw). lia.
Qed.

Lemma carries_one r (e : event M) w : sendable r e → serialize r e = Ret (Some w) → carries r [e] w.
Proof.
  intros Hs Hw. rewrite <- (app_nil_r w). apply (carries_cons r e [] [] w []); [done|done| |constructor].
  intros k Hk. cbn in Hk. lia.
Qed.

Lemma owes_extend s s' evs e w :
  owes s evs → sendable s.(conf).(known_events) e → serialize s.(conf).(known_events) e = Ret (Some w) →
  s'.(conf) = s.(conf) → s'.(rd) = s.(rd) → rx s'.(_substream) = rx s.(_substream) ++ w →
  owes s' (evs ++ [e]).
Proof.
  intros [Hi Hm] Hse Hw Ec Er Hrx. pose proof (carries_one _ e w Hse Hw) as H1.
  assert (stream_bytes s' = stream_bytes s ++ w) as Eb.
  { unfold stream_bytes. cbn [incoming socket_laws]. by rewrite Er, Hrx, app_assoc. }
  assert (bbdo_inv s') as Hi' by (split; [done|rewrite Er; apply Hi]).
  destruct evs as [|e0 evs].
  - destruct Hm as [Hbuf Hb]. apply owes_start; [done|by rewrite Er|]. by rewrite Eb, Hb, Ec.
  - split; [done|]. cbn [app]. rewrite Ec, Er, Eb.
    destruct Hm as (g & cs & todo & content & b & ? & Hch & Hne & ? & ? & Hn & -> & Hc).
    exists g, cs, todo, content, (b ++ w). split_and!; try done.
    + rewrite app_assoc. apply noise_app; [|done]. rewrite length_app. destruct todo as [|c todo]; [done|].
      change (wire (ids_of e0) (c :: todo)) with (packet (ids_of e0) c ++ wire (ids_of e0) todo).
      rewrite length_app, length_packet. lia.
    + by rewrite <- !app_assoc.
    + by apply carries_app.
Qed.

Lemma carries_length r (evs : list (event M)) b : carries r evs b → (length evs ≤ length b)%nat.
Proof.
  induction 1 as [|e evs g w b Hs Hw _ _ IH]; [done|]. pose proof (serialize_length r e w Hs Hw) as Hl.
  unfold BBDO_HEADER_SIZE in Hl. rewrite !length_app. cbn. lia.
Qed.

Lemma owes_length s evs : owes s evs → (length evs ≤ length (stream_bytes s))%nat.
Proof.
  intros [_ Hm]. destruct evs as [|e evs]; [cbn; lia|].
  destruct Hm as (g & cs & todo & content & b & _ & _ & Hne & _ & _ & _ & -> & Hc).
  apply carries_length in Hc. destruct todo as [|c todo]; [done|].
  change (wire (ids_of e) (c :: todo)) with (packet (ids_of e) c ++ wire (ids_of e) todo).
  rewrite !length_app, length_packet. unfold BBDO_HEADER_SIZE. cbn. lia.
Qed.

(** ** The two ends

    [sender] writes events and reads acknowledgements, [receiver] reads events.
    [written], [delivered] and [credit] record the history: the events given to
    [write], those returned by [read], and the sum of the acknowledgement counts
    [write] returned to the caller, which forgets as many events. *)
Record link := Link {
  sender : stream M socket;
  receiver : stream M socket;
  written : list (event M);
  delivered : list (event M);
  credit : Z;
}.

(** What one end wrote reaches the other. *)
Definition sent_off s : stream M socket := set_substream (Socket (rx s.(_substream)) [] (sched s.(_substream))) s.
Definition arrived (bs : list (list Z)) s : stream M socket :=
  set_substream (Socket (rx s.(_substream) ++ mjoin bs) (tx s.(_substream)) (sched s.(_substream))) s.
Definition with_sched (l : list nat) s : stream M socket :=
  set_substream (Socket (rx s.(_substream)) (tx s.(_substream)) l) s.

(** Fuel for a read: more than the bytes that can be read. *)
Definition read_fuel s : nat := (length (stream_bytes s) + 17)%nat.

Inductive op :=
  | OWrite (e : event M)
  | ORead (now : Z) (plan : list nat)
  | OAck (now : Z) (plan : list nat).

Definition link_step (l : link) (o : op) : link :=
  match o with
  | OWrite e =>
      let '(r, a) := write e l.(sender) in
      Link (sent_off a) (arrived (tx a.(_substream)) l.(receiver)) (l.(written) ++ [e]) l.(delivered)
        (l.(credit) + match r with Ret n => n | Throw _ => 0 end)
  | ORead now plan =>
      let '(r, b) := read (read_fuel l.(receiver)) now (with_sched plan l.(receiver)) in
      Link (arrived (tx b.(_substream)) l.(sender)) (sent_off b) l.(written)
        (l.(delivered) ++ match r with Ret (_, Some d) => [d] | _ => [] end) l.(credit)
  | OAck now plan =>
      let '(r, a) := read (read_fuel l.(sender)) now (with_sched plan l.(sender)) in
      Link (sent_off a) (arrived (tx a.(_substream)) l.(receiver)) l.(written) l.(delivered) l.(credit)
  end.

Definition link_init (ca cb : settings) (now : Z) : link :=
  Link (make_stream ca now (Socket [] [] [])) (make_stream cb now (Socket [] [] [])) [] [] 0.

(** ** The invariant *)

Definition sum (ks : list Z) : Z := foldr Z.add 0 ks.

Lemma sum_app ks ks' : sum (ks ++ ks') = sum ks + sum ks'.
Proof. unfold sum. induction ks as [|k ks IH]; cbn; [lia|]. rewrite IH. lia. Qed.

Lemma acknowledge_sum r (evs : list (event M)) ks : acknowledge r evs ks → 0 ≤ sum ks.
Proof. unfold sum. induction 1 as [|? k ? ? [_ ?]]; cbn; lia. Qed.

Lemma acknowledge_fun r (evs : list (event M)) ks ks' :
  acknowledge r evs ks → acknowledge r evs ks' → ks = ks'.
Proof.
  intros H. revert ks'. induction H as [|e k evs ks [Hk _] _ IH]; intros ks' H'.
  - by inversion H'.
  - inversion H' as [|? k' ? ks'' [Hk' _] H'']; subst. f_equal; [congruence|by apply IH].
Qed.

Context (ca cb : settings) (r : registry).

Record link_inv (l : link) (owed back : list (event M)) (ks : list Z) : Prop := {
  li_conf_a : l.(sender).(conf) = ca;
  li_conf_b : l.(receiver).(conf) = cb;
  li_session_a : session_inv l.(sender);
  li_session_b : session_inv l.(receiver);
  li_received_a : l.(sender).(acks).(_events_received_since_last_ack) = 0;
  li_owes_b : owes l.(receiver) owed;
  li_data : Forall (λ e, is_control (Some e) = false) owed;
  li_owes_a : owes l.(sender) back;
  li_back : acknowledge r back ks;
  li_tx_a : tx l.(sender).(_substream) = [];
  li_tx_b : tx l.(receiver).(_substream) = [];
  li_order : received_event r <$> l.(written) = l.(delivered) ++ (received_event r <$> owed);
  li_credit : 0 ≤ l.(credit);
  li_count : l.(credit) + l.(sender).(acks).(_acknowledged_events) + sum ks +
    l.(receiver).(acks).(_events_received_since_last_ack) = Z.of_nat (length l.(delivered));
}.

Hypothesis Hca : ca.(known_events) = r.
Hypothesis Hcb : cb.(known_events) = r.

Lemma li_bounds l owed back ks :
  link_inv l owed back ks →
  0 ≤ l.(credit) + l.(sender).(acks).(_acknowledged_events) + sum ks ≤ Z.of_nat (length l.(delivered)) ∧
  0 ≤ l.(sender).(acks).(_acknowledged_events) ∧ 0 ≤ sum ks ∧ (length l.(delivered) ≤ length l.(written))%nat.
Proof.
  intros H. destruct H. pose proof (acknowledge_sum _ _ _ li_back0).
  destruct li_session_a0 as (_ & [? _] & _), li_session_b0 as (_ & _ & [? _]).
  apply (f_equal length) in li_order0. rewrite length_app, !length_fmap in li_order0. split_and!; lia.
Qed.

Lemma with_sched_owes plan s evs : owes s evs → owes (with_sched plan s) evs.
Proof. by apply owes_same_reader. Qed.

Lemma arrived_nothing s : arrived [] s = s.
Proof. destruct s as [? ? ? ? [? ? ?]]. unfold arrived, set_substream. cbn. by rewrite app_nil_r. Qed.

Lemma sent_off_owes s evs : owes s evs → owes (sent_off s) evs.
Proof. by apply owes_same_reader. Qed.

Lemma arrived_owes w s evs e :
  owes s evs → sendable s.(conf).(known_events) e → serialize s.(conf).(known_events) e = Ret (Some w) →
  owes (arrived [w] s) (evs ++ [e]).
Proof. intros Ho Hs Hw. apply (owes_extend s _ evs e w); try done. cbn. by rewrite app_nil_r. Qed.

Lemma credited_session n s s' : session_inv s → credited n s s' → session_inv s'.
Proof.
  intros (Hc & _ & Hn) (Ec & _ & _ & _ & _ & Ea). unfold session_inv. rewrite Ec, Ea.
  split; [done|]. split; [apply Z.mod_pos_bound; lia|done].
Qed.

(** What the end of [read] sends back: nothing, or the acknowledgement of the
    events it resets the counter of. *)
Lemma counted_sends now got s s' :
  session_inv s → counted now got s s' → tx s.(_substream) = [] →
  let n := s.(acks).(_events_received_since_last_ack) + (if got then 1 else 0) in
  (tx s'.(_substream) = [] ∧ s'.(acks).(_events_received_since_last_ack) = n) ∨
  (∃ w, tx s'.(_substream) = [w] ∧ s'.(acks).(_events_received_since_last_ack) = 0 ∧ 0 < n ∧ u32_ok n ∧
     serialize s.(conf).(known_events) (ack_event s.(conf) n) = Ret (Some w)).
Proof.
  intros (Hc & _ & Hn) (_ & _ & _ & _ & _ & Hd) Htx n. destruct Hc as (_ & _ & Hl & _).
  cbn [sent socket_laws] in Hd. fold n in Hd. destruct (decide _) as [Hdue|] in Hd.
  - destruct Hd as (Hr & _ & w & Hw & Hs). right. exists w. rewrite Hs, Htx. split_and!; try done; [lia|].
    unfold u32_ok, u32_max, n in *. destruct got; lia.
  - destruct Hd as (Hr & _ & Hs). left. by rewrite Hs, Htx.
Qed.

Lemma link_write_inv l owed back ks e :
  link_inv l owed back ks → sendable r e → is_control (Some e) = false →
  Z.of_nat (length l.(written)) < 2 ^ 31 →
  link_inv (link_step l (OWrite e)) (owed ++ [e]) back ks.
Proof.
  intros Hl Hse He Hb. pose proof (li_bounds _ _ _ _ Hl) as (Hb1 & Hb2 & Hb3 & Hb4). destruct Hl.
  destruct (event_on_wire r e Hse) as (cs & content & Hw & _ & _). cbn [link_step].
  assert (conf (sender l) = ca) as Ec by done. set (a := sender l) in *. rewrite <- Hca, <- Ec in Hw.
  destruct (write_raw a e (wire (ids_of e) cs) (proj1 li_owes_a0)) as (d' & Hwr & _ & Hin & Hsent & _); [|exact Hw|].
  { rewrite Ec. pose proof (proj1 li_session_a0) as Hs. rewrite Ec in Hs. apply Hs. }
  unfold write, mbind, st_bind. rewrite Hwr. unfold take_acknowledged.
  set (a1 := set_acks _ _).
  assert (tx (_substream a1) = [wire (ids_of e) cs]) as Etx.
  { change (tx (_substream a1)) with (tx d'). cbn [sent socket_laws] in Hsent. by rewrite Hsent, li_tx_a0. }
  rewrite Etx. split; cbn [sender receiver written delivered credit]; try done.
  - split; [apply li_session_a0|]. split; [by vm_compute|]. apply li_session_a0.
  - apply arrived_owes; [done|by rewrite li_conf_b0, Hcb|]. rewrite li_conf_b0, Hcb. by rewrite <- Hca, <- Ec.
  - apply Forall_app. by split; [|constructor].
  - apply (owes_same_reader a); try done.
  - by rewrite !fmap_app, li_order0, <- app_assoc.
  - change (acks (set_substream d' a)) with (acks a). rewrite wrap_i32_small by lia. lia.
  - change (acks (set_substream d' a)) with (acks a). rewrite wrap_i32_small by lia. cbn. lia.
Qed.

(** The receiver returned [ds] and counted [n] events to acknowledge. *)
Lemma link_delivered l owed back ks b' owed' ds n :
  link_inv l owed back ks → settings_ok cb →
  b'.(conf) = cb → session_inv b' → owes b' owed' → Forall (λ e, is_control (Some e) = false) owed' →
  received_event r <$> owed = ds ++ (received_event r <$> owed') →
  n = l.(receiver).(acks).(_events_received_since_last_ack) + Z.of_nat (length ds) →
  (tx b'.(_substream) = [] ∧ b'.(acks).(_events_received_since_last_ack) = n) ∨
  (∃ w, tx b'.(_substream) = [w] ∧ b'.(acks).(_events_received_since_last_ack) = 0 ∧ 0 < n ∧ u32_ok n ∧
     serialize r (ack_event (M:=M) cb n) = Ret (Some w)) →
  ∃ back' ks', link_inv (Link (arrived (tx b'.(_substream)) l.(sender)) (sent_off b') l.(written)
    (l.(delivered) ++ ds) l.(credit)) owed' back' ks'.
Proof.
  intros Hl Hok Ecb Hsb Hob Hd Hds En Hcase. destruct Hl.
  assert (received_event r <$> written l = (delivered l ++ ds) ++ (received_event r <$> owed')) as Hord.
  { by rewrite li_order0, Hds, app_assoc. }
  destruct Hcase as [[Htx Hr]|(w & Htx & Hr & Hpos & Hn & Hw)].
  - exists back, ks. rewrite Htx, arrived_nothing. split; cbn [sender receiver written delivered credit]; try done.
    cbn [sent_off set_substream acks]. rewrite Hr, En, length_app. lia.
  - exists (back ++ [ack_event cb n]), (ks ++ [n]). rewrite Htx.
    destruct (ack_event_ok (M:=M) cb n Hok Hn) as (Hse & _ & Hak). rewrite Hcb in Hse, Hak.
    split; cbn [sender receiver written delivered credit]; try done.
    + apply arrived_owes; [done| |]; by rewrite li_conf_a0, Hca.
    + apply Forall2_app; [done|]. constructor; [|constructor]. split; [done|lia].
    + rewrite sum_app. change (sum [n]) with (n + 0). cbn [sent_off arrived set_substream acks].
      rewrite Hr, length_app. lia.
Qed.

Lemma link_read_inv l owed back ks now plan :
  link_inv l owed back ks →
  ∃ owed' back' ks', link_inv (link_step l (ORead now plan)) owed' back' ks'.
Proof.
  intros Hl. pose proof Hl as []. cbn [link_step].
  set (b := receiver l) in *. pose proof (with_sched_owes plan b owed li_owes_b0) as Ho.
  pose proof (owes_length _ _ li_owes_b0) as Hlen.
  assert (Forall (plain (known_events (conf (with_sched plan b)))) owed) as Hpl.
  { eapply Forall_impl; [exact li_data0|]. intros e He Hc. by rewrite He in Hc. }
  pose proof (bbdo_read_spec (read_fuel b) now (with_sched plan b) owed Ho li_session_b0
    ltac:(unfold read_fuel; lia) ltac:(unfold read_fuel, BBDO_HEADER_SIZE; change (stream_bytes (with_sched plan b))
      with (stream_bytes b); lia) Hpl) as Hr.
  destruct (read (read_fuel b) now (with_sched plan b)) as [o b'].
  destruct Hr as (pre & ks1 & owed' & b1 & -> & Hpre & Hcr & Hr).
  assert (pre = [] ∧ ks1 = []) as [-> ->].
  { destruct pre as [|e pre]; inversion Hpre as [|? k ? ? [Hk _]]; subst; [done|]. exfalso.
    apply (acked_by_control _ k b) in Hk as [Hk _]. apply Forall_cons in li_data0 as [He _].
    unfold is_control in *. by rewrite received_event_type, He in Hk. }
  cbn [app] in *. assert (session_inv b1) as Hi1 by exact (credited_session _ (with_sched plan b) _ li_session_b0 Hcr).
  destruct Hcr as (Ec1 & _ & Es1 & _ & _ & Ea1). change (conf (with_sched plan b)) with (conf b) in *.
  assert (conf b1 = cb) as Ecb by (by rewrite Ec1). assert (settings_ok cb) as Hok by (rewrite <- Ecb; apply Hi1).
  assert (_events_received_since_last_ack (acks b1) = _events_received_since_last_ack (acks b)) as En
    by (by rewrite Ea1).
  assert (tx (_substream b1) = []) as Et1 by (cbn [sent socket_laws] in Es1; by rewrite Es1).
  destruct o as [[[] [d|]]|ex]; try done; [..|destruct ex; try done].
  - destruct Hr as (e & owed'' & -> & He & -> & Ho' & Hc & Hs'). exists owed''.
    pose proof (counted_sends _ _ _ _ Hi1 Hc Et1) as Hsend. cbv zeta in Hsend.
    rewrite En, Ecb, Hcb in Hsend. apply Forall_cons in li_data0 as [_ Hd].
    rewrite li_conf_b0, Hcb. eapply (link_delivered l (e :: owed'') back ks); try done.
    rewrite <- Ecb. apply Hc.
  - destruct Hr as (Ho' & _ & Hc & Hs'). exists owed'.
    pose proof (counted_sends _ _ _ _ Hi1 Hc Et1) as Hsend. cbv zeta in Hsend. rewrite En, Ecb, Hcb in Hsend.
    eapply (link_delivered l owed' back ks); try done. rewrite <- Ecb. apply Hc.
  - destruct Hr as (-> & Ho' & ->). exists []. eapply (link_delivered l [] back ks); try done.
    left. split; [done|]. rewrite En. symmetry. apply Z.add_0_r.
Qed.

Lemma link_ack_inv l owed back ks now plan :
  link_inv l owed back ks → Z.of_nat (length l.(written)) < 2 ^ 31 →
  ∃ back' ks', link_inv (link_step l (OAck now plan)) owed back' ks'.
Proof.
  intros Hl Hw. pose proof (li_bounds _ _ _ _ Hl) as (Hb1 & Hb2 & Hb3 & Hb4). pose proof Hl as [].
  cbn [link_step]. set (a := sender l) in *. pose proof (with_sched_owes plan a back li_owes_a0) as Ho.
  pose proof (owes_length _ _ li_owes_a0) as Hlen.
  assert (Forall (λ e, is_control (Some e) = true ∧ plain (known_events (conf (with_sched plan a))) e) back) as Hpl.
  { change (conf (with_sched plan a)) with (conf a). rewrite li_conf_a0, Hca.
    apply Forall_forall. intros e He. apply list_elem_of_lookup in He as [i He].
    destruct (Forall2_lookup_l _ _ _ _ _ li_back0 He) as (k & _ & Hk & Hk0).
    split; [|intros _; by exists k]. apply (acked_by_control _ k a) in Hk as [Hk _].
    unfold is_control in *. by rewrite received_event_type in Hk. }
  apply Forall_and in Hpl as [Hctl Hpl].
  pose proof (bbdo_read_spec (read_fuel a) now (with_sched plan a) back Ho li_session_a0
    ltac:(unfold read_fuel; lia) ltac:(unfold read_fuel, BBDO_HEADER_SIZE; change (stream_bytes (with_sched plan a))
      with (stream_bytes a); lia) Hpl) as Hr.
  destruct (read (read_fuel a) now (with_sched plan a)) as [o a'].
  destruct Hr as (pre & ks1 & back' & a1 & -> & Hpre & Hcr & Hr).
  change (conf (with_sched plan a)) with (conf a) in *. rewrite li_conf_a0, Hca in *.
  assert (session_inv a1) as Hi1 by exact (credited_session _ (with_sched plan a) _ li_session_a0 Hcr).
  apply Forall2_app_inv_l in li_back0 as (ks2 & ks' & Hks2 & Hback & ->).
  assert (ks1 = ks2) as -> by (by eapply acknowledge_fun). rewrite sum_app in *.
  pose proof (acknowledge_sum _ _ _ Hks2). pose proof (acknowledge_sum _ _ _ Hback).
  destruct Hcr as (Ec1 & _ & Es1 & _ & _ & Ea1).
  change (conf (with_sched plan a)) with (conf a) in Ec1. change (acks (with_sched plan a)) with (acks a) in Ea1.
  fold (sum ks2) in Ea1. rewrite wrap_u32_small in Ea1 by lia.
  assert (tx (_substream a1) = []) as Et1 by (cbn [sent socket_laws] in Es1; by rewrite Es1).
  assert (_events_received_since_last_ack (acks a1) = 0) as En1 by (by rewrite Ea1).
  assert (∃ a2, owes a' back' ∧ conf a' = ca ∧ session_inv a' ∧ tx (_substream a') = [] ∧
    _events_received_since_last_ack (acks a') = 0 ∧ _acknowledged_events (acks a') = _acknowledged_events (acks a2)
    ∧ a2 = a1) as (a2 & Ho' & Ec' & Hi' & Et' & En' & Ea' & ->).
  { exists a1. destruct o as [[[] [d|]]|ex]; try done; [..|destruct ex; try done].
    - destruct Hr as (e & back'' & -> & He & _). apply Forall_app in Hctl as [_ Hctl].
      apply Forall_cons in Hctl as [Hctl _]. congruence.
    - destruct Hr as (Ho' & _ & Hc & Hs').
      destruct (counted_sends _ _ _ _ Hi1 Hc Et1) as [[? Hn]|(w & _ & _ & Hpos & _)]; [|lia].
      destruct Hc as (Ec' & Ea' & _). rewrite En1 in Hn. split_and!; try done; congruence.
    - destruct Hr as (-> & Ho' & ->). split_and!; try done. congruence. }
  exists back', ks'. rewrite Et', arrived_nothing. split; cbn [sender receiver written delivered credit]; try done.
  change (acks (sent_off a')) with (acks a'). rewrite Ea', Ea1. cbn. lia.
Qed.

(** The operations of a run: the events written can be sent and are no control
    messages. *)
Definition op_ok (o : op) : Prop :=
  match o with OWrite e => sendable r e ∧ is_control (Some e) = false | _ => True end.

Lemma written_length l ops :
  (length (foldl link_step l ops).(written) ≤ length l.(written) + length ops)%nat.
Proof.
  revert l. induction ops as [|o ops IH]; intros l; cbn [foldl length]; [lia|].
  specialize (IH (link_step l o)). assert (length (link_step l o).(written) ≤ S (length l.(written)))%nat.
  { destruct o; cbn [link_step]; [destruct (write _ _)|destruct (read _ _ _)..]; cbn;
      rewrite ?length_app; cbn; lia. }
  lia.
Qed.

Lemma link_run_inv ops l owed back ks :
  link_inv l owed back ks → Forall op_ok ops →
  Z.of_nat (length l.(written) + length ops) < 2 ^ 31 →
  ∃ owed' back' ks', link_inv (foldl link_step l ops) owed' back' ks'.
Proof.
  revert l owed back ks. induction ops as [|o ops IH]; intros l owed back ks Hl Hops Hb.
  { by exists owed, back, ks. }
  apply Forall_cons in Hops as [Ho Hops]. cbn [foldl length] in *.
  pose proof (written_length l [o]) as Hw. cbn [foldl length] in Hw.
  assert (∃ owed' back' ks', link_inv (link_step l o) owed' back' ks') as (owed' & back' & ks' & Hl').
  { destruct o as [e|now plan|now plan].
    - destruct Ho. exists (owed ++ [e]), back, ks. apply link_write_inv; try done. lia.
    - by apply (link_read_inv l owed back ks).
    - destruct (link_ack_inv l owed back ks now plan Hl ltac:(lia)) as (? & ? & ?). by do 3 eexists. }
  eapply IH; [done|done|lia].
Qed.

Lemma link_init_inv now :
  settings_ok ca → settings_ok cb → link_inv (link_init ca cb now) [] [] [].
Proof.
  intros Ha Hb. assert (∀ c, settings_ok c → session_inv (make_stream (M:=M) c now (Socket [] [] []))) as Hs.
  { intros c Hc. pose proof Hc as (_ & _ & ? & _). split; [done|]. split; [by vm_compute|cbn; lia]. }
  assert (∀ c, owes (make_stream (M:=M) c now (Socket [] [] [])) []) as Ho by (intros c; by split).
  split; cbn [link_init sender receiver written delivered credit]; try done; auto. constructor.
Qed.


End Link.

(** ** Witness *)

#[local] Existing Instance demo_protobuf.
#[local] Existing Instance demo_protobuf_laws.

(** An acknowledgement after each event. *)
Definition demo_eager : settings :=
  Settings true false 1 false (Version 3 0 1) (bbdo_load demo_registry) 1 1.

(** Two events written, both read in pieces with a timeout in between, the
    acknowledgements read, a third event written: two events are credited. *)
Definition demo_ops : list (op (M:=list Z)) :=
  let e := Event 65563 1 0 (Proto [1; 2; 3]) in
  [OWrite e; OWrite e; ORead 1 [7; 0]%nat; ORead 1 (replicate 9 5%nat); ORead 1 [40]%nat;
   OAck 2 [60; 60]%nat; OWrite e].

