(* ===== verification/Negotiation.v ===== *)
(** * The negotiation of the BBDO layers

    [negotiate], [_get_extension_names] and [get_running_config] of
    [broker/core/src/bbdo/stream.cc]: the two ends of a new connection tell each
    other the extensions they have (encryption, compression), and each adds the
    layers both have.  The connection works when both ends add the same ones. *)

From Stdlib Require Import Ascii.
From S2P Require Import Prelude.

#[local] Open Scope Z_scope.

(** ** Extensions *)

(** [io::extension], less its options. *)
Record extension := Extension { x_name : string; x_optional : bool; x_mandatory : bool }.

(** [_get_extension_names]: the names, separated by spaces. *)
Definition append_name (retval name : string) : string :=
  (if bool_decide (retval = EmptyString) then retval else String.append retval " ") +:+ name.

Definition extension_names (mandatory : bool) (exts : list extension) : string :=
  foldl (λ retval e,
    if (if mandatory then e.(x_mandatory) else e.(x_optional) || e.(x_mandatory))
    then append_name retval e.(x_name) else retval) EmptyString exts.

(** [absl::StrSplit(s, ' ')]: the pieces between spaces, one at least. *)
Fixpoint str_split (s : string) : list string :=
  match s with
  | EmptyString => [EmptyString]
  | String c s' =>
      if Ascii.eqb c " " then EmptyString :: str_split s'
      else match str_split s' with
           | w :: ws => String c w :: ws
           | [] => [String c EmptyString]
           end
  end.

(** [boost::iequals] *)
Definition lower (c : ascii) : ascii :=
  let n := nat_of_ascii c in
  if ((65 <=? n) && (n <=? 90))%nat then ascii_of_nat (n + 32) else c.
Fixpoint lower_string (s : string) : string :=
  match s with
  | EmptyString => EmptyString
  | String c s' => String (lower c) (lower_string s')
  end.
Definition iequals (a b : string) : bool := bool_decide (lower_string a = lower_string b).

(** The layers of a stream, the BBDO stream's own sub-stream first, by name
    ([get_running_config]); [io::protocols], a map from names to the layer their
    factory makes. *)
Abbreviation layers := (list string).
Abbreviation protocols := (list (string * string)).

(** ** Applying the extensions *)

(** Takes the first layer of that name out. *)
Fixpoint remove_layer (name : string) (ls : layers) : layers :=
  match ls with
  | [] => []
  | l :: ls' => if bool_decide (l = name) then ls' else l :: remove_layer name ls'
  end.

(** The layer the first protocol of that name makes. *)
Definition find_protocol (protos : protocols) (name : string) : option string :=
  match list_find (λ p, iequals p.1 name = true) protos with
  | Some (_, p) => Some p.2
  | None => None
  end.

(** The body of the loop on our extensions; [running] is the configuration before
    the loop. *)
Definition apply_extension (protos : protocols) (running : layers) (peer_ext : list string)
    (ls : layers) (ext : extension) : layers :=
  if bool_decide (ext.(x_name) ∈ peer_ext) then
    if bool_decide (ext.(x_name) ∈ running) then ls
    else match find_protocol protos ext.(x_name) with
         | Some layer => layer :: ls
         | None => ls
         end
  else if bool_decide (ext.(x_name) ∈ running) then remove_layer ext.(x_name) ls
  else ls.

Definition apply_extensions (protos : protocols) (exts : list extension) (peer_extensions : string)
    (ls : layers) : layers :=
  foldl (apply_extension protos ls (str_split peer_extensions)) ls exts.

(** One end: whether it negotiates, its version of the protocol and its
    extensions. *)
Record endpoint := Endpoint { e_negotiate : bool; e_version : Z; e_exts : list extension }.

(** What it announces: every extension when it negotiates, the mandatory ones
    otherwise. *)
Definition announced (e : endpoint) : string := extension_names (negb e.(e_negotiate)) e.(e_exts).

(** [negotiate] once the welcome packet of the peer is read: the layers, or an
    exception when the major versions differ. *)
Definition negotiate (protos : protocols) (me peer : endpoint) (ls : layers) : res layers :=
  if peer.(e_version) =? me.(e_version)
  then Ret (apply_extensions protos me.(e_exts) (announced peer) ls)
  else Throw msg_fmt.

(** ** Names and the string that carries them *)

Fixpoint has_space (s : string) : bool :=
  match s with
  | EmptyString => false
  | String c s' => Ascii.eqb c " " || has_space s'
  end.

Definition good_name (s : string) : Prop := s ≠ EmptyString ∧ has_space s = false.

#[export] Instance good_name_dec s : Decision (good_name s).
Proof. unfold good_name. apply _. Defined.

Lemma str_split_word s : has_space s = false → str_split s = [s].
Proof.
  induction s as [|c s IH]; [done|]. cbn [has_space str_split]. intros [Hc Hs]%orb_false_iff.
  by rewrite Hc, IH.
Qed.

Lemma str_split_ne s : str_split s ≠ [].
Proof. destruct s as [|c s]; [done|]. cbn [str_split]. by destruct (Ascii.eqb c " "), (str_split s). Qed.

Lemma str_split_app s n : has_space n = false → str_split ((s +:+ " ") +:+ n) = str_split s ++ [n].
Proof.
  intros Hn. induction s as [|c s IH].
  - change (str_split (("" +:+ " ") +:+ n)) with (EmptyString :: str_split n).
    by rewrite str_split_word.
  - change ((String c s +:+ " ") +:+ n) with (String c ((s +:+ " ") +:+ n)). cbn [str_split].
    rewrite IH. destruct (Ascii.eqb c " "); [done|].
    destruct (str_split s) as [|w ws] eqn:E; [by apply str_split_ne in E|done].
Qed.

Lemma append_name_split acc n :
  acc ≠ EmptyString → good_name n →
  append_name acc n ≠ EmptyString ∧ str_split (append_name acc n) = str_split acc ++ [n].
Proof.
  intros Ha [_ Hn]. unfold append_name. rewrite bool_decide_eq_false_2 by done.
  split; [|by apply str_split_app]. by destruct acc.
Qed.

Lemma append_names_split ns acc :
  acc ≠ EmptyString → Forall good_name ns →
  str_split (foldl append_name acc ns) = str_split acc ++ ns.
Proof.
  intros Ha Hns. revert acc Ha. induction Hns as [|n ns Hn _ IH]; intros acc Ha; cbn [foldl].
  { by rewrite app_nil_r. }
  destruct (append_name_split acc n Ha Hn) as [Hne E]. by rewrite IH, E, <- app_assoc.
Qed.

(** The extensions an end announces. *)
Definition offered (mandatory : bool) (e : extension) : bool :=
  if mandatory then e.(x_mandatory) else e.(x_optional) || e.(x_mandatory).

Lemma extension_names_fold mandatory exts :
  extension_names mandatory exts =
    foldl append_name EmptyString (x_name <$> filter (λ e, offered mandatory e = true) exts).
Proof.
  unfold extension_names. generalize EmptyString.
  induction exts as [|e exts IH]; intros acc; [done|]. cbn [foldl]. rewrite filter_cons.
  fold (offered mandatory e). destruct (offered mandatory e).
  - rewrite decide_True by done. cbn [fmap list_fmap foldl]. apply IH.
  - rewrite decide_False by done. apply IH.
Qed.

(** The peer finds a name in the string exactly when it is announced. *)
Lemma in_extension_names mandatory exts n :
  Forall good_name (x_name <$> exts) → n ≠ EmptyString →
  n ∈ str_split (extension_names mandatory exts) ↔
  n ∈ x_name <$> filter (λ e, offered mandatory e = true) exts.
Proof.
  intros Hg Hn. rewrite extension_names_fold. set (ns := x_name <$> filter _ exts).
  assert (Forall good_name ns) as Hns.
  { unfold ns. apply Forall_fmap, Forall_forall. intros e He. apply list_elem_of_filter in He as [_ He].
    rewrite Forall_fmap, Forall_forall in Hg. by apply Hg. }
  destruct Hns as [|m ns [Hm Hsp] Hns]; cbn [foldl].
  - cbn. set_solver.
  - assert (append_name EmptyString m = m) as -> by done.
    rewrite append_names_split by done. by rewrite str_split_word.
Qed.

(** ** Both ends add the same layers *)

(** The layers added for the extensions of [exts], the last on top. *)
Definition added (protos : protocols) (ns : list string) : layers := reverse (omap (find_protocol protos) ns).

Lemma apply_extensions_spec protos exts peer ls :
  Forall (λ e, e.(x_name) ∉ ls) exts →
  apply_extensions protos exts peer ls =
    added protos (filter (λ n, n ∈ str_split peer) (x_name <$> exts)) ++ ls.
Proof.
  intros Hls. unfold apply_extensions, added.
  assert (∀ acc, foldl (apply_extension protos ls (str_split peer)) acc exts =
    reverse (omap (find_protocol protos) (filter (λ n, n ∈ str_split peer) (x_name <$> exts))) ++ acc) as H;
    [|apply H].
  induction Hls as [|e exts He _ IH]; intros acc; [done|]. cbn [foldl fmap list_fmap]. rewrite IH, filter_cons.
  unfold apply_extension. rewrite (bool_decide_eq_false_2 _ He). case_decide as Hp.
  - rewrite (bool_decide_eq_true_2 _ Hp). cbn [omap list_omap]. destruct (find_protocol protos (x_name e)); [|done].
    by rewrite reverse_cons, <- app_assoc.
  - by rewrite (bool_decide_eq_false_2 _ Hp).
Qed.

Lemma filter_ext_in {A} (P Q : A → Prop) `{!∀ x, Decision (P x), !∀ x, Decision (Q x)} (l : list A) :
  (∀ x, x ∈ l → P x ↔ Q x) → filter P l = filter Q l.
Proof.
  induction l as [|x l IH]; intros HPQ; [done|]. rewrite !filter_cons, IH by set_solver.
  pose proof (HPQ x ltac:(set_solver)). by destruct (decide (P x)), (decide (Q x)); naive_solver.
Qed.

(** A list taken out of one without duplicates is what a filter takes. *)
Lemma filter_sublist (u l : list string) : NoDup u → sublist l u → filter (λ n, n ∈ l) u = l.
Proof.
  intros Hu Hs. induction Hs as [|x l u Hs IH|x l u Hs IH].
  - done.
  - apply NoDup_cons in Hu as [Hx Hu]. rewrite filter_cons, decide_True by set_solver. f_equal.
    transitivity (filter (λ n, n ∈ l) u); [|by apply IH]. apply filter_ext_in. intros y Hy. set_solver.
  - apply NoDup_cons in Hu as [Hx Hu]. rewrite filter_cons, decide_False; [by apply IH|].
    intros Hin. apply Hx. by eapply elem_of_sublist.
Qed.

Definition offers_all (e : endpoint) : Prop :=
  Forall (λ x, offered false x = true ∧ good_name x.(x_name)) e.(e_exts).

Lemma announced_all e n :
  e.(e_negotiate) = true → offers_all e → n ≠ EmptyString →
  n ∈ str_split (announced e) ↔ n ∈ x_name <$> e.(e_exts).
Proof.
  intros Hn Ho Hne. unfold announced. rewrite Hn. cbn [negb].
  rewrite in_extension_names; [|apply Forall_fmap; by eapply Forall_impl; [exact Ho|intros ? []]|done].
  assert (filter (λ x, offered false x = true) (e_exts e) = e_exts e) as ->; [|done].
  clear Hn. unfold offers_all in Ho. induction Ho as [|x l [Hx _] _ IH]; [done|].
  rewrite filter_cons, decide_True by done. by rewrite IH.
Qed.

(** Two ends that negotiate, speak the same version and list their
    extensions in the same order (both take them from the map of the protocols)
    end with the same layers, those of the extensions both have, whatever each
    one asks for. *)
Theorem negotiation_agrees protos universe a b ls :
  a.(e_negotiate) = true → b.(e_negotiate) = true → a.(e_version) = b.(e_version) →
  offers_all a → offers_all b →
  NoDup universe → sublist (x_name <$> a.(e_exts)) universe → sublist (x_name <$> b.(e_exts)) universe →
  Forall (λ n, n ∉ ls) universe →
  negotiate protos a b ls = negotiate protos b a ls ∧
  negotiate protos a b ls =
    Ret (added protos (filter (λ n, n ∈ x_name <$> a.(e_exts) ∧ n ∈ x_name <$> b.(e_exts)) universe) ++ ls).
Proof.
  intros Na Nb Hv Oa Ob Hu Sa Sb Hls.
  assert (∀ e f, e.(e_negotiate) = true → e.(e_version) = f.(e_version) → offers_all e → offers_all f →
    sublist (x_name <$> e.(e_exts)) universe → sublist (x_name <$> f.(e_exts)) universe →
    negotiate protos f e ls =
      Ret (added protos (filter (λ n, n ∈ x_name <$> f.(e_exts) ∧ n ∈ x_name <$> e.(e_exts)) universe) ++ ls)) as H.
  { intros e f Ne Hve Oe Of Se Sf. unfold negotiate. rewrite Hve, Z.eqb_refl. f_equal.
    rewrite apply_extensions_spec; cycle 1.
    { rewrite Forall_forall in Hls. apply Forall_forall. intros x Hx. apply Hls.
      eapply elem_of_sublist; [|exact Sf]. by apply list_elem_of_fmap_2. }
    f_equal. f_equal. rewrite <- (filter_sublist universe (x_name <$> e_exts f) Hu Sf) at 1.
    rewrite list_filter_filter. apply filter_ext_in. intros n Hn.
    assert (n ∈ x_name <$> e_exts f → n ≠ EmptyString) as Hne.
    { intros (x & -> & Hx)%list_elem_of_fmap. unfold offers_all in Of. rewrite Forall_forall in Of.
      by apply Of in Hx as [_ [? _]]. }
    split; intros [H1 H2]; split; try done; (apply announced_all || apply (announced_all e)); try done; by apply Hne. }
  rewrite (H b a), (H a b) by done. split; [|done]. f_equal. f_equal. f_equal.
  apply filter_ext_in. intros n _. tauto.
Qed.


(** An extension that is mandatory for one end and missing at the other is
    left out, and the connection goes on: an end that requires encryption talks
    in clear to a peer that has none. *)
Theorem mandatory_extension_not_enforced protos v exts peer ls :
  Forall (λ e, (e.(x_name) ∉ ls) ∧ e.(x_name) ≠ EmptyString) exts → peer.(e_version) = v → peer.(e_exts) = [] →
  negotiate protos (Endpoint true v exts) peer ls = Ret ls.
Proof.
  intros Hls Hv Hp. unfold negotiate. cbn [e_version e_exts]. rewrite Hv, Z.eqb_refl. f_equal.
  rewrite apply_extensions_spec by (by eapply Forall_impl; [exact Hls|intros ? []]).
  assert (announced peer = EmptyString) as -> by (unfold announced; by rewrite Hp).
  assert (filter (λ n, n ∈ str_split EmptyString) (x_name <$> exts) = []) as ->; [|done].
  cbn [str_split]. induction Hls as [|e exts [_ He] _ IH]; [done|]. cbn [fmap list_fmap].
  rewrite filter_cons, decide_False by set_solver. exact IH.
Qed.

(** Encryption and compression over TCP. *)
Definition demo_protocols : protocols := [("TLS", "TLS"); ("compression", "compression")]%string.

Lemma negotiation_agrees_witness :
  let a := Endpoint true 3 [Extension "TLS" true false; Extension "COMPRESSION" false true] in
  let b := Endpoint true 3 [Extension "COMPRESSION" true false] in
  negotiate demo_protocols a b ["TCP"%string] = Ret ["compression"; "TCP"]%string.
Proof.
  intros a b.
  destruct (negotiation_agrees demo_protocols ["TLS"; "COMPRESSION"]%string a b ["TCP"%string]) as [_ H].
  1-3: reflexivity.
  1-2: unfold offers_all; apply (bool_decide_unpack _); vm_compute; exact I.
  1: apply (bool_decide_unpack _); vm_compute; exact I.
  1-2: repeat constructor.
  1: apply (bool_decide_unpack _); vm_compute; exact I.
  rewrite H. vm_compute. reflexivity.
Defined.


Lemma mandatory_extension_not_enforced_witness :
  negotiate demo_protocols (Endpoint true 3 [Extension "TLS" false true]) (Endpoint true 3 []) ["TCP"%string]
    = Ret ["TCP"%string].
Proof.
  apply mandatory_extension_not_enforced; [|reflexivity|reflexivity].
  apply (bool_decide_unpack _); vm_compute; exact I.
Defined.
