(* ===== verification/MuxEngine.v ===== *)
(** * The multiplexing engine: one queue, many muxers

    [broker/core/multiplexing/src/engine.cc] and
    [broker/core/src/persistent_cache.cc].  Events published by any thread wait
    in [_kiew]; a thread that wins the flag [_sending_to_subscribers] takes the
    whole queue and publishes it to every subscribed muxer, one of them itself
    and the others from the thread pool; the flag falls when the last of them
    is done.  While the engine is stopped events go to a cache file instead,
    replayed at the next start.

    Each definition is one critical section of [_kiew_m] (or the code between
    two of them); the methods that lock twice are given as their sections, and
    the step relation interleaves them. *)

From S2P Require Import Prelude.

#[local] Open Scope Z_scope.

(** ** [persistent_cache]

    The three files of a cache, each as the events it holds; the layers that
    store events in a file are the business of other files. *)
Record cache_files (E : Type) := CF {
  (** [_cache_file], its [.old] and its [.new] *)
  cf_main : option (list E);
  cf_old : option (list E);
  cf_new : option (list E);
}.
Arguments CF {E} _ _ _.
Arguments cf_main {E} _.
Arguments cf_old {E} _.
Arguments cf_new {E} _.

Section Cache.
Context {E : Type}.
Implicit Types c : cache_files E.

(** [_open]: recover the old file when the cache is missing; opening the file
    for reading creates it. *)
Definition cache_open c : cache_files E :=
  match c.(cf_main) with
  | Some _ => c
  | None =>
      match c.(cf_old) with
      | Some l => CF (Some l) None c.(cf_new)
      | None => CF (Some []) None c.(cf_new)
      end
  end.

(** Every [get] up to the null event. *)
Definition cache_events c : list E := default [] c.(cf_main).

(** [transaction]: the file is opened in append mode. *)
Definition cache_transaction c : cache_files E :=
  CF c.(cf_main) c.(cf_old) (Some (default [] c.(cf_new))).

Definition cache_add (e : E) c : cache_files E :=
  CF c.(cf_main) c.(cf_old) ((λ l, l ++ [e]) <$> c.(cf_new)).

(** The three system calls of [commit], in order; a [rename] of a missing file
    fails and ends the call. *)
Definition rename_main_old c : option (cache_files E) :=
  l ← c.(cf_main); Some (CF None (Some l) c.(cf_new)).
Definition rename_new_main c : option (cache_files E) :=
  l ← c.(cf_new); Some (CF (Some l) c.(cf_old) None).
Definition unlink_old c : cache_files E := CF c.(cf_main) None c.(cf_new).

Definition cache_commit c : option (cache_files E) :=
  c1 ← rename_main_old c; c2 ← rename_new_main c1; Some (unlink_old c2).

(** The files after [k] of the three calls: what a crash leaves. *)
Definition crash_after (k : nat) c : option (cache_files E) :=
  match k with
  | 0 => Some c
  | 1 => rename_main_old c
  | 2 => c1 ← rename_main_old c; rename_new_main c1
  | _ => cache_commit c
  end%nat.

(** C32: the commit of a cache is atomic with respect to crashes: after a crash at
    any point between its system calls, the next opening finds the events of the
    previous cache or the events of the new one, entirely; from the second
    rename on, the new ones. *)
Theorem cache_commit_atomic c old new k :
  c.(cf_main) = Some old → c.(cf_new) = Some new →
  ∃ c', crash_after k c = Some c' ∧
    cache_events (cache_open c') = if (k <? 2)%nat then old else new.
Proof.
  intros Hm Hn. destruct c as [m o n]; cbn in *; subst.
  destruct k as [|[|[|k]]]; by eexists.
Qed.

Lemma cache_add_all l c new :
  c.(cf_new) = Some new →
  foldl (λ c e, cache_add e c) c l = CF c.(cf_main) c.(cf_old) (Some (new ++ l)).
Proof.
  revert c new. induction l as [|e l IH]; intros c new Hn; cbn [foldl].
  - rewrite app_nil_r, <- Hn. by destruct c.
  - rewrite (IH _ (new ++ [e])); cbn; [by rewrite <- app_assoc|by rewrite Hn].
Qed.
End Cache.

(** ** The engine *)

Inductive state := not_started | running | stopped.

#[export] Instance state_eq_dec : EqDecision state.
Proof. solve_decision. Defined.

Section Engine.
Context {E : Type}.

Record engine := Eng {
  _state : state;
  _kiew : list E;
  _unprocessed_events : Z;
  (** weak pointers to muxers, and the muxers that still exist *)
  _muxers : list nat;
  alive : list nat;
  (** [_cache_file] is set; its files *)
  _cache_file : bool;
  files : cache_files E;
  _sending_to_subscribers : bool;
  (** the calls [muxer->publish] to make, and the events each muxer was
      given by those already made *)
  tasks : list (nat * list E);
  delivered : gmap nat (list E);
}.

Definition set_kiew (l : list E) (s : engine) : engine :=
  Eng s.(_state) l s.(_unprocessed_events) s.(_muxers) s.(alive) s.(_cache_file) s.(files)
    s.(_sending_to_subscribers) s.(tasks) s.(delivered).
Definition set_state (st : state) (s : engine) : engine :=
  Eng st s.(_kiew) s.(_unprocessed_events) s.(_muxers) s.(alive) s.(_cache_file) s.(files)
    s.(_sending_to_subscribers) s.(tasks) s.(delivered).
Definition set_cache (b : bool) (c : cache_files E) (n : Z) (s : engine) : engine :=
  Eng s.(_state) s.(_kiew) n s.(_muxers) s.(alive) b c
    s.(_sending_to_subscribers) s.(tasks) s.(delivered).
Definition set_muxers (l : list nat) (a : list nat) (s : engine) : engine :=
  Eng s.(_state) s.(_kiew) s.(_unprocessed_events) l a s.(_cache_file) s.(files)
    s.(_sending_to_subscribers) s.(tasks) s.(delivered).
Definition set_tasks (b : bool) (t : list (nat * list E)) (d : gmap nat (list E)) (s : engine) : engine :=
  Eng s.(_state) s.(_kiew) s.(_unprocessed_events) s.(_muxers) s.(alive) s.(_cache_file) s.(files)
    b t d.

(** The constructor, over the files a previous process left. *)
Definition eng_init (c : cache_files E) : engine :=
  Eng not_started [] 0 [] [] false c false [] ∅.

(** [publish], its critical section: whether there is something to send; [None]
    when it dereferences a null [_cache_file]. *)
Definition publish_locked (to_publish : list E) (s : engine) : option (engine * bool) :=
  match s.(_state) with
  | stopped =>
      if s.(_cache_file) || (length to_publish =? 0)%nat then
        Some (set_cache s.(_cache_file) (foldl (λ c e, cache_add e c) s.(files) to_publish)
                (wrap_u32 (s.(_unprocessed_events) + Z.of_nat (length to_publish))) s, false)
      else None
  | not_started => Some (set_kiew (s.(_kiew) ++ to_publish) s, false)
  | running => Some (set_kiew (s.(_kiew) ++ to_publish) s, true)
  end.

(** [_send_to_subscribers]: false when somebody is already sending, or when there
    is nothing or nobody to send to. *)
Definition _send_to_subscribers (s : engine) : engine * bool :=
  if s.(_sending_to_subscribers) then (s, false)
  else if (length s.(_muxers) =? 0)%nat || (length s.(_kiew) =? 0)%nat then (s, false)
  else
    let live := filter (λ m, m ∈ s.(alive)) s.(_muxers) in
    (set_tasks true ((λ m, (m, s.(_kiew))) <$> live) s.(delivered) (set_kiew [] s),
     negb (length live =? 0)%nat).

Definition received (m : nat) (s : engine) : list E := default [] (s.(delivered) !! m).

(** One of the pending [muxer->publish] runs. *)
Definition run_task (i : nat) (s : engine) : engine :=
  match s.(tasks) !! i with
  | Some (m, evs) =>
      set_tasks s.(_sending_to_subscribers) (delete i s.(tasks))
        (<[m := received m s ++ evs]> s.(delivered)) s
  | None => s
  end.

(** [~callback_caller], when the last reference to it goes. *)
Definition complete (s : engine) : engine := set_tasks false s.(tasks) s.(delivered) s.

(** [start], its critical section. *)
Definition start_locked (s : engine) : engine * bool :=
  match s.(_state) with
  | not_started =>
      let c := cache_open s.(files) in
      (set_kiew (cache_events c ++ s.(_kiew))
         (set_cache s.(_cache_file) c s.(_unprocessed_events) (set_state running s)), true)
  | _ => (s, false)
  end.

(** [stop]: the two critical sections around the last sending. *)
Definition stop_enter (s : engine) : engine * bool :=
  match s.(_state) with
  | stopped => (s, false)
  | _ => (set_state stopped s, true)
  end.
(** [opened]: the cache file could be opened. *)
Definition stop_leave (opened : bool) (s : engine) : engine :=
  if opened
  then set_cache true (cache_transaction (cache_open s.(files))) s.(_unprocessed_events) s
  else set_cache false s.(files) s.(_unprocessed_events) s.

Definition subscribe (m : nat) (s : engine) : engine :=
  if decide (m ∈ s.(_muxers)) then s
  else set_muxers (s.(_muxers) ++ [m]) s.(alive) s.

(** The removal loop of [unsubscribe_muxer]: the first entry that is this muxer,
    or a muxer that no longer exists. *)
Fixpoint remove_first (m : nat) (a : list nat) (l : list nat) : list nat :=
  match l with
  | [] => []
  | x :: l => if decide (x ∉ a ∨ x = m) then l else x :: remove_first m a l
  end.
Definition unsubscribe_locked (m : nat) (s : engine) : engine :=
  set_muxers (remove_first m s.(alive) s.(_muxers)) s.(alive) s.

Definition clear (s : engine) : engine := set_kiew [] s.

(** The end of [unload], after [stop]: the events that nobody took go to the
    cache, which is committed; the files are what the next process finds. *)
Definition unload_commit (s : engine) : option (cache_files E) :=
  if s.(_cache_file) then
    s1 ← publish_locked s.(_kiew) s; cache_commit s1.1.(files)
  else Some s.(files).

End Engine.

Arguments engine : clear implicits.

(** ** Interleavings

    The steps threads can take, seen from a muxer [m] that stays subscribed and
    alive; each step tells the events the engine accepted for its subscribers. *)
Section Steps.
Context {E : Type} (m : nat).
Implicit Types s : engine E.

Inductive step : engine E → list E → engine E → Prop :=
  | step_publish s evs s' b :
      s.(_state) ≠ stopped → publish_locked evs s = Some (s', b) → step s evs s'
  | step_publish_stopped s evs s' b :
      s.(_state) = stopped → publish_locked evs s = Some (s', b) → step s [] s'
  | step_send s : step s [] (_send_to_subscribers s).1
  | step_task s i : step s [] (run_task i s)
  | step_complete s : s.(tasks) = [] → step s [] (complete s)
  | step_subscribe s x : x ∈ s.(alive) → step s [] (subscribe x s)
  | step_unsubscribe s x : x ≠ m → step s [] (unsubscribe_locked x s)
  (** a muxer is created, or the last reference to it goes *)
  | step_create s x : x ∉ s.(_muxers) → step s [] (set_muxers s.(_muxers) (x :: s.(alive)) s)
  | step_destroy s x : x ≠ m → step s [] (set_muxers s.(_muxers) (filter (.≠ x) s.(alive)) s)
  | step_stop_enter s : step s [] (stop_enter s).1
  | step_stop_leave s b : step s [] (stop_leave b s).

Inductive steps : engine E → list E → engine E → Prop :=
  | steps_nil s : steps s [] s
  | steps_cons s1 l1 s2 l2 s3 : step s1 l1 s2 → steps s2 l2 s3 → steps s1 (l1 ++ l2) s3.

(** The events of the pending calls that are for [m]. *)
Fixpoint flight (t : list (nat * list E)) : list E :=
  match t with
  | [] => []
  | (x, evs) :: t => (if decide (x = m) then evs else []) ++ flight t
  end.

(** The events on their way to [m]. *)
Definition in_flight s : list E := flight s.(tasks).

(** Everything accepted for [m], in order: received, on its way, queued. *)
Definition ledger s : list E := received m s ++ in_flight s ++ s.(_kiew).

Record eng_inv s : Prop := {
  inv_muxers : NoDup s.(_muxers);
  inv_sending : s.(_sending_to_subscribers) = false → s.(tasks) = [];
  inv_tasks : NoDup (s.(tasks).*1);
}.

Definition watched s : Prop := eng_inv s ∧ m ∈ s.(_muxers) ∧ m ∈ s.(alive).

Lemma flight_absent (t : list (nat * list E)) : m ∉ t.*1 → flight t = [].
Proof.
  induction t as [|[x e] t IH]; [done|]. cbn. intros Hn. apply not_elem_of_cons in Hn as [Hne Hn].
  rewrite decide_False by congruence. cbn. by apply IH.
Qed.

(** A muxer has at most one batch on its way: taking it empties the flight. *)
Lemma flight_delete (t : list (nat * list E)) i x evs :
  NoDup t.*1 → t !! i = Some (x, evs) →
  (if decide (x = m) then evs else []) ++ flight (delete i t) = flight t.
Proof.
  revert i. induction t as [|[y e] t IH]; intros [|i] Hnd Hi; try done; cbn in Hi.
  - by injection Hi as -> ->.
  - cbn in Hnd. apply NoDup_cons in Hnd as [Hn Hnd].
    change (delete (S i) ((y, e) :: t)) with ((y, e) :: delete i t). cbn [flight].
    rewrite <- (IH i) by done. destruct (decide (y = m)) as [->|Hy]; [|done].
    rewrite decide_False; [done|]. intros ->. apply Hn, list_elem_of_fmap.
    exists (m, evs). split; [done|]. by eapply list_elem_of_lookup_2.
Qed.

Lemma fst_fmap_pair (l : list nat) (k : list E) : ((λ x, (x, k)) <$> l).*1 = l.
Proof. induction l as [|x l IH]; [done|]. cbn. by rewrite IH. Qed.

Lemma flight_batch (l : list nat) (k : list E) :
  NoDup l → m ∈ l → flight ((λ x, (x, k)) <$> l) = k.
Proof.
  induction l as [|x l IH]; intros Hnd Hin; [by apply elem_of_nil in Hin|].
  cbn [fmap list_fmap flight]. apply NoDup_cons in Hnd as [Hn Hnd]. case_decide as Hx.
  - subst. rewrite flight_absent; [by rewrite app_nil_r|].
    change (list_fmap _ _ ?f l) with (f <$> l). by rewrite fst_fmap_pair.
  - apply elem_of_cons in Hin as [->|Hin]; [done|]. by apply IH.
Qed.

Lemma remove_first_sub x a l : remove_first x a l `sublist_of` l.
Proof.
  induction l as [|y l IH]; [done|]. cbn. case_decide; [by apply sublist_cons|by apply sublist_skip].
Qed.

Lemma remove_first_keeps x a l : x ≠ m → m ∈ a → m ∈ l → m ∈ remove_first x a l.
Proof.
  intros Hx Ha. induction l as [|y l IH]; [done|]. cbn. intros [->|Hin]%elem_of_cons.
  - rewrite decide_False; [by left|]. intros [?|?]; done.
  - case_decide; [done|]. right. by apply IH.
Qed.

Lemma watched_same s s' :
  (s'.(_muxers), s'.(alive), s'.(_sending_to_subscribers), s'.(tasks)) =
    (s.(_muxers), s.(alive), s.(_sending_to_subscribers), s.(tasks)) →
  watched s → watched s'.
Proof.
  intros [= E1 E2 E3 E4] [[? ? ?] [? ?]]. split; [constructor|]; by rewrite ?E1, ?E2, ?E3, ?E4.
Qed.

Lemma run_task_ledger s i :
  watched s → watched (run_task i s) ∧ ledger (run_task i s) = ledger s.
Proof.
  intros Hw. pose proof Hw as [[Hmux Hsend Htasks] [Hm Ha]]. unfold run_task.
  destruct (s.(tasks) !! i) as [[x evs]|] eqn:Hi; [|done]. split.
  - split; [|done]. constructor; try done; cbn [tasks set_tasks _sending_to_subscribers].
    + intros Hs. by rewrite (Hsend Hs) in Hi.
    + eapply sublist_NoDup; [exact Htasks|]. apply fmap_sublist. apply sublist_delete.
  - unfold ledger, in_flight. cbn [_kiew set_tasks tasks].
    rewrite <- (flight_delete s.(tasks) i x evs) by done. unfold received. cbn [delivered set_tasks].
    case_decide as Hx.
    + subst. by rewrite lookup_insert_eq, !app_assoc.
    + by rewrite lookup_insert_ne.
Qed.

Lemma send_ledger s :
  watched s → watched (_send_to_subscribers s).1 ∧ ledger (_send_to_subscribers s).1 = ledger s.
Proof.
  intros Hw. pose proof Hw as [[Hmux Hsend Htasks] [Hm Ha]]. unfold _send_to_subscribers.
  destruct s.(_sending_to_subscribers) eqn:Hs; [done|]. destruct (_ || _); [done|]. cbn [fst].
  assert (NoDup (filter (λ x, x ∈ s.(alive)) s.(_muxers))) as Hnd by by apply NoDup_filter. split.
  - split; [|done]. constructor; [done|done|]. cbn [tasks set_tasks]. by rewrite fst_fmap_pair.
  - unfold ledger, in_flight. cbn [_kiew set_tasks tasks set_kiew]. rewrite Hsend by done.
    rewrite flight_batch; [by rewrite app_nil_r|done|by apply list_elem_of_filter].
Qed.

(** Every step keeps the invariant and extends the ledger by what it accepts. *)
Lemma eng_step_ledger s evs s' :
  step s evs s' → watched s → watched s' ∧ ledger s' = ledger s ++ evs.
Proof.
  intros Hstep Hw. pose proof Hw as [[Hmux Hsend Htasks] [Hm Ha]].
  destruct Hstep as [s evs s' b Hst Hp|s evs s' b Hst Hp|s|s i|s Ht|s x Hx|s x Hx|s x Hx|s x Hx|s|s b];
    rewrite ?app_nil_r.
  - unfold publish_locked in Hp. destruct s.(_state); [| |done]; injection Hp as <- _;
      (split; [by apply (watched_same s)|]); unfold ledger; cbn; by rewrite <- !app_assoc.
  - unfold publish_locked in Hp. rewrite Hst in Hp. destruct (_ || _); [|done].
    injection Hp as <- _. split; [by apply (watched_same s)|done].
  - by apply send_ledger.
  - by apply run_task_ledger.
  - split; [|done]. split; [by constructor|done].
  - unfold subscribe. case_decide; [done|]. split; [|done].
    split; [constructor|split]; try done; cbn.
    + apply NoDup_app. split_and!; [done| |apply NoDup_singleton].
      intros y Hy ->%list_elem_of_singleton. done.
    + apply elem_of_app. by left.
  - split; [|done]. split; [constructor|split]; try done; cbn.
    + eapply sublist_NoDup; [exact Hmux|]. apply remove_first_sub.
    + by apply remove_first_keeps.
  - split; [|done]. split; [by constructor|]. split; [done|]. cbn. by right.
  - split; [|done]. split; [by constructor|]. split; [done|]. cbn.
    apply list_elem_of_filter. split; [congruence|done].
  - unfold stop_enter. destruct s.(_state); (split; [by apply (watched_same s)|done]).
  - unfold stop_leave. destruct b; (split; [by apply (watched_same s)|done]).
Qed.

Lemma steps_ledger s evs s' :
  steps s evs s' → watched s → watched s' ∧ ledger s' = ledger s ++ evs.
Proof.
  induction 1 as [s|s1 l1 s2 l2 s3 H1 _ IH]; intros Hw; [by rewrite app_nil_r|].
  destruct (eng_step_ledger s1 l1 s2 H1 Hw) as [Hw2 E2]. destruct (IH Hw2) as [Hw3 E3].
  split; [done|]. by rewrite E3, E2, app_assoc.
Qed.

(** C5: whatever the interleaving of publishers, senders, pool threads,
    subscriptions of other muxers and a stop, a muxer that stays subscribed is
    given the accepted events exactly once and in order: what it received, what
    is on its way and what waits in the queue is what was there before followed
    by what was accepted. *)
Theorem engine_delivers_in_order s evs s' :
  steps s evs s' → watched s →
  received m s' ++ in_flight s' ++ s'.(_kiew) = received m s ++ in_flight s ++ s.(_kiew) ++ evs.
Proof.
  intros Hs Hw. destruct (steps_ledger s evs s' Hs Hw) as [_ He]. unfold ledger in He.
  by rewrite He, <- !app_assoc.
Qed.
End Steps.

(** ** Stop, restart, replay *)

Section Restart.
Context {E : Type}.
Implicit Types s : engine E.

(** Publications while the engine is stopped. *)
Fixpoint publish_seq (l : list (list E)) s : option (engine E) :=
  match l with
  | [] => Some s
  | evs :: l => '(s1, _) ← publish_locked evs s; publish_seq l s1
  end.

Lemma publish_seq_stopped l s new :
  s.(_state) = stopped → s.(_cache_file) = true → s.(files).(cf_new) = Some new →
  ∃ s', publish_seq l s = Some s' ∧ s'.(_state) = stopped ∧ s'.(_cache_file) = true ∧
    s'.(_kiew) = s.(_kiew) ∧
    s'.(files) = CF s.(files).(cf_main) s.(files).(cf_old) (Some (new ++ mjoin l)).
Proof.
  revert s new. induction l as [|evs l IH]; intros s new Hst Hc Hn.
  { exists s. cbn. rewrite app_nil_r, <- Hn. split_and!; try done. by destruct s.(files). }
  cbn [publish_seq]. unfold publish_locked. rewrite Hst, Hc. cbn [orb].
  rewrite (cache_add_all evs _ new) by done. opt_simpl.
  destruct (IH (set_cache true (CF s.(files).(cf_main) s.(files).(cf_old) (Some (new ++ evs)))
    (wrap_u32 (s.(_unprocessed_events) + Z.of_nat (length evs))) s) (new ++ evs))
    as (s' & E1 & ? & ? & ? & Hf); [done..|].
  exists s'. split_and!; try done. rewrite Hf. cbn. by rewrite <- app_assoc.
Qed.

(** The events that the subscribers cannot take any more survive a restart:
    from the end of [stop] on (no transaction left behind by a crash), the
    events published to the stopped engine and then the events left in its
    queue, in this order, are what the next process replays first at its
    start, before the events it queued since. *)
Theorem engine_restart_replays s l early :
  s.(_state) = stopped → s.(files).(cf_new) = None →
  ∃ s1 c,
    publish_seq l (stop_leave true s) = Some s1 ∧ unload_commit s1 = Some c ∧
    let next := set_kiew early (eng_init c) in
    (start_locked next).1.(_state) = running ∧
    (start_locked next).1.(_kiew) = mjoin l ++ s.(_kiew) ++ early.
Proof.
  intros Hst Hnew.
  assert (∃ m, (cache_open s.(files)).(cf_main) = Some m ∧ (cache_open s.(files)).(cf_new) = None)
    as (m & Hm & Hn).
  { unfold cache_open. destruct s.(files) as [[m|] [o|] n]; cbn in *; by eexists. }
  destruct (publish_seq_stopped l (stop_leave true s) []) as (s1 & E1 & Hst1 & Hc1 & Hk1 & Hf1).
  { done. }
  { done. }
  { cbn. by rewrite Hn. }
  exists s1. unfold unload_commit, publish_locked. rewrite Hc1, Hst1. cbn [orb].
  rewrite (cache_add_all _ _ ([] ++ mjoin l)) by (by rewrite Hf1).
  rewrite Hf1, Hk1. cbn. rewrite Hm. cbn. eexists. split_and!; [done|done|done|].
  by rewrite app_assoc.
Qed.

(** [start] on an engine that was not started hands every live subscriber one
    batch: the events of the cache, then the events published before the start;
    on a started or stopped engine it changes nothing. *)
Theorem engine_start_sends s :
  (s.(_state) ≠ not_started → start_locked s = (s, false)) ∧
  (s.(_state) = not_started → s.(_sending_to_subscribers) = false → s.(_muxers) ≠ [] →
   let batch := cache_events (cache_open s.(files)) ++ s.(_kiew) in
   batch ≠ [] →
   let s1 := (_send_to_subscribers (start_locked s).1).1 in
   s1.(tasks) = (λ m, (m, batch)) <$> filter (λ m, m ∈ s.(alive)) s.(_muxers) ∧
   s1.(_kiew) = [] ∧ s1.(_state) = running).
Proof.
  split.
  - intros Hst. unfold start_locked. by destruct s.(_state).
  - intros Hst Hs Hm batch Hb. unfold start_locked. rewrite Hst. cbv zeta. fold batch.
    unfold _send_to_subscribers. cbn [fst _sending_to_subscribers set_kiew set_cache set_state].
    rewrite Hs. cbn [_muxers _kiew alive set_kiew set_cache set_state].
    rewrite (proj2 (Nat.eqb_neq (length s.(_muxers)) 0)) by by intros ?%nil_length_inv.
    by rewrite (proj2 (Nat.eqb_neq (length batch) 0)) by by intros ?%nil_length_inv.
Qed.

(** A publication between the two critical sections of [stop], or after the
    cache file could not be opened, dereferences a null [_cache_file]. *)
Theorem publish_while_stopping_crashes s evs :
  s.(_state) ≠ stopped → s.(_cache_file) = false → evs ≠ [] →
  publish_locked evs (stop_enter s).1 = None ∧
  publish_locked evs (stop_leave false (stop_enter s).1) = None.
Proof.
  intros Hst Hc Hne.
  assert (stop_enter s = (set_state stopped s, true)) as -> by (unfold stop_enter; by destruct s.(_state)).
  unfold publish_locked. cbn. rewrite Hc. cbn [orb].
  by rewrite (proj2 (Nat.eqb_neq _ _)) by by intros ?%nil_length_inv.
Qed.

(** An event published while a batch is on its way is queued and not sent; the
    end of the batch does not look at the queue again, so that the event waits
    there, with nobody sending, until another event is published. *)
Theorem event_waits_for_next_publication s e :
  s.(_state) = running → s.(_sending_to_subscribers) = true →
  ∃ s1, publish_locked [e] s = Some (s1, true) ∧ _send_to_subscribers s1 = (s1, false) ∧
    (complete s1).(_sending_to_subscribers) = false ∧
    (complete s1).(_kiew) = s.(_kiew) ++ [e] ∧ (complete s1).(tasks) = s.(tasks).
Proof.
  intros Hst Hs. unfold publish_locked. rewrite Hst. eexists. split; [reflexivity|].
  unfold _send_to_subscribers. cbn. by rewrite Hs.
Qed.
End Restart.

(** [transaction] appends to what a transaction that was never committed left
    in the [.new] file: after the commit the cache holds the events of both. *)
Theorem transaction_keeps_stale_events {E} (c : cache_files E) old stale l :
  c.(cf_main) = Some old → c.(cf_new) = Some stale →
  ∃ c', cache_commit (foldl (λ c e, cache_add e c) (cache_transaction c) l) = Some c' ∧
        cache_events (cache_open c') = stale ++ l.
Proof.
  intros Hm Hn. rewrite (cache_add_all l (cache_transaction c) stale) by (cbn; by rewrite Hn).
  unfold cache_commit, rename_main_old. cbn. rewrite Hm. cbn. by eexists.
Qed.

(** ** Witnesses *)

Module Demo.
Definition files0 : cache_files nat := CF (Some [1%nat]) None None.
Definition eng : engine nat :=
  Eng running [] 0 [1; 2]%nat [1; 2]%nat false files0 false [] ∅.
Definition after_publish : engine nat := set_kiew [7%nat] eng.
Definition after_send : engine nat := (_send_to_subscribers after_publish).1.
Definition after_tasks : engine nat := run_task 0 (run_task 1 after_send).
End Demo.

Lemma demo_steps : steps 2 Demo.eng [7%nat] (complete Demo.after_tasks).
Proof.
  apply (steps_cons 2 Demo.eng [7%nat] Demo.after_publish []).
  { by apply (step_publish 2 Demo.eng [7%nat] Demo.after_publish true). }
  apply (steps_cons 2 _ [] Demo.after_send []); [apply (step_send 2 Demo.after_publish)|].
  apply (steps_cons 2 _ [] (run_task 1 Demo.after_send) []); [apply step_task|].
  apply (steps_cons 2 _ [] Demo.after_tasks []); [apply step_task|].
  apply (steps_cons 2 _ [] (complete Demo.after_tasks) []); [by apply step_complete|].
  apply steps_nil.
Qed.

Lemma cache_commit_atomic_witness :
  ∃ c', crash_after 1 (CF (Some [1]) None (Some [2; 3])) = Some c' ∧
        cache_events (cache_open c') = [1].
Proof. by apply (cache_commit_atomic (CF (Some [1]) None (Some [2; 3])) [1] [2; 3] 1). Defined.

Lemma engine_delivers_in_order_witness :
  received 2 (complete Demo.after_tasks) = [7%nat] ∧
  received 2 (complete Demo.after_tasks) ++ in_flight 2 (complete Demo.after_tasks) ++
    (complete Demo.after_tasks).(_kiew) = [7%nat].
Proof.
  split; [vm_compute; reflexivity|].
  rewrite (engine_delivers_in_order 2 Demo.eng [7%nat] (complete Demo.after_tasks) demo_steps).
  - vm_compute. reflexivity.
  - split; [constructor|split]; cbn; try done.
    + apply (bool_decide_unpack _). vm_compute. exact I.
    + apply NoDup_nil_2.
    + by right; left.
    + by right; left.
Defined.

Lemma engine_restart_replays_witness :
  ∃ s1 c,
    publish_seq [[8%nat]; [9%nat]] (stop_leave true (set_state stopped Demo.after_publish)) = Some s1 ∧
    unload_commit s1 = Some c ∧
    (start_locked (set_kiew [10%nat] (eng_init c))).1.(_kiew) = [8; 9; 7; 10]%nat.
Proof.
  destruct (engine_restart_replays (set_state stopped Demo.after_publish) [[8%nat]; [9%nat]] [10%nat])
    as (s1 & c & H1 & H2 & _ & H3); [done..|]. by exists s1, c.
Defined.

Lemma engine_start_sends_witness :
  (_send_to_subscribers (start_locked (set_state not_started Demo.after_publish)).1).1.(tasks)
    = [(1, [1; 7]); (2, [1; 7])]%nat.
Proof.
  destruct (engine_start_sends (set_state not_started Demo.after_publish)) as [_ H].
  destruct H as [-> _]; try done.
Defined.

Lemma publish_while_stopping_crashes_witness :
  publish_locked [5%nat] (stop_enter Demo.eng).1 = None.
Proof. by apply (publish_while_stopping_crashes Demo.eng [5%nat]). Defined.

Lemma event_waits_for_next_publication_witness :
  ∃ s1, publish_locked [5%nat] Demo.after_send = Some (s1, true) ∧
        (complete s1).(_kiew) = [5%nat] ∧ (complete s1).(_sending_to_subscribers) = false.
Proof.
  destruct (event_waits_for_next_publication Demo.after_send 5%nat) as (s1 & H1 & _ & H2 & H3 & _);
    [done..|]. by exists s1.
Defined.

Lemma transaction_keeps_stale_events_witness :
  ∃ c', cache_commit (foldl (λ c e, cache_add e c)
          (cache_transaction (CF (Some [1]) None (Some [2]))) [3]) = Some c' ∧
        cache_events (cache_open c') = [2; 3].
Proof.
  by apply (transaction_keeps_stale_events (CF (Some [1]) None (Some [2])) [1] [2] [3]).
Defined.
