(* ===== verification/Failover.v ===== *)
(** * Failover: the thread of an output

    [broker/core/src/processing/failover.cc]: the thread opens its endpoint, sends
    it the events of the muxer, acknowledges to the muxer what the stream says is
    done, and starts again when something fails.

    The thread is a state machine: a step is one call on the muxer or on the stream,
    so that other threads may publish between any two of them.  The endpoint is a
    parameter: what the streams of the broker promise is the class [EndpointLaws]. *)

From S2P Require Import Prelude EventFilter PFile Muxer.

(** ** The endpoint *)

(** [S] is a stream, [W] the world it works in: the network, a database. *)
Class Endpoint (E S W : Type) := {
  (** [io::endpoint::open] *)
  ep_open : St W (option S);
  (** [io::stream::update], [read] with a deadline of 0, [write], [flush], [stop] *)
  ep_update : St (S * W) unit;
  ep_read : St (S * W) (bool * option E);
  ep_write : E → St (S * W) Z;
  ep_flush : St (S * W) Z;
  ep_stop : St (S * W) Z;
  (** the destructor *)
  ep_close : S → W → W;
  (** the secondary endpoints, by their position *)
  sec_open : nat → St W bool;
  sec_write : nat → E → St W unit;
}.

(** What a stream promises.  [delivered] are the events that the destination holds,
    for good.  [session base written returned s w]: when [s] was opened the
    destination held [base]; [written] was written to [s], and the calls on [s]
    returned a total of [returned]. *)
Class EndpointLaws (E S W : Type) `{!Endpoint E S W} := {
  delivered : W → list E;
  session : list E → list E → nat → S → W → Prop;
  (** the destination holds the first events written, at least those acknowledged *)
  session_delivered base written returned s w : session base written returned s w →
    ∃ h, (returned ≤ h ≤ length written)%nat ∧ delivered w = base ++ take h written;
  ep_open_spec w : let '(r, w') := ep_open w in
    delivered w `prefix_of` delivered w' ∧ ∀ s, r = Ret (Some s) → session (delivered w') [] 0 s w';
  ep_update_spec base written n s w : session base written n s w →
    let '(_, (s', w')) := ep_update (s, w) in session base written n s' w';
  ep_read_spec base written n s w : session base written n s w →
    let '(_, (s', w')) := ep_read (s, w) in session base written n s' w';
  ep_write_spec base written n s w e : session base written n s w →
    let '(r, (s', w')) := ep_write e (s, w) in
    match r with
    | Ret k => 0 ≤ k ∧ session base (written ++ [e]) (n + Z.to_nat k) s' w'
    | Throw _ => session base written n s' w' ∨ session base (written ++ [e]) n s' w'
    end;
  ep_flush_spec base written n s w : session base written n s w →
    let '(r, (s', w')) := ep_flush (s, w) in
    match r with
    | Ret k => 0 ≤ k ∧ session base written (n + Z.to_nat k) s' w'
    | Throw _ => session base written n s' w'
    end;
  ep_stop_spec base written n s w : session base written n s w →
    let '(r, (s', w')) := ep_stop (s, w) in
    match r with
    | Ret k => 0 ≤ k ∧ session base written (n + Z.to_nat k) s' w'
    | Throw _ => session base written n s' w'
    end;
  ep_close_spec base written n s w : session base written n s w → delivered w `prefix_of` delivered (ep_close s w);
  sec_open_spec i w : let '(_, w') := sec_open i w in
    delivered w' = delivered w ∧ ∀ base written n s, session base written n s w → session base written n s w';
  sec_write_spec i e w : let '(_, w') := sec_write i e w in
    delivered w' = delivered w ∧ ∀ base written n s, session base written n s w → session base written n s w';
}.

(** ** The state *)

Inductive _running_state := not_started | running | stopped.

(** The variables of the loop over the events. *)
Record locals := Locals {
  (** the secondary streams that are open *)
  secondaries : list nat;
  stream_can_read : bool;
  muxer_can_read : bool;
  should_commit : bool;
}.

Definition set_stream_can_read (b : bool) (l : locals) : locals :=
  Locals l.(secondaries) b l.(muxer_can_read) l.(should_commit).
Definition set_muxer_can_read (b : bool) (l : locals) : locals :=
  Locals l.(secondaries) l.(stream_can_read) b l.(should_commit).
Definition set_should_commit (b : bool) (l : locals) : locals :=
  Locals l.(secondaries) l.(stream_can_read) l.(muxer_can_read) b.

(** Where the thread is in [_run]. *)
Inductive phase (E : Type) :=
  | out_of_run
  | opening
  | opened
  | looping (l : locals)
  | muxer_reading (timed_out_stream : bool) (l : locals)
  | stream_writing (d : E) (timed_out_stream : bool) (l : locals)
  | acking (we : Z) (d : E) (timed_out_stream : bool) (l : locals)
  | idling (timed_out_stream timed_out_muxer : bool) (l : locals)
  | flush_acking (we : Z) (l : locals)
  | failed
  | clearing
  | finishing.
Arguments out_of_run {E}.
Arguments opening {E}.
Arguments opened {E}.
Arguments looping {E} _.
Arguments muxer_reading {E} _ _.
Arguments stream_writing {E} _ _ _.
Arguments acking {E} _ _ _ _.
Arguments idling {E} _ _ _.
Arguments flush_acking {E} _ _.
Arguments failed {E}.
Arguments clearing {E}.
Arguments finishing {E}.

Section Failover.
Context {E D S W : Type} `{!PFile D E, !Endpoint E S W}.
Context (etype : E → Z) (max_size : Z).

Record failover := Failover {
  _state : _running_state;
  _should_exit : bool;
  (** the number of secondary endpoints, and whether there is a failover *)
  _secondary_endpoints : nat;
  _failover : bool;
  _failover_launched : bool;
  _initialized : bool;
  _next_timeout : Z;
  _update : bool;
  _stream : option S;
  _muxer : muxer E D;
  fo_world : W;
  (** what the thread hands over to the multiplexing engine *)
  _engine : list E;
  fo_phase : phase E;
}.

Definition set_phase (p : phase E) (f : failover) : failover :=
  Failover f.(_state) f.(_should_exit) f.(_secondary_endpoints) f.(_failover) f.(_failover_launched) f.(_initialized)
    f.(_next_timeout) f.(_update) f.(_stream) f.(_muxer) f.(fo_world) f.(_engine) p.
Definition set_running (r : _running_state) (exit : bool) (f : failover) : failover :=
  Failover r exit f.(_secondary_endpoints) f.(_failover) f.(_failover_launched) f.(_initialized)
    f.(_next_timeout) f.(_update) f.(_stream) f.(_muxer) f.(fo_world) f.(_engine) f.(fo_phase).
Definition set_launched (b init : bool) (f : failover) : failover :=
  Failover f.(_state) f.(_should_exit) f.(_secondary_endpoints) f.(_failover) b init
    f.(_next_timeout) f.(_update) f.(_stream) f.(_muxer) f.(fo_world) f.(_engine) f.(fo_phase).
Definition set_next_timeout (t : Z) (f : failover) : failover :=
  Failover f.(_state) f.(_should_exit) f.(_secondary_endpoints) f.(_failover) f.(_failover_launched) f.(_initialized)
    t f.(_update) f.(_stream) f.(_muxer) f.(fo_world) f.(_engine) f.(fo_phase).
Definition set_update (b : bool) (f : failover) : failover :=
  Failover f.(_state) f.(_should_exit) f.(_secondary_endpoints) f.(_failover) f.(_failover_launched) f.(_initialized)
    f.(_next_timeout) b f.(_stream) f.(_muxer) f.(fo_world) f.(_engine) f.(fo_phase).
Definition set_stream (s : option S) (w : W) (f : failover) : failover :=
  Failover f.(_state) f.(_should_exit) f.(_secondary_endpoints) f.(_failover) f.(_failover_launched) f.(_initialized)
    f.(_next_timeout) f.(_update) s f.(_muxer) w f.(_engine) f.(fo_phase).
Definition set_muxer (m : muxer E D) (f : failover) : failover :=
  Failover f.(_state) f.(_should_exit) f.(_secondary_endpoints) f.(_failover) f.(_failover_launched) f.(_initialized)
    f.(_next_timeout) f.(_update) f.(_stream) m f.(fo_world) f.(_engine) f.(fo_phase).
Definition to_engine (l : list E) (f : failover) : failover :=
  Failover f.(_state) f.(_should_exit) f.(_secondary_endpoints) f.(_failover) f.(_failover_launched) f.(_initialized)
    f.(_next_timeout) f.(_update) f.(_stream) f.(_muxer) f.(fo_world) (f.(_engine) ++ l) f.(fo_phase).

(** A call on the stream; there is none without a stream. *)
Definition on_stream {A} (call : St (S * W) A) (f : failover) : res A * failover :=
  match f.(_stream) with
  | None => (Throw undefined, f)
  | Some s => let '(r, (s', w')) := call (s, f.(fo_world)) in (r, set_stream (Some s') w' f)
  end.

(** [_muxer->ack_events(we)] *)
Definition ack (fuel : nat) (we : Z) (f : failover) : res failover :=
  match ack_events max_size fuel we f.(_muxer) with
  | (Ret _, m) => Ret (set_muxer m f)
  | (Throw e, _) => Throw e
  end.

(** [_stream->stop()], the acknowledgement and the end of the stream.  When [stop]
    throws, the number of events that is acknowledged was never set. *)
Definition stop_stream (fuel : nat) (f : failover) : res failover :=
  match f.(_stream) with
  | None => Ret f
  | Some _ =>
      match on_stream ep_stop f with
      | (Throw _, _) => Throw undefined
      | (Ret n, f) =>
          match ack fuel n f with
          | Throw e => Throw e
          | Ret f =>
              Ret (match f.(_stream) with
                   | Some s => set_stream None (ep_close s f.(fo_world)) f
                   | None => f
                   end)
          end
      end
  end.

(** The secondary streams that could be opened. *)
Fixpoint open_secondaries (n : nat) (w : W) : list nat * W :=
  match n with
  | O => ([], w)
  | Datatypes.S n =>
      let '(l, w) := open_secondaries n w in
      match sec_open n w with
      | (Ret true, w) => (l ++ [n], w)
      | (_, w) => (l, w)
      end
  end.

(** A secondary that throws is removed. *)
Fixpoint write_secondaries (d : E) (l : list nat) (w : W) : list nat * W :=
  match l with
  | [] => ([], w)
  | i :: l =>
      match sec_write i d w with
      | (Ret _, w) => let '(l, w) := write_secondaries d l w in (i :: l, w)
      | (Throw _, w) => write_secondaries d l w
      end
  end.

(** [_launch_failover] *)
Definition _launch_failover (f : failover) : failover :=
  let f := set_muxer (nack_events f.(_muxer)) f in
  if f.(_failover) && negb f.(_failover_launched) then set_launched true f.(_initialized) f else f.

(** [on_exception_handler] *)
Definition on_exception_handler (fuel : nat) (f : failover) : res failover :=
  match stop_stream fuel f with
  | Throw e => Throw e
  | Ret f =>
      Ret (if f.(_should_exit) then f
           else let f := _launch_failover f in set_launched f.(_failover_launched) true f)
  end.

(** The exceptions of the C++ code, that the thread catches. *)
Definition caught (e : exn) : bool := negb (bool_decide (e = undefined)) && negb (bool_decide (e = fuel_exhausted)).
Definition fail (e : exn) (f : failover) : res failover := if caught e then Ret (set_phase failed f) else Throw e.

(** The top of the loop: the update of the stream, then a read from it. *)
Definition loop_top (l : locals) (f : failover) : res failover :=
  if f.(_should_exit) then Ret (set_phase clearing f)
  else
    let '(r, f) := if f.(_update) then on_stream ep_update f else (Ret tt, f) in
    match r with
    | Throw e => fail e f
    | Ret _ =>
        let f := set_update false f in
        if l.(stream_can_read) then
          match on_stream ep_read f with
          | (Throw shutdown, f) => Ret (set_phase (muxer_reading true (set_stream_can_read false l)) f)
          | (Throw e, f) => fail e f
          | (Ret (_, Some d), f) => Ret (set_phase (looping l) (to_engine (Muxer.write etype (Some d) f.(_muxer)).2 f))
          | (Ret (b, None), f) => Ret (set_phase (muxer_reading (negb b) l) f)
          end
        else Ret (set_phase (muxer_reading true l) f)
    end.

(** One step of [_run]. *)
Definition step (fuel : nat) (now : Z) (f : failover) : res failover :=
  match f.(fo_phase) with
  | out_of_run => Ret f
  | opening =>
      match ep_open f.(fo_world) with
      | (Throw e, w) => fail e (set_stream f.(_stream) w f)
      | (Ret None, w) => fail msg_fmt (set_stream f.(_stream) w f)
      | (Ret (Some s), w) =>
          Ret (set_phase opened (set_update true (set_launched f.(_failover_launched) true (set_stream (Some s) w f))))
      end
  | opened =>
      let '(secs, w) := open_secondaries f.(_secondary_endpoints) f.(fo_world) in
      let f := set_launched false f.(_initialized) (set_stream f.(_stream) w f) in
      let f := set_muxer (nack_events f.(_muxer)) f in
      Ret (set_phase (looping (Locals secs true true false)) f)
  | looping l => loop_top l f
  | muxer_reading timed_out_stream l =>
      if l.(muxer_can_read) then
        let '(b, d, m) := Muxer.read 0 id f.(_muxer) in
        let f := set_muxer m f in
        match d with
        | Some d => Ret (set_phase (stream_writing d timed_out_stream (set_should_commit true l)) f)
        | None => Ret (set_phase (idling timed_out_stream (negb b) l) f)
        end
      else Ret (set_phase (idling timed_out_stream true l) f)
  | stream_writing d timed_out_stream l =>
      match on_stream (ep_write d) f with
      | (Ret we, f) => Ret (set_phase (acking we d timed_out_stream l) f)
      | (Throw shutdown, f) => Ret (set_phase (acking 0 d timed_out_stream (set_muxer_can_read false l)) f)
      | (Throw e, f) => fail e f
      end
  | acking we d timed_out_stream l =>
      match ack fuel we f with
      | Throw e => Throw e
      | Ret f =>
          let '(secs, w) := write_secondaries d l.(secondaries) f.(fo_world) in
          let l := Locals secs l.(stream_can_read) l.(muxer_can_read) l.(should_commit) in
          Ret (set_phase (idling timed_out_stream false l) (set_stream f.(_stream) w f))
      end
  | idling timed_out_stream timed_out_muxer l =>
      if timed_out_stream && timed_out_muxer then
        if l.(should_commit) || (f.(_next_timeout) <=? now) then
          match on_stream ep_flush (set_next_timeout (now + 1) f) with
          | (Ret we, f) => Ret (set_phase (flush_acking we (set_should_commit false l)) f)
          | (Throw e, f) => fail e f
          end
        else Ret (set_phase (flush_acking 0 l) f)
      else Ret (set_phase (looping l) f)
  | flush_acking we l =>
      match ack fuel we f with Throw e => Throw e | Ret f => Ret (set_phase (looping l) f) end
  | failed =>
      match on_exception_handler fuel f with Throw e => Throw e | Ret f => Ret (set_phase clearing f) end
  | clearing =>
      match stop_stream fuel f with
      | Throw e => Throw e
      | Ret f => Ret (set_phase (if f.(_should_exit) then finishing else opening) f)
      end
  | finishing =>
      match stop_stream fuel f with
      | Throw e => Throw e
      | Ret f => Ret (set_phase out_of_run (set_running stopped f.(_should_exit) f))
      end
  end.

(** [start]: a thread that is not running starts. *)
Definition start (f : failover) : failover :=
  match f.(_state), f.(fo_phase) with
  | running, _ => f
  | _, out_of_run => set_phase opening (set_running running false f)
  | _, _ => f
  end.

(** [exit], before it waits for the thread. *)
Definition exit (f : failover) : failover :=
  match f.(_state) with not_started => f | _ => set_running f.(_state) true f end.

(** [update] *)
Definition update (f : failover) : failover := set_update true f.
End Failover.
Arguments failover : clear implicits.

(** ** What happens to a failover *)

Section Facts.
Context {E D S W : Type} `{!PFile D E, !PFileLaws D E, !Endpoint E S W, !EndpointLaws E S W}.
Context (etype : E → Z) (max_size : Z).
Implicit Types (f : failover E D S W) (m : muxer E D).

Definition enough (fuel : nat) m : Prop := (lag_max < fuel)%nat ∧ (length (contents m.(queue_disk)) < fuel)%nat.

(** The thread makes a step, another thread publishes events (those that pass the
    filter are noted), or starts, stops or updates the failover. *)
Inductive fo_step : failover E D S W → list E → failover E D S W → Prop :=
  | fo_run fuel now f f' : enough fuel f.(_muxer) → step etype max_size fuel now f = Ret f' → fo_step f [] f'
  | fo_publish evt m' f : publish etype max_size 2 evt f.(_muxer) = (Ret tt, m') →
      fo_step f (accepted etype f.(_muxer) evt) (set_muxer m' f)
  | fo_start f : fo_step f [] (start f)
  | fo_exit f : fo_step f [] (exit f)
  | fo_update f : fo_step f [] (update f).

Inductive fo_steps : failover E D S W → list E → failover E D S W → Prop :=
  | fo_nil f : fo_steps f [] f
  | fo_snoc f1 f2 f3 pubs new : fo_steps f1 pubs f2 → fo_step f2 new f3 → fo_steps f1 (pubs ++ new) f3.

(** ** The invariant

    [all] are the events that the muxer was ever given, [d0] what the destination
    held at the start.  [before] were acknowledged before this session; [now] in this
    session, where [written] was written to the stream. *)
Section Invariant.
Context (d0 : list E).

Record linked (before acked written : list E) (new all : list E) m : Prop := {
  linked_all : all = before ++ acked ++ logical m;
  linked_before : before `sublist_of` new;
  linked_written : written `prefix_of` acked ++ logical m;
  linked_read : (length written ≤ length acked + cursor m)%nat;
}.

(** The acknowledgement that the muxer was not given yet, and what the variables of
    the loop say. *)
Definition owed (p : phase E) : nat :=
  match p with acking we _ _ _ | flush_acking we _ => Z.to_nat we | _ => 0 end.

Definition in_step (p : phase E) (acked written : list E) m : Prop :=
  match p with
  | looping l | muxer_reading _ l | acking _ _ _ l | idling _ _ l | flush_acking _ l =>
      l.(muxer_can_read) = true → length written = (length acked + cursor m)%nat
  | opened => acked = [] ∧ written = []
  | stream_writing d _ l =>
      (length acked + cursor m = length written + 1)%nat ∧ (acked ++ logical m) !! length written = Some d
  | _ => True
  end.

(** The phases without a stream. *)
Definition apart (p : phase E) : Prop :=
  match p with out_of_run | opening | finishing => True | _ => False end.

Definition fo_inv (all : list E) f : Prop :=
  mux_inv max_size f.(_muxer) ∧
  match f.(_stream) with
  | None =>
      (apart f.(fo_phase) ∨ f.(fo_phase) = failed ∨ f.(fo_phase) = clearing) ∧
      ∃ before new, linked before [] [] new all f.(_muxer) ∧ delivered f.(fo_world) = d0 ++ new
  | Some s =>
      ¬ apart f.(fo_phase) ∧
      ∃ before acked written new, linked before acked written new all f.(_muxer) ∧
        session (d0 ++ new) written (length acked + owed f.(fo_phase)) s f.(fo_world) ∧
        in_step f.(fo_phase) acked written f.(_muxer)
  end.

(** *** Lemmas *)

Lemma prefix_take_of (l1 l2 l : list E) n :
  l1 `prefix_of` l → l2 `prefix_of` l → (length l1 ≤ n)%nat → (n ≤ length l2)%nat → l1 `prefix_of` take n l2.
Proof.
  intros [k1 ->] [k2 H2] H1n Hn2. exists (take (n - length l1) k1).
  assert (take n (l1 ++ k1) = take n l2) as <- by (rewrite H2; by apply take_app_le).
  by rewrite take_app_ge by lia.
Qed.

Lemma settle before acked written new all n m s w :
  linked before acked written new all m → session (d0 ++ new) written (length acked + n) s w →
  (n ≤ cursor m)%nat ∧ ∃ new', delivered w = d0 ++ new' ∧ before ++ acked `sublist_of` new'.
Proof.
  intros [Ha Hb Hw Hr] Hs. destruct (session_delivered _ _ _ _ _ Hs) as (h & Hh & Hd). split; [lia|].
  exists (new ++ take h written). rewrite Hd, app_assoc. split; [done|]. apply sublist_app; [done|].
  destruct (prefix_take_of acked written (acked ++ logical m) h) as [k ->]; [by eexists|done|lia|lia|].
  by apply sublist_inserts_r.
Qed.

(** What the invariant says of the destination. *)
Lemma inv_delivered all f : fo_inv all f →
  ∃ acked new, all = acked ++ logical f.(_muxer) ∧ delivered f.(fo_world) = d0 ++ new ∧ acked `sublist_of` new.
Proof.
  intros [_ Hi]. destruct (_stream f) as [s|].
  - destruct Hi as (_ & before & acked & written & new & Hl & Hs & _).
    destruct (settle _ _ _ _ _ _ _ _ _ Hl Hs) as (_ & new' & Hd & Hsub).
    exists (before ++ acked), new'. split_and!; [|done|done]. rewrite <- app_assoc. apply Hl.
  - destruct Hi as (_ & before & new & [Ha Hb _ _] & Hd). exists before, new. by split_and!.
Qed.

(** The acknowledgement of events that were read. *)
Lemma ack_linked fuel n before acked written new all f :
  mux_inv max_size f.(_muxer) → enough fuel f.(_muxer) → linked before acked written new all f.(_muxer) → (Z.to_nat n ≤ cursor f.(_muxer))%nat →
  ∃ m' more, ack max_size fuel n f = Ret (set_muxer m' f) ∧ mux_inv max_size m' ∧
    linked before (acked ++ more) written new all m' ∧ length more = Z.to_nat n ∧ (length more + cursor m' = cursor f.(_muxer))%nat ∧
    more ++ logical m' = logical f.(_muxer).
Proof.
  intros Hm [Hf1 Hf2] [Ha Hb Hw Hr] Hn.
  destruct (ack_events_spec max_size fuel n f.(_muxer) Hm Hf1 Hf2) as (m' & Hack & Hm' & Hlog & Hcur).
  rewrite Nat.min_l in Hlog by done. pose proof (cursor_le _ (proj1 Hm)) as Hc.
  exists m', (take (Z.to_nat n) (logical f.(_muxer))).
  assert (take (Z.to_nat n) (logical f.(_muxer)) ++ logical m' = logical f.(_muxer)) as Hsplit by (rewrite Hlog; apply take_drop).
  assert (length (take (Z.to_nat n) (logical f.(_muxer))) = Z.to_nat n) as Hlen.
  { rewrite length_take_le; [done|]. unfold logical. rewrite length_app. lia. }
  split_and!; [unfold ack; by rewrite Hack|done| |done|lia|done].
  split; [by rewrite <- app_assoc, Hsplit|done|by rewrite <- app_assoc, Hsplit|]. rewrite length_app, Hlen. lia.
Qed.

Lemma stop_stream_inv fuel before acked written new all s f f' :
  mux_inv max_size f.(_muxer) → enough fuel f.(_muxer) → f.(_stream) = Some s →
  linked before acked written new all f.(_muxer) → session (d0 ++ new) written (length acked) s f.(fo_world) →
  stop_stream max_size fuel f = Ret f' →
  ∃ m' w', f' = set_stream None w' (set_muxer m' f) ∧ mux_inv max_size m' ∧
    ∃ before' new', linked before' [] [] new' all m' ∧ delivered w' = d0 ++ new'.
Proof.
  intros Hm Hfuel Hst Hl Hs Hstop. unfold stop_stream, on_stream in Hstop. rewrite Hst in Hstop.
  pose proof (ep_stop_spec _ _ _ _ _ Hs) as Hspec.
  destruct (ep_stop (s, fo_world f)) as [[n|e] [s1 w1]]; [|done]. destruct Hspec as [Hn0 Hs1].
  destruct (settle _ _ _ _ _ _ _ _ _ Hl Hs1) as (Hn & _).
  destruct (ack_linked fuel n before acked written new all (set_stream (Some s1) w1 f)) as (m' & more & Hack & Hm' & Hl' & Hlen & Hcur & Hsplit);
    [done..|]. rewrite Hack in Hstop. cbn in Hstop. injection Hstop as <-.
  exists m', (ep_close s1 w1). split; [by destruct f|]. split; [done|].
  assert (session (d0 ++ new) written (length (acked ++ more) + 0) s1 w1) as Hs2 by (by rewrite length_app, Hlen, Nat.add_0_r).
  destruct (settle _ _ _ _ _ _ _ _ _ Hl' Hs2) as (_ & new' & Hd & Hsub).
  destruct (ep_close_spec _ _ _ _ _ Hs1) as [late Hlate]. exists (before ++ acked ++ more), (new' ++ late).
  rewrite Hlate, Hd, <- app_assoc. split; [|done]. split.
  - cbn [app]. rewrite <- app_assoc. apply Hl'.
  - by apply sublist_inserts_r.
  - apply prefix_nil.
  - cbn. lia.
Qed.

(** *** The steps *)

Lemma linked_nil before new all m : linked before [] [] new all m ↔ all = before ++ logical m ∧ before `sublist_of` new.
Proof. split; [intros [? ? _ _]; done|]. intros [? ?]. split; [done|done|apply prefix_nil|cbn; lia]. Qed.

(** Without a stream, what is done to the muxer must keep its events. *)
Lemma apart_inv all p m w f :
  f.(_stream) = None → f.(_muxer) = m → f.(fo_world) = w → f.(fo_phase) = p →
  (apart p ∨ p = failed ∨ p = clearing) → mux_inv max_size m →
  (∃ before new, linked before [] [] new all m ∧ delivered w = d0 ++ new) → fo_inv all f.
Proof. intros Hs <- <- <- Hp Hm Hl. split; [done|]. by rewrite Hs. Qed.

Lemma session_inv all p before acked written new m s w f :
  f.(_stream) = Some s → f.(_muxer) = m → f.(fo_world) = w → f.(fo_phase) = p →
  ¬ apart p → mux_inv max_size m → linked before acked written new all m →
  session (d0 ++ new) written (length acked + owed p) s w → in_step p acked written m → fo_inv all f.
Proof. intros Hs <- <- <- Hp Hm Hl Hse Hin. split; [done|]. rewrite Hs. split; [done|]. by exists before, acked, written, new. Qed.

Lemma fail_ret e f f' : fail e f = Ret f' → f' = set_phase failed f.
Proof. unfold fail. destruct (caught e); congruence. Qed.

Lemma opening_inv fuel now all f f' :
  f.(fo_phase) = opening → fo_inv all f → step etype max_size fuel now f = Ret f' → fo_inv all f'.
Proof.
  intros Hp [Hm Hi] Hs. unfold step in Hs. rewrite Hp in Hs, Hi. destruct (_stream f) as [s|] eqn:Hst; [by destruct Hi as [[] _]|].
  destruct Hi as (_ & before & new & Hl & Hd). pose proof (ep_open_spec (fo_world f)) as Hspec.
  destruct (ep_open (fo_world f)) as [r w']. destruct Hspec as [[late Hlate] Hsess].
  assert (delivered w' = d0 ++ (new ++ late)) as Hd' by (by rewrite Hlate, Hd, app_assoc).
  assert (linked before [] [] (new ++ late) all (_muxer f)) as Hl'.
  { apply linked_nil in Hl as [? ?]. apply linked_nil. split; [done|]. by apply sublist_inserts_r. }
  destruct r as [[s|]|e].
  - injection Hs as <-. specialize (Hsess s eq_refl). rewrite Hd' in Hsess.
    eapply (session_inv _ opened before [] [] (new ++ late)); try done; by intros [].
  - apply fail_ret in Hs as ->. eapply (apart_inv _ failed); try done; [tauto|by eexists _, _].
  - apply fail_ret in Hs as ->. eapply (apart_inv _ failed); try done; [tauto|by eexists _, _].
Qed.

Lemma secondaries_spec n w secs w' : open_secondaries (E:=E) (S:=S) n w = (secs, w') →
  delivered w' = delivered w ∧ ∀ base written k s, session base written k s w → session base written k s w'.
Proof.
  revert secs w'. induction n as [|n IH]; intros secs w' Ho; cbn in Ho; [by injection Ho as <- <-|].
  destruct (open_secondaries n w) as [l w1]. destruct (IH _ _ eq_refl) as [Hd Hs].
  pose proof (sec_open_spec n w1) as Hspec. destruct (sec_open n w1) as [r w2]. destruct Hspec as [Hd2 Hs2].
  assert (w' = w2) as -> by (destruct r as [[]|]; congruence). split; [congruence|]. auto.
Qed.

Lemma write_secondaries_spec d l : ∀ w secs w', write_secondaries (S:=S) d l w = (secs, w') →
  delivered w' = delivered w ∧ ∀ base written k s, session base written k s w → session base written k s w'.
Proof.
  induction l as [|i l IH]; intros w secs w' Ho; cbn in Ho; [by injection Ho as <- <-|].
  pose proof (sec_write_spec i d w) as Hspec. destruct (sec_write i d w) as [r w1]. destruct Hspec as [Hd1 Hs1].
  destruct (write_secondaries d l w1) as [secs1 w2] eqn:Hw. destruct (IH _ _ _ Hw) as [Hd2 Hs2].
  assert (w' = w2) as -> by (destruct r; congruence). split; [congruence|]. auto.
Qed.

Lemma opened_inv fuel now all f f' :
  f.(fo_phase) = opened → fo_inv all f → step etype max_size fuel now f = Ret f' → fo_inv all f'.
Proof.
  intros Hp [Hm Hi] Hs. unfold step in Hs. rewrite Hp in Hs, Hi. destruct (_stream f) as [s|] eqn:Hst; [|naive_solver].
  destruct Hi as (_ & before & acked & written & new & Hl & Hse & [-> ->]). cbn [owed length] in Hse.
  destruct (open_secondaries _ _) as [secs w'] eqn:Ho. destruct (secondaries_spec _ _ _ _ Ho) as [Hd Hsec]. injection Hs as <-.
  destruct (nack_spec max_size _ Hm) as (Hm' & Hlog & Hcur).
  eapply (session_inv _ (looping _) before [] [] new (nack_events f.(_muxer))); try done; [by intros []|..].
  - apply linked_nil. rewrite Hlog. by apply linked_nil.
  - by apply Hsec.
  - intros _. by rewrite Hcur.
Qed.

(** A call on the stream that writes nothing. *)
Lemma on_stream_keeps {A} (call : St (S * W) A) before acked written new all s f r f' :
  (∀ base wr n s w, session base wr n s w → let '(_, (s', w')) := call (s, w) in session base wr n s' w') →
  f.(_stream) = Some s → linked before acked written new all f.(_muxer) → session (d0 ++ new) written (length acked) s f.(fo_world) →
  on_stream call f = (r, f') →
  ∃ s' w', f' = set_stream (Some s') w' f ∧ session (d0 ++ new) written (length acked) s' w'.
Proof.
  intros Hcall Hst Hl Hse Ho. unfold on_stream in Ho. rewrite Hst in Ho. specialize (Hcall _ _ _ _ _ Hse).
  destruct (call (s, fo_world f)) as [r' [s' w']]. injection Ho as -> <-. by exists s', w'.
Qed.

Lemma looping_inv l all f f' :
  f.(fo_phase) = looping l → fo_inv all f → loop_top etype l f = Ret f' → fo_inv all f'.
Proof.
  intros Hp [Hm Hi] Hs. rewrite Hp in Hi. destruct (_stream f) as [s|] eqn:Hst; [|naive_solver].
  destruct Hi as (_ & before & acked & written & new & Hl & Hse & Hin). cbn [owed] in Hse. rewrite Nat.add_0_r in Hse.
  unfold loop_top in Hs. destruct (_should_exit f).
  { injection Hs as <-. eapply (session_inv _ clearing before acked written new); try done; [by intros []|by rewrite Nat.add_0_r]. }
  destruct (if _update f then _ else _) as [r f1] eqn:Hu.
  assert (∃ s1 w1, f1 = set_stream (Some s1) w1 f ∧ session (d0 ++ new) written (length acked) s1 w1) as (s1 & w1 & -> & Hse1).
  { destruct (_update f); [eapply on_stream_keeps; [apply ep_update_spec|done..]|].
    injection Hu as _ <-. exists s, (fo_world f). split; [|done]. rewrite <- Hst. by destruct f. }
  destruct r as [[]|e]; cycle 1.
  { apply fail_ret in Hs as ->. eapply (session_inv _ failed before acked written new); try done; [by intros []|by rewrite Nat.add_0_r]. }
  set (f2 := set_update false (set_stream (Some s1) w1 f)) in *.
  destruct (stream_can_read l) eqn:Hcan; cycle 1.
  { injection Hs as <-. eapply (session_inv _ (muxer_reading _ l) before acked written new); try done; [by intros []|by rewrite Nat.add_0_r]. }
  destruct (on_stream ep_read f2) as [r f3] eqn:Hr.
  destruct (on_stream_keeps ep_read before acked written new all s1 f2 r f3 ep_read_spec) as (s3 & w3 & -> & Hse3); try done.
  destruct r as [[b [d|]]|e].
  - injection Hs as <-. eapply (session_inv _ (looping l) before acked written new); try done; [by intros []|by rewrite Nat.add_0_r].
  - injection Hs as <-. eapply (session_inv _ (muxer_reading _ l) before acked written new); try done; [by intros []|by rewrite Nat.add_0_r].
  - assert (f' = set_phase (muxer_reading true (set_stream_can_read false l)) (set_stream (Some s3) w3 f2) ∨
            f' = set_phase failed (set_stream (Some s3) w3 f2)) as [-> | ->].
    { destruct e; first [left; congruence|right; by apply fail_ret in Hs]. }
    + eapply (session_inv _ (muxer_reading _ _) before acked written new); try done; [by intros []|by rewrite Nat.add_0_r].
    + eapply (session_inv _ failed before acked written new); try done; [by intros []|by rewrite Nat.add_0_r].
Qed.

Lemma muxer_reading_inv fuel now t l all f f' :
  f.(fo_phase) = muxer_reading t l → fo_inv all f → step etype max_size fuel now f = Ret f' → fo_inv all f'.
Proof.
  intros Hp [Hm Hi] Hs. unfold step in Hs. rewrite Hp in Hs, Hi. destruct (_stream f) as [s|] eqn:Hst; [|naive_solver].
  destruct Hi as (_ & before & acked & written & new & Hl & Hse & Hin). cbn [owed in_step] in Hse, Hin.
  destruct (muxer_can_read l) eqn:Hcan; cycle 1.
  { injection Hs as <-. eapply (session_inv _ (idling _ _ l) before acked written new); try done; [by intros []|].
    intros Hc. congruence. }
  specialize (Hin eq_refl).
  destruct (read_now_spec max_size _ Hm) as (b & e & m' & Hr & Hm' & Hlog & Hb & Hcase). rewrite Hr in Hs.
  destruct (Nat.ltb_spec (cursor (_muxer f)) (length (_events (_muxer f)))) as [Hlt|Hge].
  - destruct Hcase as (He & [d ->] & Hcur). injection Hs as <-.
    eapply (session_inv _ (stream_writing d _ _) before acked written new m'); try done; [by intros []|..].
    + destruct Hl as [Ha Hb' Hw Hr']. split; [by rewrite Hlog|done|by rewrite Hlog|lia].
    + cbn. rewrite Hlog, Hcur. split; [lia|]. rewrite lookup_app_r by lia. rewrite He. f_equal. lia.
  - destruct Hcase as [-> ->]. injection Hs as <-.
    eapply (session_inv _ (idling _ _ l) before acked written new); try done; [by intros []|]. by intros _.
Qed.

(** The event written is the next one of the session. *)
Lemma linked_write before acked written new all m d :
  linked before acked written new all m → (length acked + cursor m = length written + 1)%nat →
  (acked ++ logical m) !! length written = Some d → linked before acked (written ++ [d]) new all m.
Proof.
  intros [Ha Hb Hw Hr] Hlen Hd. split; [done|done| |rewrite length_app; cbn; lia].
  destruct Hw as [k Hk]. rewrite Hk, lookup_app_r, Nat.sub_diag in Hd by lia. destruct k as [|x k]; [done|].
  injection Hd as ->. exists k. by rewrite Hk, <- app_assoc.
Qed.

Lemma stream_writing_inv fuel now d t l all f f' :
  f.(fo_phase) = stream_writing d t l → fo_inv all f → step etype max_size fuel now f = Ret f' → fo_inv all f'.
Proof.
  intros Hp [Hm Hi] Hs. unfold step in Hs. rewrite Hp in Hs, Hi. destruct (_stream f) as [s|] eqn:Hst; [|naive_solver].
  destruct Hi as (_ & before & acked & written & new & Hl & Hse & [Hlen Hd]). cbn [owed] in Hse.
  pose proof (linked_write _ _ _ _ _ _ _ Hl Hlen Hd) as Hl2.
  unfold on_stream in Hs. rewrite Hst in Hs. pose proof (ep_write_spec _ _ _ _ _ d Hse) as Hspec.
  destruct (ep_write d (s, fo_world f)) as [[we|e] [s' w']]; cbn in Hspec.
  - injection Hs as <-. destruct Hspec as [Hwe Hse'].
    eapply (session_inv _ (acking we d _ l) before acked (written ++ [d]) new); try done; [by intros []|..].
    + by rewrite Nat.add_0_r in Hse'.
    + intros _. rewrite length_app. cbn. lia.
  - assert (∃ written', linked before acked written' new all (_muxer f) ∧
      session (d0 ++ new) written' (length acked + 0) s' w') as (written' & Hl' & Hse').
    { destruct Hspec; [by exists written|by exists (written ++ [d])]. }
    assert (f' = set_phase (acking 0 d t (set_muxer_can_read false l)) (set_stream (Some s') w' f) ∨
            f' = set_phase failed (set_stream (Some s') w' f)) as [-> | ->].
    { destruct e; first [left; congruence|right; by apply fail_ret in Hs]. }
    + eapply (session_inv _ (acking 0 d _ _) before acked written' new); try done; by intros [].
    + eapply (session_inv _ failed before acked written' new); try done; by intros [].
Qed.

(** An acknowledgement in the loop. *)
Lemma acked_inv fuel n (c : bool) before acked written new all s f f' :
  mux_inv max_size f.(_muxer) → enough fuel f.(_muxer) → f.(_stream) = Some s →
  linked before acked written new all f.(_muxer) →
  session (d0 ++ new) written (length acked + Z.to_nat n) s f.(fo_world) →
  (c = true → length written = (length acked + cursor f.(_muxer))%nat) →
  ack max_size fuel n f = Ret f' →
  ∃ m' acked', f' = set_muxer m' f ∧ mux_inv max_size m' ∧ linked before acked' written new all m' ∧
    session (d0 ++ new) written (length acked' + 0) s f.(fo_world) ∧
    (c = true → length written = (length acked' + cursor m')%nat).
Proof.
  intros Hm Hfuel Hst Hl Hse Hin Hack. destruct (settle _ _ _ _ _ _ _ _ _ Hl Hse) as (Hn & _).
  destruct (ack_linked fuel n before acked written new all f) as (m' & more & Hack' & Hm' & Hl' & Hlen & Hcur & _); [done..|].
  rewrite Hack' in Hack. injection Hack as <-. exists m', (acked ++ more).
  rewrite length_app, Hlen, Nat.add_0_r. split_and!; try done. intros Hc. specialize (Hin Hc). lia.
Qed.

Lemma acking_inv fuel now we d t l all f f' :
  enough fuel f.(_muxer) → f.(fo_phase) = acking we d t l → fo_inv all f →
  step etype max_size fuel now f = Ret f' → fo_inv all f'.
Proof.
  intros Hfuel Hp [Hm Hi] Hs. unfold step in Hs. rewrite Hp in Hs, Hi. destruct (_stream f) as [s|] eqn:Hst; [|naive_solver].
  destruct Hi as (_ & before & acked & written & new & Hl & Hse & Hin). cbn [owed in_step] in Hse, Hin.
  destruct (ack max_size fuel we f) as [f1|] eqn:Hack; [|done].
  destruct (acked_inv fuel we (muxer_can_read l) before acked written new all s f f1)
    as (m' & acked' & -> & Hm' & Hl' & Hse' & Hin'); [done..|].
  cbn [fo_world set_muxer] in Hs. destruct (write_secondaries _ _ _) as [secs w'] eqn:Ho.
  destruct (write_secondaries_spec _ _ _ _ _ Ho) as [Hd Hsec]. injection Hs as <-.
  eapply (session_inv _ (idling _ _ _) before acked' written new); try done; [by intros []|by apply Hsec].
Qed.

Lemma idling_inv fuel now t1 t2 l all f f' :
  f.(fo_phase) = idling t1 t2 l → fo_inv all f → step etype max_size fuel now f = Ret f' → fo_inv all f'.
Proof.
  intros Hp [Hm Hi] Hs. unfold step in Hs. rewrite Hp in Hs, Hi. destruct (_stream f) as [s|] eqn:Hst; [|naive_solver].
  destruct Hi as (_ & before & acked & written & new & Hl & Hse & Hin). cbn [owed in_step] in Hse, Hin.
  destruct (t1 && t2); cycle 1.
  { injection Hs as <-. eapply (session_inv _ (looping l) before acked written new); try done. by intros []. }
  destruct (_ || _); cycle 1.
  { injection Hs as <-. eapply (session_inv _ (flush_acking 0 l) before acked written new); try done. by intros []. }
  unfold on_stream in Hs. cbn [_stream set_next_timeout fo_world] in Hs. rewrite Hst in Hs.
  pose proof (ep_flush_spec _ _ _ _ _ Hse) as Hspec. destruct (ep_flush (s, fo_world f)) as [[we|e] [s' w']]; cbn in Hspec.
  - injection Hs as <-. destruct Hspec as [_ Hse']. rewrite Nat.add_0_r in Hse'.
    eapply (session_inv _ (flush_acking we _) before acked written new); try done. by intros [].
  - apply fail_ret in Hs as ->. eapply (session_inv _ failed before acked written new); try done. by intros [].
Qed.

Lemma flush_acking_inv fuel now we l all f f' :
  enough fuel f.(_muxer) → f.(fo_phase) = flush_acking we l → fo_inv all f →
  step etype max_size fuel now f = Ret f' → fo_inv all f'.
Proof.
  intros Hfuel Hp [Hm Hi] Hs. unfold step in Hs. rewrite Hp in Hs, Hi. destruct (_stream f) as [s|] eqn:Hst; [|naive_solver].
  destruct Hi as (_ & before & acked & written & new & Hl & Hse & Hin). cbn [owed in_step] in Hse, Hin.
  destruct (ack max_size fuel we f) as [f1|] eqn:Hack; [|done]. injection Hs as <-.
  destruct (acked_inv fuel we (muxer_can_read l) before acked written new all s f f1)
    as (m' & acked' & -> & Hm' & Hl' & Hse' & Hin'); [done..|].
  eapply (session_inv _ (looping l) before acked' written new); try done. by intros [].
Qed.

(** The end of a stream, if there is one. *)
Lemma stopped_inv fuel all f f' :
  enough fuel f.(_muxer) → fo_inv all f → owed f.(fo_phase) = 0%nat → stop_stream max_size fuel f = Ret f' →
  ∃ m' w', f' = set_stream None w' (set_muxer m' f) ∧ mux_inv max_size m' ∧
    ∃ before new, linked before [] [] new all m' ∧ delivered w' = d0 ++ new.
Proof.
  intros Hfuel [Hm Hi] Ho Hs. destruct (_stream f) as [s|] eqn:Hst.
  - destruct Hi as (_ & before & acked & written & new & Hl & Hse & _). rewrite Ho, Nat.add_0_r in Hse.
    by eapply stop_stream_inv.
  - destruct Hi as (_ & before & new & Hl & Hd). unfold stop_stream in Hs. rewrite Hst in Hs. injection Hs as <-.
    exists f.(_muxer), f.(fo_world). split; [destruct f; cbn in *; by subst|]. split; [done|]. by exists before, new.
Qed.

Lemma failed_inv fuel now all f f' :
  enough fuel f.(_muxer) → f.(fo_phase) = failed → fo_inv all f → step etype max_size fuel now f = Ret f' → fo_inv all f'.
Proof.
  intros Hfuel Hp Hi Hs. unfold step in Hs. rewrite Hp in Hs. unfold on_exception_handler in Hs.
  destruct (stop_stream max_size fuel f) as [f1|] eqn:Hstop; [|done]. injection Hs as <-.
  apply (stopped_inv _ all) in Hstop as (m' & w' & -> & Hm' & before & new & Hl & Hd); [|done|done|by rewrite Hp].
  cbn [_should_exit set_stream set_muxer]. destruct (_should_exit f).
  - eapply (apart_inv _ clearing); try done; [tauto|by exists before, new].
  - destruct (nack_spec max_size _ Hm') as (Hm2 & Hlog & Hcur). apply linked_nil in Hl.
    unfold _launch_failover. cbn. destruct (_ && _); (eapply (apart_inv _ clearing (nack_events m')); try done; [tauto|]);
      exists before, new; (split; [|done]); apply linked_nil; by rewrite Hlog.
Qed.

Lemma step_inv fuel now all f f' :
  enough fuel f.(_muxer) → fo_inv all f → step etype max_size fuel now f = Ret f' → fo_inv all f'.
Proof.
  intros Hfuel Hi Hs. destruct (fo_phase f) eqn:Hp.
  - unfold step in Hs. rewrite Hp in Hs. by injection Hs as <-.
  - by eapply opening_inv.
  - by eapply opened_inv.
  - eapply looping_inv; [done..|]. unfold step in Hs. by rewrite Hp in Hs.
  - by eapply muxer_reading_inv.
  - by eapply stream_writing_inv.
  - by eapply acking_inv.
  - by eapply idling_inv.
  - by eapply flush_acking_inv.
  - by eapply failed_inv.
  - unfold step in Hs. rewrite Hp in Hs. destruct (stop_stream max_size fuel f) as [f1|] eqn:Hstop; [|done]. injection Hs as <-.
    apply (stopped_inv _ all) in Hstop as (m' & w' & -> & Hm' & Hl); [|done|done|by rewrite Hp].
    eapply apart_inv; try done. cbn. destruct (_should_exit f); cbn; tauto.
  - unfold step in Hs. rewrite Hp in Hs. destruct (stop_stream max_size fuel f) as [f1|] eqn:Hstop; [|done]. injection Hs as <-.
    apply (stopped_inv _ all) in Hstop as (m' & w' & -> & Hm' & Hl); [|done|done|by rewrite Hp].
    eapply apart_inv; try done. cbn. tauto.
Qed.

Lemma fo_step_inv all f new f' : fo_step f new f' → fo_inv all f → fo_inv (all ++ new) f'.
Proof.
  intros [fuel now f1 f1' Hfuel Hs|evt m' f1 Hpub|f1|f1|f1] Hi; rewrite ?app_nil_r.
  - by eapply step_inv.
  - destruct Hi as [Hm Hi]. destruct (publish_spec etype max_size evt _ Hm) as (m2 & Hpub2 & Hm2 & Hlog & Hcur).
    rewrite Hpub2 in Hpub. injection Hpub as ->. split; [done|]. cbn.
    assert (∀ before acked written n, linked before acked written n all f1.(_muxer) →
      linked before acked written n (all ++ accepted etype (_muxer f1) evt) m') as Hlk.
    { intros before acked written n [Ha Hb Hw Hr]. split; [by rewrite Hlog, Ha, !app_assoc|done| |by rewrite Hcur].
      rewrite Hlog, app_assoc. by apply prefix_app_r. }
    destruct (_stream f1).
    + destruct Hi as (Hp & before & acked & written & n & Hl & Hse & Hin). split; [done|].
      exists before, acked, written, n. split_and!; [by apply Hlk|done|].
      destruct (fo_phase f1); cbn in *; rewrite ?Hcur; try done. destruct Hin as [? Hd]. split; [done|].
      rewrite Hlog, app_assoc. by apply lookup_app_l_Some.
    + destruct Hi as (Hp & before & n & Hl & Hd). split; [done|]. exists before, n. split; [by apply Hlk|done].
  - unfold start. destruct (_state f1), (fo_phase f1) eqn:Hp; try done.
    + destruct Hi as [Hm Hi]. split; [done|]. cbn. rewrite Hp in Hi. destruct (_stream f1); cbn in *; [naive_solver|tauto].
    + destruct Hi as [Hm Hi]. split; [done|]. cbn. rewrite Hp in Hi. destruct (_stream f1); cbn in *; [naive_solver|tauto].
  - unfold exit. by destruct (_state f1).
  - done.
Qed.
End Invariant.

(** Before its first start, a failover has no stream. *)
Definition fresh f : Prop := mux_inv max_size f.(_muxer) ∧ f.(_stream) = None ∧ f.(fo_phase) = out_of_run.

Lemma steps_inv f0 pubs f :
  fresh f0 → fo_steps f0 pubs f → fo_inv (delivered f0.(fo_world)) (logical f0.(_muxer) ++ pubs) f.
Proof.
  intros (Hm & Hst & Hp) Hs.
  assert (fo_inv (delivered f0.(fo_world)) (logical f0.(_muxer)) f0) as H0.
  { split; [done|]. rewrite Hst, Hp. split; [by left; cbn|]. exists [], []. rewrite app_nil_r. split; [|done]. by apply linked_nil. }
  clear Hm Hst Hp. induction Hs as [f1|f1 f2 f3 pubs new Hs IH Hstep]; [by rewrite app_nil_r|].
  rewrite app_assoc. eapply fo_step_inv; [done|]. by apply IH.
Qed.


(** [run]: one step of the thread for each time. *)
Fixpoint run (fuel : nat) (times : list Z) f : res (failover E D S W) :=
  match times with
  | [] => Ret f
  | now :: times => match step etype max_size fuel now f with Ret f => run fuel times f | Throw e => Throw e end
  end.

Lemma run_app fuel t1 t2 f f1 : run fuel t1 f = Ret f1 → run fuel (t1 ++ t2) f = run fuel t2 f1.
Proof. revert f. induction t1 as [|t t1 IH]; intros f Hr; cbn in *; [by injection Hr as ->|]. destruct (step _ _ _ _ f); [by apply IH|done]. Qed.

Lemma logical_bound f0 pubs f : fresh f0 → fo_steps f0 pubs f → (length (logical f.(_muxer)) ≤ length (logical f0.(_muxer) ++ pubs))%nat.
Proof.
  intros Hf Hs. destruct (inv_delivered _ _ f (steps_inv f0 pubs f Hf Hs)) as (acked & new & -> & _). rewrite length_app. lia.
Qed.

Lemma enough_of fuel m : (lag_max < fuel)%nat → (length (logical m) < fuel)%nat → enough fuel m.
Proof. intros Hl Hf. split; [done|]. unfold logical in Hf. rewrite length_app in Hf. lia. Qed.

(** The steps of [run] are steps of the failover. *)
Lemma run_steps fuel times f0 pubs : ∀ f f', fresh f0 → (lag_max < fuel)%nat → (length (logical f0.(_muxer) ++ pubs) < fuel)%nat →
  fo_steps f0 pubs f → run fuel times f = Ret f' → fo_steps f0 pubs f'.
Proof.
  induction times as [|t times IH]; intros f f' Hf Hl1 Hl2 Hs Hr; cbn in Hr; [by injection Hr as <-|].
  destruct (step etype max_size fuel t f) as [f1|] eqn:Hst; [|done]. apply (IH f1); try done.
  rewrite <- (app_nil_r pubs). apply (fo_snoc _ f); [done|]. eapply fo_run; [|done].
  pose proof (logical_bound _ _ _ Hf Hs). apply enough_of; [done|lia].
Qed.

(** ** A healthy endpoint gets everything

    Nothing comes from the stream, no call throws, and a flush acknowledges all that was
    written. *)
Section Healthy.
Hypothesis healthy_update : ∀ s w, ∃ s' w', ep_update (s, w) = (Ret tt, (s', w')).
Hypothesis healthy_read : ∀ s w, ∃ s' w', ep_read (s, w) = (Ret (false, None), (s', w')).
Hypothesis healthy_write : ∀ e s w, ∃ k s' w', ep_write e (s, w) = (Ret k, (s', w')).
Hypothesis healthy_flush : ∀ base written n s w, session base written n s w →
  ∃ k s' w', ep_flush (s, w) = (Ret k, (s', w')) ∧ (n + Z.to_nat k)%nat = length written.
Hypothesis some_room : 0 < max_size.

Record draining (d0 all : list E) (fuel : nat) f : Prop := {
  dr_inv : fo_inv d0 all f;
  dr_exit : f.(_should_exit) = false;
  dr_fuel : (lag_max < fuel)%nat ∧ (length (logical f.(_muxer)) < fuel)%nat;
  dr_phase : ∃ l, f.(fo_phase) = looping l ∧ l.(muxer_can_read) = true ∧
    (l.(should_commit) = true ∨ cursor f.(_muxer) = 0%nat);
}.


(** What is left: an event counts twice until it is read, once until it is
    acknowledged. *)
Definition left_over m : nat := (2 * length (logical m) - cursor m)%nat.

(** The top of the loop does nothing. *)
Lemma top_passes fuel now l f :
  f.(fo_phase) = looping l → f.(_should_exit) = false → is_Some f.(_stream) →
  ∃ f' t b, step etype max_size fuel now f = Ret f' ∧ t = true ∧
    f'.(fo_phase) = muxer_reading t (set_stream_can_read b l) ∧ f'.(_muxer) = f.(_muxer) ∧ f'.(_should_exit) = false.
Proof.
  intros Hp He [s Hst]. unfold step. rewrite Hp. unfold loop_top. rewrite He.
  assert (∃ s1 w1, (if _update f then on_stream ep_update f else (Ret tt, f)) = (Ret tt, set_stream (Some s1) w1 f)) as (s1 & w1 & ->).
  { destruct (_update f).
    - unfold on_stream. rewrite Hst. destruct (healthy_update s (fo_world f)) as (s' & w' & ->). by eexists _, _.
    - exists s, (fo_world f). f_equal. rewrite <- Hst. by destruct f. }
  destruct (stream_can_read l) eqn:Hc.
  - unfold on_stream. cbn. destruct (healthy_read s1 w1) as (s2 & w2 & ->). cbn. eexists _, true, true. split_and!; try done.
    by destruct l; cbn in *; subst.
  - eexists _, true, false. split_and!; try done. by destruct l; cbn in *; subst.
Qed.

Lemma inv_stream d0 all f l : fo_inv d0 all f → f.(fo_phase) = looping l → is_Some f.(_stream).
Proof. intros [_ Hi] Hp. rewrite Hp in Hi. destruct (_stream f); [by eexists|]. naive_solver. Qed.

Lemma ack_total fuel n f :
  mux_inv max_size f.(_muxer) → enough fuel f.(_muxer) →
  ∃ m', ack max_size fuel n f = Ret (set_muxer m' f) ∧
    logical m' = drop (Z.to_nat n `min` cursor f.(_muxer)) (logical f.(_muxer)) ∧ cursor m' = (cursor f.(_muxer) - Z.to_nat n)%nat.
Proof.
  intros Hm [H1 H2]. destruct (ack_events_spec max_size fuel n _ Hm H1 H2) as (m' & Ha & _ & Hl & Hc). exists m'.
  unfold ack. by rewrite Ha.
Qed.

Lemma cursor_logical m : mux_inv max_size m → (cursor m ≤ length m.(_events) ≤ length (logical m))%nat.
Proof. intros Hm. pose proof (cursor_le _ (proj1 Hm)). unfold logical. rewrite length_app. lia. Qed.

(** A pass with an event to send. *)
Lemma pass_event d0 all fuel t1 t2 t3 t4 t5 f :
  draining d0 all fuel f → (cursor f.(_muxer) < length f.(_muxer).(_events))%nat →
  ∃ f', run fuel [t1; t2; t3; t4; t5] f = Ret f' ∧ draining d0 all fuel f' ∧ (left_over f'.(_muxer) < left_over f.(_muxer))%nat.
Proof.
  intros [Hi He [Hf1 Hf2] (l & Hp & Hcan & _)] Hlt. pose proof (enough_of _ _ Hf1 Hf2) as Hen.
  destruct (top_passes fuel t1 l f Hp He (inv_stream _ _ _ _ Hi Hp)) as (f1 & t & b & Hs1 & -> & Hp1 & Hm1 & He1).
  pose proof (step_inv d0 fuel t1 all f f1 Hen Hi Hs1) as Hi1. pose proof (proj1 Hi1) as Hmi.
  destruct (read_now_spec max_size _ Hmi) as (b2 & e & m2 & Hr & Hm2 & Hlog & _ & Hcase).
  rewrite Hm1 in Hr, Hlog, Hcase. destruct (Nat.ltb_spec (cursor (_muxer f)) (length (_events (_muxer f)))) as [_|?]; [|lia].
  destruct Hcase as (_ & [d ->] & Hcur).
  set (l2 := set_should_commit true (set_stream_can_read b l)).
  set (f2 := set_phase (stream_writing d true l2) (set_muxer m2 f1)).
  assert (step etype max_size fuel t2 f1 = Ret f2) as Hs2.
  { unfold step. rewrite Hp1. cbn [muxer_can_read set_stream_can_read]. by rewrite Hcan, Hm1, Hr. }
  pose proof (step_inv d0 fuel t2 all f1 f2 ltac:(by rewrite Hm1) Hi1 Hs2) as Hi2.
  assert (enough fuel m2) as Hen2 by (apply enough_of; [done|by rewrite Hlog]).
  assert (is_Some f1.(_stream)) as [s1 Hst1].
  { destruct Hi2 as [_ Hi2]. cbn in Hi2. destruct (_stream f1); [by eexists|naive_solver]. }
  destruct (healthy_write d s1 f1.(fo_world)) as (k & s3 & w3 & Hw).
  set (f3 := set_phase (acking k d true l2) (set_stream (Some s3) w3 f2)).
  assert (step etype max_size fuel t3 f2 = Ret f3) as Hs3.
  { unfold step, f2. cbn [fo_phase set_phase]. unfold on_stream. cbn [_stream set_muxer set_phase fo_world]. by rewrite Hst1, Hw. }
  pose proof (step_inv d0 fuel t3 all f2 f3 Hen2 Hi2 Hs3) as Hi3.
  destruct (ack_total fuel k f3 Hm2 Hen2) as (m4 & Hack & Hl4 & Hc4). cbn [_muxer f3 f2 set_phase set_stream set_muxer] in Hl4, Hc4.
  destruct (write_secondaries d (secondaries l2) (fo_world (set_muxer m4 f3))) as [secs w4] eqn:Hsec.
  set (l4 := Locals secs (stream_can_read l2) (muxer_can_read l2) (should_commit l2)).
  set (f4 := set_phase (idling true false l4) (set_stream (Some s3) w4 (set_muxer m4 f3))).
  assert (step etype max_size fuel t4 f3 = Ret f4) as Hs4.
  { unfold step. cbn [fo_phase f3 set_phase]. fold f3. by rewrite Hack, Hsec. }
  pose proof (step_inv d0 fuel t4 all f3 f4 Hen2 Hi3 Hs4) as Hi4.
  assert (enough fuel m4) as Hen4. { apply enough_of; [done|]. rewrite Hl4, length_drop, Hlog. lia. }
  set (f5 := set_phase (looping l4) f4).
  assert (step etype max_size fuel t5 f4 = Ret f5) as Hs5 by done.
  exists f5. cbn [run]. rewrite Hs1, Hs2, Hs3, Hs4, Hs5. split; [done|].
  pose proof (cursor_logical _ (proj1 Hi)) as Hcl. split.
  - split; [by eapply (step_inv d0 fuel t5 all f4)|done| |].
    + split; [done|]. cbn. rewrite Hl4, length_drop, Hlog. lia.
    + exists l4. split_and!; [done|done|by left].
  - cbn. unfold left_over. rewrite Hl4, Hc4, length_drop, Hlog, Hcur. lia.
Qed.

(** A pass with nothing to send: what was written is acknowledged. *)
Lemma pass_flush d0 all fuel t1 t2 t3 t4 f :
  draining d0 all fuel f → (length f.(_muxer).(_events) ≤ cursor f.(_muxer))%nat → logical f.(_muxer) ≠ [] →
  ∃ f', run fuel [t1; t2; t3; t4] f = Ret f' ∧ draining d0 all fuel f' ∧ (left_over f'.(_muxer) < left_over f.(_muxer))%nat.
Proof.
  intros [Hi He [Hf1 Hf2] (l & Hp & Hcan & Hcommit)] Hge Hne. pose proof (enough_of _ _ Hf1 Hf2) as Hen.
  pose proof (cursor_logical _ (proj1 Hi)) as Hcl.
  assert (cursor f.(_muxer) ≠ 0%nat) as Hc0.
  { intros Hc. destruct Hi as [([Hsz _] & _ & Ho) _]. unfold order_inv in Ho. unfold logical in Hne.
    destruct (_events (_muxer f)); [|cbn in Hge; lia]. cbn in Hne, Hsz. specialize (Ho Hne). lia. }
  destruct Hcommit as [Hcommit|?]; [|done].
  destruct (top_passes fuel t1 l f Hp He (inv_stream _ _ _ _ Hi Hp)) as (f1 & t & b & Hs1 & -> & Hp1 & Hm1 & He1).
  pose proof (step_inv d0 fuel t1 all f f1 Hen Hi Hs1) as Hi1. pose proof (proj1 Hi1) as Hmi.
  destruct (read_now_spec max_size _ Hmi) as (b2 & e & m2 & Hr & Hm2 & Hlog & Hb & Hcase).
  rewrite Hm1 in Hr, Hlog, Hcase. destruct (Nat.ltb_spec (cursor (_muxer f)) (length (_events (_muxer f)))) as [?|_]; [lia|].
  destruct Hcase as [-> ->]. change (b2 = false) in Hb. subst b2.
  set (l1 := set_stream_can_read b l). set (f2 := set_phase (idling true true l1) (set_muxer (_muxer f) f1)).
  assert (step etype max_size fuel t2 f1 = Ret f2) as Hs2.
  { unfold step. rewrite Hp1. cbn [muxer_can_read set_stream_can_read]. by rewrite Hcan, Hm1, Hr. }
  pose proof (step_inv d0 fuel t2 all f1 f2 ltac:(by rewrite Hm1) Hi1 Hs2) as Hi2. pose proof Hi2 as [_ Hin].
  cbn [f2 _stream set_phase set_muxer fo_phase owed in_step fo_world _muxer] in Hin.
  destruct (_stream f1) as [s1|] eqn:Hst1; [|naive_solver].
  destruct Hin as (_ & before & acked & written & new & Hl & Hse & Hlen). specialize (Hlen Hcan). rewrite Nat.add_0_r in Hse.
  destruct (healthy_flush _ _ _ _ _ Hse) as (k & s3 & w3 & Hw & Hk).
  set (f3 := set_phase (flush_acking k (set_should_commit false l1)) (set_stream (Some s3) w3 (set_next_timeout (t3 + 1) f2))).
  assert (step etype max_size fuel t3 f2 = Ret f3) as Hs3.
  { unfold step. cbn [fo_phase f2 set_phase should_commit l1 set_stream_can_read andb]. rewrite Hcommit. cbn [orb].
    fold l1 f2. unfold on_stream. cbn [f2 _stream set_next_timeout set_muxer set_phase fo_world]. by rewrite Hst1, Hw. }
  pose proof (step_inv d0 fuel t3 all f2 f3 Hen Hi2 Hs3) as Hi3.
  destruct (ack_total fuel k f3 (proj1 Hi) Hen) as (m4 & Hack & Hl4 & Hc4).
  cbn [_muxer f3 f2 set_phase set_stream set_muxer set_next_timeout] in Hl4, Hc4.
  set (l4 := set_should_commit false l1). set (f4 := set_phase (looping l4) (set_muxer m4 f3)).
  assert (step etype max_size fuel t4 f3 = Ret f4) as Hs4 by (unfold step; cbn [fo_phase f3 set_phase]; fold f3; by rewrite Hack).
  exists f4. cbn [run]. rewrite Hs1, Hs2, Hs3, Hs4. split; [done|]. split.
  - split; [by eapply (step_inv d0 fuel t4 all f3)|done| |].
    + split; [done|]. cbn. rewrite Hl4, length_drop. lia.
    + exists l4. split_and!; [done|done|right]. cbn. lia.
  - cbn. unfold left_over. rewrite Hl4, Hc4, length_drop. lia.
Qed.

Lemma drains d0 all fuel n : ∀ f times,
  draining d0 all fuel f → (left_over f.(_muxer) < n)%nat → (5 * n ≤ length times)%nat →
  ∃ k f', (k ≤ 5 * n)%nat ∧ run fuel (take k times) f = Ret f' ∧ draining d0 all fuel f' ∧ logical f'.(_muxer) = [].
Proof.
  induction n as [|n IH]; intros f times Hd Hn Ht; [lia|].
  destruct (decide (logical f.(_muxer) = [])) as [Hnil|Hne]; [exists 0%nat, f; split_and!; [lia|done..]|].
  assert (∃ j f1, (j ≤ 5)%nat ∧ run fuel (take j times) f = Ret f1 ∧ draining d0 all fuel f1 ∧ (left_over f1.(_muxer) < left_over f.(_muxer))%nat)
    as (j & f1 & Hj & Hr & Hd1 & Hlt).
  { destruct times as [|t1 [|t2 [|t3 [|t4 [|t5 times]]]]]; cbn [length] in Ht; try lia.
    destruct (decide (cursor f.(_muxer) < length f.(_muxer).(_events))%nat) as [Hlt|Hge].
    - destruct (pass_event d0 all fuel t1 t2 t3 t4 t5 f Hd Hlt) as (f1 & ? & ? & ?). exists 5%nat, f1. by split_and!; [lia|..].
    - destruct (pass_flush d0 all fuel t1 t2 t3 t4 f Hd) as (f1 & ? & ? & ?); [lia|done|]. exists 4%nat, f1. by split_and!; [lia|..]. }
  destruct (IH f1 (drop j times)) as (k & f' & Hk & Hr' & Hd' & Hnil); [done|lia|rewrite length_drop; lia|].
  exists (j + k)%nat, f'. split_and!; [lia| |done|done].
  rewrite <- (take_drop j (take (j + k) times)), take_take, Nat.min_l, <- take_drop_commute by lia.
  by rewrite (run_app _ _ _ _ _ Hr).
Qed.

Lemma opened_drains d0 all fuel f times :
  fo_inv d0 all f → f.(fo_phase) = opened → f.(_should_exit) = false →
  (lag_max < fuel)%nat → (length (logical f.(_muxer)) < fuel)%nat → (10 * length (logical f.(_muxer)) + 6 ≤ length times)%nat →
  ∃ k f', run fuel (take k times) f = Ret f' ∧ logical f'.(_muxer) = [] ∧ fo_inv d0 all f'.
Proof.
  intros Hi Hp He Hf1 Hf2 Ht. pose proof (enough_of _ _ Hf1 Hf2) as Hen.
  destruct (nack_spec max_size _ (proj1 Hi)) as (Hm1 & Hlog & Hcur).
  destruct (open_secondaries (E:=E) (S:=S) f.(_secondary_endpoints) f.(fo_world)) as [secs w'] eqn:Ho.
  set (f1 := set_phase (looping (Locals secs true true false))
    (set_muxer (nack_events f.(_muxer)) (set_launched false f.(_initialized) (set_stream f.(_stream) w' f)))).
  assert (∀ now, step etype max_size fuel now f = Ret f1) as Hs1 by (intros now; unfold step; by rewrite Hp, Ho).
  assert (draining d0 all fuel f1) as Hd1.
  { split; [by apply (step_inv d0 fuel 0 all f)|done|split; [done|by change (f1.(_muxer)) with (nack_events f.(_muxer)); rewrite Hlog]|]. eexists. split_and!; [done|done|by right]. }
  destruct times as [|now times]; [cbn in Ht; lia|]. cbn [length] in Ht.
  destruct (drains d0 all fuel (2 * length (logical f.(_muxer)) + 1) f1 times Hd1) as (k & f' & _ & Hr & Hd' & Hnil).
  { change (f1.(_muxer)) with (nack_events f.(_muxer)). unfold left_over. rewrite Hlog, Hcur. lia. }
  { lia. }
  exists (Datatypes.S k), f'. split_and!; [cbn [take run]; by rewrite Hs1|done|apply Hd'].
Qed.

End Healthy.
End Facts.

(** The exception of [stop()] leaves the number of acknowledged events unset: it is read
    all the same. *)
Theorem stop_failure_undefined {E D S W} `{!PFile D E, !Endpoint E S W} max_size fuel (f : failover E D S W) s :
  f.(_stream) = Some s → (∃ e s' w', ep_stop (s, f.(fo_world)) = (Throw e, (s', w'))) →
  on_exception_handler max_size fuel f = Throw undefined.
Proof.
  intros Hst (e & s' & w' & Hstop). unfold on_exception_handler, stop_stream. rewrite Hst.
  unfold on_stream. by rewrite Hst, Hstop.
Qed.

(** ** An endpoint

    A table that is written two rows at a time, as an output to a database does.
    [faults]: which of the next writes fail. *)
Module Table.
Record table := Tbl { rows : list nat; faults : list bool }.

Section Table.
Context (faulty : bool).

Definition commit (s : list nat) (w : table) : res Z * (list nat * table) :=
  (Ret (Z.of_nat (length s)), ([], Tbl (w.(rows) ++ s) w.(faults))).

Definition insert (e : nat) : St (list nat * table) Z := λ '(s, w),
  let w' := Tbl w.(rows) (tail w.(faults)) in
  if faulty && default false (head w.(faults)) then (Throw msg_fmt, (s, w'))
  else if (2 <=? length (s ++ [e]))%nat then commit (s ++ [e]) w' else (Ret 0, (s ++ [e], w')).

Definition endpoint : Endpoint nat (list nat) table := {|
  ep_open := λ w, (Ret (Some []), w);
  ep_update := mret tt;
  ep_read := mret (false, None);
  ep_write := insert;
  ep_flush := λ '(s, w), commit s w;
  ep_stop := λ '(s, w), commit s w;
  ep_close := λ _ w, w;
  sec_open := λ _, mret false;
  sec_write := λ _ _, mret tt;
|}.
#[local] Existing Instance endpoint.

(** What was written and not committed is in the stream. *)
Definition table_session (base written : list nat) (n : nat) (s : list nat) (w : table) : Prop :=
  (n ≤ length written)%nat ∧ w.(rows) = base ++ take n written ∧ s = drop n written.

Lemma commit_session base written n s w : table_session base written n s w →
  table_session base written (n + Z.to_nat (Z.of_nat (length s))) [] (Tbl (w.(rows) ++ s) w.(faults)).
Proof.
  intros (Hn & Hr & Hs). rewrite Nat2Z.id. subst s. rewrite length_drop. split_and!; [lia| |by rewrite drop_ge by lia].
  cbn. by rewrite Hr, <- app_assoc, take_drop, take_ge by lia.
Qed.

Lemma append_session base written n s w e : table_session base written n s w → table_session base (written ++ [e]) n (s ++ [e]) w.
Proof.
  intros (Hn & Hr & Hs). split_and!; [rewrite length_app; lia| |by rewrite Hs, drop_app_le].
  by rewrite take_app_le.
Qed.

Lemma faults_session base written n s w l : table_session base written n s w → table_session base written n s (Tbl w.(rows) l).
Proof. done. Qed.

#[program] Definition laws : EndpointLaws nat (list nat) table := {| delivered := rows; session := table_session |}.
Next Obligation. intros base written n s w (Hn & Hr & Hs). by exists n. Qed.
Next Obligation. intros w. cbn. split; [done|]. intros s [= <-]. split_and!; [done|by rewrite app_nil_r|done]. Qed.
Next Obligation. done. Qed.
Next Obligation. done. Qed.
Next Obligation.
  intros base written n s w e Hs. cbn [ep_write endpoint]. unfold insert. destruct (faulty && _); [left; by apply faults_session|].
  apply (append_session _ _ _ _ _ e), (faults_session _ _ _ _ _ (tail w.(faults))) in Hs. destruct (2 <=? length (s ++ [e]))%nat.
  - cbn. unfold commit. split; [lia|]. by apply commit_session in Hs.
  - split; [done|]. by rewrite Nat.add_0_r.
Qed.
Next Obligation.
  intros base written n s w Hs. cbn. unfold commit. split; [lia|]. by apply commit_session in Hs.
Qed.
Next Obligation.
  intros base written n s w Hs. cbn. unfold commit. split; [lia|]. by apply commit_session in Hs.
Qed.
Next Obligation. done. Qed.
Next Obligation. done. Qed.
Next Obligation. done. Qed.
End Table.
End Table.

Module Demo.
Definition mux : muxer nat (mem_file nat) := Muxer.Demo.mux [1; 2; 3]%nat (Some 0%nat) [].
Definition initial (faults : list bool) : failover nat (mem_file nat) (list nat) Table.table :=
  Failover not_started false 0 true false false 0 false None mux (Table.Tbl [] faults) [] out_of_run.

Lemma initial_fresh faults : fresh 5 (initial faults).
Proof.
  split; [|done]. split; [split; [done|cbn; lia]|]. split; [done|]. intros Hc. by destruct Hc.
Qed.

(** The second write fails; the thread stops the stream, which commits the first event,
    and opens the endpoint again: where the thread is after so many steps. *)
Definition broken (n : nat) : failover nat (mem_file nat) (list nat) Table.table :=
  match run (Endpoint0 := Table.endpoint true) Muxer.Demo.ev_type 5 9 (replicate n 0) (start (initial [false; true])) with
  | Ret f => f
  | Throw _ => initial []
  end.
Definition whole : failover nat (mem_file nat) (list nat) Table.table :=
  match step (Endpoint0 := Table.endpoint false) Muxer.Demo.ev_type 5 9 0 (start (initial [])) with
  | Ret f => f
  | Throw _ => initial []
  end.
End Demo.


