(* ===== verification/EventLoop.v ===== *)
(** * The event loop of the engine

    [engine/src/events/loop.cc] keeps two lists of timed events ordered by time, one
    of high and one of low priority, and runs the event that is due
    ([events::loop::_dispatching]).  Handlers of events are a parameter: each one
    changes the world (hosts, services and the rest of the engine) and asks the loop
    to schedule or remove events.  [std::sort] is a parameter too, a function that
    returns a sorted permutation, since the order of equal elements is not
    specified. *)

From Stdlib Require Import SpecFloat Sorting.Sorted.
From stdpp Require Import sorting.
From S2P Require Import Prelude.

(** ** Timed events *)

Inductive event_kind :=
  | EVENT_SERVICE_CHECK | EVENT_COMMAND_CHECK | EVENT_LOG_ROTATION | EVENT_PROGRAM_SHUTDOWN
  | EVENT_PROGRAM_RESTART | EVENT_CHECK_REAPER | EVENT_ORPHAN_CHECK | EVENT_RETENTION_SAVE
  | EVENT_STATUS_SAVE | EVENT_SCHEDULED_DOWNTIME | EVENT_SFRESHNESS_CHECK
  | EVENT_EXPIRE_DOWNTIME | EVENT_HOST_CHECK | EVENT_HFRESHNESS_CHECK
  | EVENT_RESCHEDULE_CHECKS | EVENT_EXPIRE_COMMENT | EVENT_EXPIRE_HOST_ACK
  | EVENT_EXPIRE_SERVICE_ACK | EVENT_ENGINERPC_CHECK | EVENT_SLEEP | EVENT_USER_FUNCTION.

#[export] Instance event_kind_eq_dec : EqDecision event_kind.
Proof. solve_decision. Defined.

(** [void* event_data]: an address, 0 for [nullptr]; [cell] is the address of an
    integer on the heap with its value. *)
Inductive data := object (address : Z) | cell (address value : Z).

Definition address_of (d : data) : Z := match d with object a | cell a _ => a end.

#[export] Instance data_eq_dec : EqDecision data.
Proof. solve_decision. Defined.

Record timed_event := TimedEvent {
  event_type : event_kind;
  run_time : Z;
  recurring : bool;
  event_interval : Z;
  compensate_for_time_change : bool;
  (** the address of the function, if any *)
  timing_func : option Z;
  event_data : data;
  event_options : Z;
}.

#[export] Instance timed_event_eq_dec : EqDecision timed_event.
Proof. solve_decision. Defined.

Definition set_run_time (t : Z) (e : timed_event) : timed_event :=
  TimedEvent e.(event_type) t e.(recurring) e.(event_interval) e.(compensate_for_time_change)
    e.(timing_func) e.(event_data) e.(event_options).

(** [adjust_timestamp_for_time_change] *)
Definition adjust_timestamp_for_time_change (time_difference ts : Z) : Z :=
  if (ts =? 0) || (ts =? -1) then ts
  else let retval := wrap_i64 (ts + time_difference) in if retval <? 0 then 0 else retval.

(** ** The lists *)

Inductive priority := low | high.

Record loop := Loop {
  _event_list_high : list timed_event;
  _event_list_low : list timed_event;
  _last_time : Z;
  _last_status_update : Z;
  _need_reload : Z;
}.

Definition get_list (p : priority) (l : loop) : list timed_event :=
  match p with low => l.(_event_list_low) | high => l.(_event_list_high) end.

Definition set_list (p : priority) (es : list timed_event) (l : loop) : loop :=
  match p with
  | low => Loop l.(_event_list_high) es l.(_last_time) l.(_last_status_update) l.(_need_reload)
  | high => Loop es l.(_event_list_low) l.(_last_time) l.(_last_status_update) l.(_need_reload)
  end.

(** The search from the end of the list, on the reversed list. *)
Fixpoint insert_back (e : timed_event) (rl : list timed_event) : list timed_event :=
  match rl with
  | [] => []
  | x :: rl' => if x.(run_time) <=? e.(run_time) then e :: x :: rl' else x :: insert_back e rl'
  end.

(** [loop::add_event] on one list *)
Definition insert_event (e : timed_event) (l : list timed_event) : list timed_event :=
  match l with
  | [] => [e]
  | x :: _ => if e.(run_time) <? x.(run_time) then e :: l else rev (insert_back e (rev l))
  end.

Definition add_event (e : timed_event) (p : priority) (l : loop) : loop :=
  set_list p (insert_event e (get_list p l)) l.

(** [loop::schedule] *)
Definition schedule (e : timed_event) (high_priority : bool) (l : loop) : loop :=
  if high_priority then add_event e high l else add_event e low l.

Fixpoint remove_first (f : timed_event → bool) (l : list timed_event) : list timed_event :=
  match l with
  | [] => []
  | x :: l' => if f x then l' else x :: remove_first f l'
  end.

(** [loop::remove_downtime]: the address of the identifier is compared with the
    identifier. *)
Definition remove_downtime (downtime_id : Z) (l : loop) : loop :=
  set_list high
    (remove_first (λ e, bool_decide (e.(event_type) = EVENT_SCHEDULED_DOWNTIME) &&
                        (wrap_u64 (address_of e.(event_data)) =? downtime_id)) l.(_event_list_high)) l.

(** [loop::remove_event], the event being found by its position *)
Definition remove_event (p : priority) (i : nat) (l : loop) : loop :=
  set_list p (delete i (get_list p l)) l.

(** [loop::remove_events] *)
Definition remove_events (p : priority) (type : event_kind) (d : data) (l : loop) : loop :=
  set_list p
    (filter (λ e, ¬ (e.(event_type) = type ∧ address_of e.(event_data) = address_of d)) (get_list p l)) l.

(** [loop::find_event] *)
Definition find_event (p : priority) (type : event_kind) (d : data) (l : loop) : option nat :=
  fst <$> list_find (λ e, e.(event_type) = type ∧ address_of e.(event_data) = address_of d) (get_list p l).

(** What a handler asks of the loop. *)
Inductive loop_op :=
  | Schedule (e : timed_event) (high_priority : bool)
  | RemoveDowntime (downtime_id : Z)
  | RemoveEvent (p : priority) (i : nat)
  | RemoveEvents (p : priority) (type : event_kind) (d : data).

Definition do_op (l : loop) (op : loop_op) : loop :=
  match op with
  | Schedule e h => schedule e h l
  | RemoveDowntime id => remove_downtime id l
  | RemoveEvent p i => remove_event p i l
  | RemoveEvents p t d => remove_events p t d l
  end.

Definition do_ops (ops : list loop_op) (l : loop) : loop := foldl do_op l ops.

(** ** The world *)

(** What the loop uses of a host or of a service. *)
Record checkable := Checkable {
  next_check : Z;
  check_options : Z;
  retry_interval : Z;
  check_interval : Z;
  (** [get_state_type() == soft] and the state is not OK (not UP) *)
  soft_problem : bool;
  execution_time : double;
  last_notification : Z;
  last_check : Z;
  last_state_change : Z;
  last_hard_state_change : Z;
  last_state_history_update : Z;
  initial_notif_time : Z;
  last_acknowledgement : Z;
  next_notification : Z;
}.

Definition set_next_check (t : Z) (c : checkable) : checkable :=
  Checkable t c.(check_options) c.(retry_interval) c.(check_interval) c.(soft_problem) c.(execution_time)
    c.(last_notification) c.(last_check) c.(last_state_change) c.(last_hard_state_change)
    c.(last_state_history_update) c.(initial_notif_time) c.(last_acknowledgement) c.(next_notification).

Definition CHECK_OPTION_FORCE_EXECUTION : Z := 1.
Definition forced (c : checkable) : bool := negb (Z.land c.(check_options) CHECK_OPTION_FORCE_EXECUTION =? 0).

Record world (C : Type) := World {
  services : gmap Z checkable;
  hosts : gmap Z checkable;
  program_start : Z;
  event_start : Z;
  last_command_check : Z;
  client : C;
}.
#[global] Arguments World {C}.
#[global] Arguments services {C}.
#[global] Arguments hosts {C}.
#[global] Arguments program_start {C}.
#[global] Arguments event_start {C}.
#[global] Arguments last_command_check {C}.
#[global] Arguments client {C}.

Definition set_services {C} (m : gmap Z checkable) (w : world C) : world C :=
  World m w.(hosts) w.(program_start) w.(event_start) w.(last_command_check) w.(client).
Definition set_hosts {C} (m : gmap Z checkable) (w : world C) : world C :=
  World w.(services) m w.(program_start) w.(event_start) w.(last_command_check) w.(client).

(** What the loop does that can be seen. *)
Inductive output :=
  | Run (p : priority) (e : timed_event)
  | Compensate (time_difference : Z)
  | ProgramStatus
  | ServiceStatus (id : Z)
  | HostStatus (id : Z)
  | Reload
  | ExecuteCommands.

Record config := Config {
  time_change_threshold : Z;
  max_parallel_service_checks : Z;
  execute_service_checks : bool;
  execute_host_checks : bool;
  interval_length : Z;
  auto_rescheduling_window : Z;
}.

(** What a turn of the loop reads outside: the time, [sigshutdown], [sighup], the
    number of service checks that run, and [rand() % 10]. *)
Record input := Input {
  now : Z;
  sigshutdown : bool;
  sighup : bool;
  running : Z;
  rand10 : Z;
}.

Class Handlers (C : Type) := {
  (** [timed_event::handle_timed_event] *)
  handle_timed_event : timed_event → Z → world C → world C * list loop_op;
  (** a function given as [timing_func], called at a time *)
  call_timing : Z → Z → Z;
  (** [notifier::get_next_notification_time] *)
  get_next_notification_time : checkable → Z → Z;
  (** [std::sort] with the comparison of the run times *)
  std_sort : list timed_event → list timed_event;
}.

Definition before (e1 e2 : timed_event) : Prop := e1.(run_time) ≤ e2.(run_time).
#[export] Instance before_dec : RelDecision before.
Proof. intros e1 e2. unfold before. apply _. Defined.

Class HandlersLaws C `{Handlers C} := {
  sort_permutation l : std_sort l ≡ₚ l;
  sort_sorted l : StronglySorted before (std_sort l);
}.

(** ** Operations *)

Section loop.
Context {C : Type} `{Handlers C}.

Record st := State { lp : loop; wd : world C; out : list output }.

Definition emit (o : output) (s : st) : st := State s.(lp) s.(wd) (s.(out) ++ [o]).
Definition on_loop (f : loop → loop) (s : st) : st := State (f s.(lp)) s.(wd) s.(out).
Definition on_world (f : world C → world C) (s : st) : st := State s.(lp) (f s.(wd)) s.(out).

(** The time of the next run of an event, in [loop::reschedule_event]. *)
Definition next_run (now : Z) (e : timed_event) : timed_event :=
  if e.(recurring) then
    match e.(timing_func) with
    | Some f => set_run_time (call_timing f now) e
    | None =>
        let t := wrap_i64 (e.(run_time) + e.(event_interval)) in
        set_run_time (if t <? now then now else t) e
    end
  else e.

(** [loop::reschedule_event] *)
Definition reschedule_event (now : Z) (e : timed_event) (p : priority) (l : loop) : loop :=
  add_event (next_run now e) p l.

(** [loop::resort_event_list] *)
Definition resort_event_list (p : priority) (l : loop) : loop := set_list p (std_sort (get_list p l)) l.

(** One event in [compensate_for_system_time_change]. *)
Definition compensate_event (now time_difference : Z) (e : timed_event) : timed_event :=
  if e.(compensate_for_time_change) then
    match e.(timing_func) with
    | Some f => set_run_time (call_timing f now) e
    | None => set_run_time (adjust_timestamp_for_time_change time_difference e.(run_time)) e
    end
  else e.

Definition compensate_list (now time_difference : Z) (p : priority) (l : loop) : loop :=
  resort_event_list p (set_list p (compensate_event now time_difference <$> get_list p l) l).

Definition compensate_service (d : Z) (c : checkable) : checkable :=
  let adj := adjust_timestamp_for_time_change d in
  let c' := Checkable (adj c.(next_check)) c.(check_options) c.(retry_interval) c.(check_interval) c.(soft_problem)
    c.(execution_time) (adj c.(last_notification)) (adj c.(last_check)) (adj c.(last_state_change))
    (adj c.(last_hard_state_change)) c.(last_state_history_update) (adj c.(initial_notif_time))
    (adj c.(last_acknowledgement)) c.(next_notification) in
  Checkable c'.(next_check) c'.(check_options) c'.(retry_interval) c'.(check_interval) c'.(soft_problem)
    c'.(execution_time) c'.(last_notification) c'.(last_check) c'.(last_state_change)
    c'.(last_hard_state_change) c'.(last_state_history_update) c'.(initial_notif_time)
    c'.(last_acknowledgement) (get_next_notification_time c' c'.(last_notification)).

Definition compensate_host (d : Z) (c : checkable) : checkable :=
  let adj := adjust_timestamp_for_time_change d in
  let c' := Checkable (adj c.(next_check)) c.(check_options) c.(retry_interval) c.(check_interval) c.(soft_problem)
    c.(execution_time) (adj c.(last_notification)) (adj c.(last_check)) (adj c.(last_state_change))
    (adj c.(last_hard_state_change)) (adj c.(last_state_history_update)) c.(initial_notif_time)
    c.(last_acknowledgement) c.(next_notification) in
  Checkable c'.(next_check) c'.(check_options) c'.(retry_interval) c'.(check_interval) c'.(soft_problem)
    c'.(execution_time) c'.(last_notification) c'.(last_check) c'.(last_state_change)
    c'.(last_hard_state_change) c'.(last_state_history_update) c'.(initial_notif_time)
    c'.(last_acknowledgement) (get_next_notification_time c' c'.(last_notification)).

(** [loop::compensate_for_system_time_change] *)
Definition compensate_for_system_time_change (last_time current_time : Z) (s : st) : st :=
  let d := wrap_i64 (current_time - last_time) in
  let adj := adjust_timestamp_for_time_change d in
  let s := emit (Compensate d) s in
  let s := on_loop (compensate_list current_time d high) s in
  let s := on_loop (compensate_list current_time d low) s in
  let w := s.(wd) in
  let w := World (compensate_service d <$> w.(services)) (compensate_host d <$> w.(hosts))
    (adj w.(program_start)) (adj w.(event_start)) (adj w.(last_command_check)) w.(client) in
  let s := State s.(lp) w
    (s.(out) ++ (ServiceStatus <$> (map_to_list w.(services)).*1) ++ (HostStatus <$> (map_to_list w.(hosts)).*1)) in
  emit ProgramStatus s.

(** ** Spreading the checks *)

Definition overhead : double := ddiv (dint 1) (dint 10).

(** The host or the service an event of the window checks, unless the check is
    forced. *)
Definition movable (w : world C) (e : timed_event) : option checkable :=
  match e.(event_type) with
  | EVENT_HOST_CHECK => c ← w.(hosts) !! address_of e.(event_data); if forced c then None else Some c
  | EVENT_SERVICE_CHECK => c ← w.(services) !! address_of e.(event_data); if forced c then None else Some c
  | _ => None
  end.

Record load := Load {
  last_check_time : Z;
  last_check_exec_time : double;
  total_check_exec_time : double;
  adjust_scheduling : bool;
  total_checks : Z;
}.

(** The first loop of [adjust_check_scheduling]. *)
Fixpoint measure_load (w : world C) (first last : Z) (es : list timed_event) (a : load) : load :=
  match es with
  | [] => a
  | e :: es' =>
      if e.(run_time) <=? first then measure_load w first last es' a
      else if last <? e.(run_time) then a
      else
        match movable w e with
        | None => measure_load w first last es' a
        | Some _ =>
            let bump := SFltb (dint e.(run_time)) (dadd (dint a.(last_check_time)) a.(last_check_exec_time)) in
            measure_load w first last es'
              (Load e.(run_time) overhead (dadd a.(total_check_exec_time) overhead)
                (bump || a.(adjust_scheduling)) (wrap_i32 (a.(total_checks) + 1)))
        end
  end.

(** The second loop: the events, and the new times of the checks. *)
Fixpoint move_checks (w : world C) (first last : Z) (factor delay : double) (exec_offset icd_offset : double)
    (es : list timed_event) : list timed_event * list (event_kind * Z * Z) :=
  match es with
  | [] => ([], [])
  | e :: es' =>
      if e.(run_time) <=? first then
        let '(r, m) := move_checks w first last factor delay exec_offset icd_offset es' in (e :: r, m)
      else if last <? e.(run_time) then (es, [])
      else
        match movable w e with
        | None => let '(r, m) := move_checks w first last factor delay exec_offset icd_offset es' in (e :: r, m)
        | Some c =>
            let exec :=
              match e.(event_type) with
              | EVENT_HOST_CHECK => dmul (dadd c.(execution_time) overhead) factor
              | _ => dmul overhead factor
              end in
            let t := wrap_i64 (first + wrap_u64 (dtrunc (dadd exec_offset icd_offset))) in
            let '(r, m) :=
              move_checks w first last factor delay (dadd exec_offset exec) (dadd icd_offset delay) es' in
            (set_run_time t e :: r, (e.(event_type), address_of e.(event_data), t) :: m)
        end
  end.

Definition moved_check (s : st) (m : event_kind * Z * Z) : st :=
  let '(k, id, t) := m in
  match k with
  | EVENT_HOST_CHECK => emit (HostStatus id) (on_world (λ w, set_hosts (alter (set_next_check t) id w.(hosts)) w) s)
  | _ => emit (ServiceStatus id) (on_world (λ w, set_services (alter (set_next_check t) id w.(services)) w) s)
  end.

(** [loop::adjust_check_scheduling] *)
Definition adjust_check_scheduling (c : config) (current_time : Z) (s : st) : st :=
  let first := current_time in
  let last := first + c.(auto_rescheduling_window) in
  let es := s.(lp).(_event_list_low) in
  let a := measure_load s.(wd) first last es (Load 0 (dint 0) (dint 0) false 0) in
  if (a.(total_checks) =? 0) || negb a.(adjust_scheduling) then s
  else
    let window := dint c.(auto_rescheduling_window) in
    let '(delay, factor) :=
      if c.(auto_rescheduling_window) <? wrap_u64 (dtrunc a.(total_check_exec_time))
      then (dint 0, ddiv window a.(total_check_exec_time))
      else (ddiv (dsub window a.(total_check_exec_time)) (dint a.(total_checks)), dint 1) in
    let '(es', moves) := move_checks s.(wd) first last factor delay (dint 0) (ddiv delay (dint 2)) es in
    let s := foldl moved_check (on_loop (set_list low es') s) moves in
    on_loop (resort_event_list low) s.

(** ** A turn of the loop *)

(** Handling of an event that was removed from its list. *)
Definition run_event (i : input) (p : priority) (e : timed_event) (s : st) : st :=
  let '(w, ops) := handle_timed_event e i.(now) s.(wd) in
  let s := State (do_ops ops s.(lp)) w (s.(out) ++ [Run p e]) in
  if e.(recurring) then on_loop (reschedule_event i.(now) e p) s else s.

(** The next check of a service or of a host that cannot be checked now. *)
Definition later (c : config) (k : checkable) : Z :=
  k.(next_check) +
  (if k.(soft_problem) then k.(retry_interval) * c.(interval_length)
   else wrap_u32 (k.(check_interval) * c.(interval_length))).

(** Whether the service check at the head of the list runs, and by how much it is
    delayed when too many checks run. *)
Definition service_may_run (c : config) (i : input) (k : checkable) : bool * Z :=
  let maxed := negb (c.(max_parallel_service_checks) =? 0) && (c.(max_parallel_service_checks) <=? i.(running)) in
  (forced k || (negb maxed && c.(execute_service_checks)), if maxed then 5 + i.(rand10) else 0).

(** The branch of the low priority events; [undefined] when the event has no
    service or host. *)
Definition run_low (c : config) (i : input) (e : timed_event) (es : list timed_event) (s : st) : res st :=
  let removed := on_loop (set_list low es) s in
  match e.(event_type) with
  | EVENT_SERVICE_CHECK =>
      match s.(wd).(services) !! address_of e.(event_data) with
      | None => Throw undefined
      | Some k =>
          let '(run, nudge_seconds) := service_may_run c i k in
          if run then Ret (run_event i low e removed)
          else
            let t := if negb (nudge_seconds =? 0) then k.(next_check) + nudge_seconds else later c k in
            let s := on_world (λ w, set_services (<[address_of e.(event_data) := set_next_check t k]> w.(services)) w)
              removed in
            Ret (emit (ServiceStatus (address_of e.(event_data)))
              (on_loop (reschedule_event i.(now) (set_run_time t e) low) s))
      end
  | EVENT_HOST_CHECK =>
      match s.(wd).(hosts) !! address_of e.(event_data) with
      | None => Throw undefined
      | Some k =>
          if forced k || c.(execute_host_checks) then Ret (run_event i low e removed)
          else
            let t := later c k in
            let s := on_world (λ w, set_hosts (<[address_of e.(event_data) := set_next_check t k]> w.(hosts)) w)
              removed in
            Ret (emit (HostStatus (address_of e.(event_data)))
              (on_loop (reschedule_event i.(now) (set_run_time t e) low) s))
      end
  | _ => Ret (run_event i low e removed)
  end.

(** The reload of the configuration, when a signal asked for it. *)
Definition reload_step (i : input) (s : st) : st :=
  let s := if i.(sighup) || negb (s.(lp).(_need_reload) =? 0) then emit Reload s else s in
  on_loop (λ l, Loop l.(_event_list_high) l.(_event_list_low) l.(_last_time) l.(_last_status_update) 0) s.

(** The changes of the system time. *)
Definition time_step (c : config) (i : input) (s : st) : st :=
  let lt := s.(lp).(_last_time) in
  let s :=
    if (i.(now) <? lt) || (c.(time_change_threshold) <=? i.(now) - lt)
    then compensate_for_system_time_change lt i.(now) s else s in
  on_loop (λ l, Loop l.(_event_list_high) l.(_event_list_low) i.(now) l.(_last_status_update) l.(_need_reload)) s.

(** The status of the program, from time to time. *)
Definition status_step (i : input) (s : st) : st :=
  if 5 <? wrap_u64 (i.(now) - s.(lp).(_last_status_update)) then
    emit ProgramStatus (on_loop
      (λ l, Loop l.(_event_list_high) l.(_event_list_low) l.(_last_time) i.(now) l.(_need_reload)) s)
  else s.

(** The part of a turn before the events. *)
Definition housekeeping (c : config) (i : input) (s : st) : st :=
  status_step i (time_step c i (reload_step i s)).

(** The first event of a list, when it is due. *)
Definition due_head (now : Z) (es : list timed_event) : option (timed_event * list timed_event) :=
  match es with
  | e :: es' => if e.(run_time) <=? now then Some (e, es') else None
  | [] => None
  end.

(** The dispatching of events. *)
Definition dispatch (c : config) (i : input) (s : st) : res st :=
  match due_head i.(now) s.(lp).(_event_list_high) with
  | Some (e, es) => Ret (run_event i high e (on_loop (set_list high es) s))
  | None =>
      match due_head i.(now) s.(lp).(_event_list_low) with
      | Some (e, es) => run_low c i e es s
      | None => Ret (emit ExecuteCommands s)
      end
  end.

(** A turn of [loop::_dispatching]; [None] when the loop ends. *)
Definition turn (c : config) (i : input) (s : st) : res (option st) :=
  if i.(sigshutdown) then Ret None
  else
    match s.(lp).(_event_list_high), s.(lp).(_event_list_low) with
    | [], [] => Ret None
    | _, _ =>
        match dispatch c i (housekeeping c i s) with
        | Ret s => Ret (Some s)
        | Throw e => Throw e
        end
    end.
End loop.
#[global] Arguments st : clear implicits.

(** ** Lemmas: ordered lists *)

Definition ordered (l : loop) : Prop :=
  StronglySorted before l.(_event_list_high) ∧ StronglySorted before l.(_event_list_low).

Lemma sorted_sublist (l l' : list timed_event) :
  sublist l l' → StronglySorted before l' → StronglySorted before l.
Proof.
  induction 1 as [|x l l' Hs IH|x l l' Hs IH]; intros Hl; [done| |].
  - apply StronglySorted_cons in Hl as [Hf Hl]. apply StronglySorted_cons. split; [|auto].
    rewrite Forall_forall in *. intros y Hy. apply Hf. by eapply elem_of_sublist.
  - apply StronglySorted_cons in Hl as [_ Hl]. auto.
Qed.

Lemma insert_back_split e rl :
  Exists (λ x, x.(run_time) ≤ e.(run_time)) rl →
  ∃ r2 x r1, rl = r2 ++ x :: r1 ∧ insert_back e rl = r2 ++ e :: x :: r1 ∧
    Forall (λ y, e.(run_time) < y.(run_time)) r2 ∧ x.(run_time) ≤ e.(run_time).
Proof.
  induction rl as [|x rl IH]; intros Hex; [by apply Exists_nil in Hex|]. cbn [insert_back].
  destruct (Z.leb_spec x.(run_time) e.(run_time)) as [Hx|Hx]; [by exists [], x, rl|].
  apply Exists_cons in Hex as [?|Hex]; [lia|].
  destruct (IH Hex) as (r2 & y & r1 & -> & -> & Hf & Hy). exists (x :: r2), y, r1. by repeat constructor.
Qed.

(** An event is put after those that are not later, before those that are. *)
Lemma insert_event_split e l :
  StronglySorted before l →
  ∃ l1 l2, l = l1 ++ l2 ∧ insert_event e l = l1 ++ e :: l2 ∧
    Forall (λ x, x.(run_time) ≤ e.(run_time)) l1 ∧ Forall (λ x, e.(run_time) < x.(run_time)) l2.
Proof.
  intros Hl. unfold insert_event. destruct l as [|x l]; [by exists [], []|].
  destruct (Z.ltb_spec e.(run_time) x.(run_time)) as [Hx|Hx].
  - exists [], (x :: l). split_and!; try done. apply StronglySorted_cons in Hl as [Hf _].
    constructor; [done|]. eapply Forall_impl; [exact Hf|]. unfold before. intros y Hy. lia.
  - destruct (insert_back_split e (rev (x :: l))) as (r2 & y & r1 & Hr & -> & Hf & Hy).
    { apply Exists_exists. exists x. split; [|done]. apply list_elem_of_In, in_rev. rewrite rev_involutive. by left. }
    assert (x :: l = (rev r1 ++ [y]) ++ rev r2) as E.
    { rewrite <- (rev_involutive (x :: l)), Hr, rev_app_distr. done. }
    exists (rev r1 ++ [y]), (rev r2). split_and!.
    + done.
    + rewrite rev_app_distr. cbn [rev]. by rewrite <- !app_assoc.
    + rewrite E in Hl. apply StronglySorted_app_1_l in Hl. apply Forall_app. split; [|by repeat constructor].
      apply Forall_forall. intros z Hz.
      pose proof (StronglySorted_app_1_elem_of before (rev r1) [y] z y Hl Hz ltac:(by left)) as Hzy.
      unfold before in Hzy. lia.
    + apply Forall_rev. done.
Qed.

Lemma sorted_app l1 l2 :
  StronglySorted before l1 → StronglySorted before l2 →
  (∀ x y, x ∈ l1 → y ∈ l2 → before x y) → StronglySorted before (l1 ++ l2).
Proof.
  induction l1 as [|x l1 IH]; intros H1 H2 H12; [done|]. apply StronglySorted_cons in H1 as [Hf H1].
  cbn [app]. apply StronglySorted_cons. split.
  - apply Forall_app. split; [done|]. apply Forall_forall. intros y Hy. apply H12; [by left|done].
  - apply IH; [done..|]. intros y z Hy Hz. apply H12; [by right|done].
Qed.

Lemma insert_event_sorted e l : StronglySorted before l → StronglySorted before (insert_event e l).
Proof.
  intros Hl. destruct (insert_event_split e l Hl) as (l1 & l2 & -> & -> & H1 & H2).
  rewrite Forall_forall in H1, H2. apply sorted_app.
  - by apply StronglySorted_app_1_l in Hl.
  - apply StronglySorted_cons. split; [|by apply StronglySorted_app_1_r in Hl].
    apply Forall_forall. intros x Hx%H2. unfold before. lia.
  - intros x y Hx Hy. apply elem_of_cons in Hy as [->|Hy]; [by apply H1|].
    by eapply StronglySorted_app_1_elem_of.
Qed.

Lemma insert_event_perm e l : StronglySorted before l → insert_event e l ≡ₚ e :: l.
Proof.
  intros Hl. destruct (insert_event_split e l Hl) as (l1 & l2 & -> & -> & _).
  by rewrite <- Permutation_middle.
Qed.

Lemma remove_first_sublist f l : sublist (remove_first f l) l.
Proof. induction l as [|x l IH]; cbn; [done|]. destruct (f x); [by apply sublist_cons|by constructor]. Qed.

Lemma delete_sublist i (l : list timed_event) : sublist (delete i l) l.
Proof. revert i. induction l as [|x l IH]; intros [|i]; cbn; [done|done|by apply sublist_cons|]. constructor. apply IH. Qed.

Lemma set_list_ordered p es l : ordered l → StronglySorted before es → ordered (set_list p es l).
Proof. intros [H1 H2] He. by destruct p. Qed.

Lemma get_list_ordered p l : ordered l → StronglySorted before (get_list p l).
Proof. intros [H1 H2]. by destruct p. Qed.

Create HintDb event_loop.
#[export] Hint Resolve set_list_ordered get_list_ordered insert_event_sorted remove_first_sublist delete_sublist
  sublist_filter sorted_sublist : event_loop.

Lemma add_event_ordered e p l : ordered l → ordered (add_event e p l).
Proof. unfold add_event. auto with event_loop. Qed.
#[export] Hint Resolve add_event_ordered : event_loop.

Lemma do_op_ordered op l : ordered l → ordered (do_op l op).
Proof.
  intros Hl. destruct op as [e []|id|p i|p t d]; cbn [do_op schedule]; auto with event_loop;
    unfold remove_downtime, remove_event, remove_events; apply set_list_ordered; try done;
    (eapply sorted_sublist; [|apply get_list_ordered, Hl]); auto with event_loop.
  apply (remove_first_sublist _ (get_list high l)).
Qed.

Lemma do_ops_ordered ops l : ordered l → ordered (do_ops ops l).
Proof. revert l. induction ops as [|op ops IH]; intros l Hl; cbn; [done|]. by apply IH, do_op_ordered. Qed.
#[export] Hint Resolve do_op_ordered do_ops_ordered : event_loop.

(** ** The lists stay ordered *)

Section facts.
Context {C : Type} `{HandlersLaws C}.
Implicit Types (s : st C).

Lemma resort_ordered p l :
  StronglySorted before (match p with low => l.(_event_list_high) | high => l.(_event_list_low) end) →
  ordered (resort_event_list p l).
Proof. intros Hl. destruct p; split; cbn; (apply sort_sorted || exact Hl). Qed.

Lemma compensate_ordered last now s :
  ordered s.(lp) → ordered (compensate_for_system_time_change last now s).(lp).
Proof.
  intros [Hh Hl]. cbn [compensate_for_system_time_change emit on_loop lp].
  apply resort_ordered. cbn. apply sort_sorted.
Qed.

Lemma moved_checks_loop moves : ∀ s, (foldl moved_check s moves).(lp) = s.(lp).
Proof.
  induction moves as [|[[k id] t] moves IH]; intros s; cbn [foldl]; [done|]. rewrite IH. by destruct k.
Qed.

Lemma adjust_ordered c now s : ordered s.(lp) → ordered (adjust_check_scheduling c now s).(lp).
Proof.
  intros [Hh Hl]. unfold adjust_check_scheduling. destruct (_ || _); [done|].
  destruct (if _ : bool then _ else _) as [delay factor]. destruct (move_checks _ _ _ _ _ _ _ _) as [es' moves].
  cbn [on_loop lp]. rewrite moved_checks_loop. cbn [lp]. by apply resort_ordered.
Qed.

Lemma housekeeping_ordered c i s : ordered s.(lp) → ordered (housekeeping c i s).(lp).
Proof.
  intros Hs. unfold housekeeping, status_step.
  assert (ordered (reload_step i s).(lp)) as H1 by (unfold reload_step; by destruct (_ || _)).
  assert (ordered (time_step c i (reload_step i s)).(lp)) as H2.
  { unfold time_step. destruct (_ || _); [by apply compensate_ordered|exact H1]. }
  by destruct (5 <? _).
Qed.

Lemma run_event_ordered i p e s : ordered s.(lp) → ordered (run_event i p e s).(lp).
Proof.
  intros Hs. unfold run_event. destruct (handle_timed_event _ _ _) as [w ops].
  destruct (recurring e); cbn [on_loop lp reschedule_event]; auto with event_loop.
  apply add_event_ordered. auto with event_loop.
Qed.

Lemma set_tail_ordered p e es l : ordered l → get_list p l = e :: es → ordered (set_list p es l).
Proof.
  intros Hl He. apply set_list_ordered; [done|]. pose proof (get_list_ordered p l Hl) as Hs. rewrite He in Hs.
  by apply StronglySorted_cons in Hs as [_ ?].
Qed.

Lemma run_low_ordered c i e es s s' :
  ordered s.(lp) → s.(lp).(_event_list_low) = e :: es → run_low c i e es s = Ret s' → ordered s'.(lp).
Proof.
  intros Hs He Hr.
  assert (ordered (on_loop (set_list low es) s).(lp)) as Ho by (by eapply (set_tail_ordered low)).
  assert (∀ f, ordered (on_loop (set_list low es) (on_world f s)).(lp)) as Ho' by done.
  unfold run_low in Hr. destruct (event_type e); try (injection Hr as <-; by apply run_event_ordered).
  - destruct (services _ !! _) as [k|]; [|done]. destruct (service_may_run c i k) as [run nudge].
    destruct run; injection Hr as <-; [by apply run_event_ordered|].
    by apply add_event_ordered.
  - destruct (hosts _ !! _) as [k|]; [|done].
    destruct (forced k || _); injection Hr as <-; [by apply run_event_ordered|].
    by apply add_event_ordered.
Qed.

Lemma due_head_some now es e es' : due_head now es = Some (e, es') → es = e :: es' ∧ e.(run_time) ≤ now.
Proof. destruct es as [|x es]; cbn; [done|]. destruct (Z.leb_spec (run_time x) now); by intros [= -> ->]. Qed.

Lemma dispatch_ordered c i s s' : ordered s.(lp) → dispatch c i s = Ret s' → ordered s'.(lp).
Proof.
  intros Hs Hd. unfold dispatch in Hd.
  destruct (due_head _ (_event_list_high _)) as [[e es]|] eqn:Hh.
  - injection Hd as <-. apply run_event_ordered. apply due_head_some in Hh as [Hh _].
    by eapply (set_tail_ordered high).
  - destruct (due_head _ (_event_list_low _)) as [[e es]|] eqn:Hl; [|by injection Hd as <-].
    apply due_head_some in Hl as [Hl _]. by eapply run_low_ordered.
Qed.

Lemma turn_ordered c i s s' : ordered s.(lp) → turn c i s = Ret (Some s') → ordered s'.(lp).
Proof.
  intros Hs Ht. unfold turn in Ht. destruct (sigshutdown i); [done|].
  assert (∀ r, match dispatch c i (housekeeping c i s) with Ret s => Ret (Some s) | Throw e => Throw e end = Ret (Some r) →
    ordered r.(lp)) as Hd.
  { intros r Hr. destruct (dispatch _ _ _) eqn:Hd; [|done]. injection Hr as <-.
    eapply dispatch_ordered; [|done]. by apply housekeeping_ordered. }
  destruct (_event_list_high (lp s)), (_event_list_low (lp s)); (done || by apply Hd).
Qed.

(** The event that the dispatching runs. *)
Lemma run_event_out i p e s : (run_event i p e s).(out) = s.(out) ++ [Run p e].
Proof. unfold run_event. destruct (handle_timed_event _ _ _). by destruct (recurring e). Qed.

Lemma last_out (l : list output) o o' : l ++ [o] = l ++ [o'] → o = o'.
Proof. by intros [= ->]%app_inv_head. Qed.

Lemma dispatch_runs c i s s' p e :
  dispatch c i s = Ret s' → s'.(out) = s.(out) ++ [Run p e] →
  head (get_list p s.(lp)) = Some e ∧ e.(run_time) ≤ i.(now) ∧
  (p = low → due_head i.(now) s.(lp).(_event_list_high) = None).
Proof.
  unfold dispatch. destruct (due_head _ (_event_list_high _)) as [[e1 es]|] eqn:Hh.
  - intros [= <-]. rewrite run_event_out. intros Ho. apply last_out in Ho as [= <- <-].
    apply due_head_some in Hh as [Hh ?]. cbn [get_list]. by rewrite Hh.
  - destruct (due_head _ (_event_list_low _)) as [[e1 es]|] eqn:Hl; cycle 1.
    { intros [= <-] Ho. by apply last_out in Ho. }
    apply due_head_some in Hl as [Hl Hd]. intros Hr Ho.
    assert (Run p e = Run low e1) as [= -> ->]; [|cbn [get_list]; by rewrite Hl].
    unfold run_low in Hr.
    destruct (event_type e1); try (injection Hr as <-; rewrite run_event_out in Ho; by apply last_out in Ho).
    + destruct (services _ !! _) as [k|]; [|done]. destruct (service_may_run c i k) as [[] nudge]; injection Hr as <-;
        [rewrite run_event_out in Ho|]; by apply last_out in Ho.
    + destruct (hosts _ !! _) as [k|]; [|done]. destruct (forced k || _); injection Hr as <-;
        [rewrite run_event_out in Ho|]; by apply last_out in Ho.
Qed.

(** What happens to the loop: turns, the spreading of the checks, and events that
    commands and check results schedule or remove. *)
Inductive loop_step : st C → st C → Prop :=
  | step_turn c i s s' : turn c i s = Ret (Some s') → loop_step s s'
  | step_adjust c now s : loop_step s (adjust_check_scheduling c now s)
  | step_ops ops w' s : loop_step s (State (do_ops ops s.(lp)) w' s.(out)).

Lemma loop_step_ordered s s' : loop_step s s' → ordered s.(lp) → ordered s'.(lp).
Proof.
  intros [c i s1 s1' Ht|c now s1|ops w' s1] Hs; [by eapply turn_ordered|by apply adjust_ordered|].
  by apply do_ops_ordered.
Qed.

(** C26: whatever happens, the two lists of events stay ordered by time; the event
    that a turn runs is the first of its list, it is due, no event of its list is
    older, and an event of low priority runs only when none of high priority is
    due. *)
Theorem events_run_in_order s0 s c i s' p e :
  ordered s0.(lp) → rtc loop_step s0 s → dispatch c i s = Ret s' → s'.(out) = s.(out) ++ [Run p e] →
  ordered s.(lp) ∧ head (get_list p s.(lp)) = Some e ∧ e.(run_time) ≤ i.(now) ∧
  (∀ x, x ∈ get_list p s.(lp) → before e x) ∧
  (p = low → ∀ x, x ∈ s.(lp).(_event_list_high) → i.(now) < x.(run_time)).
Proof.
  intros Hs0 Hsteps Hd Ho.
  assert (ordered s.(lp)) as Hs by (induction Hsteps; eauto using loop_step_ordered).
  split; [done|].
  assert (head (get_list p s.(lp)) = Some e ∧ e.(run_time) ≤ i.(now) ∧
    (p = low → due_head i.(now) s.(lp).(_event_list_high) = None)) as (Hh & Hdue & Hlow).
  { by apply (dispatch_runs c i s s'). }
  split_and!; [done..| |].
  - pose proof (get_list_ordered p _ Hs) as Hp. destruct (get_list p s.(lp)) as [|y es]; [done|]. injection Hh as ->.
    apply StronglySorted_cons in Hp as [Hf _]. rewrite Forall_forall in Hf. intros x Hx.
    apply elem_of_cons in Hx as [->|Hx]; [unfold before; lia|by apply Hf].
  - intros Hp x Hx. specialize (Hlow Hp). pose proof (proj1 Hs) as Hsh.
    destruct (_event_list_high (lp s)) as [|y es]; [by apply not_elem_of_nil in Hx|]. cbn in Hlow.
    destruct (Z.leb_spec (run_time y) (now i)); [done|].
    apply StronglySorted_cons in Hsh as [Hf _]. rewrite Forall_forall in Hf.
    apply elem_of_cons in Hx as [->|Hx]; [done|]. specialize (Hf x Hx). unfold before in Hf. lia.
Qed.

(** The service check at the head of the low priority events runs at once when it
    is forced, or when service checks are enabled and fewer run than allowed.
    Otherwise it is not lost: it goes back in the list at the time that becomes the
    next check of the service, 5 to 14 seconds after the previous one when too many
    checks run, one retry or check interval after it when checks are disabled. *)
Theorem service_check_limited c i s e es k :
  ordered s.(lp) → due_head i.(now) s.(lp).(_event_list_high) = None →
  s.(lp).(_event_list_low) = e :: es → e.(run_time) ≤ i.(now) →
  e.(event_type) = EVENT_SERVICE_CHECK → e.(recurring) = false →
  s.(wd).(services) !! address_of e.(event_data) = Some k → 0 ≤ i.(rand10) < 10 →
  ∃ s', dispatch c i s = Ret s' ∧
  let maxed := negb (c.(max_parallel_service_checks) =? 0) && (c.(max_parallel_service_checks) <=? i.(running)) in
  if forced k || (c.(execute_service_checks) && negb maxed)
  then s'.(out) = s.(out) ++ [Run low e]
  else ∃ t, s'.(out) = s.(out) ++ [ServiceStatus (address_of e.(event_data))] ∧
       s'.(wd).(services) = <[address_of e.(event_data) := set_next_check t k]> s.(wd).(services) ∧
       s'.(lp).(_event_list_low) ≡ₚ set_run_time t e :: es ∧
       (if maxed then k.(next_check) + 5 ≤ t < k.(next_check) + 15 else t = later c k).
Proof.
  intros Hs Hh Hl He Ht Hrec Hk Hr. unfold dispatch. rewrite Hh, Hl. cbn [due_head].
  destruct (Z.leb_spec (run_time e) (now i)); [|lia]. unfold run_low. rewrite Ht, Hk. unfold service_may_run.
  assert (StronglySorted before es) as Hes.
  { pose proof (proj2 Hs) as Hss. rewrite Hl in Hss. by apply StronglySorted_cons in Hss as [_ ?]. }
  set (maxed := negb (_ =? 0) && _).
  cbv zeta. clearbody maxed. destruct (forced k); cbn [orb].
  { eexists. split; [done|]. by rewrite run_event_out. }
  destruct maxed, (execute_service_checks c); cbn [negb andb]; cbv iota.
  all: eexists; (split; [reflexivity|]).
  3: by rewrite run_event_out.
  all: eexists; (split; [done|]); (split; [done|]); split.
  all: cbn; unfold next_run; cbn; rewrite ?Hrec; cbn; try (by apply insert_event_perm); try done.
  all: destruct (Z.eqb_spec (5 + rand10 i) 0); cbn; lia.
Qed.

(** ** Events that are due get run *)

(** The event is in the list, with at most [k] events before it. *)
Definition ahead (e : timed_event) (k : nat) (l : list timed_event) : Prop :=
  ∃ j, l !! j = Some e ∧ (j ≤ k)%nat.

(** The requests of a handler that leave an event of high priority where it is:
    nothing is scheduled in the past, and the event is not removed. *)
Definition polite (e : timed_event) (now : Z) (op : loop_op) : Prop :=
  match op with
  | Schedule x true => now ≤ x.(run_time)
  | Schedule _ false => True
  | RemoveDowntime id =>
      ¬ (e.(event_type) = EVENT_SCHEDULED_DOWNTIME ∧ wrap_u64 (address_of e.(event_data)) = id)
  | RemoveEvent p _ => p = low
  | RemoveEvents p t d => p = high → ¬ (e.(event_type) = t ∧ address_of e.(event_data) = address_of d)
  end.

Lemma ahead_insert e k x l :
  StronglySorted before l → e.(run_time) ≤ x.(run_time) → ahead e k l → ahead e k (insert_event x l).
Proof.
  intros Hl Hx (j & Hj & Hk). destruct (insert_event_split x l Hl) as (l1 & l2 & -> & -> & _ & H2).
  exists j. split; [|done]. apply lookup_app_Some in Hj as [Hj|[_ Hj]]; [by apply lookup_app_l_Some|].
  rewrite Forall_forall in H2. apply list_elem_of_lookup_2, H2 in Hj. lia.
Qed.

Lemma ahead_remove_first e k f l : f e = false → ahead e k l → ahead e k (remove_first f l).
Proof.
  intros Hf. revert k. induction l as [|x l IH]; intros k (j & Hj & Hk); [done|]. cbn [remove_first].
  destruct j as [|j].
  - injection Hj as ->. rewrite Hf. by exists 0%nat.
  - destruct (f x); [exists j; split; [done|lia]|]. destruct k as [|k]; [lia|].
    destruct (IH k) as (j' & Hj' & ?); [exists j; split; [done|lia]|]. exists (S j'). split; [done|lia].
Qed.

Lemma ahead_filter e k (P : timed_event → Prop) `{!∀ x, Decision (P x)} l :
  P e → ahead e k l → ahead e k (filter P l).
Proof.
  intros HP. revert k. induction l as [|x l IH]; intros k (j & Hj & Hk); [done|]. rewrite filter_cons.
  destruct j as [|j].
  - injection Hj as ->. rewrite decide_True by done. by exists 0%nat.
  - destruct k as [|k]; [lia|]. destruct (IH k) as (j' & Hj' & ?); [exists j; split; [done|lia]|].
    case_decide; [exists (S j')|exists j']; (split; [done|lia]).
Qed.

Lemma ahead_op e now k l op :
  ordered l → e.(run_time) ≤ now → polite e now op →
  ahead e k l.(_event_list_high) → ahead e k (do_op l op).(_event_list_high).
Proof.
  intros [Hl _] He Hp Ha. destruct op as [x []|id|p i|p t d]; cbn in Hp |- *; try done.
  - apply ahead_insert; [done|lia|done].
  - apply ahead_remove_first; [|done]. apply andb_false_iff. rewrite bool_decide_eq_false, Z.eqb_neq.
    destruct (decide (event_type e = EVENT_SCHEDULED_DOWNTIME)); naive_solver.
  - by subst p.
  - destruct p; [done|]. apply ahead_filter; auto.
Qed.

Lemma ahead_ops e now k ops : ∀ l,
  ordered l → e.(run_time) ≤ now → Forall (polite e now) ops →
  ahead e k l.(_event_list_high) → ahead e k (do_ops ops l).(_event_list_high).
Proof.
  induction ops as [|op ops IH]; intros l Hl He Hp Ha; [done|]. apply Forall_cons in Hp as [Hp Hps].
  cbn. apply IH; eauto using do_op_ordered, ahead_op.
Qed.

Lemma do_ops_last_time ops l : (do_ops ops l).(_last_time) = l.(_last_time).
Proof. revert l. induction ops as [|op ops IH]; intros l; [done|]. change (do_ops (op :: ops) l) with (do_ops ops (do_op l op)). rewrite IH. by destruct op as [? []| |[]|[]]. Qed.

(** [turns]: one turn of the loop for each input. *)
Fixpoint turns (c : config) (ins : list input) (s : st C) : res (option (st C)) :=
  match ins with
  | [] => Ret (Some s)
  | i :: ins =>
      match turn c i s with
      | Ret (Some s') => turns c ins s'
      | r => r
      end
  end.

(** The time goes forward, by less than what is taken for a change of the system
    time, and no shutdown is asked for. *)
Fixpoint steady (c : config) (last : Z) (ins : list input) : Prop :=
  match ins with
  | [] => True
  | i :: ins =>
      i.(sigshutdown) = false ∧ last ≤ i.(now) ∧ i.(now) - last < c.(time_change_threshold) ∧ steady c i.(now) ins
  end.

Lemma housekeeping_steady c i s :
  s.(lp).(_last_time) ≤ i.(now) → i.(now) - s.(lp).(_last_time) < c.(time_change_threshold) →
  (housekeeping c i s).(lp).(_event_list_high) = s.(lp).(_event_list_high) ∧
  (housekeeping c i s).(lp).(_last_time) = i.(now).
Proof.
  intros H1 H2. unfold housekeeping, status_step, time_step.
  assert ((reload_step i s).(lp).(_last_time) = s.(lp).(_last_time) ∧
    (reload_step i s).(lp).(_event_list_high) = s.(lp).(_event_list_high)) as [-> Hh]
    by (unfold reload_step; by destruct (_ || _)).
  destruct (Z.ltb_spec (now i) (_last_time (lp s))); [lia|].
  destruct (Z.leb_spec (time_change_threshold c) (now i - _last_time (lp s))); [lia|]. cbn [orb].
  destruct (5 <? _); by (split; [exact Hh|]).
Qed.

Section liveness.
Context (e : timed_event).
Hypothesis handlers_polite : ∀ x t (w : world C), Forall (polite e t) (handle_timed_event x t w).2.
Hypothesis timing_forward : ∀ f t, t ≤ call_timing f t.

Lemma next_run_later t x : x.(recurring) = true → t ≤ (next_run t x).(run_time).
Proof.
  intros Hx. unfold next_run. rewrite Hx. destruct (timing_func x); [apply timing_forward|]. cbn.
  destruct (Z.ltb_spec (wrap_i64 (run_time x + event_interval x)) t); lia.
Qed.

(** Running another event brings the event one place forward. *)
Lemma run_event_ahead i x k s :
  ordered s.(lp) → e.(run_time) ≤ i.(now) → ahead e k s.(lp).(_event_list_high) →
  let s' := run_event i high x s in
  ahead e k s'.(lp).(_event_list_high) ∧ s'.(lp).(_last_time) = s.(lp).(_last_time).
Proof.
  intros Hs He Ha. pose proof (handlers_polite x i.(now) s.(wd)) as Hp. unfold run_event.
  destruct (handle_timed_event x (now i) (wd s)) as [w ops]. cbn [snd] in Hp.
  pose proof (ahead_ops e (now i) k ops (lp s) Hs He Hp Ha) as Ha'.
  destruct (recurring x) eqn:Hx; cbn; rewrite do_ops_last_time; (split; [|done]); [|done].
  apply ahead_insert; [by apply do_ops_ordered|..|done]. pose proof (next_run_later (now i) x Hx). lia.
Qed.

Lemma turn_ahead c i s k :
  ordered s.(lp) → i.(sigshutdown) = false → s.(lp).(_last_time) ≤ i.(now) →
  i.(now) - s.(lp).(_last_time) < c.(time_change_threshold) → e.(run_time) ≤ i.(now) →
  ahead e k s.(lp).(_event_list_high) →
  ∃ s', turn c i s = Ret (Some s') ∧ ordered s'.(lp) ∧ s'.(lp).(_last_time) = i.(now) ∧
  (s'.(out) = (housekeeping c i s).(out) ++ [Run high e] ∨
   ∃ k', k = S k' ∧ ahead e k' s'.(lp).(_event_list_high)).
Proof.
  intros Hs Hd Hl1 Hl2 He (j & Hj & Hk).
  destruct (housekeeping_steady c i s Hl1 Hl2) as [Hh Hlt]. pose proof (housekeeping_ordered c i s Hs) as Hho.
  destruct (_event_list_high (lp s)) as [|x es] eqn:Hes; [done|].
  assert (before x e) as Hx.
  { pose proof (proj1 Hs) as Hss. rewrite Hes in Hss. apply StronglySorted_cons in Hss as [Hf _].
    destruct j as [|j]; [injection Hj as ->; unfold before; lia|]. rewrite Forall_forall in Hf.
    by eapply Hf, list_elem_of_lookup_2. }
  unfold before in Hx.
  set (s1 := on_loop (set_list high es) (housekeeping c i s)).
  assert (ordered s1.(lp)) as Hs1 by (eapply (set_tail_ordered high); [done|exact Hh]).
  assert (turn c i s = Ret (Some (run_event i high x s1))) as Hturn.
  { unfold turn. rewrite Hd, Hes. unfold dispatch. rewrite Hh. cbn [due_head].
    destruct (Z.leb_spec (run_time x) (now i)); [done|lia]. }
  exists (run_event i high x s1). split_and!; [done|by apply run_event_ordered|..].
  - destruct j as [|j].
    + unfold run_event. destruct (handle_timed_event _ _ _) as [w ops].
      destruct (recurring x); cbn; rewrite do_ops_last_time; cbn; by rewrite Hlt.
    + destruct (run_event_ahead i x j s1) as [_ ->]; [done..|by exists j|]. cbn. by rewrite Hlt.
  - destruct j as [|j]; [left; rewrite run_event_out; by injection Hj as ->|right].
    destruct k as [|k]; [lia|]. exists k. split; [done|].
    apply run_event_ahead; [done..|]. exists j. split; [done|lia].
Qed.

End liveness.
End facts.

(** ** Concrete loops *)

Module Demo.
(** Handlers that do nothing, and a sort. *)
#[export] Instance handlers : Handlers unit := {|
  handle_timed_event _ _ w := (w, []);
  call_timing _ t := t + 60;
  get_next_notification_time _ t := t + 300;
  std_sort := merge_sort before;
|}.

#[export] Instance handlers_laws : HandlersLaws unit.
Proof.
  split.
  - intros l. apply merge_sort_Permutation.
  - intros l. apply StronglySorted_merge_sort; unfold before; [intros x y z; lia|intros x y; lia].
Qed.

Definition reaper (t : Z) : timed_event := TimedEvent EVENT_CHECK_REAPER t true 5 true None (object 0) 0.
Definition check_of (id t : Z) : timed_event := TimedEvent EVENT_SERVICE_CHECK t false 0 true None (object id) 0.
Definition svc (t : Z) : checkable := Checkable t 0 1 5 false (dint 0) 0 0 0 0 0 0 0 0.
Definition conf : config := Config 900 2 true true 60 180.
Definition at_time (t : Z) : input := Input t false false 2 3.
Definition start : st unit :=
  State (Loop [reaper 10; reaper 12; TimedEvent EVENT_EXPIRE_DOWNTIME 15 false 0 false None (object 0) 0]
              [check_of 7 11; check_of 8 30] 20 0 0)
    (World {[ 7 := svc 11; 8 := svc 30 ]} ∅ 0 0 0 tt) [].

Lemma start_ordered : ordered start.(lp).
Proof. split; repeat constructor; by vm_compute. Qed.
End Demo.

#[local] Existing Instance Demo.handlers.
#[local] Existing Instance Demo.handlers_laws.

Lemma events_run_in_order_witness :
  let s := Demo.start in
  ordered s.(lp) ∧ head (get_list high s.(lp)) = Some (Demo.reaper 10) ∧ 10 ≤ 20 ∧
  (∀ x, x ∈ get_list high s.(lp) → before (Demo.reaper 10) x) ∧
  (high = low → ∀ x, x ∈ s.(lp).(_event_list_high) → 20 < x.(run_time)).
Proof.
  apply (events_run_in_order Demo.start Demo.start Demo.conf (Demo.at_time 20)
    (run_event (Demo.at_time 20) high (Demo.reaper 10)
      (on_loop (set_list high (tail Demo.start.(lp).(_event_list_high))) Demo.start)));
    [apply Demo.start_ordered|apply rtc_refl|reflexivity|reflexivity].
Defined.


Definition demo_low : st unit := on_loop (set_list high []) Demo.start.

Lemma service_check_limited_witness :
  ∃ s', dispatch Demo.conf (Demo.at_time 20) demo_low = Ret s' ∧
    ∃ t, s'.(out) = [ServiceStatus 7] ∧ s'.(wd).(services) !! 7 = Some (set_next_check t (Demo.svc 11)) ∧
      s'.(lp).(_event_list_low) ≡ₚ set_run_time t (Demo.check_of 7 11) :: [Demo.check_of 8 30] ∧ 16 ≤ t < 26.
Proof.
  destruct (service_check_limited Demo.conf (Demo.at_time 20) demo_low (Demo.check_of 7 11) [Demo.check_of 8 30] (Demo.svc 11))
    as (s' & Hd & Hs').
  - split; [constructor|]. apply (proj2 Demo.start_ordered).
  - reflexivity.
  - reflexivity.
  - by vm_compute.
  - reflexivity.
  - reflexivity.
  - by vm_compute.
  - by vm_compute.
  - exists s'. split; [done|]. 
    destruct Hs' as (t & Ho & Hsv & Hp & Hm). exists t. split_and!; [done| |done|apply Hm|apply Hm].
    rewrite Hsv. apply lookup_insert_eq.
Defined.

(** The event of a downtime is not removed when the downtime is: its data is the
    address of the identifier, which is compared with the identifier. *)
Theorem remove_downtime_keeps_event e id l :
  wrap_u64 (address_of e.(event_data)) ≠ id →
  e ∈ l.(_event_list_high) → e ∈ (remove_downtime id l).(_event_list_high).
Proof.
  intros Ha. cbn. induction (_event_list_high l) as [|x es IH]; cbn; [done|]. intros He.
  destruct (bool_decide _ && _) eqn:Hf.
  - apply elem_of_cons in He as [->|He]; [|done]. apply andb_true_iff in Hf as [_ Hf]. apply Z.eqb_eq in Hf. done.
  - apply elem_of_cons in He as [->|He]; [by left|right; auto].
Qed.
