(* ===== verification/Calendar.v ===== *)
(** * The calendar of the C library

    [localtime_r] and [mktime], as the engine uses them: always with [tm_isdst] at -1,
    and without the fields [tm_yday] and [tm_isdst].  The date of a day is that of the
    Gregorian calendar; where the local time is relative to it depends on the time zone,
    which is a parameter: the class [Calendar], with the laws [CalendarLaws]. *)

From S2P Require Import Prelude.

Record tm := Tm {
  tm_sec : Z;
  tm_min : Z;
  tm_hour : Z;
  tm_mday : Z;
  tm_mon : Z;
  tm_year : Z;
  tm_wday : Z;
}.

Definition day_seconds : Z := 86400.

(** ** Days and dates

    Day 0 is 1970-01-01.  Years start in March, so that the day that leap years add is
    the last one; 400 years are 146097 days. *)
Definition days_from_civil (year mon mday : Z) : Z :=
  let y := year + 1900 + mon / 12 in
  let m := mon mod 12 + 1 in
  let y := if m <=? 2 then y - 1 else y in
  let yoe := y mod 400 in
  let doy := (153 * (if 2 <? m then m - 3 else m + 9) + 2) / 5 + mday - 1 in
  y / 400 * 146097 + yoe * 365 + yoe / 4 - yoe / 100 + doy - 719468.

Definition civil_from_days (n : Z) : Z * Z * Z :=
  let z := n + 719468 in
  let doe := z mod 146097 in
  let yoe := (doe - doe / 1460 + doe / 36524 - doe / 146096) / 365 in
  let doy := doe - (365 * yoe + yoe / 4 - yoe / 100) in
  let mp := (5 * doy + 2) / 153 in
  let m := if mp <? 10 then mp + 3 else mp - 9 in
  let y := yoe + z / 146097 * 400 in
  ((if m <=? 2 then y + 1 else y) - 1900, m - 1, doy - (153 * mp + 2) / 5 + 1).

Definition weekday (n : Z) : Z := (n + 4) mod 7.

(** The broken-down time of so many seconds since the first day. *)
Definition gmtime (s : Z) : tm :=
  let n := s / day_seconds in
  let r := s mod day_seconds in
  let '(y, m, d) := civil_from_days n in
  Tm (r mod 60) (r / 60 mod 60) (r / 3600) d m y (weekday n).

Definition day_of (t : tm) : Z := days_from_civil t.(tm_year) t.(tm_mon) t.(tm_mday).
Definition seconds_of (t : tm) : Z := day_seconds * day_of t + 3600 * t.(tm_hour) + 60 * t.(tm_min) + t.(tm_sec).

(** ** Time zones *)

Class Calendar := {
  localtime_r : Z → tm;
  (** the time, -1 on error, and the fields in their ranges *)
  mktime : tm → Z * tm;
}.

(** [offset t] is what the local time adds at [t], [midnight_of n] the time at which the
    day [n] starts.  The offset changes by at most one hour, never at midnight. *)
Class CalendarLaws `{!Calendar} := {
  offset : Z → Z;
  midnight_of : Z → Z;
  localtime_spec t : localtime_r t = gmtime (t + offset t);
  midnight_spec n t : midnight_of n ≤ t ↔ day_seconds * n ≤ t + offset t;
  midnight_exact n t : t + offset t = day_seconds * n ↔ t = midnight_of n;
  midnight_valid n : midnight_of n ≠ -1;
  offset_shift t t' : Z.abs (offset t - offset t') ≤ 3600;
  mktime_midnight t : t.(tm_hour) = 0 → t.(tm_min) = 0 → t.(tm_sec) = 0 →
    mktime t = (midnight_of (day_of t), gmtime (day_seconds * day_of t));
  (** a time of the day is within the day *)
  mktime_day t : 0 ≤ t.(tm_hour) < 24 → 0 ≤ t.(tm_min) < 60 → t.(tm_sec) = 0 →
    midnight_of (day_of t) ≤ (mktime t).1 < midnight_of (day_of t + 1);
}.

(** ** The date of a day *)

(** Years from March, of an era of 400 of them: the first day of a year, and the year of
    a day. *)
Definition year_start (yoe : Z) : Z := 365 * yoe + yoe / 4 - yoe / 100.
Definition year_end (yoe : Z) : Z := if yoe =? 399 then 146096 else year_start (yoe + 1) - 1.
Definition scaled (doe : Z) : Z := doe - doe / 1460 + doe / 36524 - doe / 146096.

Lemma scaled_le x y : 0 ≤ x ≤ y → y ≤ 146096 → scaled x ≤ scaled y.
Proof.
  intros [Hx Hxy]. pattern y. apply Zlt_lower_bound_ind with (z := x); [|done]. clear y Hxy. intros y IH Hxy Hy.
  destruct (decide (y = x)) as [->|Hne]; [lia|]. transitivity (scaled (y - 1)); [apply IH; lia|].
  unfold scaled. clear IH. Z.to_euclidean_division_equations. lia.
Qed.

Fixpoint all_below (n : nat) (f : Z → bool) : bool :=
  match n with O => true | S n => f (Z.of_nat n) && all_below n f end.

Lemma all_below_spec n f : all_below n f = true → ∀ x, 0 ≤ x < Z.of_nat n → f x = true.
Proof.
  induction n as [|n IH]; intros H x Hx; [lia|]. cbn [all_below] in H. apply andb_true_iff in H as [H1 H2].
  destruct (decide (x = Z.of_nat n)) as [->|Hne]; [done|]. apply IH; [done|lia].
Qed.

Lemma year_bounds yoe : 0 ≤ yoe < 400 →
  scaled (year_start yoe) / 365 = yoe ∧ scaled (year_end yoe) / 365 = yoe ∧ 0 ≤ year_start yoe ≤ year_end yoe ∧
  year_end yoe ≤ 146096 ∧ year_end yoe ≤ year_start yoe + 365.
Proof.
  intros Hy. pose proof (all_below_spec 400 (λ yoe, (scaled (year_start yoe) / 365 =? yoe) && (scaled (year_end yoe) / 365 =? yoe) &&
    (0 <=? year_start yoe) && (year_start yoe <=? year_end yoe) && (year_end yoe <=? 146096) &&
    (year_end yoe <=? year_start yoe + 365)) ltac:(vm_compute; reflexivity) yoe ltac:(lia)) as H.
  cbn beta in H. rewrite !andb_true_iff, !Z.eqb_eq, !Z.leb_le in H. lia.
Qed.

Lemma year_of_day doe : 0 ≤ doe < 146097 →
  let yoe := scaled doe / 365 in 0 ≤ yoe < 400 ∧ year_start yoe ≤ doe ≤ year_end yoe.
Proof.
  intros Hd yoe. assert (0 ≤ yoe < 400) as Hy.
  { pose proof (scaled_le 0 doe ltac:(lia) ltac:(lia)) as H1. pose proof (scaled_le doe 146096 ltac:(lia) ltac:(lia)) as H2.
    change (scaled 0) with 0 in H1. change (scaled 146096) with 145999 in H2.
    split; [apply Z.div_pos; lia|apply Z.div_lt_upper_bound; lia]. }
  split; [done|]. destruct (year_bounds yoe Hy) as (Hs & He & H1 & H2 & _). split.
  - destruct (Z.le_gt_cases (year_start yoe) doe) as [?|Hlt]; [done|exfalso].
    destruct (decide (yoe = 0)) as [H0|Hn0]; [rewrite H0 in Hlt; change (year_start 0) with 0 in Hlt; lia|].
    destruct (year_bounds (yoe - 1) ltac:(lia)) as (_ & Hpe & Hp1 & Hp2 & _).
    assert (year_end (yoe - 1) = year_start yoe - 1) as Heq.
    { unfold year_end. destruct (Z.eqb_spec (yoe - 1) 399); [lia|]. by replace (yoe - 1 + 1) with yoe by lia. }
    pose proof (scaled_le doe (year_end (yoe - 1)) ltac:(lia) ltac:(lia)) as Hle.
    apply (Z.div_le_mono _ _ 365) in Hle; [|lia]. fold yoe in Hle. lia.
  - destruct (Z.le_gt_cases doe (year_end yoe)) as [?|Hgt]; [done|exfalso].
    destruct (decide (yoe = 399)) as [H0|Hn0]; [rewrite H0 in Hgt; change (year_end 399) with 146096 in Hgt; lia|].
    destruct (year_bounds (yoe + 1) ltac:(lia)) as (Hns & _ & Hn1 & Hn2 & _).
    assert (year_end yoe = year_start (yoe + 1) - 1) as Heq by (unfold year_end; destruct (Z.eqb_spec yoe 399); lia).
    pose proof (scaled_le (year_start (yoe + 1)) doe ltac:(lia) ltac:(lia)) as Hle.
    apply (Z.div_le_mono _ _ 365) in Hle; [|lia]. fold yoe in Hle. lia.
Qed.

(** The first day of a month from March, in its year; the last month ends with the year. *)
Definition month_start (mp : Z) : Z := (153 * mp + 2) / 5.

Lemma month_of_day doy : 0 ≤ doy ≤ 365 →
  let mp := (5 * doy + 2) / 153 in
  0 ≤ mp ≤ 11 ∧ month_start mp ≤ doy ∧ doy - month_start mp < 31 ∧ (mp < 11 → doy < month_start (mp + 1)).
Proof.
  intros Hd. pose proof (all_below_spec 366 (λ doy, let mp := (5 * doy + 2) / 153 in (0 <=? mp) && (mp <=? 11) && (month_start mp <=? doy) &&
    (doy - month_start mp <? 31) && ((mp =? 11) || (doy <? month_start (mp + 1)))) ltac:(vm_compute; reflexivity) doy ltac:(lia)) as H.
  cbv beta zeta in H. rewrite !andb_true_iff, orb_true_iff, Z.eqb_eq, !Z.leb_le, !Z.ltb_lt in H. intros mp. fold mp in H. lia.
Qed.

(** ** Months

    Months are numbered over the years; [month_first] is the first day of a month. *)
Definition month_number (year mon : Z) : Z := 12 * (year + 1900) + mon.

Definition month_first (k : Z) : Z :=
  let y := (k - 2) / 12 in y / 400 * 146097 + year_start (y mod 400) + month_start ((k - 2) mod 12) - 719468.

Lemma march_number y mp : 0 ≤ mp ≤ 11 → (12 * y + mp) / 12 = y ∧ (12 * y + mp) mod 12 = mp.
Proof. intros Hmp. Z.to_euclidean_division_equations. lia. Qed.

Lemma days_from_civil_month y m d : days_from_civil y m d = month_first (month_number y m) + d - 1.
Proof.
  unfold days_from_civil, month_first, month_number, year_start, month_start. pose proof (Z.div_mod m 12 ltac:(lia)) as Hm.
  pose proof (Z.mod_pos_bound m 12 ltac:(lia)) as Hb. set (y0 := y + 1900 + m / 12). set (m0 := m mod 12) in *.
  destruct (Z.leb_spec (m0 + 1) 2).
  - destruct (march_number (y0 - 1) (m0 + 10) ltac:(lia)) as [H1 H2].
    replace (12 * (y + 1900) + m - 2) with (12 * (y0 - 1) + (m0 + 10)) by (unfold y0; lia).
    rewrite H1, H2. destruct (Z.ltb_spec 2 (m0 + 1)); [lia|]. replace (m0 + 1 + 9) with (m0 + 10) by lia. lia.
  - destruct (march_number y0 (m0 - 2) ltac:(lia)) as [H1 H2].
    replace (12 * (y + 1900) + m - 2) with (12 * y0 + (m0 - 2)) by (unfold y0; lia).
    rewrite H1, H2. destruct (Z.ltb_spec 2 (m0 + 1)); [|lia]. replace (m0 + 1 - 3) with (m0 - 2) by lia. lia.
Qed.

(** Years have 365 or 366 days, months 28 to 31. *)
Lemma march_year_length y :
  let first y := y / 400 * 146097 + year_start (y mod 400) in first y + 365 ≤ first (y + 1) ≤ first y + 366.
Proof. unfold year_start. Z.to_euclidean_division_equations. lia. Qed.

Lemma month_length k : 28 ≤ month_first (k + 1) - month_first k ≤ 31.
Proof.
  unfold month_first. pose proof (Z.div_mod (k - 2) 12 ltac:(lia)) as Hk. pose proof (Z.mod_pos_bound (k - 2) 12 ltac:(lia)) as Hb.
  set (y := (k - 2) / 12) in *. set (mp := (k - 2) mod 12) in *. destruct (decide (mp = 11)) as [Heq|Hne].
  - destruct (march_number (y + 1) 0 ltac:(lia)) as [H1 H2]. replace (k + 1 - 2) with (12 * (y + 1) + 0) by lia.
    rewrite H1, H2, Heq. change (month_start 11) with 337. change (month_start 0) with 0.
    pose proof (march_year_length y). cbv beta zeta in *. lia.
  - destruct (march_number y (mp + 1) ltac:(lia)) as [H1 H2]. replace (k + 1 - 2) with (12 * y + (mp + 1)) by lia.
    rewrite H1, H2. assert (28 ≤ month_start (mp + 1) - month_start mp ≤ 31); [|lia].
    unfold month_start. Z.to_euclidean_division_equations. lia.
Qed.

Lemma month_first_lt k k' : k < k' → month_first k < month_first k'.
Proof.
  intros Hlt. pattern k'. apply Zlt_lower_bound_ind with (z := k + 1); [|lia]. clear k' Hlt. intros x IH Hx.
  pose proof (month_length (x - 1)) as Hl. rewrite Z.sub_add in Hl. destruct (decide (x = k + 1)) as [->|Hne].
  - rewrite Z.add_simpl_r in Hl. lia.
  - specialize (IH (x - 1) ltac:(lia)). lia.
Qed.

Lemma month_unique n k k' :
  month_first k ≤ n < month_first (k + 1) → month_first k' ≤ n < month_first (k' + 1) → k = k'.
Proof.
  intros H1 H2. destruct (Z.lt_trichotomy k k') as [Hlt|[?|Hgt]]; [|done|].
  - destruct (decide (k + 1 = k')) as [<-|?]; [lia|]. pose proof (month_first_lt (k + 1) k' ltac:(lia)). lia.
  - destruct (decide (k' + 1 = k)) as [<-|?]; [lia|]. pose proof (month_first_lt (k' + 1) k ltac:(lia)). lia.
Qed.

(** A day is in the month of its date. *)
Lemma civil_spec n : let '(y, m, d) := civil_from_days n in
  0 ≤ m ≤ 11 ∧ month_first (month_number y m) ≤ n < month_first (month_number y m + 1) ∧ d = n - month_first (month_number y m) + 1.
Proof.
  unfold civil_from_days. set (z := n + 719468). set (doe := z mod 146097).
  pose proof (Z.mod_pos_bound z 146097 ltac:(lia)) as Hdoe. fold doe in Hdoe.
  pose proof (Z.div_mod z 146097 ltac:(lia)) as Hz. fold doe in Hz.
  destruct (year_of_day doe Hdoe) as [Hy Hys]. unfold scaled in Hy, Hys. set (yoe := (_ - doe / 146096) / 365) in *.
  destruct (year_bounds yoe Hy) as (_ & _ & _ & _ & Hlen).
  change (365 * yoe + yoe / 4 - yoe / 100) with (year_start yoe). set (doy := doe - year_start yoe).
  destruct (month_of_day doy ltac:(unfold doy; lia)) as (Hmp & Hm1 & Hm2 & Hm3). set (mp := (5 * doy + 2) / 153) in *.
  set (era := z / 146097) in *. set (y := yoe + era * 400). cbv zeta. change ((153 * mp + 2) / 5) with (month_start mp).
  assert (y mod 400 = yoe ∧ y / 400 = era) as [Hmod Hdiv].
  { unfold y. rewrite Z.mod_add, Z.div_add, Z.mod_small, Z.div_small by lia. lia. }
  set (m := if mp <? 10 then mp + 3 else mp - 9).
  assert (month_number ((if m <=? 2 then y + 1 else y) - 1900) (m - 1) - 2 = 12 * y + mp ∧ 1 ≤ m ≤ 12) as [Hk Hm].
  { unfold m, month_number. destruct (Z.ltb_spec mp 10).
    - destruct (Z.leb_spec (mp + 3) 2); lia.
    - destruct (Z.leb_spec (mp - 9) 2); lia. }
  set (k := month_number _ _) in *. destruct (march_number y mp ltac:(lia)) as [H1 H2].
  assert (month_first k = era * 146097 + year_start yoe + month_start mp - 719468) as Hday.
  { unfold month_first. rewrite Hk, H1, H2, Hmod, Hdiv. done. }
  split; [lia|]. split; [|unfold doy, z in *; lia]. split; [unfold doy, z in *; lia|].
  destruct (decide (mp = 11)) as [Heq|Hne].
  - unfold month_first. destruct (march_number (y + 1) 0 ltac:(lia)) as [H3 H4]. replace (k + 1 - 2) with (12 * (y + 1) + 0) by lia.
    rewrite H3, H4. change (month_start 0) with 0. destruct (decide (yoe = 399)) as [H399|Hn399].
    + unfold y. replace (yoe + era * 400 + 1) with (0 + (era + 1) * 400) by lia. rewrite Z.mod_add, Z.div_add by lia.
      change (0 mod 400) with 0. change (year_start 0) with 0. change (0 / 400) with 0. unfold z in Hz. lia.
    + unfold y. replace (yoe + era * 400 + 1) with (yoe + 1 + era * 400) by lia.
      rewrite Z.mod_add, Z.div_add, Z.mod_small, Z.div_small by lia.
      unfold year_end in Hys. destruct (Z.eqb_spec yoe 399); [lia|]. unfold z in Hz. lia.
  - specialize (Hm3 ltac:(lia)). unfold month_first. destruct (march_number y (mp + 1) ltac:(lia)) as [H3 H4].
    replace (k + 1 - 2) with (12 * y + (mp + 1)) by lia. rewrite H3, H4, Hmod, Hdiv. unfold doy, z in *. lia.
Qed.

(** The date of the day of a date, when the month has that day. *)
Lemma civil_of_days y m d : 0 ≤ m ≤ 11 → 1 ≤ d →
  days_from_civil y m d < month_first (month_number y m + 1) → civil_from_days (days_from_civil y m d) = (y, m, d).
Proof.
  intros Hm Hd Hlt. rewrite days_from_civil_month in *. set (k := month_number y m) in *. set (n := month_first k + d - 1) in *.
  pose proof (civil_spec n) as Hn. destruct (civil_from_days n) as [[y' m'] d']. destruct Hn as (Hm' & Hk' & ->).
  assert (month_number y' m' = k) as Hk by (eapply month_unique; [exact Hk'|lia]).
  rewrite Hk. unfold k, month_number in Hk. assert (y' = y ∧ m' = m) as [-> ->] by lia. do 2 f_equal. lia.
Qed.

Lemma days_of_civil n : let '(y, m, d) := civil_from_days n in days_from_civil y m d = n.
Proof.
  pose proof (civil_spec n) as Hn. destruct (civil_from_days n) as [[y m] d]. destruct Hn as (_ & _ & ->).
  rewrite days_from_civil_month. lia.
Qed.

(** The local day of a broken-down time. *)
Lemma day_of_gmtime s : day_of (gmtime s) = s / day_seconds.
Proof.
  unfold day_of, gmtime. pose proof (days_of_civil (s / day_seconds)) as H. by destruct (civil_from_days (s / day_seconds)) as [[y m] d].
Qed.

(** ** UTC *)
Definition utc : Calendar := {|
  localtime_r := gmtime;
  mktime := λ t, (seconds_of t, gmtime (seconds_of t));
|}.

#[program] Definition utc_laws : @CalendarLaws utc := {| offset := λ _, 0; midnight_of := λ n, day_seconds * n |}.
Next Obligation. intros t. cbn. by rewrite Z.add_0_r. Qed.
Next Obligation. intros n t. cbn. lia. Qed.
Next Obligation. intros n t. cbn. lia. Qed.
Next Obligation. intros n. unfold day_seconds. lia. Qed.
Next Obligation. intros t t'. cbn. lia. Qed.
Next Obligation. intros t Hh Hm Hs. cbn. unfold seconds_of. rewrite Hh, Hm, Hs. by rewrite !Z.mul_0_r, !Z.add_0_r. Qed.
Next Obligation. intros t Hh Hm Hs. cbn. unfold seconds_of, day_seconds. lia. Qed.

(** ** A zone whose clocks change once

    One hour more from 2024-03-31 01:00 UTC on. *)
Definition clock_change : Z := 1711846800.
Definition summer_offset (t : Z) : Z := if t <? clock_change then 0 else 3600.

(** The time of a local time; that of the hour that does not exist is counted from before
    the change. *)
Definition summer_time (s : Z) : Z := if s <? clock_change + 3600 then s else s - 3600.

Definition summer : Calendar := {|
  localtime_r := λ t, gmtime (t + summer_offset t);
  mktime := λ t, let s := summer_time (seconds_of t) in (s, gmtime (s + summer_offset s));
|}.

Lemma summer_bounds : clock_change = 86400 * 19813 + 3600.
Proof. done. Qed.

#[program] Definition summer_laws : @CalendarLaws summer :=
  {| offset := summer_offset; midnight_of := λ n, summer_time (day_seconds * n) |}.
Next Obligation. done. Qed.
Next Obligation.
  intros n t. unfold summer_time, summer_offset, day_seconds. pose proof summer_bounds.
  destruct (Z.ltb_spec (86400 * n) (clock_change + 3600)), (Z.ltb_spec t clock_change); lia.
Qed.
Next Obligation.
  intros n t. unfold summer_time, summer_offset, day_seconds. pose proof summer_bounds.
  destruct (Z.ltb_spec (86400 * n) (clock_change + 3600)), (Z.ltb_spec t clock_change); lia.
Qed.
Next Obligation. intros n. unfold summer_time, day_seconds. pose proof summer_bounds. destruct (_ <? _); lia. Qed.
Next Obligation. intros t t'. cbn. unfold summer_offset. destruct (_ <? _), (_ <? _); lia. Qed.
Next Obligation.
  intros t Hh Hm Hs. cbn. assert (seconds_of t = day_seconds * day_of t) as Heq by (unfold seconds_of; lia). rewrite Heq.
  apply (f_equal (pair _)), (f_equal gmtime).
  unfold summer_time, summer_offset, day_seconds. pose proof summer_bounds.
  destruct (Z.ltb_spec (86400 * day_of t) (clock_change + 3600)) as [?|?].
  - destruct (Z.ltb_spec (86400 * day_of t) clock_change); lia.
  - destruct (Z.ltb_spec (86400 * day_of t - 3600) clock_change); lia.
Qed.
Next Obligation.
  intros t Hh Hm Hs. cbn. unfold summer_time, seconds_of, day_seconds. pose proof summer_bounds.
  destruct (Z.ltb_spec (86400 * day_of t + 3600 * tm_hour t + 60 * tm_min t + tm_sec t) (clock_change + 3600)),
    (Z.ltb_spec (86400 * day_of t) (clock_change + 3600)), (Z.ltb_spec (86400 * (day_of t + 1)) (clock_change + 3600)); lia.
Qed.

Example leap_day : days_from_civil 100 1 29 = 11016 ∧ civil_from_days 11016 = (100, 1, 29) ∧ weekday 11016 = 2.
Proof. vm_compute. done. Qed.
