(* ===== verification/TimePeriod.v ===== *)
(** * Time periods

    [engine/src/timeperiod.cc]: a period is a weekly schedule of time ranges, exceptions
    on date ranges, and excluded periods.  The engine asks for the next time within a
    period: when to check, when to notify.

    A [time_t] of -1 is an error or "none", as in the code.  Loops have fuel: the depth of
    the exclusions, and the number of turns of the loops over the days. *)

From S2P Require Import Prelude Calendar.

(** ** Data *)

(** Seconds since midnight. *)
Record timerange := Timerange { get_range_start : Z; get_range_end : Z }.

Record daterange := Daterange {
  _syear : Z;
  _smon : Z;
  _smday : Z;
  _swday : Z;
  _swday_offset : Z;
  _eyear : Z;
  _emon : Z;
  _emday : Z;
  _ewday : Z;
  _ewday_offset : Z;
  _skip_interval : Z;
  _timerange : list timerange;
}.

Inductive type_range := calendar_date | month_date | month_day | month_week_day | week_day.

Record timeperiod := Timeperiod {
  (** from Sunday *)
  days : list (list timerange);
  (** by type, in the order of [type_range] *)
  exceptions : list (type_range * list daterange);
  _exclusions : list string;
}.

Record time_info := TimeInfo { preferred_time : Z; preftime : tm; midnight : Z }.

Section TimePeriod.
Context `{!Calendar}.
(** The hour, minute and second of a [tm] that was not initialised. *)
Context (uninit : Z * Z * Z).

(** ** Days *)

Definition at_midnight (t : tm) : tm := Tm 0 0 0 t.(tm_mday) t.(tm_mon) t.(tm_year) t.(tm_wday).
Definition set_date (year mon mday : Z) (t : tm) : tm :=
  Tm t.(tm_sec) t.(tm_min) t.(tm_hour) mday mon year t.(tm_wday).
Definition midnight_date (year mon mday : Z) : tm := Tm 0 0 0 mday mon year 0.

Definition _add_round_days_to_midnight (midnight skip : Z) : Z :=
  let next_day_time := midnight + skip in
  let next_day := localtime_r next_day_time in
  if negb (next_day.(tm_hour) =? 0) || negb (next_day.(tm_min) =? 0) || negb (next_day.(tm_sec) =? 0) then
    let next_day := localtime_r (next_day_time + 12 * 60 * 60) in
    (mktime (at_midnight next_day)).1
  else next_day_time.

(** The search of the last day of a month, down from the 31st. *)
Fixpoint last_day (n : nat) (year month : Z) (t : tm) : res tm :=
  match n with
  | O => Throw fuel_exhausted
  | S n' =>
      let '(midnight, t) := mktime (set_date year month (Z.of_nat n) t) in
      if (midnight =? -1) || negb (t.(tm_mon) =? month) then last_day n' year month t else Ret t
  end.

Definition calculate_time_from_day_of_month (year month monthday : Z) : res Z :=
  if 0 <? monthday then
    let '(midnight, t) := mktime (midnight_date year month monthday) in
    Ret (if negb (t.(tm_mon) =? month) then -1 else midnight)
  else
    let '(h, m, s) := uninit in
    let! t := last_day 31 year month (Tm s m h 0 0 0 0) in
    let mday := if t.(tm_mday) <=? - monthday then 1 else t.(tm_mday) + monthday + 1 in
    Ret (mktime (set_date year month mday t)).1.

(** The search of the last such weekday of a month, down from the sixth week. *)
Fixpoint last_weekday (n : nat) (days year month : Z) (t : tm) : res tm :=
  match n with
  | O => Throw fuel_exhausted
  | S n =>
      let days := days - 7 in
      let '(midnight, t) := mktime (set_date year month (days + 1) t) in
      if (midnight =? -1) || negb (t.(tm_mon) =? month) then last_weekday n days year month t else Ret t
  end.

Definition calculate_time_from_weekday_of_month (year month weekday weekday_offset : Z) : res Z :=
  let '(_, t) := mktime (midnight_date year month 1) in
  let days := weekday - t.(tm_wday) in
  let days := if days <? 0 then days + 7 else days in
  if 0 <? weekday_offset then
    let weeks := if 5 <? weekday_offset then 5 else weekday_offset in
    let days := days + (weeks - 1) * 7 in
    let '(midnight, t) := mktime (set_date year month (days + 1) t) in
    Ret (if negb (t.(tm_mon) =? month) then -1 else midnight)
  else
    let! t := last_weekday 6 (days + 5 * 7) year month t in
    let days := (weekday_offset + 1) * 7 in
    let mday := if t.(tm_mday) <=? - days then Z.rem t.(tm_mday) 7 else t.(tm_mday) + days in
    Ret (mktime (set_date year month mday t)).1.

(** ** Date ranges: [None] is false; else the start and the end *)

Definition _daterange_calendar_date_to_time_t (r : daterange) : res (option (Z * Z)) :=
  let '(start, t) := mktime (midnight_date (r.(_syear) - 1900) r.(_smon) r.(_smday)) in
  if start =? -1 then Ret None
  else if negb (r.(_eyear) =? 0) then
    let '(end_, _) := mktime (midnight_date (r.(_eyear) - 1900) r.(_emon) r.(_emday)) in
    if end_ =? -1 then Ret None else Ret (Some (start, _add_round_days_to_midnight end_ day_seconds))
  else Ret (Some (start, -1)).

Definition end_before_start (r : daterange) : bool :=
  (r.(_emon) <? r.(_smon)) || ((r.(_smon) =? r.(_emon)) && (r.(_emday) <? r.(_smday))).

(** The years tried, until one where the end is after the preferred time. *)
Fixpoint month_date_years (n : nat) (r : daterange) (ti : time_info) (year : Z) (last : Z * Z) : res (Z * Z) :=
  match n with
  | O => Ret last
  | S n =>
      let! start := calculate_time_from_day_of_month year r.(_smon) r.(_smday) in
      let! end_ := calculate_time_from_day_of_month (year + if end_before_start r then 1 else 0) r.(_emon) r.(_emday) in
      if end_ =? -1 then month_date_years n r ti (year + 1) (start, end_)
      else
        let end_ := _add_round_days_to_midnight end_ day_seconds in
        if ti.(preferred_time) <? end_ then Ret (start, end_) else month_date_years n r ti (year + 1) (start, end_)
  end.

Definition _daterange_month_date_to_time_t (r : daterange) (ti : time_info) : res (option (Z * Z)) :=
  let year := if end_before_start r then ti.(preftime).(tm_year) - 1 else ti.(preftime).(tm_year) in
  let! p := month_date_years 3 r ti year (-1, -1) in
  Ret (if p.1 <? p.2 then Some p else None).

(** An interval from a day to the day after another, unless one of them fails. *)
Definition interval (start end_ : Z) : option (Z * Z) :=
  if (start =? -1) || (end_ =? -1) then None else Some (start, _add_round_days_to_midnight end_ day_seconds).

Definition proper (p : Z * Z) : option (Z * Z) := if p.1 <? p.2 then Some p else None.

Definition month_decay (r : daterange) : bool :=
  if 0 <=? r.(_smday) then if 0 <=? r.(_emday) then r.(_emday) <? r.(_smday) else false
  else if 0 <=? r.(_emday) then r.(_emday) <? r.(_smday) else true.

Definition previous_month (year month : Z) : Z * Z := if month =? 0 then (year - 1, 11) else (year, month - 1).
Definition next_month (year month : Z) : Z * Z := if month =? 11 then (year + 1, 0) else (year, month + 1).

Definition _daterange_month_day_to_time_t (r : daterange) (ti : time_info) : res (option (Z * Z)) :=
  let year := ti.(preftime).(tm_year) in
  let month := ti.(preftime).(tm_mon) in
  if negb (month_decay r) then
    let! start := calculate_time_from_day_of_month year month r.(_smday) in
    let! end_ := calculate_time_from_day_of_month year month r.(_emday) in
    Ret (p ← interval start end_; proper p)
  else
    let '(py, pm) := previous_month year month in
    let! start := calculate_time_from_day_of_month py pm r.(_smday) in
    let! end_ := calculate_time_from_day_of_month year month r.(_emday) in
    match interval start end_ with
    | None => Ret None
    | Some p =>
        if p.2 <=? ti.(preferred_time) then
          let '(ny, nm) := next_month year month in
          let! start := calculate_time_from_day_of_month year month r.(_smday) in
          let! end_ := calculate_time_from_day_of_month ny nm r.(_emday) in
          Ret (p ← interval start end_; proper p)
        else Ret (proper p)
    end.

Definition _daterange_month_week_day_to_time_t (r : daterange) (ti : time_info) : res (option (Z * Z)) :=
  let year := ti.(preftime).(tm_year) in
  let first y := calculate_time_from_weekday_of_month y r.(_smon) r.(_swday) r.(_swday_offset) in
  let last y := calculate_time_from_weekday_of_month y r.(_emon) r.(_ewday) r.(_ewday_offset) in
  if negb (r.(_emon) <? r.(_smon)) then
    let! start := first year in
    let! end_ := last year in
    Ret (p ← interval start end_; proper p)
  else
    let! start := first (year - 1) in
    let! end_ := last year in
    match interval start end_ with
    | None => Ret None
    | Some p =>
        if p.2 <=? ti.(preferred_time) then
          let! start := first year in
          let! end_ := last (year + 1) in
          Ret (p ← interval start end_; proper p)
        else Ret (proper p)
    end.

(** The loop over the months; the month after that of the preferred time is the only other
    one that is tried. *)
Fixpoint week_day_loop (n : nat) (r : daterange) (ti : time_info) (year month : Z) : res (option (Z * Z)) :=
  match n with
  | O => Throw fuel_exhausted
  | S n =>
      let! start := calculate_time_from_weekday_of_month year month r.(_swday) r.(_swday_offset) in
      let! end_ := calculate_time_from_weekday_of_month year month r.(_ewday) r.(_ewday_offset) in
      let! end_ :=
        (if end_ =? -1 then
           if r.(_ewday_offset) <? 0 then Ret None
           else
             let '(end_year, end_month) := next_month year month in
             let! e := calculate_time_from_day_of_month end_year end_month 0 in Ret (Some e)
         else Ret (Some (_add_round_days_to_midnight end_ day_seconds))) in
      match end_ with
      | None => Ret None
      | Some end_ =>
          if (start =? -1) || (end_ =? -1) || (end_ <? start) then Ret None
          else if ti.(preferred_time) <? end_ then Ret (Some (start, end_))
          else
            let month := ti.(preftime).(tm_mon) in
            if negb (month =? 11) then week_day_loop n r ti year (month + 1)
            else week_day_loop n r ti (year + 1) 0
      end
  end.

Definition _daterange_week_day_to_time_t (fuel : nat) (r : daterange) (ti : time_info) : res (option (Z * Z)) :=
  week_day_loop fuel r ti ti.(preftime).(tm_year) ti.(preftime).(tm_mon).

(** The start of a range that skips days, moved to the next day that counts. *)
Definition skip_days (r : daterange) (ti : time_info) (start : Z) : Z :=
  if (1 <? r.(_skip_interval)) && (start <? ti.(preferred_time)) then
    let days := wrap_u64 (ti.(midnight) - start) / day_seconds in
    if days mod r.(_skip_interval) =? 0 then _add_round_days_to_midnight start (days * day_seconds)
    else _add_round_days_to_midnight start
           ((days - days mod r.(_skip_interval) + r.(_skip_interval)) * day_seconds)
  else start.

Definition _daterange_to_time_t (fuel : nat) (type : type_range) (r : daterange) (ti : time_info) : res (option (Z * Z)) :=
  let! p :=
    match type with
    | calendar_date => _daterange_calendar_date_to_time_t r
    | month_date => _daterange_month_date_to_time_t r ti
    | month_day => _daterange_month_day_to_time_t r ti
    | month_week_day => _daterange_month_week_day_to_time_t r ti
    | week_day => _daterange_week_day_to_time_t fuel r ti
    end in
  Ret ((λ p, (skip_days r ti p.1, p.2)) <$> p).

Fixpoint _earliest_midnight_in_daterange (fuel : nat) (pref : Z) (r : daterange) (start end_ : Z) : res Z :=
  match fuel with
  | O => Throw fuel_exhausted
  | S fuel =>
      if (start <? end_) || (end_ =? -1) then
        let next_day := _add_round_days_to_midnight start day_seconds in
        if (pref <? start) || ((start <=? pref) && (pref <? next_day)) then Ret start
        else
          _earliest_midnight_in_daterange fuel pref r
            (if r.(_skip_interval) <=? 1 then next_day
             else _add_round_days_to_midnight start (r.(_skip_interval) * day_seconds)) end_
      else Ret (-1)
  end.

(** [None] when the end is before the start. *)
Definition _timerange_to_time_t (r : timerange) (midnight : tm) : option (Z * Z) :=
  let set h m (t : tm) := Tm t.(tm_sec) m h t.(tm_mday) t.(tm_mon) t.(tm_year) t.(tm_wday) in
  let '(range_start, t) :=
    mktime (set (r.(get_range_start) / 60 / 60) (r.(get_range_start) / 60 mod 60) midnight) in
  let '(range_end, _) := mktime (set (r.(get_range_end) / 60 / 60) (r.(get_range_end) / 60 mod 60) t) in
  if range_start <=? range_end then Some (range_start, range_end) else None.

(** ** The next valid time *)

(** One range of [_get_next_valid_time_in_timeranges]. *)
Definition next_in_range (pref : Z) (midnight : tm) (earliest : Z) (r : timerange) : Z :=
  match _timerange_to_time_t r midnight with
  | None => earliest
  | Some (range_start, range_end) =>
      if pref <=? range_start then
        if (earliest =? -1) || (range_start <? earliest) then range_start else earliest
      else if pref <? range_end then pref else earliest
  end.

Definition _get_next_valid_time_in_timeranges (pref : Z) (l : list timerange) : Z :=
  foldl (next_in_range pref (at_midnight (localtime_r pref))) (-1) l.

Definition make_time_info (pref : Z) : time_info :=
  let '(m, t) := mktime (at_midnight (localtime_r pref)) in TimeInfo pref t m.

(** The ranges of one type of exceptions: the earliest time found, and whether the day is
    skipped. *)
Fixpoint browse_ranges (fuel : nat) (type : type_range) (ti : time_info) (l : list daterange) (earliest : Z) (skip : bool) :
    res (Z * bool) :=
  match l with
  | [] => Ret (earliest, skip)
  | r :: l =>
      let! p := _daterange_to_time_t fuel type r ti in
      match p with
      | None => browse_ranges fuel type ti l earliest skip
      | Some (start, end_) =>
          if ((start =? -1) || (start <=? ti.(midnight))) && ((end_ =? -1) || (ti.(midnight) <? end_)) then
            let potential := _get_next_valid_time_in_timeranges ti.(preferred_time) r.(_timerange) in
            if negb (potential =? -1) then
              browse_ranges fuel type ti l
                (if (earliest =? -1) || (potential <? earliest) then potential else earliest) false
            else Ret (earliest, true)
          else browse_ranges fuel type ti l earliest skip
      end
  end.

(** The types of exceptions, until a time is found or the day is skipped. *)
Fixpoint browse_types (fuel : nat) (ti : time_info) (l : list (type_range * list daterange)) (earliest : Z) (skip : bool) :
    res (Z * bool) :=
  match l with
  | [] => Ret (earliest, skip)
  | (type, rs) :: l =>
      if (earliest =? -1) && negb skip then
        let! p := browse_ranges fuel type ti rs earliest skip in
        browse_types fuel ti l p.1 p.2
      else Ret (earliest, skip)
  end.

(** The earliest time of the day of the preferred time, -1 if there is none. *)
Definition time_in_day (fuel : nat) (p : timeperiod) (ti : time_info) : res Z :=
  let! x := browse_types fuel ti p.(exceptions) (-1) false in
  let '(earliest, skip_this_day) := x in
  Ret (if negb skip_this_day && (earliest =? -1)
       then _get_next_valid_time_in_timeranges ti.(preferred_time) (default [] (p.(days) !! Z.to_nat ti.(preftime).(tm_wday)))
       else earliest).

Definition in_one_year (pref : Z) : Z := pref + 366 * 24 * 60 * 60.

(** The first range among [l] that contains the preferred time: its end, or -1. *)
Fixpoint end_of_range (pref : Z) (midnight : tm) (l : list timerange) : Z :=
  match l with
  | [] => -1
  | r :: l =>
      match _timerange_to_time_t r midnight with
      | Some (range_start, range_end) =>
          if (range_start <=? pref) && (pref <? range_end) then range_end else end_of_range pref midnight l
      | None => end_of_range pref midnight l
      end
  end.

(** The end of the first time range of the exceptions that contains the preferred time. *)
Fixpoint exception_end (fuel : nat) (type : type_range) (ti : time_info) (l : list daterange) : res Z :=
  match l with
  | [] => Ret (-1)
  | r :: l =>
      let! p := _daterange_to_time_t fuel type r ti in
      match p with
      | Some (start, end_) =>
          if (ti.(preferred_time) <? end_) || (end_ =? -1) then
            let! m := _earliest_midnight_in_daterange fuel ti.(preferred_time) r start end_ in
            if negb (m =? -1) then
              let e := end_of_range ti.(preferred_time) (localtime_r m) r.(_timerange) in
              if e =? -1 then exception_end fuel type ti l else Ret e
            else exception_end fuel type ti l
          else exception_end fuel type ti l
      | None => exception_end fuel type ti l
      end
  end.

Fixpoint exceptions_end (fuel : nat) (ti : time_info) (l : list (type_range * list daterange)) : res Z :=
  match l with
  | [] => Ret (-1)
  | (type, rs) :: l =>
      let! e := exception_end fuel type ti rs in
      if e =? -1 then exceptions_end fuel ti l else Ret e
  end.

(** The days of the weekly schedule, today and seven days ahead. *)
Fixpoint schedule_end (n : nat) (p : timeperiod) (ti : time_info) (weekday ahead : Z) : Z :=
  match n with
  | O => -1
  | S n =>
      let weekday := if 7 <=? weekday then weekday - 7 else weekday in
      let day_start := _add_round_days_to_midnight ti.(midnight) (ahead * day_seconds) in
      let e := end_of_range ti.(preferred_time) (localtime_r day_start) (default [] (p.(days) !! Z.to_nat weekday)) in
      if e =? -1 then schedule_end n p ti (weekday + 1) (ahead + 1) else e
  end.

(** What the excluded periods answer: [f] is asked for each; [better] chooses. *)
Fixpoint over_exclusions (f : string → res Z) (better : Z → Z → bool) (l : list string) (best : Z) : res Z :=
  match l with
  | [] => Ret best
  | name :: l =>
      let! v := f name in
      over_exclusions f better l (if negb (v =? -1) && ((best =? -1) || better v best) then v else best)
  end.

(** The exclusions of a period are taken away while they are asked: a period that is
    asked again has none. *)
Definition exclusions_of (active : list string) (name : string) (p : timeperiod) : list string :=
  if bool_decide (name ∈ active) then [] else p.(_exclusions).

Section Next.
Context (periods : gmap string timeperiod) (turns : nat).

(** [get_next_invalid_time_per_timeperiod]: its loop has one turn, since [earliest_time] is
    -1 at the end of the turn. *)
Definition invalid_turn (next_valid : string → Z → res Z) (p : timeperiod) (excl : list string) (pref : Z) : res Z :=
  if pref =? -1 then Ret (-1)
  else
    let ti := make_time_info pref in
    let! e := exceptions_end turns ti p.(exceptions) in
    let earliest := if e =? -1 then schedule_end 8 p ti ti.(preftime).(tm_wday) 0 else e in
    let! next_exclusion := over_exclusions (λ q, next_valid q pref) Z.ltb excl (-1) in
    Ret (if negb (next_exclusion =? -1) &&
            (next_exclusion <? _add_round_days_to_midnight ti.(midnight) day_seconds) &&
            ((earliest =? -1) || (next_exclusion <=? earliest))
         then next_exclusion
         else if negb (earliest =? -1) then earliest else pref).

(** The loop of [get_next_valid_time_per_timeperiod], day by day. *)
Fixpoint valid_loop (n : nat) (next_invalid : string → Z → res Z) (p : timeperiod) (excl : list string)
    (limit pref : Z) : res Z :=
  if pref <? limit then
    match n with
    | O => Throw fuel_exhausted
    | S n =>
        let ti := make_time_info pref in
        let! earliest := time_in_day turns p ti in
        if earliest =? -1
        then valid_loop n next_invalid p excl limit (_add_round_days_to_midnight ti.(midnight) day_seconds)
        else
          let! max_invalid := over_exclusions (λ q, next_invalid q earliest) Z.gtb excl (-1) in
          if negb (max_invalid =? -1) && negb (max_invalid =? earliest)
          then valid_loop n next_invalid p excl limit max_invalid
          else Ret earliest
    end
  else Ret (-1).

(** Both functions, by the depth of the exclusions.  [active] are the periods whose
    exclusions are being asked. *)
Fixpoint get_next_valid_time_per_timeperiod (depth : nat) (notif : bool) (active : list string) (name : string) (pref : Z)
    {struct depth} : res Z :=
  match depth with
  | O => Throw fuel_exhausted
  | S depth =>
      match periods !! name with
      | None => Throw undefined
      | Some p =>
          let! earliest :=
            valid_loop turns (get_next_invalid_time_per_timeperiod depth notif (name :: active)) p
              (exclusions_of active name p) (in_one_year pref) pref in
          Ret (if (earliest =? -1) && negb notif then pref else earliest)
      end
  end
with get_next_invalid_time_per_timeperiod (depth : nat) (notif : bool) (active : list string) (name : string) (pref : Z)
    {struct depth} : res Z :=
  match depth with
  | O => Throw fuel_exhausted
  | S depth =>
      match periods !! name with
      | None => Throw undefined
      | Some p =>
          invalid_turn (get_next_valid_time_per_timeperiod depth notif (name :: active)) p (exclusions_of active name p) pref
      end
  end.

(** [check_time_against_period], [check_time_against_period_for_notif]: no period is
    always good. *)
Definition check_time_against_period (depth : nat) (notif : bool) (tperiod : option string) (test_time : Z) : res bool :=
  match tperiod with
  | None => Ret true
  | Some name =>
      let! t := get_next_valid_time_per_timeperiod depth notif [] name test_time in Ret (t =? test_time)
  end.

(** [get_next_valid_time] *)
Definition get_next_valid_time (depth : nat) (now pref : Z) (tperiod : option string) : res Z :=
  let pref := Z.max pref now in
  match tperiod with
  | None => Ret pref
  | Some name => get_next_valid_time_per_timeperiod depth false [] name pref
  end.
End Next.
End TimePeriod.
