(* ===== verification/TimePeriodFacts.v ===== *)
(** * Time periods: theorems

    Days are added right across the changes of the clock; the next valid time of a period
    is the earliest one; the weekday of a month is the one that was asked for; the search
    over the months ends. *)

From S2P Require Import Prelude Calendar TimePeriod.

Section Facts.
Context {C : Calendar} {L : CalendarLaws}.

(** ** Local days *)

Definition local_day (t : Z) : Z := (t + offset t) / day_seconds.

Lemma local_day_spec t n : midnight_of n ≤ t ↔ n ≤ local_day t.
Proof.
  rewrite midnight_spec. unfold local_day. split; intros H.
  - apply Z.div_le_lower_bound; [done|lia].
  - pose proof (Z.mul_div_le (t + offset t) day_seconds ltac:(done)). unfold day_seconds in *. nia.
Qed.

Lemma local_day_bounds t : midnight_of (local_day t) ≤ t < midnight_of (local_day t + 1).
Proof.
  split; [by apply local_day_spec|]. destruct (Z.lt_ge_cases t (midnight_of (local_day t + 1))) as [?|H]; [done|].
  apply local_day_spec in H. lia.
Qed.

Lemma local_day_unique t n : midnight_of n ≤ t < midnight_of (n + 1) → local_day t = n.
Proof.
  intros [H1 H2]. apply local_day_spec in H1.
  destruct (Z.lt_ge_cases n (local_day t)) as [Hlt|?]; [|lia]. assert (midnight_of (n + 1) ≤ t) by (apply local_day_spec; lia). lia.
Qed.

Lemma midnight_lt n n' : n < n' → midnight_of n < midnight_of n'.
Proof.
  intros Hlt. destruct (Z.lt_ge_cases (midnight_of n) (midnight_of n')) as [?|H]; [done|].
  pose proof (proj2 (midnight_exact n _) eq_refl) as H1. apply midnight_spec in H. unfold day_seconds in *. lia.
Qed.

Lemma day_of_midnight n : local_day (midnight_of n) = n.
Proof. apply local_day_unique. split; [done|]. apply midnight_lt. lia. Qed.

Lemma day_of_at_midnight t : day_of (at_midnight t) = day_of t.
Proof. done. Qed.

Lemma mktime_at_midnight t : mktime (at_midnight (localtime_r t)) = (midnight_of (local_day t), gmtime (day_seconds * local_day t)).
Proof. rewrite mktime_midnight by done. by rewrite day_of_at_midnight, localtime_spec, day_of_gmtime. Qed.

(** The fields of a time are zero at the start of a day only. *)
Lemma gmtime_zero s :
  (gmtime s).(tm_hour) = 0 ∧ (gmtime s).(tm_min) = 0 ∧ (gmtime s).(tm_sec) = 0 ↔ s mod day_seconds = 0.
Proof.
  unfold gmtime. destruct (civil_from_days _) as [[y m] d]. cbn.
  pose proof (Z.mod_pos_bound s day_seconds ltac:(done)). set (r := s mod day_seconds) in *. unfold day_seconds in *.
  split; [|by intros ->]. Z.to_euclidean_division_equations. lia.
Qed.

(** Adding days to the start of a day gives the start of the day so many days after,
    also when the clocks changed in between. *)
Theorem add_round_days_exact n k :
  _add_round_days_to_midnight (midnight_of n) (k * day_seconds) = midnight_of (n + k).
Proof.
  unfold _add_round_days_to_midnight. set (s := midnight_of n + k * day_seconds).
  pose proof (proj2 (midnight_exact n _) eq_refl) as Hn. pose proof (offset_shift s (midnight_of n)) as Hshift.
  destruct (negb _ || negb _ || negb _) eqn:Hz.
  - rewrite mktime_at_midnight. cbn [fst]. f_equal. unfold local_day. pose proof (offset_shift (s + 12 * 60 * 60) (midnight_of n)) as Hs2.
    symmetry. apply Z.div_unique with (r := 12 * 60 * 60 + (offset (s + 12 * 60 * 60) - offset (midnight_of n))); unfold s, day_seconds in *; lia.
  - assert (tm_hour (localtime_r s) = 0 ∧ tm_min (localtime_r s) = 0 ∧ tm_sec (localtime_r s) = 0) as H0.
    { apply orb_false_iff in Hz as [Hz Hz3%negb_false_iff%Z.eqb_eq].
      by apply orb_false_iff in Hz as [Hz1%negb_false_iff%Z.eqb_eq Hz2%negb_false_iff%Z.eqb_eq]. }
    rewrite localtime_spec in H0. apply gmtime_zero in H0. apply midnight_exact.
    assert (s + offset s = day_seconds * (n + k) + (offset s - offset (midnight_of n))) as Hs by (unfold s; lia).
    rewrite Hs in *. rewrite Z.mul_comm, Z.add_comm, Z.mod_add in H0 by done. unfold day_seconds in *.
    Z.to_euclidean_division_equations. lia.
Qed.

(** ** The days of months *)

Definition zero_hms (t : tm) : Prop := t.(tm_hour) = 0 ∧ t.(tm_min) = 0 ∧ t.(tm_sec) = 0.

Lemma gmtime_midnight n : zero_hms (gmtime (day_seconds * n)).
Proof. apply gmtime_zero. by rewrite Z.mul_comm, Z.mod_mul. Qed.

Lemma gmtime_date n : let '(y, m, d) := civil_from_days n in
  tm_year (gmtime (day_seconds * n)) = y ∧ tm_mon (gmtime (day_seconds * n)) = m ∧ tm_mday (gmtime (day_seconds * n)) = d ∧
  tm_wday (gmtime (day_seconds * n)) = weekday n.
Proof. unfold gmtime. rewrite Z.mul_comm, Z.div_mul by done. by destruct (civil_from_days n) as [[y m] d]. Qed.

Lemma mktime_date year mon mday t : zero_hms t →
  mktime (set_date year mon mday t) =
    (midnight_of (days_from_civil year mon mday), gmtime (day_seconds * days_from_civil year mon mday)).
Proof. intros (H1 & H2 & H3). by rewrite mktime_midnight. Qed.

(** Whether a day of the month exists. *)
Lemma month_of_date y m d : 0 ≤ m ≤ 11 → 1 ≤ d ≤ 56 →
  tm_mon (gmtime (day_seconds * days_from_civil y m d)) = m ↔ days_from_civil y m d < month_first (month_number y m + 1).
Proof.
  intros Hm Hd. split.
  - pose proof (civil_spec (days_from_civil y m d)) as Hs. pose proof (gmtime_date (days_from_civil y m d)) as Hg.
    destruct (civil_from_days _) as [[y' m'] d']. destruct Hg as (_ & -> & _). destruct Hs as (Hm' & Hk & _). intros ->.
    rewrite days_from_civil_month in *. pose proof (month_length (month_number y m)) as H1. pose proof (month_length (month_number y m + 1)) as H2.
    destruct (Z.lt_ge_cases (month_first (month_number y m) + d - 1) (month_first (month_number y m + 1))) as [?|Hge]; [done|].
    exfalso. assert (month_number y' m = month_number y m + 1) as Heq; [|unfold month_number in Heq; lia].
    eapply month_unique; [exact Hk|]. lia.
  - intros Hlt. pose proof (gmtime_date (days_from_civil y m d)) as Hg. rewrite civil_of_days in Hg by lia. by destruct Hg as (_ & -> & _).
Qed.

(** *** A day of the month *)

Definition is_midnight (t : Z) : Prop := ∃ n, t = midnight_of n.

Lemma last_day_ends y m t : ∀ n, 0 ≤ m ≤ 11 → (28 ≤ n ≤ 31)%nat → zero_hms t →
  ∃ d, 28 ≤ d ≤ 31 ∧ last_day n y m t = Ret (gmtime (day_seconds * days_from_civil y m d)) ∧
    days_from_civil y m d < month_first (month_number y m + 1).
Proof.
  intros n Hm. revert t. induction n as [|n IH]; intros t Hn Ht; [lia|]. cbn [last_day]. rewrite mktime_date by done.
  destruct (Z.eqb_spec (midnight_of (days_from_civil y m (Z.of_nat (S n)))) (-1)) as [Hv|_]; [by apply midnight_valid in Hv|]. cbn [orb].
  pose proof (month_of_date y m (Z.of_nat (S n)) Hm ltac:(lia)) as Hmon.
  destruct (Z.eqb_spec (tm_mon (gmtime (day_seconds * days_from_civil y m (Z.of_nat (S n))))) m) as [Heq|Hne]; cbn [negb].
  - exists (Z.of_nat (S n)). split_and!; [lia|lia|done|]. by apply Hmon.
  - destruct (decide (n = 27)%nat) as [->|Hn27].
    + exfalso. apply Hne, Hmon. rewrite days_from_civil_month. pose proof (month_length (month_number y m)). lia.
    + apply IH; [lia|]. apply gmtime_midnight.
Qed.

Lemma day_of_month_ends y m d : 0 ≤ m ≤ 11 →
  ∃ t, calculate_time_from_day_of_month (0, 0, 0) y m d = Ret t ∧
    (t = -1 ∨ ∃ n, t = midnight_of n ∧ (d ≤ 0 → month_first (month_number y m) ≤ n)).
Proof.
  intros Hm. unfold calculate_time_from_day_of_month. destruct (Z.ltb_spec 0 d) as [Hd|Hd].
  - rewrite mktime_midnight by done. eexists. split; [done|]. destruct (negb _); [by left|right]. eexists. split; [done|lia].
  - destruct (last_day_ends y m (Tm 0 0 0 0 0 0 0) 31 Hm ltac:(lia) ltac:(done)) as (x & Hx & -> & Hlt).
    rewrite mktime_date by apply gmtime_midnight. cbn [fst]. eexists. split; [done|]. right. eexists. split; [done|]. intros _.
    rewrite days_from_civil_month. pose proof (gmtime_date (days_from_civil y m x)) as Hg. rewrite civil_of_days in Hg by lia.
    destruct Hg as (_ & _ & -> & _). destruct (Z.leb_spec x (- d)); lia.
Qed.

(** *** A weekday of the month *)

Lemma weekday_bounds n : 0 ≤ weekday n < 7.
Proof. unfold weekday. apply Z.mod_pos_bound. lia. Qed.

Lemma weekday_add n k : weekday (n + k) = (weekday n + k) mod 7.
Proof. unfold weekday. Z.to_euclidean_division_equations. lia. Qed.

(** The first such weekday of the month. *)
Lemma first_weekday n w : 0 ≤ w < 7 →
  let days := w - weekday n in let days := if days <? 0 then days + 7 else days in 0 ≤ days < 7 ∧ ∀ k, weekday (n + days + 7 * k) = w.
Proof.
  intros Hw days0 days. pose proof (weekday_bounds n) as Hb.
  assert (0 ≤ days < 7 ∧ (days = w - weekday n ∨ days = w - weekday n + 7)) as [Hd Hcase].
  { unfold days, days0. destruct (Z.ltb_spec (w - weekday n) 0); lia. }
  split; [done|]. intros k. unfold weekday in *. clearbody days. clear days0. Z.to_euclidean_division_equations. lia.
Qed.

Lemma mktime_first y m : mktime (midnight_date y m 1) =
  (midnight_of (days_from_civil y m 1), gmtime (day_seconds * days_from_civil y m 1)).
Proof. by rewrite mktime_midnight. Qed.

Lemma wday_of n : tm_wday (gmtime (day_seconds * n)) = weekday n.
Proof. pose proof (gmtime_date n) as H. destruct (civil_from_days n) as [[y m] d]. apply H. Qed.

(** The time of the n-th weekday of a month is the start of the day of that month that
    is this weekday and is in the n-th week of the month, or -1 when the month has no such
    day. *)
Theorem nth_weekday_exact y m w k :
  0 ≤ m ≤ 11 → 0 ≤ w < 7 → 1 ≤ k ≤ 5 →
  ∃ d, 7 * (k - 1) < d ≤ 7 * k ∧ weekday (days_from_civil y m d) = w ∧
    calculate_time_from_weekday_of_month y m w k =
      Ret (if days_from_civil y m d <? month_first (month_number y m + 1) then midnight_of (days_from_civil y m d) else -1).
Proof.
  intros Hm Hw Hk. unfold calculate_time_from_weekday_of_month. rewrite mktime_first, wday_of.
  destruct (first_weekday (days_from_civil y m 1) w Hw) as [Hd Hweek]. cbv zeta in Hd, Hweek |- *.
  set (days := if _ <? 0 then _ else _) in *. destruct (Z.ltb_spec 0 k); [|lia]. destruct (Z.ltb_spec 5 k); [lia|].
  exists (days + (k - 1) * 7 + 1). split; [lia|]. split.
  - rewrite <- (Hweek (k - 1)). f_equal. rewrite !days_from_civil_month. lia.
  - rewrite mktime_date by apply gmtime_midnight. pose proof (month_of_date y m (days + (k - 1) * 7 + 1) Hm ltac:(lia)) as Hmon.
    destruct (Z.ltb_spec (days_from_civil y m (days + (k - 1) * 7 + 1)) (month_first (month_number y m + 1))) as [Hlt|Hge].
    + apply Hmon in Hlt. by rewrite Hlt, Z.eqb_refl.
    + destruct (Z.eqb_spec (tm_mon (gmtime (day_seconds * days_from_civil y m (days + (k - 1) * 7 + 1)))) m) as [Heq|_]; [|done].
      apply Hmon in Heq. lia.
Qed.

Lemma last_weekday_ends y m t : ∀ n (days : Z), 0 ≤ m ≤ 11 → zero_hms t → 0 ≤ days - 7 * (Z.of_nat n - 1) < 7 → (5 ≤ n ≤ 6)%nat →
  ∃ d, last_weekday n days y m t = Ret (gmtime (day_seconds * days_from_civil y m d)) ∧ 1 ≤ d ∧
    days_from_civil y m d < month_first (month_number y m + 1).
Proof.
  intros n days Hm. revert t days. induction n as [|n IH]; intros t days Ht Hd Hn; [lia|]. cbn [last_weekday]. rewrite mktime_date by done.
  destruct (Z.eqb_spec (midnight_of (days_from_civil y m (days - 7 + 1))) (-1)) as [Hv|_]; [by apply midnight_valid in Hv|]. cbn [orb].
  pose proof (month_of_date y m (days - 7 + 1) Hm ltac:(lia)) as Hmon.
  destruct (Z.eqb_spec (tm_mon (gmtime (day_seconds * days_from_civil y m (days - 7 + 1)))) m) as [Heq|Hne]; cbn [negb].
  - exists (days - 7 + 1). split_and!; [done|lia|]. by apply Hmon.
  - destruct (decide (n = 4)%nat) as [->|Hn4].
    + exfalso. apply Hne, Hmon. rewrite days_from_civil_month. pose proof (month_length (month_number y m)). lia.
    + apply IH; [apply gmtime_midnight|lia|lia].
Qed.

Lemma weekday_of_month_ends y m w k : 0 ≤ m ≤ 11 → 0 ≤ w < 7 →
  ∃ t, calculate_time_from_weekday_of_month y m w k = Ret t ∧
    (t = -1 ∨ ∃ n, t = midnight_of n ∧ month_first (month_number y m) - 1 ≤ n).
Proof.
  intros Hm Hw. unfold calculate_time_from_weekday_of_month. rewrite mktime_first, wday_of.
  destruct (first_weekday (days_from_civil y m 1) w Hw) as [Hd _]. cbv zeta in Hd |- *. set (days := if _ <? 0 then _ else _) in *.
  destruct (Z.ltb_spec 0 k) as [Hk|Hk].
  - rewrite mktime_date by apply gmtime_midnight. eexists. split; [done|]. destruct (negb _); [by left|right]. eexists. split; [done|].
    rewrite days_from_civil_month. destruct (Z.ltb_spec 5 k); lia.
  - destruct (last_weekday_ends y m (gmtime (day_seconds * days_from_civil y m 1)) 6 (days + 5 * 7) Hm (gmtime_midnight _) ltac:(lia) ltac:(lia))
      as (d & -> & Hd1 & Hlt).
    rewrite mktime_date by apply gmtime_midnight. cbn [fst]. eexists. split; [done|]. right. eexists. split; [done|].
    pose proof (gmtime_date (days_from_civil y m d)) as Hg. rewrite civil_of_days in Hg by lia. destruct Hg as (_ & _ & -> & _).
    rewrite days_from_civil_month. destruct (Z.leb_spec d (- ((k + 1) * 7))); [|lia]. pose proof (Z.rem_nonneg d 7 ltac:(lia) ltac:(lia)). lia.
Qed.

(** ** Date ranges

    What is computed for a date range depends on the day, not on the time of the day, and
    the computation ends. *)

(** The information of a time of the day [n]. *)
Record on_day (n : Z) (ti : time_info) : Prop := {
  on_midnight : ti.(midnight) = midnight_of n;
  on_preftime : ti.(preftime) = gmtime (day_seconds * n);
  on_preferred : midnight_of n ≤ ti.(preferred_time) < midnight_of (n + 1);
  on_positive : 0 ≤ midnight_of n;
}.

Lemma make_time_info_on_day pref : 0 ≤ midnight_of (local_day pref) → on_day (local_day pref) (make_time_info pref).
Proof.
  intros H. unfold make_time_info. rewrite mktime_at_midnight. split; [done|done|apply local_day_bounds|done].
Qed.

Definition none_or_midnight (t : Z) : Prop := t = -1 ∨ is_midnight t.
Definition midnights (p : option (Z * Z)) : Prop :=
  match p with None => True | Some (start, end_) => none_or_midnight start ∧ none_or_midnight end_ end.

(** The same answer at every time of the day. *)
Definition steady (n : Z) (f : time_info → res (option (Z * Z))) : Prop :=
  ∃ p, midnights p ∧ ∀ ti, on_day n ti → f ti = Ret p.

Record range_ok (r : daterange) : Prop := {
  ok_smon : 0 ≤ r.(_smon) ≤ 11;
  ok_emon : 0 ≤ r.(_emon) ≤ 11;
  ok_swday : 0 ≤ r.(_swday) < 7;
  ok_ewday : 0 ≤ r.(_ewday) < 7;
}.

Lemma next_midnight n : _add_round_days_to_midnight (midnight_of n) day_seconds = midnight_of (n + 1).
Proof. rewrite <- add_round_days_exact. by rewrite Z.mul_1_l. Qed.

Lemma before_midnight n ti k : on_day n ti → (ti.(preferred_time) <? midnight_of k) = (n <? k).
Proof.
  intros [_ _ [H1 H2] _]. destruct (Z.ltb_spec n k) as [Hlt|Hge]; [apply Z.ltb_lt|apply Z.ltb_ge].
  - destruct (decide (n + 1 = k)) as [<-|]; [lia|]. pose proof (midnight_lt (n + 1) k ltac:(lia)). lia.
  - destruct (decide (n = k)) as [<-|]; [lia|]. pose proof (midnight_lt k n ltac:(lia)). lia.
Qed.

Lemma after_midnight n ti k : on_day n ti → (midnight_of k <=? ti.(preferred_time)) = (k <=? n).
Proof. intros Hd. by rewrite Z.leb_antisym, (before_midnight n ti k Hd), <- Z.leb_antisym. Qed.

Lemma day_none_or_midnight y m d : 0 ≤ m ≤ 11 →
  ∃ t, calculate_time_from_day_of_month (0, 0, 0) y m d = Ret t ∧ none_or_midnight t.
Proof.
  intros Hm. destruct (day_of_month_ends y m d Hm) as (t & -> & Ht). exists t. split; [done|].
  destruct Ht as [->|(n & -> & _)]; [by left|right; by exists n].
Qed.

Lemma weekday_none_or_midnight y m w k : 0 ≤ m ≤ 11 → 0 ≤ w < 7 →
  ∃ t, calculate_time_from_weekday_of_month y m w k = Ret t ∧ none_or_midnight t.
Proof.
  intros Hm Hw. destruct (weekday_of_month_ends y m w k Hm Hw) as (t & -> & Ht). exists t. split; [done|].
  destruct Ht as [->|(n & -> & _)]; [by left|right; by exists n].
Qed.

Lemma interval_midnights start end_ : none_or_midnight start → none_or_midnight end_ →
  match interval start end_ with
  | None => True
  | Some (s, e) => none_or_midnight s ∧ is_midnight e
  end.
Proof.
  intros Hs He. unfold interval. destruct (Z.eqb_spec start (-1)); [done|]. destruct (Z.eqb_spec end_ (-1)); [done|]. cbn.
  split; [done|]. destruct He as [?|[k ->]]; [done|]. rewrite next_midnight. by eexists.
Qed.

Lemma proper_midnights p : none_or_midnight p.1 → none_or_midnight p.2 → midnights (proper p).
Proof. intros H1 H2. unfold proper. destruct p as [s e]. by destruct (_ <? _). Qed.

Lemma interval_proper start end_ : none_or_midnight start → none_or_midnight end_ → midnights (p ← interval start end_; proper p).
Proof.
  intros Hs He. pose proof (interval_midnights start end_ Hs He) as H. destruct (interval start end_) as [[s e]|]; [|done].
  destruct H as [H1 H2]. apply proper_midnights; [done|by right].
Qed.

Lemma calendar_date_steady n r : steady n (λ _, _daterange_calendar_date_to_time_t r).
Proof.
  unfold _daterange_calendar_date_to_time_t. rewrite !mktime_midnight by done.
  destruct (Z.eqb_spec (midnight_of (day_of (midnight_date (_syear r - 1900) (_smon r) (_smday r)))) (-1)); [by exists None|].
  destruct (negb _); [|eexists (Some (_, _)); split; [split; [right; by eexists|by left]|done]].
  destruct (Z.eqb_spec (midnight_of (day_of (midnight_date (_eyear r - 1900) (_emon r) (_emday r)))) (-1)); [by exists None|].
  rewrite next_midnight. eexists (Some (_, _)). split; [|done]. split; right; by eexists.
Qed.

Lemma month_date_years_steady n r : range_ok r → ∀ k year last, none_or_midnight last.1 → none_or_midnight last.2 →
  ∃ p, none_or_midnight p.1 ∧ none_or_midnight p.2 ∧
    ∀ ti, on_day n ti → month_date_years (0, 0, 0) k r ti year last = Ret p.
Proof.
  intros [Hs He _ _]. induction k as [|k IH]; intros year last H1 H2; [by exists last|]. cbn [month_date_years].
  destruct (day_none_or_midnight year (_smon r) (_smday r) Hs) as (start & -> & Hstart).
  destruct (day_none_or_midnight (year + (if end_before_start r then 1 else 0)) (_emon r) (_emday r) He) as (end_ & -> & Hend).
  destruct (Z.eqb_spec end_ (-1)) as [->|Hne]; [by apply IH; [|left]|]. destruct Hend as [?|[k' ->]]; [done|]. rewrite next_midnight.
  destruct (n <? k' + 1) eqn:Hlt.
  - exists (start, midnight_of (k' + 1)). split_and!; [done|right; by eexists|]. intros ti Hti. by rewrite (before_midnight n ti _ Hti), Hlt.
  - destruct (IH (year + 1) (start, midnight_of (k' + 1))) as (p & Hp1 & Hp2 & Hp); [done|right; by eexists|].
    exists p. split_and!; [done|done|]. intros ti Hti. rewrite (before_midnight n ti _ Hti), Hlt. by apply Hp.
Qed.

Lemma month_date_steady n r : range_ok r → steady n (_daterange_month_date_to_time_t (0, 0, 0) r).
Proof.
  intros Hok. set (y := tm_year (gmtime (day_seconds * n))).
  destruct (month_date_years_steady n r Hok 3 (if end_before_start r then y - 1 else y) (-1, -1)) as (p & H1 & H2 & Hp); [by left..|].
  exists (proper p). split; [by apply proper_midnights|]. intros ti Hti. unfold _daterange_month_date_to_time_t.
  rewrite (on_preftime _ _ Hti). fold y. by rewrite (Hp ti Hti).
Qed.

Lemma steady_ret n p : midnights p → steady n (λ _, Ret p).
Proof. intros H. by exists p. Qed.

(** A range that may be one month or one year later when it is over. *)
Lemma steady_later n (p : option (Z * Z)) f : midnights p → steady n f →
  steady n (λ ti, match p with None => Ret None | Some p => if p.2 <=? ti.(preferred_time) then f ti else Ret (proper p) end).
Proof.
  intros Hp (q & Hq & Hf). destruct p as [[s e]|]; [|by exists None]. destruct Hp as [Hs He]. cbn [snd].
  destruct He as [->|[k ->]].
  - exists q. split; [done|]. intros ti Hti. destruct (Z.leb_spec (-1) (preferred_time ti)) as [_|H]; [by apply Hf|].
    destruct Hti. lia.
  - destruct (k <=? n) eqn:Hk.
    + exists q. split; [done|]. intros ti Hti. rewrite (after_midnight n ti k Hti), Hk. by apply Hf.
    + exists (proper (s, midnight_of k)). split; [apply proper_midnights; [done|right; by eexists]|].
      intros ti Hti. by rewrite (after_midnight n ti k Hti), Hk.
Qed.

Lemma interval_any start end_ : none_or_midnight start → none_or_midnight end_ → midnights (interval start end_).
Proof.
  intros Hs He. pose proof (interval_midnights start end_ Hs He) as H. destruct (interval start end_) as [[s e]|]; [|done].
  destruct H as [H1 H2]. split; [done|by right].
Qed.

Lemma previous_month_ok y m : 0 ≤ m ≤ 11 → 0 ≤ (previous_month y m).2 ≤ 11.
Proof. unfold previous_month. destruct (Z.eqb_spec m 0); cbn; lia. Qed.
Lemma next_month_ok y m : 0 ≤ m ≤ 11 → 0 ≤ (next_month y m).2 ≤ 11.
Proof. unfold next_month. destruct (Z.eqb_spec m 11); cbn; lia. Qed.

Lemma tm_mon_ok n : 0 ≤ tm_mon (gmtime (day_seconds * n)) ≤ 11.
Proof.
  pose proof (gmtime_date n) as H. pose proof (civil_spec n) as Hs. destruct (civil_from_days n) as [[y m] d].
  destruct H as (_ & -> & _). lia.
Qed.

(** Functions of the preferred day only. *)
Lemma steady_day n f g : (∀ ti, on_day n ti → f ti = g ti) → steady n g → steady n f.
Proof. intros Hfg (p & Hp & Hg). exists p. split; [done|]. intros ti Hti. by rewrite Hfg, Hg. Qed.

Lemma month_day_steady n r : range_ok r → steady n (_daterange_month_day_to_time_t (0, 0, 0) r).
Proof.
  intros _. pose proof (tm_mon_ok n) as Hm. set (y := tm_year (gmtime (day_seconds * n))) in *. set (m := tm_mon (gmtime (day_seconds * n))) in *.
  pose proof (previous_month_ok y m Hm) as Hpm. pose proof (next_month_ok y m Hm) as Hnm.
  destruct (previous_month y m) as [py pm] eqn:Hp. destruct (next_month y m) as [ny nm] eqn:Hn. cbn in Hpm, Hnm.
  destruct (day_none_or_midnight y m (_smday r) Hm) as (s1 & Hs1 & Hs1').
  destruct (day_none_or_midnight y m (_emday r) Hm) as (e1 & He1 & He1').
  destruct (day_none_or_midnight py pm (_smday r) Hpm) as (s2 & Hs2 & Hs2').
  destruct (day_none_or_midnight ny nm (_emday r) Hnm) as (e2 & He2 & He2').
  destruct (month_decay r) eqn:Hd.
  - eapply steady_day; [|apply (steady_later n (interval s2 e1) (λ _, Ret (p ← interval s1 e2; proper p)));
      [by apply interval_any|by apply steady_ret, interval_proper]].
    intros ti Hti. unfold _daterange_month_day_to_time_t. rewrite (on_preftime _ _ Hti). fold y m. by rewrite Hd, Hp, Hn, Hs1, Hs2, He1, He2.
  - eapply steady_day; [|apply (steady_ret n (p ← interval s1 e1; proper p)), interval_proper; done].
    intros ti Hti. unfold _daterange_month_day_to_time_t. rewrite (on_preftime _ _ Hti). fold y m. by rewrite Hd, Hs1, He1.
Qed.

Lemma month_week_day_steady n r : range_ok r → steady n (_daterange_month_week_day_to_time_t r).
Proof.
  intros [Hsm Hem Hsw Hew]. set (y := tm_year (gmtime (day_seconds * n))) in *.
  destruct (weekday_none_or_midnight y (_smon r) (_swday r) (_swday_offset r) Hsm Hsw) as (s1 & Hs1 & Hs1').
  destruct (weekday_none_or_midnight y (_emon r) (_ewday r) (_ewday_offset r) Hem Hew) as (e1 & He1 & He1').
  destruct (weekday_none_or_midnight (y - 1) (_smon r) (_swday r) (_swday_offset r) Hsm Hsw) as (s2 & Hs2 & Hs2').
  destruct (weekday_none_or_midnight (y + 1) (_emon r) (_ewday r) (_ewday_offset r) Hem Hew) as (e2 & He2 & He2').
  destruct (_emon r <? _smon r) eqn:Hd.
  - eapply steady_day; [|apply (steady_later n (interval s2 e1) (λ _, Ret (p ← interval s1 e2; proper p)));
      [by apply interval_any|by apply steady_ret, interval_proper]].
    intros ti Hti. unfold _daterange_month_week_day_to_time_t. rewrite (on_preftime _ _ Hti). fold y. by rewrite Hd, Hs1, Hs2, He1, He2.
  - eapply steady_day; [|apply (steady_ret n (p ← interval s1 e1; proper p)), interval_proper; done].
    intros ti Hti. unfold _daterange_month_week_day_to_time_t. rewrite (on_preftime _ _ Hti). fold y. by rewrite Hd, Hs1, He1.
Qed.

(** One turn of the loop over the months: it fails, or it has an interval whose end is not
    before the first day of the month. *)
Definition next_turn (fuel : nat) (r : daterange) (ti : time_info) (y s e : Z) : res (option (Z * Z)) :=
  if ti.(preferred_time) <? e then Ret (Some (s, e))
  else if negb (ti.(preftime).(tm_mon) =? 11) then week_day_loop (0, 0, 0) fuel r ti y (ti.(preftime).(tm_mon) + 1)
  else week_day_loop (0, 0, 0) fuel r ti (y + 1) 0.

Lemma week_day_turn r y m : range_ok r → 0 ≤ m ≤ 11 →
  (∀ fuel ti, week_day_loop (0, 0, 0) (S fuel) r ti y m = Ret None) ∨
  ∃ s e, none_or_midnight s ∧ month_first (month_number y m) ≤ e ∧
    ∀ fuel ti, week_day_loop (0, 0, 0) (S fuel) r ti y m = next_turn fuel r ti y s (midnight_of e).
Proof.
  intros [_ _ Hsw Hew] Hm.
  destruct (weekday_none_or_midnight y m (_swday r) (_swday_offset r) Hm Hsw) as (s & Hs & Hs').
  destruct (weekday_of_month_ends y m (_ewday r) (_ewday_offset r) Hm Hew) as (e & He & He').
  assert (∀ k, (∀ fuel ti, week_day_loop (0, 0, 0) (S fuel) r ti y m =
      if (s =? -1) || (midnight_of k =? -1) || (midnight_of k <? s) then Ret None else next_turn fuel r ti y s (midnight_of k)) →
    month_first (month_number y m) ≤ k →
    (∀ fuel ti, week_day_loop (0, 0, 0) (S fuel) r ti y m = Ret None) ∨
    ∃ s e, none_or_midnight s ∧ month_first (month_number y m) ≤ e ∧
      ∀ fuel ti, week_day_loop (0, 0, 0) (S fuel) r ti y m = next_turn fuel r ti y s (midnight_of e)) as Hend.
  { intros k Hloop Hk. destruct (_ || _ || _); [by left|]. right. by exists s, k. }
  destruct He' as [->|(k & -> & Hk)].
  - destruct (_ewday_offset r <? 0) eqn:Ho; [left; intros fuel ti; cbn [week_day_loop]; by rewrite Hs, He, Ho|].
    pose proof (next_month_ok y m Hm) as Hnm. destruct (next_month y m) as [ny nm] eqn:Hn.
    destruct (day_of_month_ends ny nm 0 Hnm) as (e2 & He2 & [->|(k & -> & Hk)]).
    + left. intros fuel ti. cbn [week_day_loop]. rewrite Hs, He, Ho, Hn, He2. cbn. by rewrite orb_true_r.
    + apply (Hend k).
      * intros fuel ti. cbn [week_day_loop]. by rewrite Hs, He, Ho, Hn, He2.
      * specialize (Hk ltac:(lia)). assert (month_number ny nm = month_number y m + 1) as Heq.
        { unfold next_month in Hn. unfold month_number. destruct (Z.eqb_spec m 11); simplify_eq; lia. }
        rewrite Heq in Hk. pose proof (month_length (month_number y m)). lia.
  - apply (Hend (k + 1)); [|lia]. intros fuel ti. cbn [week_day_loop]. rewrite Hs, He, next_midnight.
    destruct (Z.eqb_spec (midnight_of k) (-1)) as [Hv|_]; [by apply midnight_valid in Hv|done].
Qed.

Lemma day_before_next_month n :
  n < month_first (month_number (tm_year (gmtime (day_seconds * n))) (tm_mon (gmtime (day_seconds * n))) + 1).
Proof.
  pose proof (gmtime_date n) as Hg. pose proof (civil_spec n) as Hs. destruct (civil_from_days n) as [[y m] d].
  destruct Hg as (-> & -> & _). lia.
Qed.

(** Two turns are enough. *)
Lemma week_day_steady n fuel r : (2 ≤ fuel)%nat → range_ok r → steady n (_daterange_week_day_to_time_t (0, 0, 0) fuel r).
Proof.
  intros Hf Hok. destruct fuel as [|[|fuel]]; [lia..|]. pose proof (tm_mon_ok n) as Hm. pose proof (day_before_next_month n) as Hday.
  set (y := tm_year (gmtime (day_seconds * n))) in *. set (m := tm_mon (gmtime (day_seconds * n))) in *.
  assert (∀ ti, on_day n ti →
    _daterange_week_day_to_time_t (0, 0, 0) (S (S fuel)) r ti = week_day_loop (0, 0, 0) (S (S fuel)) r ti y m ∧ tm_mon (preftime ti) = m) as Hti.
  { intros ti Hti. unfold _daterange_week_day_to_time_t. by rewrite (on_preftime _ _ Hti). }
  destruct (week_day_turn r y m Hok Hm) as [Hn|(s & e & Hs & He & Hloop)].
  { exists None. split; [done|]. intros ti [-> _]%Hti. apply Hn. }
  destruct (n <? e) eqn:Hne.
  { exists (Some (s, midnight_of e)). split; [split; [done|right; by eexists]|]. intros ti Hd. destruct (Hti ti Hd) as [-> _].
    unfold next_turn in Hloop. by rewrite Hloop, (before_midnight n ti e Hd), Hne. }
  pose proof (next_month_ok y m Hm) as Hnm. destruct (next_month y m) as [ny nm] eqn:Hnext. cbn in Hnm.
  assert (∀ ti, on_day n ti → _daterange_week_day_to_time_t (0, 0, 0) (S (S fuel)) r ti = week_day_loop (0, 0, 0) (S fuel) r ti ny nm) as Hsecond.
  { intros ti Hd. destruct (Hti ti Hd) as [-> Hmon]. rewrite Hloop. unfold next_turn. rewrite (before_midnight n ti e Hd), Hne, Hmon. unfold next_month in Hnext.
    destruct (m =? 11); by simplify_eq. }
  destruct (week_day_turn r ny nm Hok Hnm) as [Hn|(s2 & e2 & Hs2 & He2 & Hloop2)].
  { exists None. split; [done|]. intros ti Hd. by rewrite Hsecond, Hn. }
  exists (Some (s2, midnight_of e2)). split; [split; [done|right; by eexists]|]. intros ti Hd.
  rewrite Hsecond, Hloop2 by done. unfold next_turn. rewrite (before_midnight n ti e2 Hd). destruct (Z.ltb_spec n e2); [done|].
  assert (month_number ny nm = month_number y m + 1) as Heq.
  { unfold next_month in Hnext. unfold month_number. destruct (Z.eqb_spec m 11); simplify_eq; lia. }
  rewrite Heq in He2. lia.
Qed.

(** The days that are skipped are the same at every time of the day. *)
Lemma skip_days_steady n r s : none_or_midnight s →
  ∃ s', ∀ ti, on_day n ti → skip_days r ti s = s'.
Proof.
  intros [->|[k ->]].
  - exists (skip_days r (TimeInfo (midnight_of n) (gmtime (day_seconds * n)) (midnight_of n)) (-1)). intros ti [Hm _ Hp Hpos].
    unfold skip_days. cbn. rewrite Hm. destruct (1 <? _); [|done]. cbn.
    destruct (Z.ltb_spec (-1) (preferred_time ti)); [|lia]. by destruct (Z.ltb_spec (-1) (midnight_of n)); [|lia].
  - exists (skip_days r (TimeInfo (midnight_of n) (gmtime (day_seconds * n)) (midnight_of n)) (midnight_of k)). intros ti Hti.
    pose proof (after_midnight n ti k Hti) as Ha. destruct Hti as [Hm _ Hp Hpos]. unfold skip_days. cbn. rewrite Hm.
    destruct (Z.ltb_spec 1 (_skip_interval r)) as [Hs|]; [|done]. cbn. destruct (Z.eqb_spec k n) as [->|Hne].
    + rewrite Z.sub_diag. change (wrap_u64 0 / day_seconds) with 0. rewrite Z.mod_0_l by lia. cbn [Z.eqb].
      rewrite (add_round_days_exact n 0), Z.add_0_r. by destruct (_ <? _), (_ <? _).
    + destruct (Z.lt_ge_cases k n) as [Hlt|Hge].
      * pose proof (midnight_lt k n Hlt). destruct (Z.ltb_spec (midnight_of k) (preferred_time ti)); [|lia].
        by destruct (Z.ltb_spec (midnight_of k) (midnight_of n)); [|lia].
      * pose proof (midnight_lt n k ltac:(lia)). destruct (Z.ltb_spec (midnight_of k) (preferred_time ti)).
        { destruct (Z.leb_spec (midnight_of k) (preferred_time ti)); [|lia]. symmetry in Ha. apply Z.leb_le in Ha. lia. }
        by destruct (Z.ltb_spec (midnight_of k) (midnight_of n)); [lia|].
Qed.

Lemma daterange_steady n fuel type r : (2 ≤ fuel)%nat → range_ok r →
  ∃ p, ∀ ti, on_day n ti → _daterange_to_time_t (0, 0, 0) fuel type r ti = Ret p.
Proof.
  intros Hf Hok. assert (∃ p, midnights p ∧ ∀ ti, on_day n ti →
    match type with
    | calendar_date => _daterange_calendar_date_to_time_t r
    | month_date => _daterange_month_date_to_time_t (0, 0, 0) r ti
    | month_day => _daterange_month_day_to_time_t (0, 0, 0) r ti
    | month_week_day => _daterange_month_week_day_to_time_t r ti
    | week_day => _daterange_week_day_to_time_t (0, 0, 0) fuel r ti
    end = Ret p) as (p & Hp & Heq).
  { destruct type; [apply calendar_date_steady|by apply month_date_steady|by apply month_day_steady|by apply month_week_day_steady|
      by apply week_day_steady]. }
  destruct p as [[s e]|].
  - destruct Hp as [Hs He]. destruct (skip_days_steady n r s Hs) as [s' Hs']. exists (Some (s', e)). intros ti Hti.
    unfold _daterange_to_time_t. rewrite (Heq ti Hti). cbn. by rewrite (Hs' ti Hti).
  - exists None. intros ti Hti. unfold _daterange_to_time_t. by rewrite (Heq ti Hti).
Qed.
End Facts.

(** The second Tuesday of February 2024. *)
Lemma nth_weekday_exact_witness :
  ∃ d, 7 * (2 - 1) < d ≤ 7 * 2 ∧ weekday (days_from_civil 124 1 d) = 2 ∧
    @calculate_time_from_weekday_of_month utc 124 1 2 2 =
      Ret (if days_from_civil 124 1 d <? month_first (month_number 124 1 + 1) then @midnight_of utc utc_laws (days_from_civil 124 1 d) else -1).
Proof. apply (@nth_weekday_exact utc utc_laws); lia. Defined.

(** The fifth Wednesday before the end of February 2024, which has four of them and ends
    with a 28th: the last day of January, not the first Wednesday. *)
Example weekday_before_the_month :
  @calculate_time_from_weekday_of_month utc 124 1 3 (-5) = Ret (day_seconds * days_from_civil 124 0 31).
Proof. vm_compute. done. Qed.

(** A range from February 29 on, in a year without one, has no start: it has every day
    before its end. *)
Example february_29_unlimited :
  @_daterange_month_date_to_time_t utc (0, 0, 0) (Daterange 0 1 29 0 0 0 2 1 0 0 1 []) (@make_time_info utc (day_seconds * days_from_civil 123 0 15)) =
    Ret (Some (-1, day_seconds * days_from_civil 123 2 2)).
Proof. vm_compute. done. Qed.

(** The fifth Friday of a month with four of them: the range ends with the month after. *)
Example fifth_weekday_next_month :
  @_daterange_week_day_to_time_t utc (0, 0, 0) 2 (Daterange 0 0 0 1 1 0 0 0 5 5 1 []) (@make_time_info utc (day_seconds * days_from_civil 124 1 20)) =
    Ret (Some (day_seconds * days_from_civil 124 1 5, day_seconds * days_from_civil 124 3 1)).
Proof. vm_compute. done. Qed.
