(* ===== verification/TimeSearch.v ===== *)
(** * Time periods: the next valid time

    When a period is valid, said without the search of [get_next_valid_time_per_timeperiod]:
    on each day the ranges of the first type of exceptions that applies are in force, else
    those of the weekday.  The search gives the earliest valid time, and it ends. *)

From S2P Require Import Prelude Calendar TimePeriod TimePeriodFacts.

(** ** The earliest time of a set *)

(** [v] is the earliest time from [pref] on that is in [P], -1 if there is none. *)
Definition earliest_from (P : Z → Prop) (pref v : Z) : Prop :=
  (v = -1 ∧ ∀ t, pref ≤ t → ¬ P t) ∨ (pref ≤ v ∧ P v ∧ ∀ t, pref ≤ t < v → ¬ P t).

Lemma earliest_from_proper P Q pref v : (∀ t, P t ↔ Q t) → earliest_from P pref v → earliest_from Q pref v.
Proof. unfold earliest_from. naive_solver. Qed.

(** The range of time [a] to [b], which has its start even when it is empty. *)
Definition in_range (a b t : Z) : Prop := a ≤ t ∧ (t < b ∨ t = a).

Definition next_in (pref earliest a b : Z) : Z :=
  if pref <=? a then if (earliest =? -1) || (a <? earliest) then a else earliest
  else if pref <? b then pref else earliest.

Lemma next_in_earliest P pref v a b : 0 ≤ pref → a ≤ b → earliest_from P pref v →
  earliest_from (λ t, P t ∨ in_range a b t) pref (next_in pref v a b).
Proof.
  intros Hpref Hab Hv. unfold next_in, earliest_from, in_range in *.
  destruct (Z.leb_spec pref a) as [Ha|Ha].
  - destruct (Z.eqb_spec v (-1)) as [->|Hne]; cbn [orb].
    + right. split_and!; [done|right; lia|]. intros t Ht [HP|?]; [|lia]. destruct Hv as [[_ Hv]|[? _]]; [|lia]. by apply (Hv t); [lia|].
    + destruct Hv as [[? _]|(Hv1 & Hv2 & Hv3)]; [done|]. destruct (Z.ltb_spec a v); right.
      * split_and!; [done|right; lia|]. intros t Ht [HP|?]; [|lia]. apply (Hv3 t); [lia|done].
      * split_and!; [done|by left|]. intros t Ht [HP|?]; [|lia]. by apply (Hv3 t).
  - destruct (Z.ltb_spec pref b).
    + right. split_and!; [lia|right; lia|lia].
    + destruct Hv as [[-> Hv]|(Hv1 & Hv2 & Hv3)]; [left|right].
      * split; [done|]. intros t Ht [HP|?]; [|lia]. by apply (Hv t).
      * split_and!; [done|by left|]. intros t Ht [HP|?]; [|lia]. by apply (Hv3 t).
Qed.

Section Search.
Context {C : Calendar} {L : CalendarLaws}.

(** ** The time ranges of a day *)

(** The times that a list of ranges gives on the day of [m]. *)
Definition covers (m : tm) (l : list timerange) (t : Z) : Prop :=
  ∃ r a b, r ∈ l ∧ _timerange_to_time_t r m = Some (a, b) ∧ in_range a b t.

Lemma timerange_ordered r m a b : _timerange_to_time_t r m = Some (a, b) → a ≤ b.
Proof.
  unfold _timerange_to_time_t. destruct (mktime _) as [s t]. destruct (mktime _) as [e ?].
  destruct (Z.leb_spec s e); [|done]. intros. by simplify_eq.
Qed.

Lemma next_in_range_next_in pref m v r :
  next_in_range pref m v r = match _timerange_to_time_t r m with None => v | Some (a, b) => next_in pref v a b end.
Proof. done. Qed.

Lemma covers_snoc m l r t :
  covers m (l ++ [r]) t ↔ covers m l t ∨ match _timerange_to_time_t r m with Some (a, b) => in_range a b t | None => False end.
Proof.
  unfold covers. split.
  - intros (x & a & b & [Hx|Hx%list_elem_of_singleton]%elem_of_app & Heq & Ht); [left; by exists x, a, b|right]. by rewrite <- Hx, Heq.
  - intros [(x & a & b & Hx & Heq & Ht)|Hr].
    + exists x, a, b. split_and!; [|done..]. apply elem_of_app. by left.
    + destruct (_timerange_to_time_t r m) as [[a b]|] eqn:Heq; [|done]. exists r, a, b. split_and!; [|done..].
      apply elem_of_app. right. by apply list_elem_of_singleton.
Qed.

(** The search among the ranges of a day. *)
Lemma next_in_timeranges_earliest pref l : 0 ≤ pref →
  earliest_from (covers (at_midnight (localtime_r pref)) l) pref (_get_next_valid_time_in_timeranges pref l).
Proof.
  intros Hp. unfold _get_next_valid_time_in_timeranges. set (m := at_midnight _). induction l as [|r l IH] using rev_ind.
  - left. split; [done|]. intros t _ (r & a & b & Hr & _). by apply not_elem_of_nil in Hr.
  - rewrite foldl_snoc, next_in_range_next_in. set (v := foldl _ _ _) in *.
    eapply earliest_from_proper; [intros t; symmetry; apply covers_snoc|].
    destruct (_timerange_to_time_t r m) as [[a b]|] eqn:Heq.
    + apply next_in_earliest; [done|by eapply timerange_ordered|done].
    + eapply earliest_from_proper; [|exact IH]. intros t. tauto.
Qed.

(** *** The day is that of the preferred time *)

Lemma at_midnight_gmtime s : at_midnight (gmtime s) = gmtime (day_seconds * (s / day_seconds)).
Proof.
  unfold at_midnight, gmtime. rewrite (Z.mul_comm day_seconds), Z.div_mul, Z.mod_mul by done.
  by destruct (civil_from_days (s / day_seconds)) as [[y m] d].
Qed.

Lemma at_midnight_localtime t : at_midnight (localtime_r t) = gmtime (day_seconds * local_day t).
Proof. by rewrite localtime_spec, at_midnight_gmtime. Qed.

Definition timerange_ok (r : timerange) : Prop := 0 ≤ r.(get_range_start) < day_seconds.

Lemma range_start_in_day n r a b : timerange_ok r → _timerange_to_time_t r (gmtime (day_seconds * n)) = Some (a, b) →
  midnight_of n ≤ a < midnight_of (n + 1).
Proof.
  intros Hr. unfold _timerange_to_time_t. destruct (gmtime_midnight n) as (Hh & Hm & Hs).
  set (x := Tm _ _ _ _ _ _ _). pose proof (mktime_day x) as Hd.
  assert (day_of x = n) as Hx.
  { change (day_of (gmtime (day_seconds * n)) = n). by rewrite day_of_gmtime, Z.mul_comm, Z.div_mul. }
  rewrite Hx in Hd. destruct (mktime x) as [s t]. destruct (mktime _) as [e ?]. destruct (_ <=? _); [|done]. intros ?. simplify_eq.
  unfold timerange_ok, day_seconds in Hr. apply Hd; cbn; [|apply Z.mod_pos_bound; lia|done]. Z.to_euclidean_division_equations. lia.
Qed.

Lemma next_in_day pref l : 0 ≤ pref → Forall timerange_ok l →
  let v := _get_next_valid_time_in_timeranges pref l in
  v = -1 ∨ pref ≤ v ∧ local_day v = local_day pref.
Proof.
  intros Hp Hl v. pose proof (next_in_timeranges_earliest pref l Hp) as [[? _]|(Hv & Hcov & Hleast)]; [by left|right].
  fold v in Hv, Hcov, Hleast. split; [done|]. destruct Hcov as (r & a & b & Hr & Heq & Hin).
  rewrite at_midnight_localtime in *. pose proof (range_start_in_day _ r a b (proj1 (Forall_forall _ _) Hl r Hr) Heq) as Ha.
  apply local_day_unique. pose proof (local_day_bounds pref) as Hb. split; [lia|].
  destruct (Z.lt_ge_cases v (midnight_of (local_day pref + 1))) as [?|Hge]; [done|exfalso].
  destruct (Z.le_gt_cases pref a).
  - apply (Hleast a); [lia|]. exists r, a, b. split_and!; [done|done|]. split; lia.
  - apply (Hleast pref); [lia|]. exists r, a, b. split_and!; [done|done|]. split; [lia|]. destruct Hin as [_ [?|?]]; [left; lia|lia].
Qed.

(** ** The ranges in force on a day *)

Definition day_info (n : Z) : time_info := TimeInfo (midnight_of n) (gmtime (day_seconds * n)) (midnight_of n).

Lemma day_info_on_day n : 0 ≤ midnight_of n → on_day n (day_info n).
Proof. intros Hn. split; [done|done| |done]. split; [done|]. apply midnight_lt. lia. Qed.

(** Whether a date range has the day [n]. *)
Definition applies (fuel : nat) (n : Z) (type : type_range) (r : daterange) : bool :=
  match _daterange_to_time_t (0, 0, 0) fuel type r (day_info n) with
  | Ret (Some (start, end_)) => ((start =? -1) || (start <=? midnight_of n)) && ((end_ =? -1) || (midnight_of n <? end_))
  | _ => false
  end.

Definition applicable (fuel : nat) (n : Z) (type : type_range) (rs : list daterange) : list daterange :=
  filter (λ r, applies fuel n type r = true) rs.

(** The time ranges of the first type of exceptions with an applicable date range. *)
Fixpoint in_force (fuel : nat) (n : Z) (l : list (type_range * list daterange)) (weekly : list timerange) : list timerange :=
  match l with
  | [] => weekly
  | (type, rs) :: l =>
      match applicable fuel n type rs with
      | [] => in_force fuel n l weekly
      | rs => concat (_timerange <$> rs)
      end
  end.

Definition ranges_of_day (fuel : nat) (p : timeperiod) (n : Z) : list timerange :=
  in_force fuel n p.(exceptions) (default [] (p.(days) !! Z.to_nat (weekday n))).

(** A period, without what it excludes, is valid at [t]. *)
Definition valid_at (fuel : nat) (p : timeperiod) (t : Z) : Prop :=
  covers (gmtime (day_seconds * local_day t)) (ranges_of_day fuel p (local_day t)) t.

(** The fields of the ranges are those of dates and of times of a day, and no day is in two
    date ranges of one type. *)
Record period_ok (fuel : nat) (p : timeperiod) : Prop := {
  ok_days : Forall (Forall timerange_ok) p.(days);
  ok_dates : Forall (λ x, Forall (λ r, range_ok r ∧ Forall timerange_ok r.(_timerange)) x.2) p.(exceptions);
  ok_single : ∀ n, Forall (λ x, (length (applicable fuel n x.1 x.2) ≤ 1)%nat) p.(exceptions);
}.

Lemma browse_step fuel n ti type r rs earliest skip : (2 ≤ fuel)%nat → on_day n ti → range_ok r →
  browse_ranges (0, 0, 0) fuel type ti (r :: rs) earliest skip =
    if applies fuel n type r then
      let potential := _get_next_valid_time_in_timeranges ti.(preferred_time) r.(_timerange) in
      if negb (potential =? -1) then
        browse_ranges (0, 0, 0) fuel type ti rs (if (earliest =? -1) || (potential <? earliest) then potential else earliest) false
      else Ret (earliest, true)
    else browse_ranges (0, 0, 0) fuel type ti rs earliest skip.
Proof.
  intros Hf Hd Hr. destruct (daterange_steady n fuel type r Hf Hr) as [q Hq]. cbn [browse_ranges]. rewrite (Hq ti Hd).
  assert (on_day n (day_info n)) as Hi by (apply day_info_on_day; by destruct Hd).
  unfold applies. rewrite (Hq _ Hi), (on_midnight _ _ Hd). by destruct q as [[start end_]|].
Qed.

Lemma browse_none fuel n ti type : (2 ≤ fuel)%nat → on_day n ti → ∀ rs earliest skip, Forall range_ok rs →
  applicable fuel n type rs = [] → browse_ranges (0, 0, 0) fuel type ti rs earliest skip = Ret (earliest, skip).
Proof.
  intros Hf Hd. induction rs as [|r rs IH]; intros earliest skip Hok Hnil; [done|]. apply Forall_cons in Hok as [Hr Hrs].
  rewrite (browse_step fuel n) by done. unfold applicable in Hnil. rewrite filter_cons in Hnil.
  destruct (decide (applies fuel n type r = true)) as [|Hna]; [done|]. apply not_true_is_false in Hna. rewrite Hna. by apply IH.
Qed.

Lemma browse_single fuel n ti type r' : (2 ≤ fuel)%nat → on_day n ti → ∀ rs, Forall range_ok rs →
  applicable fuel n type rs = [r'] →
  let v := _get_next_valid_time_in_timeranges ti.(preferred_time) r'.(_timerange) in
  browse_ranges (0, 0, 0) fuel type ti rs (-1) false = Ret (v, v =? -1).
Proof.
  intros Hf Hd. induction rs as [|r rs IH]; intros Hok Hone v; [done|]. apply Forall_cons in Hok as [Hr Hrs].
  rewrite (browse_step fuel n) by done. unfold applicable in Hone. rewrite filter_cons in Hone.
  destruct (decide (applies fuel n type r = true)) as [Ha|Hna].
  - rewrite Ha. apply (inj2 (::)) in Hone as [-> Hnil]. cbv zeta. fold v. destruct (Z.eqb_spec v (-1)) as [->|Hne]; [done|]. cbn.
    by rewrite (browse_none fuel n).
  - apply not_true_is_false in Hna. rewrite Hna. by apply IH.
Qed.

(** The types that follow a decision are not browsed. *)
Lemma browse_decided fuel ti l v skip : (v =? -1) && negb skip = false → browse_types (0, 0, 0) fuel ti l v skip = Ret (v, skip).
Proof. destruct l as [|[type rs] l]; [done|]. cbn. by intros ->. Qed.

Lemma time_in_day_ranges fuel n ti days excl l weekly : (2 ≤ fuel)%nat → on_day n ti →
  Forall (λ x, Forall (λ r, range_ok r ∧ Forall timerange_ok r.(_timerange)) x.2) l →
  Forall (λ x, (length (applicable fuel n x.1 x.2) ≤ 1)%nat) l → weekly = default [] (days !! Z.to_nat (weekday n)) →
  time_in_day (0, 0, 0) fuel (Timeperiod days l excl) ti =
    Ret (_get_next_valid_time_in_timeranges ti.(preferred_time) (in_force fuel n l weekly)).
Proof.
  intros Hf Hd Hok Hone ->. unfold time_in_day. cbn [exceptions TimePeriod.days]. induction l as [|[type rs] l IH].
  - cbn. by rewrite (on_preftime _ _ Hd), wday_of.
  - apply Forall_cons in Hok as [Hr Hok]. apply Forall_cons in Hone as [H1 Hone]. cbn [fst snd] in *.
    assert (Forall range_ok rs) as Hr' by (eapply Forall_impl; [exact Hr|naive_solver]).
    cbn [browse_types in_force]. rewrite Z.eqb_refl. cbn [negb andb].
    destruct (applicable fuel n type rs) as [|r [|??]] eqn:Happ; [|clear IH|cbn in H1; lia].
    + rewrite (browse_none fuel n) by done. by apply IH.
    + rewrite (browse_single fuel n _ _ r) by done. cbn [fmap list_fmap concat]. rewrite app_nil_r. cbn [fst snd].
      set (v := _get_next_valid_time_in_timeranges _ _). rewrite browse_decided by (by destruct (v =? -1)).
      by destruct (v =? -1).
Qed.

Lemma time_in_day_exact fuel n ti p : (2 ≤ fuel)%nat → on_day n ti → period_ok fuel p →
  time_in_day (0, 0, 0) fuel p ti = Ret (_get_next_valid_time_in_timeranges ti.(preferred_time) (ranges_of_day fuel p n)).
Proof.
  intros Hf Hd [Hdays Hdates Hone]. destruct p as [dys l excl]. by apply time_in_day_ranges; [..|apply Hone|].
Qed.

Lemma in_force_ok fuel n l weekly : Forall timerange_ok weekly →
  Forall (λ x, Forall (λ r, range_ok r ∧ Forall timerange_ok r.(_timerange)) x.2) l → Forall timerange_ok (in_force fuel n l weekly).
Proof.
  intros Hw. induction l as [|[type rs] l IH]; intros Hok; [done|]. apply Forall_cons in Hok as [Hr Hok]. cbn [in_force].
  destruct (applicable fuel n type rs) as [|r rs'] eqn:Happ; [by apply IH|]. rewrite <- Happ. apply Forall_concat, Forall_fmap, Forall_forall.
  intros x [_ Hx]%list_elem_of_filter. by apply (proj1 (Forall_forall _ _) Hr x Hx).
Qed.

Lemma ranges_of_day_ok fuel n p : period_ok fuel p → Forall timerange_ok (ranges_of_day fuel p n).
Proof.
  intros [Hdays Hdates _]. apply in_force_ok; [|done]. destruct (days p !! _) as [l|] eqn:Hl; [|constructor].
  by eapply Forall_lookup_1 in Hl.
Qed.

(** ** The days of a year *)

Lemma local_day_le t t' : t ≤ t' → local_day t ≤ local_day t'.
Proof. intros H. apply local_day_spec. pose proof (local_day_bounds t). lia. Qed.

Lemma midnight_positive t : 2 * day_seconds ≤ t → 0 ≤ midnight_of (local_day t).
Proof.
  intros Ht. pose proof (proj2 (midnight_exact (local_day t) _) eq_refl) as Hm. pose proof (local_day_bounds t) as [_ Hb].
  pose proof (proj2 (midnight_exact (local_day t + 1) _) eq_refl) as Hm'.
  pose proof (offset_shift (midnight_of (local_day t)) (midnight_of (local_day t + 1))). unfold day_seconds in *. lia.
Qed.

Lemma days_in_one_year pref : local_day (in_one_year pref) ≤ local_day pref + 367.
Proof.
  unfold local_day, in_one_year. pose proof (offset_shift (pref + 366 * 24 * 60 * 60) pref). unfold day_seconds.
  Z.to_euclidean_division_equations. lia.
Qed.

(** No time of the day is left from [pref] on. *)
Lemma day_over fuel p pref : 0 ≤ pref →
  _get_next_valid_time_in_timeranges pref (ranges_of_day fuel p (local_day pref)) = -1 →
  ∀ t, pref ≤ t < midnight_of (local_day pref + 1) → ¬ valid_at fuel p t.
Proof.
  intros Hp Hv t Ht. pose proof (next_in_timeranges_earliest pref (ranges_of_day fuel p (local_day pref)) Hp) as [[_ Hnone]|[? _]]; [|lia].
  unfold valid_at. rewrite (local_day_unique t (local_day pref)) by (pose proof (local_day_bounds pref); lia).
  rewrite <- at_midnight_localtime. apply Hnone. lia.
Qed.

Lemma day_found fuel p pref v : 0 ≤ pref → period_ok fuel p → v ≠ -1 →
  _get_next_valid_time_in_timeranges pref (ranges_of_day fuel p (local_day pref)) = v →
  pref ≤ v ∧ valid_at fuel p v ∧ ∀ t, pref ≤ t < v → ¬ valid_at fuel p t.
Proof.
  intros Hp Hok Hne Hv. pose proof (next_in_timeranges_earliest pref (ranges_of_day fuel p (local_day pref)) Hp) as He.
  pose proof (next_in_day pref _ Hp (ranges_of_day_ok fuel (local_day pref) p Hok)) as Hin. cbv zeta in Hin. rewrite Hv in He, Hin.
  destruct He as [[? _]|(Hle & Hc & Hleast)]; [done|]. destruct Hin as [?|[_ Hday]]; [done|]. rewrite at_midnight_localtime in *.
  split_and!; [done|by unfold valid_at; rewrite Hday|]. intros t Ht. unfold valid_at.
  assert (local_day t = local_day pref) as ->; [|by apply Hleast].
  pose proof (local_day_le pref t ltac:(lia)). pose proof (local_day_le t v ltac:(lia)). lia.
Qed.

(** The loop over the days of a period that excludes nothing. *)
Lemma valid_loop_earliest turns f p limit : (2 ≤ turns)%nat → period_ok turns p → ∀ n pref, 2 * day_seconds ≤ pref →
  local_day limit - local_day pref + 1 ≤ Z.of_nat n →
  ∃ v, valid_loop (0, 0, 0) turns n f p [] limit pref = Ret v ∧
    ((v = -1 ∧ ∀ t, pref ≤ t < limit → ¬ valid_at turns p t) ∨
     (v ≠ -1 ∧ pref ≤ v ∧ valid_at turns p v ∧ ∀ t, pref ≤ t < v → ¬ valid_at turns p t)).
Proof.
  intros Hf Hok. induction n as [|n IH]; intros pref Hp Hn; cbn [valid_loop]; destruct (Z.ltb_spec pref limit) as [Hlt|Hge].
  - pose proof (local_day_le pref limit ltac:(lia)). lia.
  - exists (-1). split; [done|]. left. split; [done|lia].
  - assert (0 ≤ pref) as H0 by (unfold day_seconds in *; lia). pose proof (midnight_positive pref Hp) as Hm.
    pose proof (make_time_info_on_day pref Hm) as Hd. rewrite (time_in_day_exact turns (local_day pref)) by done.
    rewrite (on_midnight _ _ Hd), next_midnight. assert (preferred_time (make_time_info pref) = pref) as -> by (unfold make_time_info; by destruct (mktime _)).
    set (v := _get_next_valid_time_in_timeranges _ _). destruct (Z.eqb_spec v (-1)) as [Hv|Hv].
    + pose proof (local_day_bounds pref) as [_ Hb].
      destruct (IH (midnight_of (local_day pref + 1))) as (w & Hw & Hspec); [lia|rewrite day_of_midnight; lia|].
      exists w. split; [done|]. pose proof (day_over turns p pref H0 Hv) as Hover.
      destruct Hspec as [[-> Hnone]|(Hne & Hle & Hval & Hleast)]; [left|right]; split_and!; try done; try lia.
      * intros t Ht. destruct (Z.lt_ge_cases t (midnight_of (local_day pref + 1))); [apply Hover; lia|apply Hnone; lia].
      * intros t Ht. destruct (Z.lt_ge_cases t (midnight_of (local_day pref + 1))); [apply Hover; lia|apply Hleast; lia].
    + cbn. exists v. split; [done|]. right. split; [done|]. by apply day_found.
  - exists (-1). split; [done|]. left. split; [done|lia].
Qed.

(** ** The period *)

Section Period.
Context (periods : gmap string timeperiod) (turns depth : nat) (name : string) (p : timeperiod).
Context (Hperiod : periods !! name = Some p) (Hok : period_ok turns p) (Hexcl : p.(_exclusions) = []).
Context (Hturns : (368 ≤ turns)%nat).

Lemma next_valid_search notif pref : 2 * day_seconds ≤ pref →
  ∃ v, get_next_valid_time_per_timeperiod (0, 0, 0) periods turns (S depth) notif [] name pref = Ret (if (v =? -1) && negb notif then pref else v) ∧
    ((v = -1 ∧ ∀ t, pref ≤ t < in_one_year pref → ¬ valid_at turns p t) ∨
     (v ≠ -1 ∧ pref ≤ v ∧ valid_at turns p v ∧ ∀ t, pref ≤ t < v → ¬ valid_at turns p t)).
Proof using Hperiod Hok Hexcl Hturns.
  intros Hp. cbn [get_next_valid_time_per_timeperiod]. rewrite Hperiod. unfold exclusions_of.
  assert ((if bool_decide (name ∈ @nil string) then [] else _exclusions p) = []) as -> by (rewrite Hexcl; by case_bool_decide).
  pose proof (days_in_one_year pref) as Hy.
  edestruct (valid_loop_earliest turns) as (v & -> & Hv); [| |exact Hp| |by exists v]; [lia|done|lia].
Qed.


(** The test for notifications says that a time is in the period exactly when the
    ranges in force on its day have it. *)
Theorem check_time_for_notif_exact t : 2 * day_seconds ≤ t →
  ∃ b, check_time_against_period (0, 0, 0) periods turns (S depth) true (Some name) t = Ret b ∧ (b = true ↔ valid_at turns p t).
Proof using Hperiod Hok Hexcl Hturns.
  intros Ht. unfold check_time_against_period. destruct (next_valid_search true t Ht) as (v & -> & Hv). eexists. split; [done|].
  rewrite andb_false_r. rewrite Z.eqb_eq. destruct Hv as [[-> Hnone]|(Hne & Hle & Hval & Hleast)].
  - split; [unfold day_seconds in *; lia|]. intros Hval. exfalso. apply (Hnone t); [unfold in_one_year; lia|done].
  - split; [by intros <-|]. intros Hvt. destruct (decide (v = t)) as [->|]; [done|]. exfalso. apply (Hleast t); [lia|done].
Qed.

(** The test for checks takes a period without a valid time in the next 366 days for one
    that is always valid. *)
Lemma check_time_never_valid t : 2 * day_seconds ≤ t → (∀ t', t ≤ t' → ¬ valid_at turns p t') →
  check_time_against_period (0, 0, 0) periods turns (S depth) false (Some name) t = Ret true.
Proof using Hperiod Hok Hexcl Hturns.
  intros Ht Hnone. unfold check_time_against_period. destruct (next_valid_search false t Ht) as (v & -> & [[-> _]|(_ & Hle & Hval & _)]).
  - cbn. by rewrite Z.eqb_refl.
  - exfalso. by apply (Hnone v).
Qed.
End Period.
End Search.

(** ** Concrete periods *)

Definition hours (a b : Z) : timerange := Timerange (a * 3600) (b * 3600).
Definition day_of_year (year mon mday : Z) (l : list timerange) : daterange :=
  Daterange year mon mday 0 0 year mon mday 0 0 1 l.

(** From 9 to 17 on working days; not at all at Christmas; on the first days of the months
    from 10 to 12. *)
Definition working_hours : timeperiod :=
  Timeperiod ([[]] ++ replicate 5 [hours 9 17] ++ [[]])
    [(calendar_date, [day_of_year 2024 11 25 []]); (month_day, [Daterange 0 0 1 0 0 0 0 1 0 0 1 [hours 10 12]])] [].

Lemma working_hours_ok {C : Calendar} {L : CalendarLaws} turns : period_ok turns working_hours.
Proof.
  split.
  - repeat constructor; cbn; unfold day_seconds; lia.
  - repeat constructor; cbn; unfold day_seconds; lia.
  - intros n. cbn [exceptions working_hours]. unfold applicable.
    apply Forall_cons; split; [by etransitivity; [apply length_filter|]|]. apply Forall_cons; split; [|done].
    by etransitivity; [apply length_filter|].
Qed.

Definition company : gmap string timeperiod := {["work"%string := working_hours]}.


Lemma check_time_for_notif_exact_witness :
  ∃ b, @check_time_against_period summer (0, 0, 0) company 368 1 true (Some "work"%string) 1735113600 = Ret b ∧
    (b = true ↔ @valid_at summer summer_laws 368 working_hours 1735113600).
Proof.
  apply (@check_time_for_notif_exact summer summer_laws company 368 0 "work"%string working_hours);
    [done|apply working_hours_ok|done|lia|unfold day_seconds; lia].
Defined.

(** From Christmas at 8 the next valid time is the day after at 9. *)
Example after_christmas : @get_next_valid_time_per_timeperiod utc (0, 0, 0) company 368 1 false [] "work"%string 1735113600 = Ret 1735203600.
Proof. vm_compute. done. Qed.

(** Two date ranges of one type: the day is skipped once one of them is over, although the
    other one has a time left. *)
Definition two_ranges : timeperiod :=
  Timeperiod (replicate 7 []) [(calendar_date, [day_of_year 2024 11 25 [hours 8 9]; day_of_year 2024 11 25 [hours 14 15]])] [].

Example range_over_hides_another :
  @get_next_valid_time_per_timeperiod utc (0, 0, 0) {["p"%string := two_ranges]} 368 1 true [] "p"%string 1735120800 = Ret (-1) ∧
  @get_next_valid_time_per_timeperiod utc (0, 0, 0) {["p"%string := two_ranges]} 368 1 true [] "p"%string 1735113600 = Ret 1735113600.
Proof. vm_compute. done. Qed.

(** Every second day from 2024-03-30 on: 2024-04-02 is not one of these days, yet in a zone
    whose clocks went forward in between it is taken for one. *)
Definition second_days : daterange := Daterange 2024 2 30 0 0 0 0 0 0 0 2 [hours 8 9].
Definition skipping : timeperiod := Timeperiod (replicate 7 []) [(calendar_date, [second_days])] [].

Example skipped_day_after_clock_change :
  @check_time_against_period utc (0, 0, 0) {["p"%string := skipping]} 368 1 true (Some "p"%string) 1712044800 = Ret false ∧
  @check_time_against_period summer (0, 0, 0) {["p"%string := skipping]} 368 1 true (Some "p"%string) 1712041200 = Ret true.
Proof. vm_compute. done. Qed.
