(* ===== verification/Circular.v ===== *)
(** * Circular paths

    [engine/src/config.cc] and [engine/src/hostdependency.cc], [servicedependency.cc]: before
    a configuration is used, the engine looks for loops among the parents of hosts and among
    the dependencies.  The checks of hosts and the dependencies recurse on them. *)

From stdpp Require Import relations.
From S2P Require Import Prelude.

(** ** Lists *)

Lemma filter_length_le {A} (P Q : A → Prop) `{!∀ x, Decision (P x), !∀ x, Decision (Q x)} (l : list A) :
  (∀ x, Q x → P x) → (length (filter Q l) ≤ length (filter P l))%nat.
Proof.
  intros Himp. induction l as [|x l IH]; [done|]. rewrite !filter_cons. destruct (decide (Q x)) as [Hq|Hq].
  - rewrite decide_True by auto. cbn. lia.
  - case_decide; cbn; lia.
Qed.

Lemma filter_length_lt {A} (P Q : A → Prop) `{!∀ x, Decision (P x), !∀ x, Decision (Q x)} (l : list A) y :
  (∀ x, Q x → P x) → y ∈ l → P y → ¬ Q y → (length (filter Q l) < length (filter P l))%nat.
Proof.
  intros Himp Hy HP HQ. induction Hy as [y l|y x l Hy IH]; rewrite !filter_cons.
  - rewrite decide_False, decide_True by done. pose proof (filter_length_le P Q l Himp). cbn. lia.
  - specialize (IH HP HQ). destruct (decide (Q x)) as [Hq|Hq]; [rewrite decide_True by auto; cbn; lia|]. case_decide; cbn; lia.
Qed.

(** A relation without a cycle on a finite set: a path has at most as many elements as the
    set, which bounds a recursion along the relation. *)
Lemma acyclic_depth {A} (l : list A) (R : relation A) (P : nat → A → Prop) :
  (∀ x y, x ∈ l → R x y → y ∈ l) → (∀ x, x ∈ l → ¬ tc R x x) →
  (∀ n x, x ∈ l → (∀ y, R x y → P n y) → P (S n) x) →
  ∀ n x, x ∈ l → (length l < n)%nat → P n x.
Proof.
  intros Hclosed Hac Hstep.
  assert (∀ n p x, x ∈ l → NoDup p → (∀ y, y ∈ p → y ∈ l ∧ tc R y x) → (length l < n + length p)%nat → P n x) as Hpath.
  { induction n as [|n IH]; intros p x Hx Hnd Hp Hn.
    - exfalso. assert (length p ≤ length l)%nat; [|cbn in Hn; lia]. apply submseteq_length, NoDup_submseteq; [done|].
      intros y Hy. by apply Hp.
    - apply Hstep; [done|]. intros y Hxy. apply (IH (x :: p)); [by eapply Hclosed| | |cbn; lia].
      + apply NoDup_cons. split; [|done]. intros Hin. destruct (Hp x Hin) as [_ Htc]. by apply (Hac x).
      + intros z [->|Hz]%elem_of_cons; [split; [done|by apply tc_once]|]. destruct (Hp z Hz) as [? ?]. split; [done|]. by eapply tc_r. }
  intros n x Hx Hn. apply (Hpath n []); [done|constructor| |cbn; lia]. intros y Hy. by apply not_elem_of_nil in Hy.
Qed.

(** ** Parents and children *)

Inductive dfs_status := DFS_UNCHECKED | DFS_TEMP_CHECKED | DFS_OK | DFS_NEAR_LOOP | DFS_LOOPY.

#[export] Instance dfs_status_eq_dec : EqDecision dfs_status.
Proof. solve_decision. Defined.

Abbreviation statuses := (gmap string dfs_status).
Definition dfs_get_status (h : string) (st : statuses) : dfs_status := default DFS_UNCHECKED (st !! h).
Definition dfs_set_status (h : string) (s : dfs_status) (st : statuses) : statuses := <[h := s]> st.

#[global] Arguments dfs_get_status : simpl never.
#[global] Arguments dfs_set_status : simpl never.

Section Parents.
(** [host::hosts] and [child_hosts], in the order of their iterators. *)
Context (hosts : list string) (child_hosts : string → list string).

(** A child that was just seen with [status]. *)
Definition mark_child (root child : string) (status : dfs_status) (st : statuses) : statuses :=
  let st := if bool_decide (status = DFS_TEMP_CHECKED)
            then dfs_set_status root DFS_LOOPY (dfs_set_status child DFS_LOOPY st) else st in
  if bool_decide (status = DFS_NEAR_LOOP) || bool_decide (status = DFS_LOOPY) then
    let st := if bool_decide (dfs_get_status root st = DFS_LOOPY) then st else dfs_set_status root DFS_NEAR_LOOP st in
    dfs_set_status child DFS_LOOPY st
  else st.

(** The loop over the children. *)
Fixpoint scan_children (path : string → statuses → res (dfs_status * statuses)) (root : string) (l : list string)
    (st : statuses) : res statuses :=
  match l with
  | [] => Ret st
  | child :: l =>
      let status := dfs_get_status child st in
      let! p := (if bool_decide (status = DFS_UNCHECKED) then path child st else Ret (status, st)) in
      scan_children path root l (mark_child root child p.1 p.2)
  end.

Fixpoint dfs_host_path (fuel : nat) (root : string) (st : statuses) : res (dfs_status * statuses) :=
  match fuel with
  | O => Throw fuel_exhausted
  | S fuel =>
      if bool_decide (dfs_get_status root st = DFS_UNCHECKED) then
        let! st := scan_children (dfs_host_path fuel) root (child_hosts root) (dfs_set_status root DFS_TEMP_CHECKED st) in
        let st := if bool_decide (dfs_get_status root st = DFS_TEMP_CHECKED) then dfs_set_status root DFS_OK st else st in
        Ret (dfs_get_status root st, st)
      else Ret (dfs_get_status root st, st)
  end.

(** Whether a host is in a loop; the search stops at the first one. *)
Fixpoint find_loop (fuel : nat) (l : list string) (st : statuses) : res bool :=
  match l with
  | [] => Ret false
  | h :: l =>
      let! p := dfs_host_path fuel h st in
      if bool_decide (p.1 = DFS_LOOPY) then Ret true else find_loop fuel l p.2
  end.

Definition circular_hosts (fuel : nat) : res bool := find_loop fuel hosts ∅.

(** *** Theorems *)

Context (Hclosed : ∀ h c, h ∈ hosts → c ∈ child_hosts h → c ∈ hosts).

Definition child_of (h c : string) : Prop := c ∈ child_hosts h.

(** No path through children goes on for ever. *)
Definition grounded : string → Prop := Acc (flip child_of).

Lemma grounded_no_loop h : grounded h → ¬ tc child_of h h.
Proof.
  intros Hg. induction Hg as [h _ IH]. intros Hl.
  assert (∃ c, child_of h c ∧ tc child_of c c) as (c & Hc & Hcc); [|by apply (IH c)].
  inversion Hl as [? ? H1|? y ? H1 H2]; subst; [by exists h|]. exists y. split; [done|]. by eapply tc_r.
Qed.

(** How the statuses evolve. *)
Record evolves (st st' : statuses) : Prop := {
  ev_seen x : dfs_get_status x st ≠ DFS_UNCHECKED → dfs_get_status x st' ≠ DFS_UNCHECKED;
  ev_ok x : dfs_get_status x st = DFS_OK → dfs_get_status x st' = DFS_OK;
  ev_new_ok x : dfs_get_status x st' = DFS_OK → dfs_get_status x st = DFS_OK ∨ dfs_get_status x st = DFS_UNCHECKED;
  ev_loopy x : dfs_get_status x st = DFS_LOOPY → dfs_get_status x st' = DFS_LOOPY;
  ev_temp x : dfs_get_status x st' = DFS_TEMP_CHECKED → dfs_get_status x st = DFS_TEMP_CHECKED;
}.

#[local] Instance evolves_preorder : PreOrder evolves.
Proof.
  split; [split; auto|]. intros st1 st2 st3 [A1 A2 A3 A4 A5] [B1 B2 B3 B4 B5]. split; [by auto..| |by auto|by auto].
  intros x [H|H]%B3; [by apply A3|]. right. destruct (decide (dfs_get_status x st1 = DFS_UNCHECKED)) as [?|Hn]; [done|].
  by apply A1 in Hn.
Qed.

Lemma get_set h s x st : dfs_get_status x (dfs_set_status h s st) = if decide (h = x) then s else dfs_get_status x st.
Proof.
  unfold dfs_get_status, dfs_set_status. destruct (decide (h = x)) as [->|Hne]; [by rewrite lookup_insert_eq|by rewrite lookup_insert_ne].
Qed.

Lemma set_evolves h s st :
  dfs_get_status h st ≠ DFS_OK → dfs_get_status h st ≠ DFS_LOOPY ∨ s = DFS_LOOPY →
  s = DFS_LOOPY ∨ s = DFS_NEAR_LOOP → evolves st (dfs_set_status h s st).
Proof.
  intros H1 H2 Hs. split; intros x; rewrite get_set; case_decide; subst; auto.
  all: destruct Hs as [->| ->]; try done. by destruct H2.
Qed.

(** Hosts found good are grounded, and where there is a host near a loop there is one in a
    loop. *)
Record sound (st : statuses) : Prop := {
  snd_ok x : dfs_get_status x st = DFS_OK → grounded x;
  snd_near x : dfs_get_status x st = DFS_NEAR_LOOP → ∃ y, y ∈ hosts ∧ dfs_get_status y st = DFS_LOOPY;
}.

(** The root of a search, while its children are browsed. *)
Definition open (root : string) (st : statuses) : Prop :=
  root ∈ hosts ∧ dfs_get_status root st ≠ DFS_OK ∧ dfs_get_status root st ≠ DFS_UNCHECKED.

Lemma open_evolves root st st' : open root st → evolves st st' → open root st'.
Proof. intros (H1 & H2 & H3) [? ? Hn ? ?]. split_and!; [done| |by auto]. intros [?|?]%Hn; done. Qed.

(** A child near a loop, or in one. *)
Lemma mark_bad_child root c st : open root st → c ∈ hosts → sound st → dfs_get_status c st ≠ DFS_OK →
  let st1 := if bool_decide (dfs_get_status root st = DFS_LOOPY) then st else dfs_set_status root DFS_NEAR_LOOP st in
  let st' := dfs_set_status c DFS_LOOPY st1 in
  evolves st st' ∧ sound st' ∧ dfs_get_status root st' ≠ DFS_TEMP_CHECKED.
Proof.
  intros (Hr & Hrok & Hrun) Hc [Hok Hnear] Hcok st1 st'.
  assert (evolves st st1 ∧ dfs_get_status root st1 ≠ DFS_TEMP_CHECKED ∧ dfs_get_status c st1 ≠ DFS_OK ∧
          ∀ x, dfs_get_status x st1 = DFS_OK → grounded x) as (Hev1 & Ht & Hc1 & Hg1).
  { unfold st1. case_bool_decide as Hl.
    - split_and!; [done|congruence|done|exact Hok].
    - split_and!; [apply set_evolves; [done|by left|by right]|by rewrite get_set, decide_True| |].
      + rewrite get_set. by case_decide.
      + intros x. rewrite get_set. case_decide; [discriminate|apply Hok]. }
  assert (evolves st1 st') as Hev2 by (apply set_evolves; [done|by right|by left]).
  split; [exact (transitivity Hev1 Hev2)|]. split; [|unfold st'; rewrite get_set; by case_decide].
  split; intros x; unfold st'; rewrite get_set; case_decide; try discriminate; [apply Hg1|]. intros _. exists c. by rewrite get_set, decide_True.
Qed.

Lemma mark_child_eq root c status st :
  mark_child root c status st =
    match status with
    | DFS_TEMP_CHECKED => dfs_set_status root DFS_LOOPY (dfs_set_status c DFS_LOOPY st)
    | DFS_NEAR_LOOP | DFS_LOOPY =>
        dfs_set_status c DFS_LOOPY
          (if bool_decide (dfs_get_status root st = DFS_LOOPY) then st else dfs_set_status root DFS_NEAR_LOOP st)
    | _ => st
    end.
Proof. by destruct status. Qed.

Lemma mark_child_spec root c status st : open root st → c ∈ hosts → sound st → status = dfs_get_status c st →
  status ≠ DFS_UNCHECKED → let st' := mark_child root c status st in
  evolves st st' ∧ sound st' ∧ (dfs_get_status root st' = DFS_TEMP_CHECKED → dfs_get_status root st = DFS_TEMP_CHECKED ∧ grounded c).
Proof.
  intros Hopen Hc Hs Hst Hun. rewrite mark_child_eq. destruct status; [done|..].
  - destruct Hopen as (Hr & Hrok & Hrun), Hs as [Hok Hnear].
    assert (evolves st (dfs_set_status root DFS_LOOPY (dfs_set_status c DFS_LOOPY st))) as Hev.
    { etransitivity; apply set_evolves; rewrite ?get_set; try case_decide; auto; congruence. }
    split; [exact Hev|]. split; [|rewrite get_set, decide_True by done; discriminate].
    split; intros x; rewrite !get_set; repeat case_decide; try discriminate; [apply Hok|]. intros _. exists root. by rewrite get_set, decide_True.
  - split; [done|]. split; [exact Hs|]. intros H. split; [done|]. apply (snd_ok _ Hs). congruence.
  - destruct (mark_bad_child root c st Hopen Hc Hs ltac:(congruence)) as (H1 & H2 & H3). split; [exact H1|]. split; [exact H2|]. intros H. by destruct H3.
  - destruct (mark_bad_child root c st Hopen Hc Hs ltac:(congruence)) as (H1 & H2 & H3). split; [exact H1|]. split; [exact H2|]. intros H. by destruct H3.
Qed.

(** The hosts not yet seen, which bound the depth of the search. *)
Definition unseen (st : statuses) : list string := filter (λ h, dfs_get_status h st = DFS_UNCHECKED) hosts.

Lemma unseen_evolves st st' : evolves st st' → (length (unseen st') ≤ length (unseen st))%nat.
Proof.
  intros [Hs _ _ _ _]. apply filter_length_le. intros x Hx. destruct (decide (dfs_get_status x st = DFS_UNCHECKED)) as [?|H]; [done|].
  by apply Hs in H.
Qed.

(** What the search of a host that was not seen does. *)
Definition searched (h : string) (st : statuses) (r : res (dfs_status * statuses)) : Prop :=
  ∃ st', r = Ret (dfs_get_status h st', st') ∧ evolves st st' ∧ sound st' ∧ dfs_get_status h st' ≠ DFS_UNCHECKED.

Lemma scan_children_spec path root : ∀ l st, (∀ c, c ∈ l → c ∈ hosts) → open root st → sound st →
  (∀ c st', c ∈ hosts → evolves st st' → sound st' → dfs_get_status c st' = DFS_UNCHECKED → searched c st' (path c st')) →
  ∃ st', scan_children path root l st = Ret st' ∧ evolves st st' ∧ sound st' ∧
    (dfs_get_status root st' = DFS_TEMP_CHECKED → ∀ c, c ∈ l → grounded c).
Proof.
  induction l as [|c l IH]; intros st Hl Hopen Hs Hpath.
  { exists st. split_and!; [done..|]. intros _ c Hc. by apply not_elem_of_nil in Hc. }
  cbn [scan_children]. assert (c ∈ hosts) as Hc by (apply Hl; left).
  assert (∃ st1, (if bool_decide (dfs_get_status c st = DFS_UNCHECKED) then path c st else Ret (dfs_get_status c st, st)) =
                   Ret (dfs_get_status c st1, st1) ∧ evolves st st1 ∧ sound st1 ∧ dfs_get_status c st1 ≠ DFS_UNCHECKED) as
    (st1 & -> & Hev1 & Hs1 & Hseen).
  { case_bool_decide as Hu; [by apply Hpath|]. by exists st. }
  cbn [fst snd]. assert (open root st1) as Hopen1 by (by eapply open_evolves).
  destruct (mark_child_spec root c _ st1 Hopen1 Hc Hs1 eq_refl Hseen) as (Hev2 & Hs2 & Hroot). set (st2 := mark_child _ _ _ _) in *.
  destruct (IH st2) as (st' & -> & Hev3 & Hs3 & Hall).
  - intros x Hx. apply Hl. by right.
  - by eapply open_evolves.
  - done.
  - intros x st' Hx Hev. apply Hpath; [done|]. by repeat (etransitivity; [eassumption|]).
  - exists st'. split_and!; [done|by repeat (etransitivity; [eassumption|])|done|]. intros Ht x [->|Hx]%elem_of_cons; [|by apply Hall].
    apply Hroot. by apply (ev_temp _ _ Hev3).
Qed.

(** A search starts with its root checked temporarily and ends with another status. *)
Lemma search_evolves h st st1 st' : dfs_get_status h st = DFS_UNCHECKED → evolves (dfs_set_status h DFS_TEMP_CHECKED st) st1 →
  (∀ x, x ≠ h → dfs_get_status x st' = dfs_get_status x st1) →
  dfs_get_status h st' ≠ DFS_UNCHECKED → dfs_get_status h st' ≠ DFS_TEMP_CHECKED → evolves st st'.
Proof.
  intros Hu [A1 A2 A3 A4 A5] Heq H1 H2.
  assert (∀ x, x = h ∨ x ≠ h ∧ dfs_get_status x (dfs_set_status h DFS_TEMP_CHECKED st) = dfs_get_status x st ∧
            dfs_get_status x st' = dfs_get_status x st1) as Hcase.
  { intros x. destruct (decide (x = h)); [by left|right]. rewrite get_set, decide_False by done. auto. }
  split; intros x; destruct (Hcase x) as [->|(Hne & E1 & E2)]; try congruence; rewrite ?E2, <- ?E1; auto.
Qed.

Lemma dfs_host_path_spec : ∀ fuel h st, h ∈ hosts → sound st → dfs_get_status h st = DFS_UNCHECKED →
  (length (unseen st) ≤ fuel)%nat → searched h st (dfs_host_path fuel h st).
Proof using Hclosed.
  induction fuel as [|fuel IH]; intros h st Hh Hs Hu Hf.
  { exfalso. assert (h ∈ unseen st) as Hin by (by apply list_elem_of_filter). destruct (unseen st); [by apply not_elem_of_nil in Hin|cbn in Hf; lia]. }
  cbn [dfs_host_path]. rewrite bool_decide_true by done. set (st0 := dfs_set_status h DFS_TEMP_CHECKED st).
  assert (length (unseen st0) ≤ fuel)%nat as Hf0.
  { assert (length (unseen st0) < length (unseen st))%nat; [|lia]. apply filter_length_lt with (y := h); [|done|done|].
    - intros x. unfold st0. rewrite get_set. by case_decide.
    - unfold st0. by rewrite get_set, decide_True. }
  assert (sound st0) as Hs0.
  { destruct Hs as [Hok Hnear]. split; intros x; unfold st0; rewrite get_set; case_decide; try discriminate; [apply Hok|].
    intros (y & Hy & Hl)%Hnear. exists y. split; [done|]. rewrite get_set. case_decide; [congruence|done]. }
  destruct (scan_children_spec (dfs_host_path fuel) h (child_hosts h) st0) as (st1 & -> & Hev & Hs1 & Hroot).
  - intros c Hc. by eapply Hclosed.
  - unfold open, st0. by rewrite get_set, decide_True.
  - done.
  - intros c st' Hc Hev Hs' Hu'. apply IH; [done..|]. pose proof (unseen_evolves _ _ Hev). lia.
  - assert (open h st1) as Hopen1 by (eapply open_evolves; [|exact Hev]; unfold open, st0; by rewrite get_set, decide_True).
    case_bool_decide as Ht.
    + exists (dfs_set_status h DFS_OK st1). split; [done|]. split; [|split; [|by rewrite get_set, decide_True]].
      * eapply search_evolves; [done|exact Hev| |by rewrite get_set, decide_True..]. intros x Hx. by rewrite get_set, decide_False.
      * destruct Hs1 as [Hok Hnear]. split; intros x; rewrite get_set; case_decide as Hx; try discriminate; [|apply Hok|].
        { subst x. intros _. constructor. intros c Hc. by apply Hroot. }
        intros (y & Hy & Hl)%Hnear. exists y. split; [done|]. rewrite get_set. case_decide; [congruence|done].
    + destruct Hopen1 as (_ & Hno & Hnu). exists st1. split; [done|]. split; [|split; [exact Hs1|done]].
      by eapply search_evolves.
Qed.

(** Any host, seen or not. *)
Lemma dfs_host_path_any fuel h st : h ∈ hosts → sound st → (length hosts < fuel)%nat → searched h st (dfs_host_path fuel h st).
Proof using Hclosed.
  intros Hh Hs Hf. destruct (decide (dfs_get_status h st = DFS_UNCHECKED)) as [Hu|Hu].
  - apply dfs_host_path_spec; [done..|]. pose proof (length_filter (λ h, dfs_get_status h st = DFS_UNCHECKED) hosts). unfold unseen. lia.
  - destruct fuel as [|fuel]; [lia|]. cbn [dfs_host_path]. rewrite bool_decide_false by done. exists st. by split_and!.
Qed.

Lemma dfs_host_path_seen fuel h st : dfs_get_status h st ≠ DFS_UNCHECKED → dfs_host_path (S fuel) h st = Ret (dfs_get_status h st, st).
Proof. intros Hu. cbn [dfs_host_path]. by rewrite bool_decide_false. Qed.

Lemma loopy_found fuel y : ∀ l st, (∀ h, h ∈ l → h ∈ hosts) → sound st → (length hosts < fuel)%nat →
  y ∈ l → dfs_get_status y st = DFS_LOOPY → find_loop fuel l st = Ret true.
Proof using Hclosed.
  induction l as [|h l IH]; intros st Hl Hs Hf Hy Hloopy; [by apply not_elem_of_nil in Hy|]. cbn [find_loop].
  destruct (dfs_host_path_any fuel h st) as (st' & -> & Hev & Hs' & _); [apply Hl; left|done..|]. cbn [fst snd].
  pose proof (ev_loopy _ _ Hev y Hloopy) as Hl'. case_bool_decide as Hh; [done|]. apply IH; [|done..| |done].
  - intros x Hx. apply Hl. by right.
  - by apply elem_of_cons in Hy as [->|Hy].
Qed.

Lemma find_loop_spec fuel : ∀ l st, (∀ h, h ∈ l → h ∈ hosts) → sound st → (length hosts < fuel)%nat →
  (∀ h, dfs_get_status h st ≠ DFS_TEMP_CHECKED) → (∀ h, h ∈ hosts → h ∈ l ∨ dfs_get_status h st = DFS_OK) →
  find_loop fuel l st = Ret true ∨ (find_loop fuel l st = Ret false ∧ ∀ h, h ∈ hosts → grounded h).
Proof using Hclosed.
  induction l as [|h l IH]; intros st Hl Hs Hf Htemp Hall.
  { right. split; [done|]. intros h [Hh|Hok]%Hall; [by apply not_elem_of_nil in Hh|]. by apply (snd_ok _ Hs). }
  cbn [find_loop]. destruct (dfs_host_path_any fuel h st) as (st' & -> & Hev & Hs' & Hseen); [apply Hl; left|done..|]. cbn [fst snd].
  case_bool_decide as Hh; [by left|]. destruct (decide (dfs_get_status h st' = DFS_OK)) as [Hok|Hnok].
  - apply IH; [|done..| |].
    + intros x Hx. apply Hl. by right.
    + intros x Hx. by apply (Htemp x), (ev_temp _ _ Hev).
    + intros x [[->|Hx]%elem_of_cons|Hx]%Hall; [by right|by left|]. right. by apply (ev_ok _ _ Hev).
  - left. assert (∃ y, y ∈ l ∧ dfs_get_status y st' = DFS_LOOPY) as (y & Hy & Hloopy).
    { destruct (dfs_get_status h st') eqn:Hst; try done.
      - apply (ev_temp _ _ Hev) in Hst. by apply Htemp in Hst.
      - destruct (snd_near _ Hs' h Hst) as (y & Hy & Hly). exists y. split; [|done].
        destruct (Hall y Hy) as [[->|?]%elem_of_cons|Hok]; [congruence|done|]. apply (ev_ok _ _ Hev) in Hok. congruence. }
    eapply loopy_found; [|done|done|exact Hy|done]. intros x Hx. apply Hl. by right.
Qed.

(** *** Without a loop no host is blamed *)

Section NoLoop.
Context (Hacyclic : ∀ h, h ∈ hosts → ¬ tc child_of h h).

Definition clean (st : statuses) : Prop := ∀ x, dfs_get_status x st ≠ DFS_NEAR_LOOP ∧ dfs_get_status x st ≠ DFS_LOOPY.

(** A search that finds nothing: the hosts checked temporarily are the same as before. *)
Definition searched_clean (st : statuses) (r : res (dfs_status * statuses)) : Prop :=
  ∀ s st', r = Ret (s, st') → s = DFS_OK ∧ clean st' ∧ ∀ x, dfs_get_status x st' = DFS_TEMP_CHECKED ↔ dfs_get_status x st = DFS_TEMP_CHECKED.

Lemma scan_children_clean path root : root ∈ hosts → ∀ l st st', (∀ c, c ∈ l → child_of root c) →
  (∀ c st, child_of root c → clean st → dfs_get_status c st = DFS_UNCHECKED →
     (∀ x, dfs_get_status x st = DFS_TEMP_CHECKED → tc child_of x c) → searched_clean st (path c st)) →
  clean st → (∀ x, dfs_get_status x st = DFS_TEMP_CHECKED → x = root ∨ tc child_of x root) →
  scan_children path root l st = Ret st' →
  clean st' ∧ ∀ x, dfs_get_status x st' = DFS_TEMP_CHECKED ↔ dfs_get_status x st = DFS_TEMP_CHECKED.
Proof using Hacyclic Hclosed.
  intros Hroot. induction l as [|c l IH]; intros st st' Hl Hpath Hc Htemp Hscan; [by simplify_eq/=|]. cbn [scan_children] in Hscan.
  assert (child_of root c) as Hchild by (apply Hl; left). assert (c ∈ hosts) as Hch by (by eapply Hclosed).
  assert (∀ x, dfs_get_status x st = DFS_TEMP_CHECKED → tc child_of x c) as Htc.
  { intros x [->|Hx]%Htemp; [by apply tc_once|]. by eapply tc_r. }
  destruct (if bool_decide _ then _ else _) as [[s st1]|] eqn:Hstep; [|done]. cbn [fst snd] in Hscan.
  assert (s = DFS_OK ∧ clean st1 ∧ ∀ x, dfs_get_status x st1 = DFS_TEMP_CHECKED ↔ dfs_get_status x st = DFS_TEMP_CHECKED) as (-> & Hc1 & Ht1).
  { case_bool_decide as Hu; [by eapply Hpath|]. simplify_eq. split; [|done].
    destruct (Hc c) as [? ?]. destruct (dfs_get_status c st1) eqn:Hst; try done. exfalso. apply (Hacyclic c Hch). by apply Htc. }
  rewrite mark_child_eq in Hscan. destruct (IH st1 st') as [Hc' Ht']; try done.
  - intros x Hx. apply Hl. by right.
  - intros x Hx. apply Htemp. by apply Ht1.
  - split; [done|]. intros x. by rewrite Ht', Ht1.
Qed.

Lemma dfs_host_path_clean : ∀ fuel h st, h ∈ hosts → clean st → dfs_get_status h st = DFS_UNCHECKED →
  (∀ x, dfs_get_status x st = DFS_TEMP_CHECKED → tc child_of x h) → searched_clean st (dfs_host_path fuel h st).
Proof using Hacyclic Hclosed.
  induction fuel as [|fuel IH]; intros h st Hh Hc Hu Htemp s st' Hret; [done|]. cbn [dfs_host_path] in Hret.
  rewrite bool_decide_true in Hret by done. set (st0 := dfs_set_status h DFS_TEMP_CHECKED st) in *.
  destruct (scan_children _ _ _ _) as [st1|] eqn:Hscan; [|done].
  destruct (scan_children_clean (dfs_host_path fuel) h Hh (child_hosts h) st0 st1) as [Hc1 Ht1]; [done| | | |done|].
  - intros c st2 Hcc Hc2 Hu2 Ht2. apply IH; [by eapply Hclosed|done..].
  - intros x. unfold st0. rewrite get_set. destruct (decide (h = x)); [by split|apply Hc].
  - intros x. unfold st0. rewrite get_set. destruct (decide (h = x)) as [->|Hx]; [by left|]. intros Ht. right. by apply Htemp.
  - assert (dfs_get_status h st1 = DFS_TEMP_CHECKED) as Hht by (apply Ht1; unfold st0; by rewrite get_set, decide_True).
    rewrite bool_decide_true in Hret by done. simplify_eq. rewrite get_set, decide_True by done. split_and!; [done| |].
    + intros x. rewrite get_set. destruct (decide (h = x)); [by split|apply Hc1].
    + intros x. rewrite get_set. destruct (decide (h = x)) as [->|Hx]; [by rewrite Hu|]. rewrite Ht1. unfold st0. by rewrite get_set, decide_False.
Qed.

Lemma find_loop_clean fuel : ∀ l st b, (∀ h, h ∈ l → h ∈ hosts) → clean st → (∀ h, dfs_get_status h st ≠ DFS_TEMP_CHECKED) →
  find_loop fuel l st = Ret b → b = false.
Proof using Hacyclic Hclosed.
  induction l as [|h l IH]; intros st b Hl Hc Ht Hret; [by simplify_eq/=|]. cbn [find_loop] in Hret.
  destruct (dfs_host_path fuel h st) as [[s st1]|] eqn:Hpath; [|done]. cbn [fst snd] in Hret.
  assert (s = DFS_OK ∧ clean st1 ∧ ∀ x, dfs_get_status x st1 = DFS_TEMP_CHECKED ↔ dfs_get_status x st = DFS_TEMP_CHECKED) as (-> & Hc1 & Ht1).
  { destruct (decide (dfs_get_status h st = DFS_UNCHECKED)) as [Hu|Hu].
    - eapply dfs_host_path_clean; [..|exact Hpath]; [apply Hl; left|done|done|]. intros x Hx. by apply Ht in Hx.
    - destruct fuel as [|fuel]; [done|]. rewrite dfs_host_path_seen in Hpath by done. simplify_eq. split; [|done].
      destruct (Hc h) as [? ?]. specialize (Ht h). by destruct (dfs_get_status h st1). }
  cbn in Hret. eapply IH; [|exact Hc1| |exact Hret].
  - intros x Hx. apply Hl. by right.
  - intros x Hx. apply (Ht x). by apply Ht1.
Qed.
End NoLoop.

Lemma initial_statuses x : dfs_get_status x ∅ = DFS_UNCHECKED.
Proof. unfold dfs_get_status. by rewrite lookup_empty. Qed.

Lemma circular_hosts_spec fuel : (length hosts < fuel)%nat →
  circular_hosts fuel = Ret true ∨ (circular_hosts fuel = Ret false ∧ ∀ h, h ∈ hosts → grounded h).
Proof using Hclosed.
  intros Hf. apply find_loop_spec; [done| |done| |by left].
  - split; intros x; by rewrite initial_statuses.
  - intros x. by rewrite initial_statuses.
Qed.

(** The search of loops among the parents of hosts ends, and it finds nothing exactly
    when no host is among its own descendants. *)
Theorem circular_hosts_exact fuel : (length hosts < fuel)%nat →
  ∃ b, circular_hosts fuel = Ret b ∧ (b = false ↔ ∀ h, h ∈ hosts → ¬ tc child_of h h).
Proof using Hclosed.
  intros Hf. destruct (circular_hosts_spec fuel Hf) as [Hr|[Hr Hg]].
  - exists true. split; [done|]. split; [done|]. intros Hn. eapply (find_loop_clean Hn); [..|exact Hr]; [done| |];
      intros x; by rewrite initial_statuses.
  - exists false. split; [done|]. split; [|done]. intros _ h Hh. by apply grounded_no_loop, Hg.
Qed.
End Parents.

(** ** Dependencies *)

(** [dependency::types] *)
Inductive dependency_type := notification_dependency | execution_dependency.

#[export] Instance dependency_type_eq_dec : EqDecision dependency_type.
Proof. solve_decision. Defined.

(** A dependency between hosts, or between services; a pointer may be null. *)
Record dependency (A : Type) := Dependency {
  _dependency_type : dependency_type;
  dependent_ptr : option A;
  master_ptr : option A;
  _inherits_parent : bool;
  (** [get_fail_on(state)] *)
  get_fail_on : Z → bool;
  _fail_on_pending : bool;
  (** there is no period, or [check_time_against_period] holds now *)
  in_dependency_period : bool;
}.
Arguments Dependency {_}.
Arguments _dependency_type {_}.
Arguments dependent_ptr {_}.
Arguments master_ptr {_}.
Arguments _inherits_parent {_}.
Arguments get_fail_on {_}.
Arguments _fail_on_pending {_}.
Arguments in_dependency_period {_}.

(** What is looked at of a host or service. *)
Record object_view := ObjectView { v_soft : bool; v_last_hard_state : Z; v_current_state : Z; v_has_been_checked : bool }.

Section Dependencies.
Context {A : Type} `{!EqDecision A}.
(** [hostdependencies] or [servicedependencies]; a dependency is known by its place. *)
Context (deps : list (dependency A)).

(** [_circular_path_checked] and [_contains_circular_path] *)
Record flags := Flags { checked : list nat; contains : list nat }.

(** The loop over the parent dependencies. *)
Fixpoint check_parents (path : nat → flags → res (bool * flags)) (d : dependency A) (l : list nat) (st : flags) : res (bool * flags) :=
  match l with
  | [] => Ret (false, st)
  | i :: l =>
      match deps !! i with
      | None => Throw undefined
      | Some p =>
          if bool_decide (d.(master_ptr) = p.(dependent_ptr)) then
            let! r := path i st in
            if r.1 then Ret (true, r.2) else check_parents path d l r.2
          else check_parents path d l st
      end
  end.

(** [check_for_circular_hostdependency_path] of [this], [check_for_circular_servicedependency_path] *)
Fixpoint check_for_circular_path (fuel : nat) (type : dependency_type) (this dep : nat) (st : flags) : res (bool * flags) :=
  match fuel with
  | O => Throw fuel_exhausted
  | S fuel =>
      match deps !! this, deps !! dep with
      | Some t, Some d =>
          if negb (bool_decide (t.(_dependency_type) = type)) || negb (bool_decide (d.(_dependency_type) = type)) then Ret (false, st)
          else if bool_decide (this ∈ st.(contains)) then Ret (true, st)
          else if bool_decide (dep ∈ st.(checked)) then Ret (false, st)
          else
            let st := Flags (dep :: st.(checked)) st.(contains) in
            if negb (bool_decide (dep = this)) && bool_decide (t.(dependent_ptr) = d.(master_ptr))
            then Ret (true, Flags st.(checked) (dep :: this :: st.(contains)))
            else if bool_decide (type = notification_dependency) && negb d.(_inherits_parent) then Ret (false, st)
            else check_parents (check_for_circular_path fuel type this) d (seq 0 (length deps)) st
      | _, _ => Throw undefined
      end
  end.

(** The loop of [pre_flight_circular_check] over the dependencies: the number of errors. *)
Fixpoint count_circular (fuel : nat) (type : dependency_type) (l : list nat) (cont : list nat) : res Z :=
  match l with
  | [] => Ret 0
  | i :: l =>
      let! r := check_for_circular_path fuel type i i (Flags [] cont) in
      let! n := count_circular fuel type l r.2.(contains) in
      Ret (n + if r.1 then 1 else 0)
  end.

Definition circular_dependencies (fuel : nat) (type : dependency_type) : res Z :=
  count_circular fuel type (seq 0 (length deps)) [].

(** [authorized_by_dependencies] *)
Section Authorized.
Context (soft_state_dependencies : bool) (view : A → object_view).

Definition state_to_use (m : A) : Z :=
  if (view m).(v_soft) && negb soft_state_dependencies then (view m).(v_last_hard_state) else (view m).(v_current_state).

(** The loop over the dependencies of an object. *)
Fixpoint browse_dependencies (authorized : A → res bool) (type : dependency_type) (l : list (dependency A)) : res bool :=
  match l with
  | [] => Ret true
  | d :: l =>
      if negb (bool_decide (d.(_dependency_type) = type)) then browse_dependencies authorized type l
      else
        match d.(master_ptr) with
        | None => browse_dependencies authorized type l
        | Some m =>
            if negb d.(in_dependency_period) then Ret true
            else if d.(get_fail_on) (state_to_use m) then Ret false
            else if (state_to_use m =? 0) && negb (view m).(v_has_been_checked) && d.(_fail_on_pending) then Ret false
            else if d.(_inherits_parent) then
              let! b := authorized m in
              if b then browse_dependencies authorized type l else Ret false
            else browse_dependencies authorized type l
        end
  end.

Fixpoint authorized_by_dependencies (fuel : nat) (type : dependency_type) (x : A) : res bool :=
  match fuel with
  | O => Throw fuel_exhausted
  | S fuel =>
      browse_dependencies (authorized_by_dependencies fuel type) type (filter (λ d, d.(dependent_ptr) = Some x) deps)
  end.
End Authorized.

(** *** Theorems *)

(** [d] leads to [d']: the master of [d] depends on another object by [d']. *)
Definition of_type (type : dependency_type) (i : nat) (d : dependency A) : Prop := deps !! i = Some d ∧ d.(_dependency_type) = type.
Definition followed (type : dependency_type) (d : dependency A) : Prop := type = execution_dependency ∨ d.(_inherits_parent) = true.
Definition leads (type : dependency_type) (i j : nat) : Prop :=
  ∃ d d', of_type type i d ∧ of_type type j d' ∧ followed type d ∧ d.(master_ptr) = d'.(dependent_ptr).

(** Another dependency that [i] leads to has the dependent object of [i] as its master. *)
Definition closes (i j : nat) : Prop := ∃ d d', deps !! i = Some d ∧ deps !! j = Some d' ∧ j ≠ i ∧ d.(dependent_ptr) = d'.(master_ptr).
Definition circular (type : dependency_type) (i : nat) : Prop := ∃ j, tc (leads type) i j ∧ closes i j.

(** What the search of [this] from [dep] does, when it is not known to be circular. *)
Record explored (type : dependency_type) (this dep : nat) (st st' : flags) : Prop := {
  ex_contains : st'.(contains) = st.(contains);
  ex_checked : st.(checked) ⊆ st'.(checked);
  ex_bound i : i ∈ st'.(checked) → i ∈ st.(checked) ∨ (i < length deps)%nat;
  ex_here d : of_type type dep d → dep ∈ st'.(checked);
  ex_closed i : i ∈ st'.(checked) → i ∈ st.(checked) ∨ (¬ closes this i ∧ ∀ j, leads type i j → j ∈ st'.(checked));
}.

Definition unchecked (st : flags) : list nat := filter (λ i, i ∉ st.(checked)) (seq 0 (length deps)).

Lemma unchecked_le st st' : st.(checked) ⊆ st'.(checked) → (length (unchecked st') ≤ length (unchecked st))%nat.
Proof. intros H. apply filter_length_le. intros x Hx Hin. by apply Hx, H. Qed.

Section Path.
Context (type : dependency_type) (this : nat) (t : dependency A).
Context (Ht : of_type type this t).

(** A search that returns: nothing is found and what was seen is closed, or a dependency
    that closes the loop is reached. *)
Definition outcome (dep : nat) (st : flags) (r : res (bool * flags)) : Prop :=
  (∃ st', r = Ret (false, st') ∧ explored type this dep st st') ∨
  (∃ st' j d, r = Ret (true, st') ∧ of_type type dep d ∧ rtc (leads type) dep j ∧ closes this j).

Lemma check_parents_spec path dep d : of_type type dep d → followed type d → ∀ l st, (∀ i, i ∈ l → (i < length deps)%nat) →
  this ∉ st.(contains) →
  (∀ i st', (i < length deps)%nat → st.(checked) ⊆ st'.(checked) → this ∉ st'.(contains) → outcome i st' (path i st')) →
  (∃ st', check_parents path d l st = Ret (false, st') ∧ st'.(contains) = st.(contains) ∧ st.(checked) ⊆ st'.(checked) ∧
     (∀ i, i ∈ st'.(checked) → i ∈ st.(checked) ∨ (i < length deps)%nat) ∧
     (∀ i, i ∈ st'.(checked) → i ∈ st.(checked) ∨ (¬ closes this i ∧ ∀ j, leads type i j → j ∈ st'.(checked))) ∧
     (∀ j, j ∈ l → leads type dep j → j ∈ st'.(checked))) ∨
  (∃ st' j, check_parents path d l st = Ret (true, st') ∧ rtc (leads type) dep j ∧ closes this j).
Proof.
  intros Hd Hfol. induction l as [|i l IH]; intros st Hl Hn Hpath.
  { left. exists st. split_and!; [done..|by left|by left|]. intros j Hj. by apply not_elem_of_nil in Hj. }
  cbn [check_parents]. assert (i < length deps)%nat as Hi by (apply Hl; left). destruct (lookup_lt_is_Some_2 deps i Hi) as [p Hp]. rewrite Hp.
  case_bool_decide as Hm.
  - destruct (Hpath i st Hi (reflexivity _) Hn) as [(st1 & -> & [E1 E2 E3 E4 E5])|(st1 & j & p' & -> & [Hp' Hty] & Hj & Hc)]; cbn [fst snd].
    + destruct (IH st1) as [(st' & -> & F1 & F2 & F3 & F4 & F5)|(st' & j & -> & Hj & Hc)].
      * intros x Hx. apply Hl. by right.
      * by rewrite E1.
      * intros x st' Hx Hsub. apply Hpath; [done|by etransitivity].
      * left. exists st'. split_and!; [done|congruence|by etransitivity|..].
        { intros x [Hx|Hx]%F3; [by apply E3|by right]. }
        { intros x [Hx|Hx]%F4; [|by right]. apply E5 in Hx as [Hx|[Hx1 Hx2]]; [by left|right]. split; [done|]. intros j Hj. by apply F2, Hx2. }
        { intros j [->|Hj]%elem_of_cons Hlead; [|by apply F5]. apply F2. destruct Hlead as (x & y & _ & Hy & _). by eapply E4. }
      * right. by exists st', j.
    + right. exists st1, j. split; [done|]. split; [|done]. eapply rtc_l; [|exact Hj]. exists d, p'. split_and!; [done..|congruence].
  - destruct (IH st) as [(st' & -> & F1 & F2 & F3 & F4 & F5)|(st' & j & -> & Hj & Hc)]; [|done|done| |].
    + intros x Hx. apply Hl. by right.
    + left. exists st'. split_and!; try done. intros j [->|Hj]%elem_of_cons Hlead; [|by apply F5].
      destruct Hlead as (x & y & [Hx _] & [Hy _] & _ & Heq). destruct Hd as [Hd _]. congruence.
    + right. by exists st', j.
Qed.

Lemma explored_here dep d st : of_type type dep d → dep ∉ st.(checked) → ¬ closes this dep →
  (∀ j, leads type dep j → j ∈ dep :: st.(checked)) → explored type this dep st (Flags (dep :: st.(checked)) st.(contains)).
Proof.
  intros [Hd Hty] Hn Hc Hlead. split; cbn [checked contains].
  - done.
  - by apply list_subseteq_cons.
  - intros i [->|Hi]%elem_of_cons; [right|by left]. by eapply lookup_lt_Some.
  - intros _ _. left.
  - intros i [->|Hi]%elem_of_cons; [by right|by left].
Qed.

Lemma check_path_spec : ∀ fuel dep st, (dep < length deps)%nat → this ∉ st.(contains) → (length (unchecked st) < fuel)%nat →
  outcome dep st (check_for_circular_path fuel type this dep st).
Proof using Ht.
  induction fuel as [|fuel IH]; intros dep st Hdep Hn Hf; [lia|]. cbn [check_for_circular_path].
  destruct Ht as [Hthis Htype]. rewrite Hthis. destruct (lookup_lt_is_Some_2 deps dep Hdep) as [d Hd]. rewrite Hd.
  rewrite bool_decide_true by done. cbn [negb orb]. case_bool_decide as Hty; cbn [negb]; cycle 1.
  { left. exists st. split; [done|]. split; [done|done|by left|intros d' [Hd' Hty']; congruence|by left]. }
  assert (of_type type dep d) as Hof by done. rewrite bool_decide_false by done.
  case_bool_decide as Hchk.
  { left. exists st. split; [done|]. split; [done|done|by left|done|by left]. }
  destruct (negb (bool_decide (dep = this)) && bool_decide (dependent_ptr t = master_ptr d)) eqn:Hclose.
  { right. apply andb_true_iff in Hclose as [Hne%negb_true_iff%bool_decide_eq_false Heq%bool_decide_eq_true].
    eexists _, dep, d. split; [done|]. split; [done|]. split; [done|]. by exists t, d. }
  assert (¬ closes this dep) as Hnc.
  { intros (t' & d' & Ht' & Hd' & Hne & Heq). simplify_eq. rewrite bool_decide_false, bool_decide_true in Hclose by done. done. }
  destruct (bool_decide (type = notification_dependency) && negb (_inherits_parent d)) eqn:Hstop.
  { left. eexists. split; [done|]. apply (explored_here dep d); [done..|]. intros j (x & y & [Hx _] & _ & Hfol & _).
    exfalso. apply andb_true_iff in Hstop as [H1%bool_decide_eq_true H2%negb_true_iff]. destruct Hfol; congruence. }
  assert (followed type d) as Hfol.
  { unfold followed. destruct type; [right|by left]. cbn in Hstop. by destruct (_inherits_parent d). }
  set (st1 := Flags (dep :: checked st) (contains st)).
  destruct (check_parents_spec (check_for_circular_path fuel type this) dep d Hof Hfol (seq 0 (length deps)) st1) as
    [(st' & -> & F1 & F2 & F3 & F4 & F5)|(st' & j & -> & Hj & Hc)].
  - intros i Hi. apply elem_of_seq in Hi. lia.
  - done.
  - intros i st' Hi Hsub Hn'. apply IH; [done..|]. pose proof (unchecked_le st1 st' Hsub).
    assert (length (unchecked st1) < length (unchecked st))%nat; [|lia]. apply filter_length_lt with (y := dep).
    + intros x Hx Hin. apply Hx. by right.
    + apply elem_of_seq. lia.
    + done.
    + intros Hx. apply Hx. left.
  - left. exists st'. split; [done|]. split.
    + done.
    + etransitivity; [|exact F2]. by apply list_subseteq_cons.
    + intros i [[->|Hi]%elem_of_cons|Hi]%F3; [by right|by left|by right].
    + intros _ _. apply F2. left.
    + intros i Hi. destruct (F4 i Hi) as [[->|Hi']%elem_of_cons|Hi']; [|by left|by right]. right. split; [done|].
      intros j Hlead. apply F5; [|done]. destruct Hlead as (x & y & _ & [Hy _] & _). apply elem_of_seq. apply lookup_lt_Some in Hy. lia.
  - right. by exists st', j, d.
Qed.
End Path.

Lemma flags_empty_unchecked c : (length (unchecked (Flags [] c)) ≤ length deps)%nat.
Proof. unfold unchecked. etransitivity; [apply length_filter|]. by rewrite length_seq. Qed.

(** The search from a dependency, with the flags cleared. *)
Lemma check_root type i fuel c : (i < length deps)%nat → i ∉ c → (length deps < fuel)%nat →
  (∃ st', check_for_circular_path fuel type i i (Flags [] c) = Ret (false, st') ∧ st'.(contains) = c ∧ ¬ circular type i) ∨
  (∃ st', check_for_circular_path fuel type i i (Flags [] c) = Ret (true, st') ∧ circular type i).
Proof.
  intros Hi Hn Hf. destruct (lookup_lt_is_Some_2 deps i Hi) as [t Ht]. destruct (decide (t.(_dependency_type) = type)) as [Hty|Hty]; cycle 1.
  { left. destruct fuel as [|fuel]; [lia|]. cbn [check_for_circular_path]. rewrite Ht, bool_decide_false by done. cbn. eexists. split; [done|].
    split; [done|]. intros (j & Htc & _). inversion Htc as [? ? (x & y & [Hx Hx'] & _)|? y' ? (x & y & [Hx Hx'] & _)]; congruence. }
  destruct (check_path_spec type i t (conj Ht Hty) fuel i (Flags [] c)) as [(st' & -> & [E1 E2 E3 E4 E5])|(st' & j & d & -> & Hd & Hj & Hc)].
  - done.
  - done.
  - pose proof (flags_empty_unchecked c). lia.
  - left. exists st'. split; [done|]. split; [done|]. intros (j & Htc & Hc).
    assert (∀ x, x ∈ st'.(checked) → ¬ closes i x ∧ ∀ y, leads type x y → y ∈ st'.(checked)) as Hclosed.
    { intros x Hx. destruct (E5 x Hx) as [Hx'|?]; [by apply not_elem_of_nil in Hx'|done]. }
    assert (i ∈ st'.(checked)) as Hin by (by eapply E4). clear -Htc Hc Hclosed Hin.
    assert (∀ x, tc (leads type) x j → x ∈ st'.(checked) → j ∈ st'.(checked)) as Hreach.
    { intros x Hx. induction Hx as [x y Hxy|x y z Hxy _ IH]; intros Hin'; [by eapply Hclosed|]. apply IH; [done..|]. by eapply Hclosed. }
    by eapply Hclosed, Hc; eapply Hreach.
  - right. exists st'. split; [done|]. exists j. split; [|done]. apply rtc_tc in Hj as [<-|?]; [|done].
    destruct Hc as (? & ? & _ & _ & Hne & _). done.
Qed.

Lemma count_circular_nonneg fuel type : ∀ l c n, count_circular fuel type l c = Ret n → 0 ≤ n.
Proof.
  induction l as [|i l IH]; intros c n Hn; cbn [count_circular] in Hn; [by simplify_eq|].
  destruct (check_for_circular_path _ _ _ _ _) as [[b st]|]; [|done]. destruct (count_circular fuel type l _) as [m|] eqn:Hm; [|done].
  apply IH in Hm. simplify_eq. cbn. destruct b; lia.
Qed.

(** Whatever is known, the search ends. *)
Lemma check_known type i fuel c : (i < length deps)%nat → (length deps < fuel)%nat →
  ∃ b st', check_for_circular_path fuel type i i (Flags [] c) = Ret (b, st').
Proof.
  intros Hi Hf. destruct (decide (i ∈ c)) as [Hin|Hn].
  - destruct (lookup_lt_is_Some_2 deps i Hi) as [t Ht]. destruct fuel as [|fuel]; [lia|]. cbn [check_for_circular_path]. rewrite Ht.
    destruct (_ || _); [by eauto|]. cbn [contains]. rewrite bool_decide_true by done. by eauto.
  - destruct (check_root type i fuel c Hi Hn Hf) as [(st' & -> & _)|(st' & -> & _)]; by eauto.
Qed.

Lemma count_circular_ends fuel type : (length deps < fuel)%nat → ∀ l c, (∀ i, i ∈ l → (i < length deps)%nat) →
  ∃ n, count_circular fuel type l c = Ret n.
Proof.
  intros Hf. induction l as [|i l IH]; intros c Hl; [by exists 0|]. cbn [count_circular].
  destruct (check_known type i fuel c) as (b & st' & ->); [apply Hl; left|done|].
  destruct (IH (contains st')) as [n Hn]; [intros x Hx; apply Hl; by right|]. cbn. rewrite Hn. by eauto.
Qed.

Lemma count_circular_spec fuel type : (length deps < fuel)%nat → ∀ l, (∀ i, i ∈ l → (i < length deps)%nat) →
  count_circular fuel type l [] = Ret 0 ↔ ∀ i, i ∈ l → ¬ circular type i.
Proof.
  intros Hf. induction l as [|i l IH]; intros Hl; [split; [intros _ i Hi; by apply not_elem_of_nil in Hi|done]|]. cbn [count_circular].
  assert (∀ x, x ∈ l → (x < length deps)%nat) as Hl' by (intros x Hx; apply Hl; by right).
  destruct (check_root type i fuel []) as [(st' & -> & Hc & Hn)|(st' & -> & Hcirc)]; [apply Hl; left|apply not_elem_of_nil|done|..]; cbn [fst snd].
  - rewrite Hc. specialize (IH Hl'). split.
    + destruct (count_circular fuel type l []) as [n|] eqn:Hcount; [|done]. intros Heq. rewrite Z.add_0_r in Heq. simplify_eq.
      intros x [->|Hx]%elem_of_cons; [done|]. by apply IH.
    + intros Hall. assert (count_circular fuel type l [] = Ret 0) as -> by (apply IH; intros x Hx; apply Hall; by right). done.
  - split; [|intros Hall; exfalso; by apply (Hall i); [left|]]. destruct (count_circular fuel type l (contains st')) as [n|] eqn:Hcount; [|done].
    intros Heq. apply count_circular_nonneg in Hcount. simplify_eq. lia.
Qed.

(** The search of loops among the dependencies of one type ends, and it reports no error
    exactly when no dependency leads back to its own dependent object. *)
Theorem circular_dependencies_exact fuel type : (length deps < fuel)%nat →
  ∃ n, circular_dependencies fuel type = Ret n ∧ (n = 0 ↔ ∀ i, ¬ circular type i).
Proof.
  intros Hf. unfold circular_dependencies. assert (∀ i, i ∈ seq 0 (length deps) → (i < length deps)%nat) as Hseq.
  { intros i Hi. apply elem_of_seq in Hi. lia. }
  destruct (count_circular_ends fuel type Hf (seq 0 (length deps)) [] Hseq) as [n Hn]. exists n. split; [done|].
  pose proof (count_circular_spec fuel type Hf _ Hseq) as Hspec. rewrite Hn in Hspec. split.
  - intros -> i Hc. destruct (decide (i < length deps)%nat) as [Hi|Hi].
    + by apply (proj1 Hspec eq_refl i); [apply elem_of_seq; lia|].
    + destruct Hc as (j & _ & d & d' & Hd & _). apply lookup_lt_Some in Hd. lia.
  - intros Hall. assert (Ret n = Ret 0) as [= ->]; [|done]. apply Hspec. intros i _. apply Hall.
Qed.

(** *** Authorization *)

Section AuthorizedFacts.
Context (soft_state_dependencies : bool) (view : A → object_view) (type : dependency_type).

(** The master of [d] is in a state that [d] fails on. *)
Definition fails (d : dependency A) (m : A) : bool :=
  d.(get_fail_on) (state_to_use soft_state_dependencies view m) ||
  ((state_to_use soft_state_dependencies view m =? 0) && negb (view m).(v_has_been_checked) && d.(_fail_on_pending)).

Definition depends (x : A) (d : dependency A) (m : A) : Prop :=
  d ∈ deps ∧ d.(dependent_ptr) = Some x ∧ d.(_dependency_type) = type ∧ d.(master_ptr) = Some m.

(** A dependency fails, of the object or, where it inherits them, of its master. *)
Inductive blocked : A → Prop :=
  | blocked_here x d m : depends x d m → fails d m = true → blocked x
  | blocked_above x d m : depends x d m → d.(_inherits_parent) = true → blocked m → blocked x.

(** One dependency of the loop, in its period. *)
Lemma browse_dependency authorized d l : d.(in_dependency_period) = true →
  browse_dependencies soft_state_dependencies view authorized type (d :: l) =
    let rest := browse_dependencies soft_state_dependencies view authorized type l in
    if negb (bool_decide (d.(_dependency_type) = type)) then rest
    else match d.(master_ptr) with
         | None => rest
         | Some m =>
             if fails d m then Ret false
             else if d.(_inherits_parent) then let! b := authorized m in if b then rest else Ret false
             else rest
         end.
Proof.
  intros Hp. cbn [browse_dependencies]. destruct (negb _); [done|]. destruct (master_ptr d) as [m|]; [|done]. rewrite Hp. cbn [negb].
  unfold fails. by destruct (get_fail_on d _), (_ && _ && _).
Qed.

Lemma browse_spec authorized x : (∀ m (b : bool), authorized m = Ret b → if b then ¬ blocked m else blocked m) → ∀ l (b : bool),
  (∀ d, d ∈ l → d ∈ deps ∧ d.(dependent_ptr) = Some x ∧ d.(in_dependency_period) = true) →
  browse_dependencies soft_state_dependencies view authorized type l = Ret b →
  if b then ∀ d m, d ∈ l → depends x d m → fails d m = false ∧ (d.(_inherits_parent) = true → ¬ blocked m) else blocked x.
Proof.
  intros Hauth. induction l as [|d l IH]; intros b Hl Hret.
  { cbn in Hret. simplify_eq. intros d m Hd. by apply not_elem_of_nil in Hd. }
  destruct (Hl d (list_elem_of_here _ _)) as (Hd & Hdep & Hper). rewrite browse_dependency in Hret by done. cbv zeta in Hret.
  assert (∀ d', d' ∈ l → d' ∈ deps ∧ d'.(dependent_ptr) = Some x ∧ d'.(in_dependency_period) = true) as Hl' by (intros d' Hd'; apply Hl; by right).
  assert (∀ b : bool, browse_dependencies soft_state_dependencies view authorized type l = Ret b →
            (∀ m, depends x d m → fails d m = false ∧ (d.(_inherits_parent) = true → ¬ blocked m)) →
            if b then ∀ d' m, d' ∈ d :: l → depends x d' m → fails d' m = false ∧ (d'.(_inherits_parent) = true → ¬ blocked m) else blocked x) as Hrest.
  { intros b' Hb' Hhere. specialize (IH b' Hl' Hb'). destruct b'; [|done]. intros d' m [->|Hd']%elem_of_cons; [by apply Hhere|by apply IH]. }
  destruct (bool_decide (_dependency_type d = type)) eqn:Hty; cbn [negb] in Hret; cycle 1.
  { apply bool_decide_eq_false in Hty. apply (Hrest b Hret). by intros m (_ & _ & ? & _). }
  apply bool_decide_eq_true in Hty. destruct (master_ptr d) as [m|] eqn:Hm; [|apply (Hrest b Hret); intros m (_ & _ & _ & ?); congruence].
  assert (depends x d m) as Hdm by done. destruct (fails d m) eqn:Hfail; [simplify_eq; by eapply blocked_here|].
  destruct (_inherits_parent d) eqn:Hinh.
  - destruct (authorized m) as [b'|] eqn:Hb'; [|done]. apply Hauth in Hb'. destruct b'; [|simplify_eq; by eapply blocked_above].
    apply (Hrest b Hret). intros m' (_ & _ & _ & ?). assert (m' = m) as -> by congruence. done.
  - apply (Hrest b Hret). intros m' (_ & _ & _ & ?). assert (m' = m) as -> by congruence. split; [done|congruence].
Qed.

Lemma authorized_sound : (∀ d, d ∈ deps → d.(in_dependency_period) = true) → ∀ fuel x (b : bool),
  authorized_by_dependencies soft_state_dependencies view fuel type x = Ret b → if b then ¬ blocked x else blocked x.
Proof.
  intros Hper. induction fuel as [|fuel IH]; intros x b Hret; [done|]. cbn [authorized_by_dependencies] in Hret.
  apply (browse_spec _ x) in Hret; [|intros m b'; apply IH|].
  - destruct b; [|done]. intros Hb. destruct Hb as [x d m Hd Hf|x d m Hd Hi Hb].
    + destruct (Hret d m) as [? _]; [apply list_elem_of_filter; by destruct Hd as (? & ? & _)|done|congruence].
    + destruct (Hret d m) as [_ Hn]; [apply list_elem_of_filter; by destruct Hd as (? & ? & _)|done|by apply Hn].
  - intros d [Hx Hd]%list_elem_of_filter. auto.
Qed.

(** The recursion ends when no dependency is circular. *)
Section Ends.
Context (Hacyclic : ∀ i, ¬ circular type i) (Hresolved : ∀ d, d ∈ deps → d.(master_ptr) ≠ d.(dependent_ptr)).

(** The dependencies followed so far lead to one whose master is [x]. *)
Definition on_path (p : list nat) (x : A) : Prop :=
  NoDup p ∧ ∀ i, i ∈ p → ∃ j d, rtc (leads type) i j ∧ of_type type j d ∧ followed type d ∧ d.(master_ptr) = Some x.

Lemma on_path_length p x : on_path p x → (length p ≤ length deps)%nat.
Proof.
  intros [Hnd Hp]. rewrite <- (length_seq (length deps) 0). apply submseteq_length, NoDup_submseteq; [done|]. intros i Hi.
  destruct (Hp i Hi) as (j & d & Hrtc & [Hd _] & _). apply elem_of_seq. split; [lia|].
  assert (is_Some (deps !! i)) as [d' Hd']%lookup_lt_is_Some_1%lookup_lt_is_Some_2; [|by apply lookup_lt_Some in Hd'].
  inversion Hrtc as [|? y ? (x' & y' & [Hx' _] & _)]; subst; by eexists.
Qed.

Lemma on_path_cons p x k d m : on_path p x → deps !! k = Some d → depends x d m → followed type d → on_path (k :: p) m.
Proof using Hacyclic Hresolved.
  intros [Hnd Hp] Hk (Hin & Hdep & Hty & Hm) Hfol.
  assert (of_type type k d) as Hof by done.
  assert (∀ j d', of_type type j d' → followed type d' → d'.(master_ptr) = Some x → leads type j k) as Hlead.
  { intros j d' H1 H2 H3. exists d', d. split_and!; [done..|congruence]. }
  split.
  - apply NoDup_cons. split; [|done]. intros Hkp. destruct (Hp k Hkp) as (j & d' & Hrtc & Hj & Hfj & Hmj).
    apply rtc_tc in Hrtc as [<-|Htc].
    + destruct Hj as [Hj _]. apply (Hresolved d Hin). congruence.
    + destruct (decide (j = k)) as [->|Hne]; [destruct Hj as [Hj _]; apply (Hresolved d Hin); congruence|].
      apply (Hacyclic k). exists j. split; [done|]. destruct Hj as [Hj _]. exists d, d'. split_and!; [done..|congruence].
  - intros i [->|Hi]%elem_of_cons.
    + by exists k, d.
    + destruct (Hp i Hi) as (j & d' & Hrtc & Hj & Hfj & Hmj). exists k, d. split_and!; [|done..]. eapply rtc_r; [exact Hrtc|]. by eapply Hlead.
Qed.

Lemma browse_ends authorized x l : (∀ d, d ∈ l → d ∈ deps ∧ d.(dependent_ptr) = Some x) →
  (∀ d m, depends x d m → d.(_inherits_parent) = true → ∃ b, authorized m = Ret b) →
  ∃ b, browse_dependencies soft_state_dependencies view authorized type l = Ret b.
Proof.
  intros Hl Hauth. induction l as [|d l IH]; [by exists true|]. cbn [browse_dependencies].
  destruct IH as [b Hb]; [intros d' Hd'; apply Hl; by right|]. rewrite Hb. case_bool_decide as Hty; cbn [negb]; [|by eauto].
  destruct (master_ptr d) as [m|] eqn:Hm; [|by eauto]. destruct (in_dependency_period d); cbn [negb]; [|by eauto].
  destruct (get_fail_on d _); [by eauto|]. destruct (_ && _ && _); [by eauto|]. destruct (_inherits_parent d) eqn:Hi; [|by eauto].
  destruct (Hl d (list_elem_of_here _ _)) as [Hd Hdep]. destruct (Hauth d m) as [b' ->]; [done|done|]. destruct b'; by eauto.
Qed.

Lemma authorized_ends : ∀ fuel p x, on_path p x → (length deps < fuel + length p)%nat →
  ∃ b, authorized_by_dependencies soft_state_dependencies view fuel type x = Ret b.
Proof using Hacyclic Hresolved.
  induction fuel as [|fuel IH]; intros p x Hp Hf; [pose proof (on_path_length p x Hp); lia|]. cbn [authorized_by_dependencies].
  apply (browse_ends _ x); [intros d [Hx Hd]%list_elem_of_filter; done|]. intros d m Hdm Hi.
  destruct Hdm as (Hin & Hdep & Hty & Hm). apply list_elem_of_lookup in Hin as [k Hk].
  apply (IH (k :: p)); [|cbn; lia]. eapply on_path_cons; [done|exact Hk| |by right]. split_and!; [by eapply list_elem_of_lookup_2|done..].
Qed.
End Ends.

(** C25: when no dependency of a type is circular, the test of the dependencies of an object
    ends, and it holds exactly when none of them fails, nor any of those that are inherited
    from its masters. *)
Theorem authorized_exact fuel x : (∀ i, ¬ circular type i) → (∀ d, d ∈ deps → d.(master_ptr) ≠ d.(dependent_ptr)) →
  (∀ d, d ∈ deps → d.(in_dependency_period) = true) → (length deps < fuel)%nat →
  ∃ b, authorized_by_dependencies soft_state_dependencies view fuel type x = Ret b ∧ (b = true ↔ ¬ blocked x).
Proof.
  intros Hac Hres Hper Hf. destruct (authorized_ends Hac Hres fuel [] x) as [b Hb].
  - split; [constructor|]. intros i Hi. by apply not_elem_of_nil in Hi.
  - cbn. lia.
  - exists b. split; [done|]. apply (authorized_sound Hper) in Hb. destruct b; [done|]. split; [done|]. intros Hn. by destruct Hn.
Qed.
End AuthorizedFacts.
End Dependencies.

(** ** The check of a configuration *)

(** [pre_flight_circular_check]: the number of errors; the result is [OK] when it is 0.  The
    flags of the dependencies of one type are not looked at for the other type. *)
Definition pre_flight_circular_check (fuel : nat) (verify_circular_paths : bool) (hosts : list string)
    (child_hosts : string → list string) (services : list (dependency (string * string))) (hostdeps : list (dependency string)) : res Z :=
  if negb verify_circular_paths then Ret 0
  else
    let! loop := circular_hosts hosts child_hosts fuel in
    let! se := circular_dependencies services fuel execution_dependency in
    let! sn := circular_dependencies services fuel notification_dependency in
    let! he := circular_dependencies hostdeps fuel execution_dependency in
    let! hn := circular_dependencies hostdeps fuel notification_dependency in
    Ret ((if loop : bool then 1 else 0) + se + sn + he + hn).

Lemma circular_dependencies_nonneg {A} `{!EqDecision A} (deps : list (dependency A)) fuel type n :
  circular_dependencies deps fuel type = Ret n → 0 ≤ n.
Proof. apply count_circular_nonneg. Qed.


(** A gateway with two hosts behind it; one of them depends on the other. *)
Definition sample_children (h : string) : list string := if String.eqb h "gateway" then ["a"; "b"]%string else [].
Definition sample_dependency (in_period : bool) : dependency string :=
  Dependency execution_dependency (Some "b"%string) (Some "a"%string) true (λ s, s =? 1) false in_period.


Example sample_has_no_loop :
  pre_flight_circular_check 4 true ["gateway"; "a"; "b"]%string sample_children [] [sample_dependency true] = Ret 0.
Proof. vm_compute. done. Qed.

Example loop_is_found :
  pre_flight_circular_check 4 true ["a"; "b"]%string (λ h, if String.eqb h "a" then ["b"] else ["a"])%string [] [] = Ret 1.
Proof. vm_compute. done. Qed.

Definition down_view (_ : string) : object_view := ObjectView false 0 1 true.

Lemma sample_not_circular type i : ¬ circular [sample_dependency true] type i.
Proof.
  intros (j & _ & d & d' & Hd & Hd' & Hne & _). apply lookup_lt_Some in Hd, Hd'. cbn in Hd, Hd'. lia.
Qed.

Lemma authorized_exact_witness :
  ∃ b, authorized_by_dependencies [sample_dependency true] false down_view 2 execution_dependency "b"%string = Ret b ∧
    (b = true ↔ ¬ blocked [sample_dependency true] false down_view execution_dependency "b"%string).
Proof.
  apply authorized_exact; [intros i; apply sample_not_circular| |..|cbn; lia]; intros d Hd%list_elem_of_singleton; subst d; done.
Defined.

(** A dependency outside of its period authorizes the object although another one fails. *)
Example outside_period_authorizes :
  authorized_by_dependencies [sample_dependency true] false down_view 2 execution_dependency "b"%string = Ret false ∧
  authorized_by_dependencies [sample_dependency false; sample_dependency true] false down_view 3 execution_dependency "b"%string = Ret true.
Proof. vm_compute. done. Qed.
