(* ===== verification/Downtimes.v ===== *)
(** * Scheduled downtimes

    [engine/src/downtimes]: the manager keeps the downtimes ordered by their start
    time; a downtime is scheduled, starts (at its time, when its host or service goes
    bad if it is flexible, or with the downtime that triggers it), ends, is cancelled
    or expires.  While it is in effect it counts in the downtime depth of its host or
    service, which silences the notifications.

    A downtime object is found by its identifier.  A host is the target [(h, None)] and
    a service [(h, Some s)]; the code of [host_downtime.cc] and [service_downtime.cc]
    is the same but for the names. *)

From S2P Require Import Prelude EventLoop.

(** ** Data *)

Definition target : Type := Z * option Z.

Record downtime := Downtime {
  d_target : target;
  _entry_time : Z;
  _author : string;
  _comment : string;
  _start_time : Z;
  _end_time : Z;
  _fixed : bool;
  _triggered_by : Z;
  _duration : Z;
  _downtime_id : Z;
  _in_effect : bool;
  _comment_id : Z;
  _start_flex_downtime : bool;
  _incremented_pending_downtime : bool;
}.

Definition set_in_effect (b : bool) (d : downtime) : downtime :=
  Downtime d.(d_target) d.(_entry_time) d.(_author) d.(_comment) d.(_start_time) d.(_end_time) d.(_fixed)
    d.(_triggered_by) d.(_duration) d.(_downtime_id) b d.(_comment_id) d.(_start_flex_downtime)
    d.(_incremented_pending_downtime).
Definition set_comment_id (c : Z) (d : downtime) : downtime :=
  Downtime d.(d_target) d.(_entry_time) d.(_author) d.(_comment) d.(_start_time) d.(_end_time) d.(_fixed)
    d.(_triggered_by) d.(_duration) d.(_downtime_id) d.(_in_effect) c d.(_start_flex_downtime)
    d.(_incremented_pending_downtime).
Definition start_flex_downtime (d : downtime) : downtime :=
  Downtime d.(d_target) d.(_entry_time) d.(_author) d.(_comment) d.(_start_time) d.(_end_time) d.(_fixed)
    d.(_triggered_by) d.(_duration) d.(_downtime_id) d.(_in_effect) d.(_comment_id) true
    d.(_incremented_pending_downtime).
Definition set_incremented (d : downtime) : downtime :=
  Downtime d.(d_target) d.(_entry_time) d.(_author) d.(_comment) d.(_start_time) d.(_end_time) d.(_fixed)
    d.(_triggered_by) d.(_duration) d.(_downtime_id) d.(_in_effect) d.(_comment_id) d.(_start_flex_downtime) true.

(** What downtimes use of a host or of a service: [get_current_state() == state_up]
    (or [state_ok]), the downtime depth and the number of flexible downtimes that
    wait; and its names. *)
Record monitored := Monitored {
  m_ok : bool;
  _scheduled_downtime_depth : Z;
  _pending_flex_downtime : Z;
  m_hostname : string;
  m_description : string;
}.

Definition set_depth (n : Z) (o : monitored) : monitored :=
  Monitored o.(m_ok) n o.(_pending_flex_downtime) o.(m_hostname) o.(m_description).
Definition set_pending (n : Z) (o : monitored) : monitored :=
  Monitored o.(m_ok) o.(_scheduled_downtime_depth) n o.(m_hostname) o.(m_description).
Definition set_ok (b : bool) (o : monitored) : monitored :=
  Monitored b o.(_scheduled_downtime_depth) o.(_pending_flex_downtime) o.(m_hostname) o.(m_description).

Inductive broker_type := DOWNTIME_ADD | DOWNTIME_DELETE | DOWNTIME_LOAD | DOWNTIME_START | DOWNTIME_STOP (cancelled : bool).
Inductive notif_reason := downtimestart | downtimeend | downtimecancelled.

Inductive dt_output :=
  | Broker (t : broker_type) (id : Z)
  | Notify (t : target) (r : notif_reason) (author message : string)
  | Status (t : target).

Record manager := Manager {
  _scheduled_downtimes : list downtime;
  _next_id : Z;
  objects : gmap target monitored;
  m_loop : loop;
  comments : gset Z;
  _next_comment_id : Z;
  (** the next address of the heap *)
  heap : Z;
  sent : list dt_output;
}.

Definition set_dts (l : list downtime) (m : manager) : manager :=
  Manager l m.(_next_id) m.(objects) m.(m_loop) m.(comments) m.(_next_comment_id) m.(heap) m.(sent).
Definition set_next_id (n : Z) (m : manager) : manager :=
  Manager m.(_scheduled_downtimes) n m.(objects) m.(m_loop) m.(comments) m.(_next_comment_id) m.(heap) m.(sent).
Definition set_objects (g : gmap target monitored) (m : manager) : manager :=
  Manager m.(_scheduled_downtimes) m.(_next_id) g m.(m_loop) m.(comments) m.(_next_comment_id) m.(heap) m.(sent).
Definition set_loop (l : loop) (m : manager) : manager :=
  Manager m.(_scheduled_downtimes) m.(_next_id) m.(objects) l m.(comments) m.(_next_comment_id) m.(heap) m.(sent).
Definition set_comments (c : gset Z) (n : Z) (m : manager) : manager :=
  Manager m.(_scheduled_downtimes) m.(_next_id) m.(objects) m.(m_loop) c n m.(heap) m.(sent).
Definition set_heap (n : Z) (m : manager) : manager :=
  Manager m.(_scheduled_downtimes) m.(_next_id) m.(objects) m.(m_loop) m.(comments) m.(_next_comment_id) n m.(sent).
Definition send (o : dt_output) (m : manager) : manager :=
  Manager m.(_scheduled_downtimes) m.(_next_id) m.(objects) m.(m_loop) m.(comments) m.(_next_comment_id) m.(heap)
    (m.(sent) ++ [o]).

(** ** The list of downtimes *)

(** The insertion in a [std::multimap]: after those with the same start time. *)
Fixpoint multimap_insert (d : downtime) (l : list downtime) : list downtime :=
  match l with
  | [] => [d]
  | x :: l' => if d.(_start_time) <? x.(_start_time) then d :: l else x :: multimap_insert d l'
  end.

(** [downtime_manager::find_downtime] with [any_downtime]. *)
Definition find_downtime (id : Z) (m : manager) : option downtime :=
  snd <$> list_find (λ d, d.(_downtime_id) = id) m.(_scheduled_downtimes).

(** The object with this identifier changes. *)
Definition update_downtime (id : Z) (f : downtime → downtime) (m : manager) : manager :=
  set_dts ((λ d, if d.(_downtime_id) =? id then f d else d) <$> m.(_scheduled_downtimes)) m.

Definition update_object (t : target) (f : monitored → monitored) (m : manager) : manager :=
  set_objects (alter f t m.(objects)) m.

Fixpoint remove_id (id : Z) (l : list downtime) : list downtime :=
  match l with
  | [] => []
  | d :: l' => if d.(_downtime_id) =? id then l' else d :: remove_id id l'
  end.

(** The destructors [~host_downtime] and [~service_downtime]. *)
Definition destroy (d : downtime) (m : manager) : manager :=
  send (Broker DOWNTIME_DELETE d.(_downtime_id))
    (set_comments (m.(comments) ∖ {[ d.(_comment_id) ]}) m.(_next_comment_id) m).

(** [downtime_manager::delete_downtime] *)
Definition delete_downtime (id : Z) (m : manager) : manager :=
  match find_downtime id m with
  | None => m
  | Some d => destroy d (set_dts (remove_id id m.(_scheduled_downtimes)) m)
  end.

(** [downtime_manager::add_downtime] *)
Definition add_downtime (d : downtime) (m : manager) : manager :=
  set_dts (multimap_insert d m.(_scheduled_downtimes)) m.

(** [get_end_time() + 1], or the greatest time. *)
Definition after_end (d : downtime) : Z := if d.(_end_time) =? i64_max then d.(_end_time) else d.(_end_time) + 1.

(** The events of downtimes. *)
Definition schedule_expiry (d : downtime) (m : manager) : manager :=
  set_loop (schedule (TimedEvent EVENT_EXPIRE_DOWNTIME (after_end d) false 0 false None (object 0) 0) true m.(m_loop)) m.

Definition schedule_handling (time : Z) (d : downtime) (m : manager) : manager :=
  set_heap (m.(heap) + 8)
    (set_loop (schedule (TimedEvent EVENT_SCHEDULED_DOWNTIME time false 0 false None (cell m.(heap) d.(_downtime_id)) 0)
                 true m.(m_loop)) m).

Definition depth_of (t : target) (m : manager) : Z :=
  match m.(objects) !! t with Some o => o.(_scheduled_downtime_depth) | None => 0 end.

Definition notify_if_out (t : target) (o : dt_output) (m : manager) : manager :=
  if depth_of t m =? 0 then send o m else m.

(** ** Start and stop: [host_downtime::handle], [service_downtime::handle] *)

(** A flexible downtime whose host or service is fine waits. *)
Definition wait_for_problem (d : downtime) (m : manager) : manager :=
  let m := update_object d.(d_target) (λ o, set_pending (o.(_pending_flex_downtime) + 1) o) m in
  schedule_expiry d (update_downtime d.(_downtime_id) set_incremented m).

Definition waits (o : monitored) (d : downtime) : bool :=
  negb d.(_fixed) && negb d.(_start_flex_downtime) && o.(m_ok).

(** The start, without the downtimes that it triggers. *)
Definition begin_downtime (now : Z) (d : downtime) (m : manager) : manager :=
  let t := d.(d_target) in
  let m := send (Broker DOWNTIME_START d.(_downtime_id)) m in
  let m := notify_if_out t (Notify t downtimestart d.(_author) d.(_comment)) m in
  let m := update_object t (λ o, set_depth (o.(_scheduled_downtime_depth) + 1) o) m in
  let m := update_downtime d.(_downtime_id) (set_in_effect true) m in
  let m := send (Status t) m in
  let event_time := if d.(_fixed) then after_end d else wrap_i64 (now + d.(_duration)) in
  schedule_handling event_time d m.

(** The stop, before the downtimes that it triggered. *)
Definition end_downtime (d : downtime) (m : manager) : manager :=
  let t := d.(d_target) in
  let m := send (Broker (DOWNTIME_STOP false) d.(_downtime_id)) m in
  let m := update_object t (λ o, set_depth (o.(_scheduled_downtime_depth) - 1) o) m in
  let m := notify_if_out t (Notify t downtimeend d.(_author) d.(_comment)) m in
  let m := send (Status t) m in
  if negb d.(_fixed) && d.(_incremented_pending_downtime) then
    update_object t (λ o, if 0 <? o.(_pending_flex_downtime) then set_pending (o.(_pending_flex_downtime) - 1) o else o) m
  else m.

(** The first downtime that [id] triggers. *)
Definition first_triggered (id : Z) (m : manager) : option Z :=
  (λ p, p.2.(_downtime_id)) <$> list_find (λ d, d.(_triggered_by) = id) m.(_scheduled_downtimes).

Definition triggered (id : Z) (m : manager) : list Z :=
  _downtime_id <$> filter (λ d, d.(_triggered_by) = id) m.(_scheduled_downtimes).

Definition handle_first (h : Z → manager → res manager) (id : Z) (m : manager) : res manager :=
  match first_triggered id m with Some c => h c m | None => Ret m end.

(** The loop that stops the downtimes triggered by [id]: two searches per turn. *)
Fixpoint stop_loop (n : nat) (h : Z → manager → res manager) (id : Z) (m : manager) : res manager :=
  match n with
  | O => Throw fuel_exhausted
  | S n =>
      match handle_first h id m with
      | Throw e => Throw e
      | Ret m =>
          match first_triggered id m with
          | None => Ret m
          | Some c => match h c m with Throw e => Throw e | Ret m => stop_loop n h id m end
          end
      end
  end.

(** The loop that starts them; a downtime that leaves the list while the loop is on it
    leaves the iterator invalid. *)
Fixpoint start_loop (h : Z → manager → res manager) (ids : list Z) (m : manager) : res manager :=
  match ids with
  | [] => Ret m
  | c :: ids =>
      match find_downtime c m with
      | None => start_loop h ids m
      | Some _ =>
          match h c m with
          | Throw e => Throw e
          | Ret m => match find_downtime c m with None => Throw undefined | Some _ => start_loop h ids m end
          end
      end
  end.

Fixpoint handle (fuel : nat) (now : Z) (id : Z) (m : manager) : res manager :=
  match fuel with
  | O => Throw fuel_exhausted
  | S fuel =>
      match find_downtime id m with
      | None => Ret m
      | Some d =>
          match m.(objects) !! d.(d_target) with
          | None => Ret m
          | Some o =>
              if waits o d then Ret (wait_for_problem d m)
              else if d.(_in_effect) then
                match stop_loop fuel (handle fuel now) id (end_downtime d m) with
                | Throw e => Throw e
                | Ret m => Ret (delete_downtime id m)
                end
              else
                let m := begin_downtime now d m in
                start_loop (handle fuel now) (triggered id m) m
          end
      end
  end.

(** ** The other operations of the manager *)

(** [handle_scheduled_downtime_by_id] *)
Definition handle_scheduled_downtime_by_id (fuel : nat) (now id : Z) (m : manager) : res manager :=
  match find_downtime id m with None => Ret m | Some _ => handle fuel now id m end.

(** The loops of [check_pending_flex_host_downtime] and
    [check_pending_flex_service_downtime]. *)
Fixpoint flex_loop (fuel : nat) (now : Z) (t : target) (ids : list Z) (m : manager) : res manager :=
  match ids with
  | [] => Ret m
  | id :: ids =>
      match find_downtime id m with
      | None => flex_loop fuel now t ids m
      | Some d =>
          if negb (bool_decide (d.(d_target) = t)) || d.(_fixed) || d.(_in_effect) || negb (d.(_triggered_by) =? 0)
          then flex_loop fuel now t ids m
          else if (d.(_start_time) <=? now) && (now <=? d.(_end_time)) then
            match handle fuel now id (update_downtime id start_flex_downtime m) with
            | Throw e => Throw e
            | Ret m => match find_downtime id m with None => Throw undefined | Some _ => flex_loop fuel now t ids m end
            end
          else flex_loop fuel now t ids m
      end
  end.

Definition check_pending_flex_downtime (fuel : nat) (now : Z) (t : target) (m : manager) : res manager :=
  match m.(objects) !! t with
  | None => Ret m
  | Some o => if o.(m_ok) then Ret m else flex_loop fuel now t (_downtime_id <$> m.(_scheduled_downtimes)) m
  end.

(** [host_downtime::unschedule], [service_downtime::unschedule]; [None] is [ERROR]. *)
Definition unschedule (d : downtime) (m : manager) : option manager :=
  match m.(objects) !! d.(d_target) with
  | None => None
  | Some _ =>
      let t := d.(d_target) in
      let m :=
        if negb d.(_fixed) && d.(_incremented_pending_downtime)
        then update_object t (λ o, set_pending (o.(_pending_flex_downtime) - 1) o) m else m in
      Some
        (if d.(_in_effect) then
           let m := send (Broker (DOWNTIME_STOP true) d.(_downtime_id)) m in
           let m := update_object t (λ o, set_depth (o.(_scheduled_downtime_depth) - 1) o) m in
           let m := send (Status t) m in
           notify_if_out t (Notify t downtimecancelled "" "") m
         else m)
  end.

(** [downtime_manager::unschedule_downtime]; the second part of the result is false for
    [ERROR]. *)
Fixpoint unschedule_downtime (fuel : nat) (id : Z) (m : manager) : res (manager * bool) :=
  match fuel with
  | O => Throw fuel_exhausted
  | S fuel =>
      match find_downtime id m with
      | None => Ret (m, false)
      | Some d =>
          match unschedule d m with
          | None => Ret (m, false)
          | Some m =>
              let m := set_loop (remove_downtime id m.(m_loop)) m in
              let m := destroy d (set_dts (remove_id id m.(_scheduled_downtimes)) m) in
              (fix each (ids : list Z) (m : manager) : res (manager * bool) :=
                 match ids with
                 | [] => Ret (m, true)
                 | c :: ids =>
                     match unschedule_downtime fuel c m with
                     | Throw e => Throw e
                     | Ret (m, _) => each ids m
                     end
                 end) (triggered id m) m
          end
      end
  end.

(** [downtime_manager::check_for_expired_downtime] *)
Definition check_for_expired_downtime (now : Z) (m : manager) : manager :=
  foldl (λ m d, if negb d.(_in_effect) && (d.(_end_time) <? now) then delete_downtime d.(_downtime_id) m else m)
    m m.(_scheduled_downtimes).

(** [delete_downtime_by_hostname_service_description_start_time_comment]: the downtimes
    it selects. *)
Definition selected (hostname description : string) (start : option Z) (comment : string) (m : manager)
    (d : downtime) : bool :=
  let names :=
    match m.(objects) !! d.(d_target) with Some o => (o.(m_hostname), o.(m_description)) | None => ("", "") end in
  match start with Some t => d.(_start_time) =? t | None => true end &&
  (bool_decide (comment = "") || bool_decide (d.(_comment) = comment)) &&
  (bool_decide (hostname = "") || bool_decide (names.1 = hostname)) &&
  match d.(d_target).2 with
  | None => bool_decide (description = "")
  | Some _ => bool_decide (names.2 = description)
  end.

Definition delete_downtime_by (fuel : nat) (hostname description : string) (start : option Z) (comment : string)
    (m : manager) : res (manager * Z) :=
  if bool_decide (hostname = "") && bool_decide (description = "") && bool_decide (start = None) &&
     bool_decide (comment = "")
  then Ret (m, 0)
  else
    let ids := _downtime_id <$> filter (λ d, selected hostname description start comment m d = true)
      m.(_scheduled_downtimes) in
    (fix each (ids' : list Z) (m : manager) : res (manager * Z) :=
       match ids' with
       | [] => Ret (m, Z.of_nat (length ids))
       | c :: ids' =>
           match unschedule_downtime fuel c m with Throw e => Throw e | Ret (m, _) => each ids' m end
       end) ids m.

(** [downtime_manager::get_next_downtime_id] *)
Definition get_next_downtime_id (m : manager) : Z * manager :=
  let n :=
    if m.(_next_id) =? 0
    then foldl (λ n d, if n <=? d.(_downtime_id) then d.(_downtime_id) else n) 0 m.(_scheduled_downtimes)
    else m.(_next_id) in
  let n := wrap_u64 (n + 1) in
  (n, set_next_id n m).

(** The constructor of [downtime]: one that is triggered needs its parent. *)
Definition new_downtime (t : target) (entry : Z) (author comment : string) (start end_ : Z) (fixed : bool)
    (triggered_by duration id : Z) (m : manager) : res downtime :=
  if (0 <? triggered_by) && negb (bool_decide (is_Some (find_downtime triggered_by m))) then Throw msg_fmt
  else Ret (Downtime t entry author comment start end_ fixed triggered_by (wrap_i32 duration) id false 0 false false).

(** [comment::comment]: the number of the next comment is the first free one. *)
Fixpoint first_free (n : nat) (used : gset Z) (i : Z) : Z :=
  match n with
  | O => i
  | S n => if decide (i ∈ used) then first_free n used (i + 1) else i
  end.

Definition add_comment (m : manager) : Z * manager :=
  let id := m.(_next_comment_id) in
  let next := first_free (size m.(comments) + 2) (m.(comments) ∪ {[ id ]}) 1 in
  (id, set_comments (m.(comments) ∪ {[ id ]}) next m).

(** [subscribe], called by [downtime_manager::register_downtime]. *)
Definition register_downtime (id : Z) (m : manager) : manager :=
  match find_downtime id m with
  | None => m
  | Some d =>
      match m.(objects) !! d.(d_target) with
      | None => m
      | Some _ =>
          let '(c, m) := add_comment m in
          let m := update_downtime id (set_comment_id c) m in
          if d.(_triggered_by) =? 0 then schedule_handling d.(_start_time) d m else m
      end
  end.

(** [add_new_host_downtime], [add_new_service_downtime] *)
Definition add_new_downtime (t : target) (entry : Z) (author comment : string) (start end_ : Z) (fixed : bool)
    (triggered_by duration : Z) (m : manager) : res (Z * manager) :=
  match m.(objects) !! t with
  | None => Throw msg_fmt
  | Some _ =>
      let '(id, m) := get_next_downtime_id m in
      match new_downtime t entry author comment start end_ fixed triggered_by duration id m with
      | Throw e => Throw e
      | Ret d => Ret (id, send (Broker DOWNTIME_ADD id) (send (Broker DOWNTIME_LOAD id) (add_downtime d m)))
      end
  end.

(** The first second of 2100, and 366 days. *)
Definition max_time : Z := 4102441200.
Definition max_duration : Z := 31622400.

(** [downtime_manager::schedule_downtime]; [anomalies] are the anomaly detections of a
    service, which get a downtime triggered by this one.  [None] is [ERROR]. *)
Fixpoint schedule_downtime (fuel : nat) (anomalies : Z → list target) (now : Z) (t : target) (entry : Z)
    (author comment : string) (start end_ : Z) (fixed : bool) (triggered_by duration : Z) (m : manager) :
    res (option Z * manager) :=
  match fuel with
  | O => Throw fuel_exhausted
  | S fuel =>
      if (end_ <=? start) || (end_ <=? now) then Ret (None, m)
      else
        let start := if max_time <? start then max_time else start in
        let end_ := if max_time <? end_ then max_time else end_ in
        let duration := if max_duration <? duration then max_duration else duration in
        match add_new_downtime t entry author comment start end_ fixed triggered_by duration m with
        | Throw e => Throw e
        | Ret (id, m) =>
            match
              (fix each (ts : list target) (m : manager) : res manager :=
                 match ts with
                 | [] => Ret m
                 | t :: ts =>
                     match schedule_downtime fuel anomalies now t entry author comment start end_ fixed id duration m with
                     | Throw e => Throw e
                     | Ret (_, m) => each ts m
                     end
                 end) (match t.2 with Some s => anomalies s | None => [] end) m
            with
            | Throw e => Throw e
            | Ret m => Ret (Some id, register_downtime id m)
            end
        end
  end.

(** [retention::applier::downtime]: a downtime read from the retention file.  The
    functions are [noexcept]: an exception ends the program. *)
Definition add_from_retention (t : target) (entry : Z) (author comment : string) (start end_ : Z) (fixed : bool)
    (triggered_by duration id : Z) (m : manager) : res manager :=
  match m.(objects) !! t with
  | None => Ret m
  | Some _ =>
      match new_downtime t entry author comment start end_ fixed triggered_by duration id m with
      | Throw e => Throw e
      | Ret d => Ret (register_downtime id (send (Broker DOWNTIME_LOAD id) (add_downtime d m)))
      end
  end.

(** [is_stale] *)
Definition is_stale (now : Z) (m : manager) (d : downtime) : bool :=
  match m.(objects) !! d.(d_target) with None => true | Some _ => d.(_end_time) <? now end.

(** Erasing from the list, with the destructor. *)
Definition erase (d : downtime) (m : manager) : manager :=
  destroy d (set_dts (remove_id d.(_downtime_id) m.(_scheduled_downtimes)) m).

(** [downtime_manager::xdddefault_validate_downtime_data] *)
Definition xdddefault_validate_downtime_data (now : Z) (m : manager) : manager :=
  let m := foldl (λ m d, if is_stale now m d then erase d m else m) m m.(_scheduled_downtimes) in
  foldl (λ m d, if negb (d.(_triggered_by) =? 0) && negb (bool_decide (is_Some (find_downtime d.(_triggered_by) m)))
                then erase d m else m) m m.(_scheduled_downtimes).

(** [downtime_manager::initialize_downtime_data] *)
Definition initialize_downtime_data (now : Z) (m : manager) : manager :=
  set_next_id 0 (xdddefault_validate_downtime_data now m).

(** A check result changes the state of a host or service; flexible downtimes may
    start. *)
Definition state_change (fuel : nat) (now : Z) (t : target) (ok : bool) (m : manager) : res manager :=
  check_pending_flex_downtime fuel now t (update_object t (set_ok ok) m).

(** The event of the loop is run. *)
Definition run_downtime_event (fuel : nat) (now : Z) (e : timed_event) (m : manager) : res manager :=
  match e.(event_type), e.(event_data) with
  | EVENT_SCHEDULED_DOWNTIME, cell _ id => handle_scheduled_downtime_by_id fuel now id m
  | EVENT_EXPIRE_DOWNTIME, _ => Ret (check_for_expired_downtime now m)
  | _, _ => Ret m
  end.
