(* ===== verification/DowntimeFacts.v ===== *)
(** * Scheduled downtimes: theorems

    The downtime depth of a host or service is the number of its downtimes in effect;
    handling a downtime ends, whatever it triggers, when triggered downtimes are fixed;
    a downtime that was scheduled, started and ended leaves nothing behind. *)

From S2P Require Import Prelude EventLoop Downtimes.

(** ** Lemmas: the list of downtimes *)

Definition ids (m : manager) : list Z := _downtime_id <$> m.(_scheduled_downtimes).

(** What does not change in a downtime. *)
Definition skel (d : downtime) : Z * Z * bool * target := (d.(_downtime_id), d.(_triggered_by), d.(_fixed), d.(d_target)).

Lemma find_downtime_split id m d :
  find_downtime id m = Some d →
  ∃ l1 l2, m.(_scheduled_downtimes) = l1 ++ d :: l2 ∧ d.(_downtime_id) = id ∧ id ∉ _downtime_id <$> l1.
Proof.
  unfold find_downtime. intros [[i d'] [Hf [= ->]]]%fmap_Some. apply list_find_Some in Hf as (Hl & Hid & Hb).
  exists (take i m.(_scheduled_downtimes)), (drop (S i) m.(_scheduled_downtimes)). split_and!; [|done|].
  - by rewrite take_drop_middle.
  - intros Hin. apply list_elem_of_fmap in Hin as (x & Hx & Hin). apply list_elem_of_lookup in Hin as [j Hj].
    apply lookup_take_Some in Hj as [Hj Hji]. by destruct (Hb j x Hj Hji).
Qed.

Lemma find_downtime_at id m l1 d l2 :
  m.(_scheduled_downtimes) = l1 ++ d :: l2 → d.(_downtime_id) = id → id ∉ _downtime_id <$> l1 →
  find_downtime id m = Some d.
Proof.
  intros Hl Hd H1. unfold find_downtime. rewrite Hl. apply fmap_Some. exists (length l1, d). split; [|done].
  apply list_find_Some. split_and!; [|done|].
  - by rewrite list_lookup_middle.
  - intros j x Hx Hj Hid. rewrite lookup_app_l in Hx by done. apply H1, list_elem_of_fmap. exists x.
    split; [done|]. by eapply list_elem_of_lookup_2.
Qed.

Lemma find_downtime_None id m : find_downtime id m = None ↔ id ∉ ids m.
Proof.
  unfold find_downtime, ids. rewrite fmap_None, list_find_None, Forall_forall, list_elem_of_fmap. naive_solver.
Qed.

Lemma find_downtime_Some id m : is_Some (find_downtime id m) ↔ id ∈ ids m.
Proof.
  destruct (decide (id ∈ ids m)) as [Hi|Hi].
  - split; [done|]. intros _. destruct (find_downtime id m) eqn:Hf; [done|]. by apply find_downtime_None in Hf.
  - split; [|done]. rewrite (proj2 (find_downtime_None id m) Hi). by intros [? ?].
Qed.

Lemma update_absent id (f : downtime → downtime) (l : list downtime) :
  id ∉ _downtime_id <$> l → (λ x, if x.(_downtime_id) =? id then f x else x) <$> l = l.
Proof.
  induction l as [|x l IH]; [done|]. cbn. rewrite not_elem_of_cons. intros [Hx Hl].
  rewrite IH by done. destruct (Z.eqb_spec (_downtime_id x) id); [congruence|done].
Qed.

Lemma update_split id f l1 d l2 :
  d.(_downtime_id) = id → id ∉ _downtime_id <$> l1 → id ∉ _downtime_id <$> l2 →
  (λ x, if x.(_downtime_id) =? id then f x else x) <$> (l1 ++ d :: l2) = l1 ++ f d :: l2.
Proof.
  intros Hd H1 H2. by rewrite fmap_app, fmap_cons, Hd, Z.eqb_refl, !update_absent.
Qed.

Lemma remove_split id l1 d l2 :
  d.(_downtime_id) = id → id ∉ _downtime_id <$> l1 → remove_id id (l1 ++ d :: l2) = l1 ++ l2.
Proof.
  intros Hd. induction l1 as [|x l1 IH]; cbn.
  - intros _. by rewrite Hd, Z.eqb_refl.
  - rewrite not_elem_of_cons. intros [Hx Hl]. destruct (Z.eqb_spec (_downtime_id x) id); [congruence|]. by rewrite IH.
Qed.

(** The number of downtimes in effect on a target, but for those in [G]. *)
Definition weight (G : gset Z) (t : target) (d : downtime) : Z :=
  if d.(_in_effect) && bool_decide (d.(d_target) = t) && bool_decide (d.(_downtime_id) ∉ G) then 1 else 0.

Lemma weight_in G t d : d.(_in_effect) = true → d.(d_target) = t → d.(_downtime_id) ∉ G → weight G t d = 1.
Proof. intros He Ht Hg. unfold weight. by rewrite He, !bool_decide_true. Qed.

Lemma weight_out G t d : d.(_in_effect) = false → weight G t d = 0.
Proof. intros He. unfold weight. by rewrite He. Qed.

Lemma weight_elsewhere G t d : d.(d_target) ≠ t → weight G t d = 0.
Proof. intros Ht. unfold weight. by rewrite (bool_decide_false (d_target d = t)), andb_false_r. Qed.

Lemma weight_stopped G t d : d.(_downtime_id) ∈ G → weight G t d = 0.
Proof. intros Hg. unfold weight. rewrite (bool_decide_false (_downtime_id d ∉ G)), andb_false_r by set_solver. done. Qed.

Fixpoint count (G : gset Z) (t : target) (l : list downtime) : Z :=
  match l with [] => 0 | d :: l => weight G t d + count G t l end.

Lemma count_app G t l1 l2 : count G t (l1 ++ l2) = count G t l1 + count G t l2.
Proof. induction l1 as [|d l1 IH]; cbn; [done|]. rewrite IH. lia. Qed.

Lemma count_cons G t d l : count G t (d :: l) = weight G t d + count G t l.
Proof. done. Qed.

Lemma weight_other G t d id : d.(_downtime_id) ≠ id → weight (G ∪ {[ id ]}) t d = weight G t d.
Proof. intros Hd. unfold weight. by rewrite (bool_decide_ext (_downtime_id d ∉ G ∪ {[ id ]}) (_downtime_id d ∉ G)) by set_solver. Qed.

Lemma count_other G t id l : id ∉ _downtime_id <$> l → count (G ∪ {[ id ]}) t l = count G t l.
Proof.
  induction l as [|d l IH]; cbn; [done|]. rewrite not_elem_of_cons. intros [Hd Hl]. rewrite IH, weight_other by done. done.
Qed.

(** ** The invariant

    The depth of each host and service is the number of its downtimes in effect; the
    downtimes of [G] are being stopped, they count no more.  Identifiers are unique and
    positive, and a downtime is younger than the one that triggers it. *)
Record inv (G : gset Z) (m : manager) : Prop := {
  inv_nodup : NoDup (ids m);
  inv_depth t o : m.(objects) !! t = Some o → o.(_scheduled_downtime_depth) = count G t m.(_scheduled_downtimes);
  inv_older d : d ∈ m.(_scheduled_downtimes) → 0 < d.(_downtime_id) ∧ 0 ≤ d.(_triggered_by) < d.(_downtime_id);
}.

(** The downtimes that handling [id] leaves alone: those it does not trigger, directly
    or not. *)
Definition spared (id : Z) (d : downtime) : Prop := d.(_downtime_id) ≠ id ∧ d.(_triggered_by) < id.
#[export] Instance spared_dec id d : Decision (spared id d).
Proof. unfold spared. apply _. Defined.

(** What an operation on [id] keeps. *)
Record keeps (id : Z) (m m' : manager) : Prop := {
  keeps_skel : sublist (skel <$> m'.(_scheduled_downtimes)) (skel <$> m.(_scheduled_downtimes));
  keeps_spared : filter (spared id) m'.(_scheduled_downtimes) = filter (spared id) m.(_scheduled_downtimes);
  keeps_objects : dom m'.(objects) = dom m.(objects);
  keeps_next : m'.(_next_id) = m.(_next_id);
}.

Lemma keeps_refl id m : keeps id m m.
Proof. by split. Qed.

Lemma filter_filter_weaker (P Q : downtime → Prop) `{!∀ x, Decision (P x), !∀ x, Decision (Q x)} (l : list downtime) :
  (∀ d, d ∈ l → P d → Q d) → filter P (filter Q l) = filter P l.
Proof.
  induction l as [|d l IH]; intros Hpq; [done|]. rewrite !filter_cons.
  assert (∀ d, d ∈ l → P d → Q d) as Hpq' by (intros x Hx; apply Hpq; by right).
  destruct (decide (Q d)) as [Hq|Hq].
  - rewrite filter_cons. case_decide; by rewrite IH.
  - rewrite (decide_False (P:=P d)); [by apply IH|]. intros Hp. apply Hq, Hpq; [by left|done].
Qed.

Lemma keeps_trans id m1 m2 m3 : keeps id m1 m2 → keeps id m2 m3 → keeps id m1 m3.
Proof.
  intros [S1 F1 O1 N1] [S2 F2 O2 N2]. split; [by etrans|by rewrite F2|by rewrite O2|by rewrite N2].
Qed.

(** What an operation on a downtime keeps, an operation on the one that triggers it
    keeps too. *)
Lemma keeps_weaken id c t m m' :
  keeps c m m' → (∀ d, d ∈ m.(_scheduled_downtimes) → d.(_downtime_id) = c → d.(_triggered_by) = t) →
  (∀ d, d ∈ m'.(_scheduled_downtimes) → d.(_downtime_id) = c → d.(_triggered_by) = t) →
  id ≤ t → id < c → keeps id m m'.
Proof.
  intros [Hs Hf Ho Hn] Hc Hc' Hid Hlt. split; [done| |done|done].
  rewrite <- (filter_filter_weaker (spared id) (spared c) m'.(_scheduled_downtimes)), Hf.
  - apply filter_filter_weaker. intros d Hd [H1 H2]. split; [|lia]. intros Hdc. specialize (Hc d Hd Hdc). lia.
  - intros d Hd [H1 H2]. split; [|lia]. intros Hdc. specialize (Hc' d Hd Hdc). lia.
Qed.

(** ** The steps of [handle] *)

(** The invariant is about the list and the objects. *)
Lemma inv_ext G m m' :
  m'.(_scheduled_downtimes) = m.(_scheduled_downtimes) → m'.(objects) = m.(objects) → inv G m → inv G m'.
Proof. intros Hl Ho [Hn Hd Hold]. split; [unfold ids|..]; by rewrite ?Hl, ?Ho. Qed.

Lemma inv_split G m id d :
  inv G m → find_downtime id m = Some d →
  ∃ l1 l2, m.(_scheduled_downtimes) = l1 ++ d :: l2 ∧ d.(_downtime_id) = id ∧
    (id ∉ _downtime_id <$> l1) ∧ (id ∉ _downtime_id <$> l2).
Proof.
  intros Hi Hf. destruct (find_downtime_split id m d Hf) as (l1 & l2 & Hl & Hd & H1). exists l1, l2. split_and!; try done.
  pose proof (inv_nodup _ _ Hi) as Hn. unfold ids in Hn. rewrite Hl, fmap_app, fmap_cons, Hd in Hn.
  apply NoDup_app in Hn as (_ & _ & Hn). by apply NoDup_cons in Hn as [? _].
Qed.

Lemma lookup_alter_depth (f : monitored → monitored) (m : gmap target monitored) t t' o :
  (∀ o, (f o).(_scheduled_downtime_depth) = o.(_scheduled_downtime_depth)) →
  alter f t m !! t' = Some o → ∃ o', m !! t' = Some o' ∧ o.(_scheduled_downtime_depth) = o'.(_scheduled_downtime_depth).
Proof.
  intros Hf. destruct (decide (t = t')) as [<-|Ht].
  - rewrite lookup_alter_eq. intros (o' & Ho & ->)%fmap_Some. by exists o'.
  - rewrite lookup_alter_ne by done. by exists o.
Qed.

(** Replacing a downtime by one with the same identifiers. *)
Lemma replace_keeps id d d' m m' l1 l2 :
  m.(_scheduled_downtimes) = l1 ++ d :: l2 → m'.(_scheduled_downtimes) = l1 ++ d' :: l2 →
  skel d' = skel d → d.(_downtime_id) = id → dom m'.(objects) = dom m.(objects) → m'.(_next_id) = m.(_next_id) → keeps id m m'.
Proof.
  intros Hl Hl' Hs Hd Ho Hn. split; [..|done|done].
  - by rewrite Hl, Hl', !fmap_app, !fmap_cons, Hs.
  - rewrite Hl, Hl', !filter_app, !filter_cons.
    injection Hs as Hid _ _ _. by rewrite !decide_False by (unfold spared; rewrite ?Hid, ?Hd; tauto).
Qed.

Lemma remove_keeps id d m m' l1 l2 :
  m.(_scheduled_downtimes) = l1 ++ d :: l2 → m'.(_scheduled_downtimes) = l1 ++ l2 →
  d.(_downtime_id) = id → dom m'.(objects) = dom m.(objects) → m'.(_next_id) = m.(_next_id) → keeps id m m'.
Proof.
  intros Hl Hl' Hd Ho Hn. split; [..|done|done].
  - rewrite Hl, Hl', !fmap_app, !fmap_cons. apply sublist_app; [done|]. by apply sublist_cons.
  - rewrite Hl, Hl', !filter_app, filter_cons. by rewrite decide_False by (unfold spared; rewrite Hd; tauto).
Qed.

Lemma notify_if_out_fields t o m :
  (notify_if_out t o m).(_scheduled_downtimes) = m.(_scheduled_downtimes) ∧
  (notify_if_out t o m).(objects) = m.(objects) ∧ (notify_if_out t o m).(_next_id) = m.(_next_id).
Proof. unfold notify_if_out. by destruct (_ =? 0). Qed.

Lemma begin_fields now d m :
  (begin_downtime now d m).(_scheduled_downtimes) =
    ((λ x, if x.(_downtime_id) =? d.(_downtime_id) then set_in_effect true x else x) <$> m.(_scheduled_downtimes)) ∧
  (begin_downtime now d m).(objects) =
    alter (λ o, set_depth (o.(_scheduled_downtime_depth) + 1) o) d.(d_target) m.(objects) ∧
  (begin_downtime now d m).(_next_id) = m.(_next_id).
Proof.
  unfold begin_downtime. cbn. by destruct (notify_if_out_fields d.(d_target)
    (Notify d.(d_target) downtimestart d.(_author) d.(_comment)) (send (Broker DOWNTIME_START d.(_downtime_id)) m))
    as (-> & -> & ->).
Qed.

Lemma end_fields d m :
  (end_downtime d m).(_scheduled_downtimes) = m.(_scheduled_downtimes) ∧ (end_downtime d m).(_next_id) = m.(_next_id) ∧
  ∃ f, (∀ o, (f o).(_scheduled_downtime_depth) = o.(_scheduled_downtime_depth)) ∧
  (end_downtime d m).(objects) =
    alter f d.(d_target) (alter (λ o, set_depth (o.(_scheduled_downtime_depth) - 1) o) d.(d_target) m.(objects)).
Proof.
  unfold end_downtime. cbv zeta.
  set (m1 := update_object _ _ (send _ m)). set (o1 := Notify _ _ _ _).
  destruct (notify_if_out_fields (d_target d) o1 m1) as (H1 & H2 & H3).
  destruct (negb _ && _); cbn [update_object send set_objects _scheduled_downtimes objects _next_id]; rewrite H1, H2, H3;
    (split; [done|]); (split; [done|]).
  - eexists. split; [|done]. intros o. cbv beta. by destruct (0 <? o.(_pending_flex_downtime)).
  - exists (λ o, o). split; [done|]. unfold m1. cbn. apply map_eq. intros t. destruct (decide (t = d.(d_target))) as [->|Ht].
    + rewrite (lookup_alter_eq (λ o, o)). symmetry. apply option_fmap_id.
    + by rewrite (lookup_alter_ne (λ o, o)).
Qed.

(** Starting a downtime: it is in effect, and counts in the depth. *)
Lemma begin_inv G now id d m :
  inv G m → find_downtime id m = Some d → is_Some (m.(objects) !! d.(d_target)) → d.(_in_effect) = false → id ∉ G →
  let m' := begin_downtime now d m in
  inv G m' ∧ keeps id m m' ∧ find_downtime id m' = Some (set_in_effect true d) ∧ (skel <$> m'.(_scheduled_downtimes)) = (skel <$> m.(_scheduled_downtimes)).
Proof.
  intros Hi Hf Ho He Hg m'. destruct (inv_split G m id d Hi Hf) as (l1 & l2 & Hl & Hd & H1 & H2).
  destruct (begin_fields now d m) as (Hdts & Hobj & Hnext). fold m' in Hdts, Hobj, Hnext.
  rewrite Hl, Hd, update_split in Hdts by done.
  assert (dom (objects m') = dom (objects m)) as Hdom by (rewrite Hobj; apply dom_alter_L).
  assert (skel <$> m'.(_scheduled_downtimes) = skel <$> m.(_scheduled_downtimes)) as Hsk.
  { by rewrite Hdts, Hl, !fmap_app, !fmap_cons. }
  split_and!; [split|by eapply replace_keeps| |done].
  - unfold ids. rewrite Hdts. pose proof (inv_nodup _ _ Hi) as Hn. unfold ids in Hn. rewrite Hl in Hn.
    by rewrite fmap_app, fmap_cons in *.
  - intros t o Hto. rewrite Hdts, count_app. cbn [count].
    destruct (decide (t = d_target d)) as [->|Ht].
    + rewrite Hobj, lookup_alter_eq in Hto. apply fmap_Some in Hto as (o' & Ho' & ->). cbn.
      rewrite (inv_depth _ _ Hi _ _ Ho'), Hl, count_app. cbn [count].
      rewrite (weight_in _ _ (set_in_effect true d)), (weight_out _ _ d) by (cbn; congruence). lia.
    + rewrite Hobj, lookup_alter_ne in Hto by done. rewrite (inv_depth _ _ Hi _ _ Hto), Hl, count_app. cbn [count].
      rewrite !weight_elsewhere by (cbn; congruence). done.
  - intros x. rewrite Hdts. intros Hx. apply elem_of_app in Hx as [Hx|Hx]; [|apply elem_of_cons in Hx as [->|Hx]].
    + apply (inv_older _ _ Hi). rewrite Hl. set_solver.
    + apply (inv_older _ _ Hi d). rewrite Hl. set_solver.
    + apply (inv_older _ _ Hi). rewrite Hl. set_solver.
  - eapply find_downtime_at; [exact Hdts|done|done].
Qed.

(** Waiting for a problem changes a counter. *)
Lemma wait_inv G id d m :
  inv G m → find_downtime id m = Some d →
  let m' := wait_for_problem d m in inv G m' ∧ keeps id m m'.
Proof.
  intros Hi Hf m'. destruct (inv_split G m id d Hi Hf) as (l1 & l2 & Hl & Hd & H1 & H2).
  assert (m'.(_scheduled_downtimes) = l1 ++ set_incremented d :: l2) as Hdts.
  { unfold m', wait_for_problem. cbn. by rewrite Hl, Hd, update_split. }
  assert (∀ t o, m'.(objects) !! t = Some o →
    ∃ o', m.(objects) !! t = Some o' ∧ o.(_scheduled_downtime_depth) = o'.(_scheduled_downtime_depth)) as Hobj.
  { intros t o Ho. eapply lookup_alter_depth; [|exact Ho]. done. }
  split; [split|].
  - unfold ids. rewrite Hdts. pose proof (inv_nodup _ _ Hi) as Hn. unfold ids in Hn. rewrite Hl in Hn.
    by rewrite fmap_app, fmap_cons in *.
  - intros t o Hto. destruct (Hobj t o Hto) as (o' & Ho' & ->). rewrite (inv_depth _ _ Hi _ _ Ho'), Hdts, Hl, !count_app. done.
  - intros x. rewrite Hdts. intros Hx. apply elem_of_app in Hx as [Hx|Hx]; [|apply elem_of_cons in Hx as [->|Hx]].
    + apply (inv_older _ _ Hi). rewrite Hl. set_solver.
    + apply (inv_older _ _ Hi d). rewrite Hl. set_solver.
    + apply (inv_older _ _ Hi). rewrite Hl. set_solver.
  - eapply replace_keeps; try done. apply dom_alter_L.
Qed.

(** Stopping a downtime: it counts no more. *)
Lemma end_inv G id d m :
  inv G m → find_downtime id m = Some d → d.(_in_effect) = true → id ∉ G →
  let m' := end_downtime d m in
  inv (G ∪ {[ id ]}) m' ∧ m'.(_scheduled_downtimes) = m.(_scheduled_downtimes) ∧ dom m'.(objects) = dom m.(objects) ∧
  m'.(_next_id) = m.(_next_id).
Proof.
  intros Hi Hf He Hg m'. destruct (inv_split G m id d Hi Hf) as (l1 & l2 & Hl & Hd & H1 & H2).
  destruct (end_fields d m) as (Hdts & Hnext & f & Hf' & Hobj). fold m' in Hdts, Hobj.
  split_and!; [split|done|by rewrite Hobj, !dom_alter_L|done].
  - unfold ids. rewrite Hdts. apply (inv_nodup _ _ Hi).
  - intros t o Hto. rewrite Hobj in Hto. apply lookup_alter_depth in Hto as (o' & Ho' & ->); [|done].
    rewrite Hdts, Hl, count_app. cbn [count]. rewrite !(count_other G t id) by done.
    rewrite (weight_stopped _ _ d) by set_solver.
    destruct (decide (t = d_target d)) as [->|Ht].
    + rewrite lookup_alter_eq in Ho'. apply fmap_Some in Ho' as (o'' & Ho & ->). cbn.
      rewrite (inv_depth _ _ Hi _ _ Ho), Hl, count_app. cbn [count].
      rewrite weight_in by (cbn; congruence). lia.
    + rewrite lookup_alter_ne in Ho' by done. rewrite (inv_depth _ _ Hi _ _ Ho'), Hl, count_app. cbn [count].
      rewrite weight_elsewhere by (cbn; congruence). lia.
  - rewrite Hdts. apply (inv_older _ _ Hi).
Qed.

Lemma destroy_fields d m :
  (destroy d m).(_scheduled_downtimes) = m.(_scheduled_downtimes) ∧ (destroy d m).(objects) = m.(objects).
Proof. done. Qed.

(** Deleting a downtime that is stopped. *)
Lemma delete_inv G id m :
  inv (G ∪ {[ id ]}) m →
  let m' := delete_downtime id m in inv G m' ∧ keeps id m m' ∧ id ∉ ids m'.
Proof.
  intros Hi m'. unfold m', delete_downtime. destruct (find_downtime id m) as [d|] eqn:Hf; cycle 1.
  { apply find_downtime_None in Hf. split_and!; [split|apply keeps_refl|done].
    - apply (inv_nodup _ _ Hi).
    - intros t o Ho. rewrite (inv_depth _ _ Hi _ _ Ho). by apply count_other.
    - apply (inv_older _ _ Hi). }
  destruct (inv_split _ m id d Hi Hf) as (l1 & l2 & Hl & Hd & H1 & H2).
  assert (remove_id id m.(_scheduled_downtimes) = l1 ++ l2) as Hr by (rewrite Hl; by apply remove_split).
  assert (id ∉ _downtime_id <$> (l1 ++ l2)) as Hnot by (rewrite fmap_app; set_solver).
  split_and!; [split; cbn; rewrite ?Hr| |].
  - unfold ids. cbn. rewrite ?Hr. pose proof (inv_nodup _ _ Hi) as Hn. unfold ids in Hn.
    rewrite Hl, fmap_app, fmap_cons in Hn. rewrite fmap_app.
    apply NoDup_app in Hn as (Hn1 & Hn2 & Hn3). apply NoDup_cons in Hn3 as [_ Hn3].
    apply NoDup_app. split_and!; [done| |done]. set_solver.
  - intros t o Ho. rewrite (inv_depth _ _ Hi _ _ Ho), Hl. rewrite <- (count_other G t id (l1 ++ l2)) by done.
    rewrite !count_app. cbn [count]. rewrite (weight_stopped _ _ d) by set_solver. done.
  - intros x Hx. apply (inv_older _ _ Hi). rewrite Hl. set_solver.
  - eapply remove_keeps; [exact Hl| |exact Hd|done|done]. cbn. exact Hr.
  - unfold ids. cbn. by rewrite Hr.
Qed.

(** ** [handle] keeps the invariant *)

Lemma find_of_elem m d : NoDup (ids m) → d ∈ m.(_scheduled_downtimes) → find_downtime d.(_downtime_id) m = Some d.
Proof.
  intros Hn Hd. apply list_elem_of_split in Hd as (l1 & l2 & Hl). eapply find_downtime_at; [done..|].
  unfold ids in Hn. rewrite Hl, fmap_app, fmap_cons in Hn. apply NoDup_app in Hn as (_ & Hn & _).
  intros Hin. apply (Hn _ Hin). left.
Qed.

Lemma find_elem id m d : find_downtime id m = Some d → d ∈ m.(_scheduled_downtimes) ∧ d.(_downtime_id) = id.
Proof. intros Hf. destruct (find_downtime_split _ _ _ Hf) as (l1 & l2 & -> & Hd & _). set_solver. Qed.

(** If [c] is in the list, it is triggered by [id]. *)
Definition child_of (id c : Z) (m : manager) : Prop :=
  ∀ d, d ∈ m.(_scheduled_downtimes) → d.(_downtime_id) = c → d.(_triggered_by) = id.

Lemma skel_elem x m m' d' :
  keeps x m m' → d' ∈ m'.(_scheduled_downtimes) → ∃ d, d ∈ m.(_scheduled_downtimes) ∧ skel d' = skel d.
Proof.
  intros [Hs _ _ _] Hd. apply (list_elem_of_fmap_2 skel) in Hd. eapply elem_of_sublist in Hd; [|done].
  apply list_elem_of_fmap in Hd as (d & ? & ?). by exists d.
Qed.

Lemma child_keeps x id c m m' : keeps x m m' → child_of id c m → child_of id c m'.
Proof.
  intros Hk Hc d' Hd' Hid. destruct (skel_elem _ _ _ _ Hk Hd') as (d & Hd & [= H1 H2 _ _]).
  rewrite H2. apply Hc; [done|congruence].
Qed.

Lemma keeps_child id c m m' : keeps c m m' → child_of id c m → id < c → keeps id m m'.
Proof.
  intros Hk Hc Hlt. eapply (keeps_weaken id c id); [done| | |lia|done]; [done|]. by eapply child_keeps.
Qed.

Lemma first_triggered_child G id m c :
  inv G m → first_triggered id m = Some c → id < c ∧ child_of id c m ∧ is_Some (find_downtime c m).
Proof.
  intros Hi Hf. unfold first_triggered in Hf. apply fmap_Some in Hf as ([i d] & Hf & ->). cbn [snd].
  apply list_find_Some in Hf as (Hl & Ht & _). apply list_elem_of_lookup_2 in Hl.
  pose proof (find_of_elem m d (inv_nodup _ _ Hi) Hl) as Hfd. destruct (inv_older _ _ Hi d Hl) as [_ Hlt].
  split_and!; [lia| |by eexists].
  intros x Hx Hid. pose proof (find_of_elem m x (inv_nodup _ _ Hi) Hx) as Hfx. rewrite Hid in Hfx. congruence.
Qed.

Lemma triggered_children G id m c : inv G m → c ∈ triggered id m → id < c ∧ child_of id c m.
Proof.
  intros Hi Hc. unfold triggered in Hc. apply list_elem_of_fmap in Hc as (d & -> & Hd).
  apply list_elem_of_filter in Hd as [Ht Hd]. destruct (inv_older _ _ Hi d Hd) as [_ Hlt]. split; [lia|].
  intros x Hx Hid. pose proof (find_of_elem m x (inv_nodup _ _ Hi) Hx) as Hfx.
  rewrite Hid, (find_of_elem m d (inv_nodup _ _ Hi) Hd) in Hfx. congruence.
Qed.

(** What is asked of the handling of a downtime. *)
Definition handles_well (G : gset Z) (h : Z → manager → res manager) : Prop :=
  ∀ c m m', inv G m → (∀ g, g ∈ G → g < c) → h c m = Ret m' → inv G m' ∧ keeps c m m'.

Lemma stop_loop_inv G h id n : handles_well G h → (∀ g, g ∈ G → g ≤ id) → ∀ m m',
  inv G m → stop_loop n h id m = Ret m' → inv G m' ∧ keeps id m m' ∧ first_triggered id m' = None.
Proof.
  intros Hh Hg. induction n as [|n IH]; intros m m' Hi Hs; [done|]. cbn [stop_loop] in Hs.
  assert (∀ c m m', inv G m → first_triggered id m = Some c → h c m = Ret m' → inv G m' ∧ keeps id m m') as Hstep.
  { intros c m1 m2 H1 Hf H12. destruct (first_triggered_child G id m1 c H1 Hf) as (Hlt & Hc & _).
    destruct (Hh c m1 m2 H1) as [H2 Hk]; [|done|]. { intros g Hgg. specialize (Hg g Hgg). lia. }
    split; [done|]. by eapply keeps_child. }
  unfold handle_first in Hs. destruct (first_triggered id m) as [c1|] eqn:Hf1; cycle 1.
  { rewrite Hf1 in Hs. injection Hs as <-. split_and!; [done|apply keeps_refl|done]. }
  destruct (h c1 m) as [m1|] eqn:Hh1; [|done]. destruct (Hstep c1 m m1 Hi Hf1 Hh1) as [Hi1 Hk1].
  destruct (first_triggered id m1) as [c2|] eqn:Hf2; [|by injection Hs as <-].
  destruct (h c2 m1) as [m2|] eqn:Hh2; [|done]. destruct (Hstep c2 m1 m2 Hi1 Hf2 Hh2) as [Hi2 Hk2].
  destruct (IH m2 m' Hi2 Hs) as (Hi' & Hk' & Hn). split_and!; [done| |done].
  eapply keeps_trans; [done|]. by eapply keeps_trans.
Qed.

Lemma start_loop_inv G h id : handles_well G h → (∀ g, g ∈ G → g < id) → ∀ cs m m',
  inv G m → Forall (λ c, id < c ∧ child_of id c m) cs → start_loop h cs m = Ret m' → inv G m' ∧ keeps id m m'.
Proof.
  intros Hh Hg. induction cs as [|c cs IH]; intros m m' Hi Hcs Hs; cbn [start_loop] in Hs.
  { injection Hs as <-. split; [done|apply keeps_refl]. }
  apply Forall_cons in Hcs as [[Hlt Hc] Hcs].
  destruct (find_downtime c m); [|by apply IH].
  destruct (h c m) as [m1|] eqn:Hh1; [|done].
  destruct (Hh c m m1 Hi) as [Hi1 Hk1]; [|done|]. { intros g Hgg. specialize (Hg g Hgg). lia. }
  destruct (find_downtime c m1); [|done].
  destruct (IH m1 m' Hi1) as [Hi' Hk']; [|done|].
  { eapply Forall_impl; [exact Hcs|]. intros c' [? ?]. split; [done|]. by eapply child_keeps. }
  split; [done|]. eapply keeps_trans; [by eapply keeps_child|done].
Qed.

Lemma handle_inv fuel now : ∀ G, handles_well G (handle fuel now).
Proof.
  induction fuel as [|fuel IH]; intros G id m m' Hi Hg Hh; [done|]. cbn [handle] in Hh.
  destruct (find_downtime id m) as [d|] eqn:Hf; [|injection Hh as <-; split; [done|apply keeps_refl]].
  destruct (objects m !! d_target d) as [o|] eqn:Ho; [|injection Hh as <-; split; [done|apply keeps_refl]].
  assert (id ∉ G) as Hid by (intros Hx; specialize (Hg id Hx); lia).
  destruct (waits o d); [injection Hh as <-; by apply wait_inv|].
  destruct (_in_effect d) eqn:He.
  - destruct (end_inv G id d m Hi Hf He Hid) as (Hi1 & Hd1 & Ho1 & Hn1).
    destruct (stop_loop _ _ _ _) as [m1|] eqn:Hs; [|done]. injection Hh as <-.
    destruct (stop_loop_inv (G ∪ {[ id ]}) (handle fuel now) id fuel (IH _)) with (m := end_downtime d m) (m' := m1)
      as (Hi2 & Hk2 & _); [|done|done|].
    { intros g Hgg. apply elem_of_union in Hgg as [Hgg|Hgg]; [specialize (Hg g Hgg); lia|set_solver by lia]. }
    destruct (delete_inv G id m1 Hi2) as (Hi3 & Hk3 & _). split; [done|].
    assert (keeps id m (end_downtime d m)) as Hk1 by (split; by rewrite ?Hd1).
    eapply keeps_trans; [done|]. by eapply keeps_trans.
  - destruct (begin_inv G now id d m Hi Hf (mk_is_Some _ _ Ho) He Hid) as (Hi1 & Hk1 & _ & _).
    destruct (start_loop_inv G (handle fuel now) id (IH _) Hg (triggered id (begin_downtime now d m))
      (begin_downtime now d m) m' Hi1) as [Hi2 Hk2]; [|done|].
    { apply Forall_forall. intros c Hc. by eapply triggered_children. }
    split; [done|]. by eapply keeps_trans.
Qed.

(** ** The other operations *)

Definition top (m : manager) : Z :=
  if m.(_next_id) =? 0
  then foldl (λ n d, if n <=? d.(_downtime_id) then d.(_downtime_id) else n) 0 m.(_scheduled_downtimes)
  else m.(_next_id).

(** The invariant between operations. *)
Definition bounded (m : manager) : Prop :=
  0 ≤ m.(_next_id) ∧ (m.(_next_id) ≠ 0 → ∀ i, i ∈ ids m → i ≤ m.(_next_id)).
Definition good (m : manager) : Prop := inv ∅ m ∧ bounded m.

Lemma keeps_ids x m m' i : keeps x m m' → i ∈ ids m' → i ∈ ids m.
Proof.
  intros Hk Hi. apply list_elem_of_fmap in Hi as (d' & -> & Hd'). destruct (skel_elem _ _ _ _ Hk Hd') as (d & Hd & [= -> _ _ _]).
  by apply list_elem_of_fmap_2.
Qed.

Lemma keeps_bounded x m m' : keeps x m m' → bounded m → bounded m'.
Proof.
  intros Hk (Hn & Hb). rewrite <- (keeps_next _ _ _ Hk) in Hn, Hb. split; [done|].
  intros H0 i Hin. apply Hb; [done|]. by eapply keeps_ids.
Qed.

Lemma keeps_good x m m' : keeps x m m' → inv ∅ m' → good m → good m'.
Proof. intros Hk Hi [_ Hb]. split; [done|]. by eapply keeps_bounded. Qed.

(** A change of a downtime that the invariant does not see. *)
Lemma update_inv G id f m :
  (∀ d, skel (f d) = skel d ∧ (f d).(_in_effect) = d.(_in_effect)) → inv G m →
  inv G (update_downtime id f m) ∧ keeps id m (update_downtime id f m).
Proof.
  intros Hf Hi. destruct (find_downtime id m) as [d|] eqn:Hfd; cycle 1.
  { apply find_downtime_None in Hfd. unfold update_downtime. rewrite update_absent by done.
    assert (set_dts (_scheduled_downtimes m) m = m) as -> by (by destruct m). split; [done|apply keeps_refl]. }
  destruct (inv_split G m id d Hi Hfd) as (l1 & l2 & Hl & Hd & H1 & H2).
  assert ((update_downtime id f m).(_scheduled_downtimes) = l1 ++ f d :: l2) as Hdts.
  { unfold update_downtime. cbn. by rewrite Hl, update_split. }
  destruct (Hf d) as [Hs He]. pose proof Hs as [= Hs1 Hs2 Hs3 Hs4].
  assert (∀ t, weight G t (f d) = weight G t d) as Hw by (intros t; unfold weight; by rewrite He, Hs1, Hs4).
  split; [split|].
  - unfold ids. rewrite Hdts. pose proof (inv_nodup _ _ Hi) as Hn. unfold ids in Hn. rewrite Hl in Hn.
    rewrite fmap_app, fmap_cons in *. by rewrite Hs1.
  - intros t o Hto. rewrite (inv_depth _ _ Hi t o Hto), Hdts, Hl, !count_app. cbn [count]. by rewrite Hw.
  - intros x. rewrite Hdts. intros Hx. apply elem_of_app in Hx as [Hx|Hx]; [|apply elem_of_cons in Hx as [->|Hx]].
    + apply (inv_older _ _ Hi). rewrite Hl. set_solver.
    + rewrite Hs1, Hs2. apply (inv_older _ _ Hi d). rewrite Hl. set_solver.
    + apply (inv_older _ _ Hi). rewrite Hl. set_solver.
  - by eapply replace_keeps.
Qed.

Lemma handle_good fuel now id m m' : good m → handle fuel now id m = Ret m' → good m'.
Proof.
  intros Hg Hh. destruct (handle_inv fuel now ∅ id m m' (proj1 Hg)) as [Hi Hk]; [set_solver|done|].
  by eapply keeps_good.
Qed.

Lemma flex_loop_good fuel now t : ∀ l m m', good m → flex_loop fuel now t l m = Ret m' → good m'.
Proof.
  induction l as [|id l IH]; intros m m' Hg Hl; cbn [flex_loop] in Hl; [by injection Hl as <-|].
  destruct (find_downtime id m) as [d|]; [|by eapply IH].
  destruct (_ || _ || _ || _); [by eapply IH|]. destruct (_ && _); [|by eapply IH].
  destruct (update_inv ∅ id start_flex_downtime m) as [Hi Hk]; [done|apply Hg|].
  destruct (handle _ _ _ _) as [m1|] eqn:Hh; [|done].
  destruct (find_downtime id m1); [|done]. eapply IH; [|done]. eapply handle_good; [|done]. by eapply keeps_good.
Qed.

(** A change of an object that keeps its depth. *)
Lemma object_inv G t f m :
  (∀ o, (f o).(_scheduled_downtime_depth) = o.(_scheduled_downtime_depth)) → inv G m → inv G (update_object t f m).
Proof.
  intros Hf [Hn Hd Ho]. split; [done| |done]. intros t' o Hto. apply lookup_alter_depth in Hto as (o' & Ho' & ->); [|done].
  by apply Hd.
Qed.

Lemma object_good t f m :
  (∀ o, (f o).(_scheduled_downtime_depth) = o.(_scheduled_downtime_depth)) → good m → good (update_object t f m).
Proof. intros Hf [Hi Hb]. split; [by apply object_inv|done]. Qed.

Lemma state_change_good fuel now t ok m m' : good m → state_change fuel now t ok m = Ret m' → good m'.
Proof.
  intros Hg. unfold state_change, check_pending_flex_downtime.
  assert (good (update_object t (set_ok ok) m)) as Hg' by (by apply object_good).
  destruct (objects _ !! t); [|by intros [= <-]]. destruct (m_ok _); [by intros [= <-]|]. by apply flex_loop_good.
Qed.

(** Removing a downtime that does not count. *)
Lemma inv_idle G id m :
  inv G m → (∀ d, find_downtime id m = Some d → d.(_in_effect) = false) → inv (G ∪ {[ id ]}) m.
Proof.
  intros Hi Hd. split; [apply Hi| |apply Hi]. intros t o Ho. rewrite (inv_depth _ _ Hi t o Ho).
  destruct (find_downtime id m) as [d|] eqn:Hf.
  - destruct (inv_split G m id d Hi Hf) as (l1 & l2 & Hl & Hid & H1 & H2). rewrite Hl, !count_app. cbn [count].
    rewrite !(count_other G t id), !(weight_out _ _ d) by auto. done.
  - apply find_downtime_None in Hf. by rewrite count_other.
Qed.

Lemma remove_id_elem id l d : d ∈ remove_id id l → d ∈ l.
Proof. induction l as [|x l IH]; cbn; [done|]. destruct (_ =? _); set_solver. Qed.

Lemma expired_good now L l : NoDup (_downtime_id <$> L) → l ⊆ L → ∀ m, good m → m.(_scheduled_downtimes) ⊆ L →
  good (foldl (λ m d, if negb d.(_in_effect) && (d.(_end_time) <? now) then delete_downtime d.(_downtime_id) m else m) m l).
Proof.
  intros HL. induction l as [|d l IH]; intros Hl m Hg Hm; [done|]. cbn [foldl].
  destruct (negb _ && _) eqn:Hx; [|apply IH; set_solver].
  apply andb_true_iff in Hx as [Hx%negb_true_iff _].
  assert (inv (∅ ∪ {[ d.(_downtime_id) ]}) m) as Hi.
  { apply inv_idle; [apply Hg|]. intros d' Hf. destruct (find_elem _ _ _ Hf) as [Hd' Hid].
    assert (d' = d) as ->; [|done]. apply Hm in Hd'. assert (d ∈ L) as Hd by set_solver.
    pose proof (find_of_elem (set_dts L m) d HL Hd) as H1. pose proof (find_of_elem (set_dts L m) d' HL Hd') as H2. congruence. }
  destruct (delete_inv ∅ (_downtime_id d) m Hi) as (Hi' & Hk & _). apply IH; [set_solver|by eapply keeps_good|].
  unfold delete_downtime. destruct (find_downtime _ _); [|done]. intros x Hx'%remove_id_elem. by apply Hm.
Qed.

Lemma check_for_expired_good now m : good m → good (check_for_expired_downtime now m).
Proof. intros Hg. apply (expired_good now m.(_scheduled_downtimes)); [apply Hg|done|done|done]. Qed.

(** Cancelling a downtime. *)
Lemma unschedule_inv G id d m m' :
  inv G m → find_downtime id m = Some d → id ∉ G → unschedule d m = Some m' →
  inv (G ∪ {[ id ]}) m' ∧ m'.(_scheduled_downtimes) = m.(_scheduled_downtimes) ∧ m'.(_next_id) = m.(_next_id) ∧
  dom m'.(objects) = dom m.(objects).
Proof.
  intros Hi Hf Hg. unfold unschedule. destruct (objects m !! d_target d) as [o|] eqn:Ho; [|done]. intros [= <-].
  set (m1 := if negb _ && _ then _ else m).
  assert (inv G m1 ∧ m1.(_scheduled_downtimes) = m.(_scheduled_downtimes) ∧ m1.(_next_id) = m.(_next_id) ∧
    dom m1.(objects) = dom m.(objects)) as (Hi1 & Hd1 & Hn1 & Ho1).
  { unfold m1. destruct (negb _ && _); [|done]. split; [by apply object_inv|]. cbn. by rewrite dom_alter_L. }
  clearbody m1.
  assert (find_downtime id m1 = Some d) as Hf1 by (unfold find_downtime; by rewrite Hd1).
  destruct (_in_effect d) eqn:He.
  - destruct (notify_if_out_fields (d_target d) (Notify (d_target d) downtimecancelled "" "")
      (send (Status (d_target d)) (update_object (d_target d) (λ o, set_depth (_scheduled_downtime_depth o - 1) o)
        (send (Broker (DOWNTIME_STOP true) (_downtime_id d)) m1)))) as (H1 & H2 & H3).
    set (m2 := notify_if_out _ _ _) in *.
    destruct (end_inv G id d m1 Hi1 Hf1 He Hg) as ([Hn Hd Hold] & Hdts & Hdom & Hnx).
    split_and!.
    + split.
      * unfold ids. rewrite H1. cbn. apply Hi1.
      * intros t o' Hto. rewrite H1, H2 in *. cbn in *.
        destruct (end_fields d m1) as (_ & _ & f & Hff & Hfo).
        assert (∃ o2, (end_downtime d m1).(objects) !! t = Some o2 ∧
          _scheduled_downtime_depth o2 = _scheduled_downtime_depth o') as (o2 & Ho2 & <-).
        { rewrite Hfo. destruct (decide (t = d_target d)) as [->|Ht].
          - rewrite lookup_alter_eq, Hto. eexists. split; [done|]. apply Hff.
          - rewrite lookup_alter_ne by done. by exists o'. }
        rewrite (Hd t o2 Ho2), Hdts. done.
      * intros x. rewrite H1. cbn. apply Hi1.
    + rewrite H1. cbn. done.
    + rewrite H3. cbn. done.
    + rewrite H2. cbn. by rewrite dom_alter_L.
  - split_and!; [|done..]. apply inv_idle; [done|]. intros d' Hf'. congruence.
Qed.

Lemma unschedule_downtime_good fuel : ∀ id m m' b, good m → unschedule_downtime fuel id m = Ret (m', b) → good m'.
Proof.
  induction fuel as [|fuel IH]; intros id m m' b Hg Hu; [done|]. cbn [unschedule_downtime] in Hu.
  destruct (find_downtime id m) as [d|] eqn:Hf; [|by injection Hu as <- <-].
  destruct (unschedule d m) as [m1|] eqn:Hus; [|by injection Hu as <- <-].
  destruct (unschedule_inv ∅ id d m m1 (proj1 Hg) Hf ltac:(set_solver) Hus) as (Hi1 & Hd1 & Hn1 & Ho1).
  set (m2 := set_loop _ m1) in Hu. set (m3 := destroy d _) in Hu.
  assert (inv (∅ ∪ {[ id ]}) m2) as Hi2 by (by eapply inv_ext; [..|exact Hi1]).
  destruct (delete_inv ∅ id m2 Hi2) as (Hi3 & Hk & _).
  assert (delete_downtime id m2 = m3) as E.
  { unfold delete_downtime. assert (find_downtime id m2 = Some d) as ->; [|done]. unfold find_downtime. cbn. by rewrite Hd1. }
  rewrite E in Hi3, Hk.
  assert (good m3) as Hg3.
  { split; [done|]. eapply keeps_bounded; [exact Hk|]. destruct Hg as [_ [Hn Hb]].
    split; [cbn; by rewrite Hn1|]. unfold ids. cbn. by rewrite Hn1, Hd1. }
  clear -IH Hg3 Hu. clearbody m3. generalize (triggered id m3) Hu. clear Hu. intros l. revert m3 Hg3.
  induction l as [|c l IHl]; intros m3 Hg3 Hu; [by injection Hu as <- <-|].
  destruct (unschedule_downtime fuel c m3) as [[m4 b4]|] eqn:Hc; [|done].
  eapply IHl; [|exact Hu]. by eapply IH.
Qed.

Lemma delete_downtime_by_good fuel h s st c m m' n : good m → delete_downtime_by fuel h s st c m = Ret (m', n) → good m'.
Proof.
  intros Hg. unfold delete_downtime_by. destruct (_ && _ && _ && _); [by intros [= <- _]|].
  set (l0 := _downtime_id <$> _). clearbody l0. generalize l0 at 2. intros l. revert m Hg.
  induction l as [|x l IHl]; intros m Hg Hu; [by injection Hu as <- _|].
  destruct (unschedule_downtime fuel x m) as [[m1 b1]|] eqn:Hc; [|done].
  eapply IHl; [|exact Hu]. by eapply unschedule_downtime_good.
Qed.

(** ** New downtimes *)

Lemma fold_max_ids l : ∀ n, 
  n ≤ foldl (λ n d, if n <=? d.(_downtime_id) then d.(_downtime_id) else n) n l ∧
  ∀ i, i ∈ _downtime_id <$> l → i ≤ foldl (λ n d, if n <=? d.(_downtime_id) then d.(_downtime_id) else n) n l.
Proof.
  induction l as [|d l IH]; intros n; cbn; [split; [lia|]; intros i Hi; by apply not_elem_of_nil in Hi|].
  destruct (IH (if n <=? _downtime_id d then _downtime_id d else n)) as [H1 H2].
  destruct (Z.leb_spec n (_downtime_id d)); (split; [lia|]); intros i [->|Hi]%elem_of_cons; auto; lia.
Qed.

Lemma ids_le_top m i : bounded m → i ∈ ids m → i ≤ top m.
Proof.
  intros [Hn Hb] Hi. unfold top. destruct (Z.eqb_spec (_next_id m) 0) as [H0|H0]; [|auto].
  by apply (proj2 (fold_max_ids _ 0)).
Qed.

Lemma top_nonneg m : bounded m → 0 ≤ top m.
Proof.
  intros [Hn Hb]. unfold top. destruct (Z.eqb_spec (_next_id m) 0) as [H0|H0]; [|done]. apply (proj1 (fold_max_ids _ 0)).
Qed.

Lemma count_insert G t d l : count G t (multimap_insert d l) = weight G t d + count G t l.
Proof. induction l as [|x l IH]; cbn; [done|]. destruct (_ <? _); cbn; lia. Qed.

Lemma insert_perm d l : multimap_insert d l ≡ₚ d :: l.
Proof. induction l as [|x l IH]; cbn; [done|]. destruct (_ <? _); [done|]. rewrite IH. apply Permutation_swap. Qed.

(** A new downtime gets a new identifier, and does not count yet. *)
Lemma add_new_good t entry author comment start end_ fixed trig dur m id m' :
  good m → top m + 1 ≤ u64_max → 0 ≤ trig →
  add_new_downtime t entry author comment start end_ fixed trig dur m = Ret (id, m') →
  good m' ∧ id = top m + 1 ∧ top m' = id ∧
  ∃ d, skel d = (id, trig, fixed, t) ∧ d.(_in_effect) = false ∧ d.(_start_time) = start ∧ d.(_end_time) = end_ ∧
    find_downtime id m' = Some d ∧ m'.(_scheduled_downtimes) = multimap_insert d m.(_scheduled_downtimes) ∧
    m'.(objects) = m.(objects).
Proof.
  intros [Hi Hb] Htop Htrig. unfold add_new_downtime. destruct (objects m !! t); [|done].
  pose proof (top_nonneg m Hb) as H0.
  change (get_next_downtime_id m) with (wrap_u64 (top m + 1), set_next_id (wrap_u64 (top m + 1)) m). cbv beta iota.
  rewrite wrap_u64_small by (unfold u64_max in Htop; lia). unfold new_downtime.
  destruct ((0 <? trig) && _) eqn:Hpar; [done|]. intros [= <- <-].
  assert (trig ≤ top m) as Htt.
  { apply andb_false_iff in Hpar as [Hp|Hp]; [apply Z.ltb_ge in Hp; lia|].
    apply negb_false_iff, bool_decide_eq_true in Hp.
    apply (ids_le_top m trig Hb), find_downtime_Some. exact Hp. }
  set (d := Downtime _ _ _ _ _ _ _ _ _ _ _ _ _ _). set (m' := send _ _).
  assert (m'.(_scheduled_downtimes) = multimap_insert d m.(_scheduled_downtimes)) as Hdts by done.
  assert (ids m' ≡ₚ (top m + 1) :: ids m) as Hids.
  { unfold ids. rewrite Hdts, insert_perm. done. }
  assert (top m + 1 ∉ ids m) as Hnew by (intros Hin; apply (ids_le_top m _ Hb) in Hin; lia).
  assert (good m') as Hg.
  { split; [split|split].
    - rewrite Hids. apply NoDup_cons. split; [done|apply Hi].
    - intros t' o Ho. rewrite Hdts, count_insert, (weight_out _ _ d) by done. apply Hi, Ho.
    - intros x. rewrite Hdts, insert_perm. intros [->|Hx]%elem_of_cons; [cbn; lia|by apply Hi].
    - cbn. lia.
    - intros _ i. rewrite Hids. intros [->|Hin]%elem_of_cons; [done|]. apply (ids_le_top m _ Hb) in Hin. cbn. lia. }
  split_and!; [done|done| |].
  - unfold top at 1. cbn. destruct (Z.eqb_spec (top m + 1) 0); lia.
  - exists d. split_and!; try done. assert (d.(_downtime_id) = top m + 1) as <- by done. apply find_of_elem; [apply Hg|].
    rewrite Hdts, insert_perm. left.
Qed.

Lemma register_keeps G id m : inv G m → inv G (register_downtime id m) ∧ keeps id m (register_downtime id m).
Proof.
  intros Hi. unfold register_downtime. destruct (find_downtime id m) as [d|]; [|split; [done|apply keeps_refl]].
  destruct (objects m !! d_target d); [|split; [done|apply keeps_refl]]. cbn [add_comment].
  set (m1 := set_comments _ _ m). destruct (update_inv G id (set_comment_id m.(_next_comment_id)) m1) as [Hi1 Hk1]; [done| |].
  { by eapply inv_ext; [..|exact Hi]. }
  destruct (_ =? 0).
  - split; [by eapply inv_ext; [..|exact Hi1]|]. destruct Hk1 as [H1 H2 H3 H4]. by split.
  - split; [done|]. destruct Hk1 as [H1 H2 H3 H4]. by split.
Qed.

Lemma register_top id m : good m → good (register_downtime id m) ∧ top (register_downtime id m) = top m.
Proof.
  intros Hg. destruct (register_keeps ∅ id m (proj1 Hg)) as [Hi Hk]. split; [by eapply keeps_good|].
  unfold top. rewrite (keeps_next _ _ _ Hk). destruct (_ =? 0); [|done]. unfold register_downtime.
  destruct (find_downtime id m) as [d|]; [|done]. destruct (objects m !! d_target d); [|done].
  assert (∀ n l, foldl (λ n d, if n <=? d.(_downtime_id) then d.(_downtime_id) else n) n
    ((λ x, if x.(_downtime_id) =? id then set_comment_id m.(_next_comment_id) x else x) <$> l) =
    foldl (λ n d, if n <=? d.(_downtime_id) then d.(_downtime_id) else n) n l) as Hf.
  { intros n l. revert n. induction l as [|x l IH]; intros n; [done|]. cbn. rewrite IH. by destruct (_ =? id). }
  cbn [add_comment]. destruct (_ =? 0); cbn; apply Hf.
Qed.

(** How many downtimes [schedule_downtime] makes, at most. *)
Fixpoint cost (fuel : nat) (anomalies : Z → list target) (t : target) : Z :=
  match fuel with
  | O => 0
  | S fuel => 1 + foldr (λ t n, cost fuel anomalies t + n) 0 (match t.2 with Some s => anomalies s | None => [] end)
  end.

Lemma cost_nonneg fuel an : ∀ t, 0 ≤ cost fuel an t.
Proof.
  induction fuel as [|fuel IH]; intros t; cbn; [lia|].
  induction (match t.2 with Some s => an s | None => [] end) as [|x l IHl]; cbn; [lia|]. pose proof (IH x). lia.
Qed.

Lemma schedule_good fuel an now entry author comment : ∀ t start end_ fixed trig dur m r m',
  good m → top m + cost fuel an t ≤ u64_max → 0 ≤ trig →
  schedule_downtime fuel an now t entry author comment start end_ fixed trig dur m = Ret (r, m') →
  good m' ∧ top m' ≤ top m + cost fuel an t.
Proof.
  induction fuel as [|fuel IH]; intros t start end_ fixed trig dur m r m' Hg Htop Htrig Hs; [done|].
  cbn [schedule_downtime cost] in *. destruct (_ || _).
  { injection Hs as <- <-. pose proof (cost_nonneg (S fuel) an t) as Hc. cbn [cost] in Hc. split; [done|lia]. }
  set (l := match t.2 with Some s => an s | None => [] end) in *.
  assert (0 ≤ foldr (λ t n, cost fuel an t + n) 0 l) as Hpos.
  { clear -fuel. induction l as [|x l IHl]; cbn; [lia|]. pose proof (cost_nonneg fuel an x). lia. }
  destruct (add_new_downtime _ _ _ _ _ _ _ _ _ _) as [[id m1]|] eqn:Ha; [|done].
  apply add_new_good in Ha as (Hg1 & Hid & Ht1 & _); [|done|lia|done].
  match type of Hs with (match ?F l m1 with _ => _ end = _) => set (each := F) in * end.
  assert (∀ m1 m2, good m1 → top m1 + foldr (λ t n, cost fuel an t + n) 0 l ≤ u64_max → each l m1 = Ret m2 →
    good m2 ∧ top m2 ≤ top m1 + foldr (λ t n, cost fuel an t + n) 0 l) as Heach.
  { assert (0 ≤ id) as Hid0 by (pose proof (top_nonneg m (proj2 Hg)); lia). clear -IH Hid0. clearbody l.
    induction l as [|x l IHl]; intros m1 m2 Hg1 Ht1 He; cbn in He, Ht1 |- *.
    - injection He as <-. split; [done|lia].
    - match type of He with (match ?S with _ => _ end = _) => destruct S as [[r3 m3]|] eqn:Hs3; [|done] end.
      assert (0 ≤ foldr (λ t n, cost fuel an t + n) 0 l) as Hp.
      { clear -fuel. induction l as [|y l IHl]; cbn; [lia|]. pose proof (cost_nonneg fuel an y). lia. }
      apply IH in Hs3 as [Hg3 Ht3]; [|done|lia|done].
      destruct (IHl m3 m2 Hg3) as [Hg2 Ht2]; [lia|exact He|]. split; [done|lia]. }
  destruct (each l m1) as [m2|] eqn:He; [|done]. injection Hs as <- <-.
  destruct (Heach m1 m2 Hg1) as [Hg2 Ht2]; [lia|done|]. destruct (register_top id m2 Hg2) as [Hg3 ->]. split; [done|lia].
Qed.

(** ** The depth is exact *)

(** What happens to downtimes: commands schedule and cancel them, the events of the loop
    run, and check results change the states. *)
Inductive dt_step : manager → manager → Prop :=
  | step_schedule fuel an now t entry author comment start end_ fixed trig dur m r m' :
      top m + cost fuel an t ≤ u64_max → 0 ≤ trig →
      schedule_downtime fuel an now t entry author comment start end_ fixed trig dur m = Ret (r, m') → dt_step m m'
  | step_event fuel now e m m' : run_downtime_event fuel now e m = Ret m' → dt_step m m'
  | step_state fuel now t ok m m' : state_change fuel now t ok m = Ret m' → dt_step m m'
  | step_unschedule fuel id m m' b : unschedule_downtime fuel id m = Ret (m', b) → dt_step m m'
  | step_delete fuel h s start c m m' n : delete_downtime_by fuel h s start c m = Ret (m', n) → dt_step m m'.

Lemma dt_step_good m m' : dt_step m m' → good m → good m'.
Proof.
  intros [? ? ? ? ? ? ? ? ? ? ? ? ? ? ? Ht Htr Hs|fuel now e m1 m1' He|? ? ? ? ? ? Hs|? ? ? ? ? Hs|? ? ? ? ? ? ? ? Hs] Hg.
  - by apply schedule_good in Hs as [? _].
  - unfold run_downtime_event, handle_scheduled_downtime_by_id in He.
    destruct (event_type e), (event_data e) as [a|a id]; try (injection He as <-; done || by apply check_for_expired_good).
    destruct (find_downtime id m1); [by eapply handle_good|by injection He as <-].
  - by eapply state_change_good.
  - by eapply unschedule_downtime_good.
  - by eapply delete_downtime_by_good.
Qed.

Lemma count_filter t l :
  count ∅ t l = Z.of_nat (length (filter (λ d, d.(_in_effect) = true ∧ d.(d_target) = t) l)).
Proof.
  induction l as [|d l IH]; [done|]. cbn [count]. rewrite IH, filter_cons.
  destruct (decide (d.(_in_effect) = true ∧ d.(d_target) = t)) as [[He Ht]|Hn].
  - rewrite weight_in by (done || set_solver). cbn [length]. lia.
  - destruct (_in_effect d) eqn:He; [rewrite weight_elsewhere by naive_solver|rewrite weight_out by done]; lia.
Qed.

(** C22: whatever the commands, the events and the states of hosts and services, the
    downtime depth of a host or service is the number of its downtimes in effect: it is
    in downtime exactly when one of them is. *)
Theorem downtime_depth_exact m0 m t o :
  good m0 → rtc dt_step m0 m → m.(objects) !! t = Some o →
  o.(_scheduled_downtime_depth) =
    Z.of_nat (length (filter (λ d, d.(_in_effect) = true ∧ d.(d_target) = t) m.(_scheduled_downtimes))).
Proof.
  intros Hg Hs Ho. assert (good m) as [Hi _] by (induction Hs; eauto using dt_step_good).
  by rewrite (inv_depth _ _ Hi t o Ho), count_filter.
Qed.

(** ** Handling a downtime ends

    Triggered downtimes are fixed, hosts and services exist, and a triggered downtime is
    not in effect before the one that triggers it. *)
Record settled (m : manager) : Prop := {
  settled_fixed d : d ∈ m.(_scheduled_downtimes) → d.(_triggered_by) ≠ 0 → d.(_fixed) = true;
  settled_target d : d ∈ m.(_scheduled_downtimes) → is_Some (m.(objects) !! d.(d_target));
  settled_nested d p : d ∈ m.(_scheduled_downtimes) → p ∈ m.(_scheduled_downtimes) →
    p.(_downtime_id) = d.(_triggered_by) → d.(_in_effect) = true → p.(_in_effect) = true;
}.

(** The downtimes younger than [id]: the only ones that handling [id] may change. *)
Definition younger (id : Z) (m : manager) : nat :=
  length (filter (λ d, id < d.(_downtime_id)) m.(_scheduled_downtimes)).

Lemma settled_keeps x m m' :
  keeps x m m' → settled m →
  (∀ d p, d ∈ m'.(_scheduled_downtimes) → p ∈ m'.(_scheduled_downtimes) →
    p.(_downtime_id) = d.(_triggered_by) → d.(_in_effect) = true → p.(_in_effect) = true) → settled m'.
Proof.
  intros Hk [Hf Ht _] Hn. split; [| |done].
  - intros d' Hd'. destruct (skel_elem _ _ _ _ Hk Hd') as (d & Hd & [= _ -> -> _]). by apply Hf.
  - intros d' Hd'. destruct (skel_elem _ _ _ _ Hk Hd') as (d & Hd & [= _ _ _ ->]).
    apply elem_of_dom. rewrite (keeps_objects _ _ _ Hk). by apply elem_of_dom, Ht.
Qed.

Lemma spared_iff c m m' d :
  keeps c m m' → spared c d → (d ∈ m'.(_scheduled_downtimes) ↔ d ∈ m.(_scheduled_downtimes)).
Proof.
  intros [_ Hf _ _] Hs. pose proof (list_elem_of_filter (spared c) m.(_scheduled_downtimes) d) as H1.
  pose proof (list_elem_of_filter (spared c) m'.(_scheduled_downtimes) d) as H2. rewrite Hf in H2. tauto.
Qed.

Lemma younger_keeps x id m m' : keeps x m m' → (younger id m' ≤ younger id m)%nat.
Proof.
  intros [Hs _ _ _]. unfold younger.
  assert (∀ l, length (filter (λ d, id < d.(_downtime_id)) l) = length (filter (λ s : Z * Z * bool * target, id < s.1.1.1) (skel <$> l))) as Hl.
  { induction l as [|d l IH]; [done|]. rewrite fmap_cons, !filter_cons. cbn [skel fst].
    destruct (decide (id < _downtime_id d)); cbn [length]; lia. }
  rewrite !Hl. apply sublist_length. clear Hl. induction Hs as [|s l1 l2 _ IH|s l1 l2 _ IH]; [done|..]; rewrite !filter_cons.
  - case_decide; [by apply sublist_skip|done].
  - case_decide; [by apply sublist_cons|done].
Qed.

Lemma younger_child id c d m : find_downtime c m = Some d → id < c → (S (younger c m) ≤ younger id m)%nat.
Proof.
  intros Hf Hlt. destruct (find_downtime_split _ _ _ Hf) as (l1 & l2 & Hl & Hd & _). unfold younger.
  rewrite Hl, !filter_app, !filter_cons, !length_app, decide_False, decide_True by lia. cbn [length].
  assert (∀ l, (length (filter (λ d, (c < d.(_downtime_id))%Z) l) ≤ length (filter (λ d, (id < d.(_downtime_id))%Z) l))%nat) as Hm.
  { induction l as [|x l IH]; [done|]. rewrite !filter_cons. repeat case_decide; cbn [length]; lia. }
  pose proof (Hm l1). pose proof (Hm l2). lia.
Qed.

(** How far the loop of the stop is: two for a downtime that must start first, one for a
    downtime that must stop. *)
Definition to_stop (id : Z) (d : downtime) : nat :=
  if d.(_triggered_by) =? id then if d.(_in_effect) then 1 else 2 else 0.
Definition remaining (id : Z) (m : manager) : nat := sum_list_with (to_stop id) m.(_scheduled_downtimes).

Lemma remaining_split id c m :
  NoDup (ids m) → (∀ d, d ∈ m.(_scheduled_downtimes) → d.(_downtime_id) ≠ c → d.(_triggered_by) = id → spared c d) →
  remaining id m =
    (sum_list_with (to_stop id) (filter (spared c) m.(_scheduled_downtimes)) +
     match find_downtime c m with Some d => to_stop id d | None => 0 end)%nat.
Proof.
  intros Hn Hs. unfold remaining.
  assert (∀ l, l ⊆ m.(_scheduled_downtimes) → c ∉ _downtime_id <$> l →
    sum_list_with (to_stop id) l = sum_list_with (to_stop id) (filter (spared c) l)) as Hl.
  { induction l as [|d l IH]; [done|]. intros Hsub Hc. cbn in Hc. apply not_elem_of_cons in Hc as [Hd Hc].
    rewrite filter_cons. cbn [sum_list_with]. rewrite IH by set_solver. case_decide as Hsp; [done|].
    enough (to_stop id d = 0%nat) by lia. unfold to_stop. destruct (Z.eqb_spec (_triggered_by d) id) as [Ht|]; [|done].
    destruct Hsp. apply Hs; [set_solver|done|done]. }
  destruct (find_downtime c m) as [d|] eqn:Hf.
  - destruct (find_downtime_split _ _ _ Hf) as (l1 & l2 & Hm & Hd & H1).
    assert (c ∉ _downtime_id <$> l2) as H2.
    { unfold ids in Hn. rewrite Hm, fmap_app, fmap_cons, Hd in Hn. apply NoDup_app in Hn as (_ & _ & Hn).
      by apply NoDup_cons in Hn as [? _]. }
    rewrite Hm in Hl |- *. rewrite filter_app, filter_cons, !sum_list_with_app. cbn [sum_list_with].
    rewrite (Hl l1), (Hl l2) by (set_solver || done). rewrite decide_False by (unfold spared; tauto). lia.
  - apply find_downtime_None in Hf. rewrite Nat.add_0_r. by apply Hl.
Qed.

(** The result of handling the downtime [c], which is [d]. *)
Record handled (c : Z) (d : downtime) (m : manager) : Prop := {
  handled_settled : settled m;
  handled_stop : d.(_in_effect) = true → (c ∉ ids m) ∧ first_triggered c m = None;
  handled_start : d.(_in_effect) = false →
    (∃ d', find_downtime c m = Some d' ∧ d'.(_in_effect) = true) ∧
    ∀ x, x ∈ m.(_scheduled_downtimes) → x.(_triggered_by) = c → x.(_in_effect) = true;
}.

(** The downtime that triggers [d], if it is there, is in effect. *)
Definition ready (d : downtime) (m : manager) : Prop :=
  ∀ p, p ∈ m.(_scheduled_downtimes) → p.(_downtime_id) = d.(_triggered_by) → p.(_in_effect) = true.

Definition finishes (fuel : nat) (h : Z → manager → res manager) : Prop :=
  ∀ G c d m, inv G m → settled m → (∀ g, g ∈ G → g < c) → find_downtime c m = Some d → d.(_fixed) = true → ready d m →
  (younger c m + 2 ≤ fuel)%nat → ∃ m', h c m = Ret m' ∧ handled c d m'.

Section Loops.
Context (fuel : nat) (h : Z → manager → res manager) (G : gset Z) (id : Z).
Context (Hfin : finishes fuel h) (Hwell : handles_well G h) (HG : ∀ g, g ∈ G → g ≤ id) (Hid : 0 < id).

(** One turn on a downtime triggered by [id], which is in effect. *)
Lemma child_handled c d m p :
  inv G m → settled m → find_downtime id m = Some p → p.(_in_effect) = true → find_downtime c m = Some d →
  d.(_triggered_by) = id → (younger id m + 1 ≤ fuel)%nat →
  ∃ m', h c m = Ret m' ∧ inv G m' ∧ keeps c m m' ∧ keeps id m m' ∧ handled c d m' ∧ find_downtime id m' = Some p.
Proof.
  intros Hi Hs Hp Hpe Hd Ht Hfuel. destruct (find_elem _ _ _ Hd) as [Hin Hdc].
  destruct (inv_older _ _ Hi d Hin) as [_ Hlt]. destruct (find_elem _ _ _ Hp) as [Hpin Hpid].
  assert (child_of id c m) as Hch.
  { intros x Hx Hxc. pose proof (find_of_elem m x (inv_nodup _ _ Hi) Hx) as Hfx. rewrite Hxc, Hd in Hfx. congruence. }
  assert (∀ g, g ∈ G → g < c) as HGc by (intros g Hg; specialize (HG g Hg); lia).
  destruct (Hfin G c d m Hi Hs HGc Hd) as (m' & Hm' & Hh).
  - apply (settled_fixed _ Hs); [done|lia].
  - intros q Hq Hqid. rewrite Ht, <- Hpid in Hqid.
    pose proof (find_of_elem m q (inv_nodup _ _ Hi) Hq) as Hfq. rewrite Hqid, Hpid, Hp in Hfq. congruence.
  - pose proof (younger_child id c d m Hd ltac:(lia)). lia.
  - destruct (Hwell c m m' Hi HGc Hm') as [Hi' Hk]. exists m'. split_and!; try done.
    + eapply keeps_child; [done|done|lia].
    + apply (spared_iff c m m' p Hk) in Hpin; [|split; [lia|destruct (inv_older _ _ Hi p (proj1 (find_elem _ _ _ Hp))); lia]].
      rewrite <- Hpid. by apply find_of_elem; [apply Hi'|].
Qed.

(** Handling a downtime triggered by [id] brings the stop nearer. *)
Lemma remaining_step c d m m' :
  inv G m → inv G m' → keeps c m m' → find_downtime c m = Some d → d.(_triggered_by) = id → handled c d m' →
  (remaining id m' < remaining id m)%nat.
Proof.
  intros Hi Hi' Hk Hd Ht [_ Hstop Hstart]. destruct (find_elem _ _ _ Hd) as [Hin Hdc].
  destruct (inv_older _ _ Hi d Hin) as [_ Hlt].
  rewrite (remaining_split id c m (inv_nodup _ _ Hi)), (remaining_split id c m' (inv_nodup _ _ Hi')), (keeps_spared _ _ _ Hk), Hd;
    [|intros x _ ? ?; split; [done|lia]..].
  assert (to_stop id d = if d.(_in_effect) then 1%nat else 2%nat) as -> by (unfold to_stop; by rewrite Ht, Z.eqb_refl).
  destruct (_in_effect d).
  - rewrite (proj2 (find_downtime_None c m')) by tauto. lia.
  - destruct (Hstart eq_refl) as [(d' & -> & He) _]. unfold to_stop. rewrite He. destruct (_ =? _); lia.
Qed.

Lemma first_triggered_found m c :
  inv G m → first_triggered id m = Some c → ∃ d, find_downtime c m = Some d ∧ d.(_triggered_by) = id.
Proof.
  intros Hi Hf. destruct (first_triggered_child G id m c Hi Hf) as (_ & Hc & [d Hd]). exists d. split; [done|].
  destruct (find_elem _ _ _ Hd). by apply Hc.
Qed.

Lemma stop_loop_ends n : ∀ m p,
  inv G m → settled m → find_downtime id m = Some p → p.(_in_effect) = true → (younger id m + 1 ≤ fuel)%nat →
  (remaining id m < 2 * n)%nat → ∃ m', stop_loop n h id m = Ret m' ∧ settled m'.
Proof.
  induction n as [|n IH]; intros m p Hi Hs Hp Hpe Hfuel Hr; [lia|]. cbn [stop_loop]. unfold handle_first.
  destruct (first_triggered id m) as [c1|] eqn:Hf1; [|rewrite Hf1; by eexists].
  destruct (first_triggered_found m c1 Hi Hf1) as (d1 & Hd1 & Ht1).
  destruct (child_handled c1 d1 m p) as (m1 & -> & Hi1 & Hk1 & Hkid1 & Hh1 & Hp1); try done.
  pose proof (remaining_step c1 d1 m m1 Hi Hi1 Hk1 Hd1 Ht1 Hh1) as Hr1. pose proof (younger_keeps _ id _ _ Hkid1) as Hy1.
  destruct (first_triggered id m1) as [c2|] eqn:Hf2; [|eexists; split; [done|apply Hh1]].
  destruct (first_triggered_found m1 c2 Hi1 Hf2) as (d2 & Hd2 & Ht2).
  destruct (child_handled c2 d2 m1 p) as (m2 & -> & Hi2 & Hk2 & Hkid2 & Hh2 & Hp2); try done; [apply Hh1|lia|].
  pose proof (remaining_step c2 d2 m1 m2 Hi1 Hi2 Hk2 Hd2 Ht2 Hh2) as Hr2. pose proof (younger_keeps _ id _ _ Hkid2) as Hy2.
  apply (IH m2 p); try done; [apply Hh2|lia|lia].
Qed.

(** The loop of the start: those it has seen are in effect, the others are not. *)
Lemma start_loop_ends cs : ∀ m p,
  NoDup cs → inv G m → settled m → find_downtime id m = Some p → p.(_in_effect) = true → (younger id m + 1 ≤ fuel)%nat →
  (∀ x, x ∈ m.(_scheduled_downtimes) → x.(_triggered_by) = id →
    if decide (x.(_downtime_id) ∈ cs) then x.(_in_effect) = false else x.(_in_effect) = true) →
  (∀ c, c ∈ cs → ∀ x, x ∈ m.(_scheduled_downtimes) → x.(_downtime_id) = c → x.(_triggered_by) = id) →
  ∃ m', start_loop h cs m = Ret m' ∧ settled m' ∧ find_downtime id m' = Some p ∧
    ∀ x, x ∈ m'.(_scheduled_downtimes) → x.(_triggered_by) = id → x.(_in_effect) = true.
Proof.
  induction cs as [|c cs IH]; intros m p Hnd Hi Hs Hp Hpe Hfuel Hx Hcs; cbn [start_loop].
  { by exists m. }
  apply NoDup_cons in Hnd as [Hc Hnd].
  destruct (find_downtime c m) as [d|] eqn:Hd; cycle 1.
  { apply IH with (p := p); try done; [|intros; eapply Hcs; [by right|done..]].
    intros x Hxin Hxt. specialize (Hx x Hxin Hxt). apply find_downtime_None in Hd.
    assert (x.(_downtime_id) ≠ c) by (intros <-; apply Hd; by apply list_elem_of_fmap_2).
    by rewrite (decide_ext _ (_downtime_id x ∈ cs)) in Hx by set_solver. }
  destruct (find_elem _ _ _ Hd) as [Hdin Hdc].
  assert (d.(_triggered_by) = id) as Ht by (eapply Hcs; [left|done..]).
  assert (d.(_in_effect) = false) as He. { specialize (Hx d Hdin Ht). by rewrite decide_True in Hx by (rewrite Hdc; left). }
  destruct (child_handled c d m p) as (m1 & -> & Hi1 & Hk1 & Hkid1 & Hh1 & Hp1); try done.
  destruct (handled_start _ _ _ Hh1 He) as [(d1 & Hd1 & He1) _]. rewrite Hd1.
  pose proof (younger_keeps _ id _ _ Hkid1) as Hy1. destruct (inv_older _ _ Hi d Hdin) as [_ Hlt].
  apply IH with (p := p); try done; [apply Hh1|lia|..].
  - intros x Hxin Hxt. destruct (decide (x.(_downtime_id) = c)) as [Hxc|Hxc].
    + rewrite decide_False by congruence. pose proof (find_of_elem m1 x (inv_nodup _ _ Hi1) Hxin) as Hfx. congruence.
    + assert (spared c x) as Hsp by (split; [done|lia]).
      specialize (Hx x (proj1 (spared_iff c m m1 x Hk1 Hsp) Hxin) Hxt).
      by rewrite (decide_ext _ (_downtime_id x ∈ cs)) in Hx by set_solver.
  - intros c' Hc' x Hxin Hxc. destruct (skel_elem _ _ _ _ Hk1 Hxin) as (x0 & Hx0 & [= Hid0 -> _ _]).
    eapply Hcs; [by right|done|congruence].
Qed.
End Loops.

Lemma remaining_bound G id m : inv G m → (remaining id m ≤ 2 * younger id m)%nat.
Proof.
  intros [_ _ Hold]. unfold remaining, younger. induction (_scheduled_downtimes m) as [|d l IH]; [done|].
  assert (∀ x, x ∈ l → 0 < x.(_downtime_id) ∧ 0 ≤ x.(_triggered_by) < x.(_downtime_id)) as Hl by (intros; apply Hold; by right).
  specialize (IH Hl). destruct (Hold d) as [_ Hd]; [left|]. rewrite filter_cons. cbn [sum_list_with].
  unfold to_stop at 1. destruct (Z.eqb_spec (_triggered_by d) id).
  - rewrite decide_True by lia. cbn [length]. destruct (_in_effect d); lia.
  - case_decide; cbn [length]; lia.
Qed.

Lemma update_elem id (f : downtime → downtime) (l : list downtime) x :
  x ∈ (λ y, if y.(_downtime_id) =? id then f y else y) <$> l →
  (x ∈ l ∧ x.(_downtime_id) ≠ id) ∨ ∃ y, y ∈ l ∧ y.(_downtime_id) = id ∧ x = f y.
Proof.
  intros (y & -> & Hy)%list_elem_of_fmap. destruct (Z.eqb_spec (_downtime_id y) id) as [He|He]; [right; by exists y|by left].
Qed.

(** Starting [id] when the downtime that triggers it is in effect. *)
Lemma begin_settled G now id d m :
  inv G m → settled m → find_downtime id m = Some d → d.(_in_effect) = false → id ∉ G → ready d m →
  settled (begin_downtime now d m).
Proof.
  intros Hi Hs Hf He Hg Hr. destruct (find_elem _ _ _ Hf) as [Hin Hid].
  destruct (begin_inv G now id d m Hi Hf (settled_target _ Hs d Hin) He Hg) as (_ & Hk & _ & _).
  eapply settled_keeps; [done..|]. destruct (begin_fields now d m) as (-> & _ & _). rewrite Hid.
  assert (∀ y, y ∈ m.(_scheduled_downtimes) → y.(_downtime_id) = id → y = d) as Huniq.
  { intros y Hy Hyid. pose proof (find_of_elem m y (inv_nodup _ _ Hi) Hy) as Hfy. rewrite Hyid, Hf in Hfy. congruence. }
  intros x p [[Hx Hxid]|(y & Hy & Hyid & ->)]%update_elem [[Hp Hpid]|(q & Hq & Hqid & ->)]%update_elem Hpx Hxe.
  - by apply (settled_nested _ Hs x p).
  - done.
  - rewrite (Huniq y Hy Hyid) in Hpx. by apply Hr.
  - done.
Qed.

Lemma finishes_handle now fuel : finishes fuel (handle fuel now).
Proof.
  induction fuel as [|fuel IH]; intros G id d m Hi Hs HG Hf Hfix Hr Hfuel; [lia|]. cbn [handle]. rewrite Hf.
  destruct (find_elem _ _ _ Hf) as [Hin Hid]. destruct (settled_target _ Hs d Hin) as [o Ho]. rewrite Ho.
  destruct (inv_older _ _ Hi d Hin) as [Hpos _].
  unfold waits. rewrite Hfix. cbn [negb andb]. assert (id ∉ G) as HidG by (intros Hx; specialize (HG id Hx); lia).
  destruct (_in_effect d) eqn:He.
  - destruct (end_inv G id d m Hi Hf He HidG) as (Hi1 & Hd1 & Ho1 & Hn1).
    assert (∀ g, g ∈ G ∪ {[ id ]} → g ≤ id) as HG1.
    { intros g [Hg|Hg]%elem_of_union; [specialize (HG g Hg); lia|set_solver by lia]. }
    assert (settled (end_downtime d m)) as Hs1.
    { apply (settled_keeps id m); [split; by rewrite ?Hd1|done|]. rewrite Hd1. apply Hs. }
    assert (find_downtime id (end_downtime d m) = Some d) as Hf1 by (unfold find_downtime; by rewrite Hd1).
    assert (younger id (end_downtime d m) = younger id m) as Hy1 by (unfold younger; by rewrite Hd1).
    pose proof (remaining_bound _ id _ Hi1) as Hrb.
    destruct (stop_loop_ends fuel (handle fuel now) (G ∪ {[ id ]}) id IH (handle_inv fuel now _) HG1 ltac:(lia)
      fuel (end_downtime d m) d Hi1 Hs1 Hf1 He) as (m2 & Hst & Hs2); [lia..|]. rewrite Hst.
    destruct (stop_loop_inv _ (handle fuel now) id fuel (handle_inv fuel now _) HG1 _ _ Hi1 Hst) as (Hi2 & Hk2 & Hnone).
    destruct (delete_inv G id m2 Hi2) as (Hi3 & Hk3 & Hgone). exists (delete_downtime id m2). split; [done|]. split; [|intros _; split; [done|]|congruence].
    + eapply settled_keeps; [done..|]. intros x p Hx Hp. apply (settled_nested _ Hs2).
      * revert Hx. unfold delete_downtime. destruct (find_downtime id m2); [|done]. apply remove_id_elem.
      * revert Hp. unfold delete_downtime. destruct (find_downtime id m2); [|done]. apply remove_id_elem.
    + unfold first_triggered in Hnone |- *. apply fmap_None, list_find_None in Hnone. apply fmap_None, list_find_None.
      rewrite Forall_forall in Hnone |- *. intros x Hx. apply Hnone. revert Hx. unfold delete_downtime.
      destruct (find_downtime id m2); [|done]. apply remove_id_elem.
  - destruct (begin_inv G now id d m Hi Hf (mk_is_Some _ _ Ho) He HidG) as (Hi1 & Hk1 & Hf1 & Hsk).
    pose proof (begin_settled G now id d m Hi Hs Hf He HidG Hr) as Hs1.
    pose proof (younger_keeps _ id _ _ Hk1) as Hy1.
    set (m1 := begin_downtime now d m) in *.
    destruct (start_loop_ends fuel (handle fuel now) G id IH (handle_inv fuel now _)) with
      (cs := triggered id m1) (m := m1) (p := set_in_effect true d) as (m2 & Hst & Hs2 & Hf2 & Hall); try done; [..|].
    + intros g Hg. specialize (HG g Hg). lia.
    + lia.
    + unfold triggered. eapply sublist_NoDup; [apply (inv_nodup _ _ Hi1)|]. apply fmap_sublist, sublist_filter.
    + lia.
    + intros x Hx Hxt. rewrite decide_True by (apply list_elem_of_fmap_2, list_elem_of_filter; done).
      unfold m1 in Hx. destruct (begin_fields now d m) as (Hdts & _ & _). rewrite Hdts, Hid in Hx.
      apply update_elem in Hx as [[Hx Hxid]|(y & Hy & Hyid & ->)].
      * destruct (_in_effect x) eqn:Hxe; [|done]. rewrite <- He. symmetry. apply (settled_nested _ Hs x d); congruence.
      * cbn in Hxt. destruct (inv_older _ _ Hi y Hy). lia.
    + intros c Hc. destruct (triggered_children G id m1 c Hi1 Hc) as [_ Hch]. intros x Hx Hxc. by apply Hch.
    + exists m2. split; [done|]. split; [done|congruence|intros _]. split; [|done]. by eexists.
Qed.

(** The handling of a downtime ends, however many downtimes it triggers and however
    deep, with a fuel of the number of younger downtimes plus two, when triggered downtimes
    are fixed, hosts and services exist and no triggered downtime is in effect before the
    one that triggers it.  A downtime that was in effect has left the list with all those
    it triggers; another one is in effect, and so are all those it triggers. *)
Theorem handle_ends fuel now id d m :
  good m → settled m → find_downtime id m = Some d → d.(_fixed) = true → ready d m → (younger id m + 2 ≤ fuel)%nat →
  ∃ m', handle fuel now id m = Ret m' ∧ good m' ∧ handled id d m'.
Proof.
  intros Hg Hs Hf Hfix Hr Hfuel.
  destruct (finishes_handle now fuel ∅ id d m (proj1 Hg) Hs) as (m' & Hh & Hd); try done.
  exists m'. split_and!; [done|by eapply handle_good|done].
Qed.

(** ** Behaviours against the intent *)

(** The first downtime that [id] triggers is flexible, and its host or service is fine. *)
Definition stuck (id : Z) (m : manager) : Prop :=
  ∃ c d o, first_triggered id m = Some c ∧ find_downtime c m = Some d ∧ m.(objects) !! d.(d_target) = Some o ∧ waits o d = true.

Lemma waits_ok o o' d : o'.(m_ok) = o.(m_ok) → waits o' d = waits o d.
Proof. intros Ho. unfold waits. by rewrite Ho. Qed.

Lemma list_find_update {A} (P : A → Prop) `{!∀ x, Decision (P x)} (g : A → A) l :
  (∀ x, P (g x) ↔ P x) → list_find P (g <$> l) = (λ p, (p.1, g p.2)) <$> list_find P l.
Proof.
  intros Hg. induction l as [|x l IH]; [done|]. cbn. rewrite (decide_ext (P (g x)) (P x)) by done.
  case_decide; [done|]. rewrite IH. by destruct (list_find P l) as [[i y]|].
Qed.

Lemma wait_fields d m :
  (wait_for_problem d m).(_scheduled_downtimes) =
    ((λ x, if x.(_downtime_id) =? d.(_downtime_id) then set_incremented x else x) <$> m.(_scheduled_downtimes)) ∧
  (wait_for_problem d m).(objects) =
    alter (λ o, set_pending (o.(_pending_flex_downtime) + 1) o) d.(d_target) m.(objects).
Proof. done. Qed.

Lemma stuck_wait id c d o m :
  first_triggered id m = Some c → find_downtime c m = Some d → m.(objects) !! d.(d_target) = Some o → waits o d = true →
  stuck id (wait_for_problem d m).
Proof.
  intros Hf Hd Ho Hw. destruct (find_elem _ _ _ Hd) as [_ Hdc]. destruct (wait_fields d m) as [Hl Hobj].
  exists c, (set_incremented d), (set_pending (o.(_pending_flex_downtime) + 1) o). split_and!.
  - unfold first_triggered in *. rewrite Hl, list_find_update by (intros x; by destruct (_ =? _)).
    destruct (list_find _ _) as [[i x]|]; [|done]. injection Hf as <-. cbn. by destruct (_ =? _).
  - unfold find_downtime in *. rewrite Hl, list_find_update by (intros x; by destruct (_ =? _)).
    destruct (list_find _ _) as [[i x]|]; [|done]. injection Hd as ->. cbn. by rewrite Z.eqb_refl.
  - rewrite Hobj. cbn. rewrite lookup_alter_eq. by rewrite Ho.
  - exact Hw.
Qed.

Lemma handle_wait fuel now c d o m :
  find_downtime c m = Some d → m.(objects) !! d.(d_target) = Some o → waits o d = true →
  handle (S fuel) now c m = Ret (wait_for_problem d m).
Proof. intros Hd Ho Hw. cbn [handle]. by rewrite Hd, Ho, Hw. Qed.

Lemma stop_loop_stuck fuel now id n m : stuck id m → stop_loop n (handle fuel now) id m = Throw fuel_exhausted.
Proof.
  intros Hs. destruct fuel as [|fuel].
  { destruct n; [done|]. cbn [stop_loop]. unfold handle_first. by destruct Hs as (c & d & o & -> & _). }
  revert m Hs. induction n as [|n IH]; intros m (c & d & o & Hf & Hd & Ho & Hw); [done|]. cbn [stop_loop]. unfold handle_first.
  rewrite Hf, (handle_wait fuel now c d o m Hd Ho Hw).
  destruct (stuck_wait id c d o m Hf Hd Ho Hw) as (c1 & d1 & o1 & Hf1 & Hd1 & Ho1 & Hw1).
  rewrite Hf1, (handle_wait fuel now c1 d1 o1 _ Hd1 Ho1 Hw1). apply IH. by eapply stuck_wait.
Qed.

(** A downtime in effect that triggers a flexible one, of a host or service that is fine,
    never stops: its loop handles the flexible downtime again and again. *)
Theorem flexible_child_loops fuel now id d o m :
  find_downtime id m = Some d → m.(objects) !! d.(d_target) = Some o → waits o d = false → d.(_in_effect) = true →
  stuck id m → handle fuel now id m = Throw fuel_exhausted.
Proof.
  intros Hd Ho Hw He (c & x & ox & Hf & Hx & Hox & Hwx). destruct fuel as [|fuel]; [done|]. cbn [handle]. rewrite Hd, Ho, Hw, He.
  destruct (end_fields d m) as (Hl & _ & _).
  assert (∃ ox', (end_downtime d m).(objects) !! x.(d_target) = Some ox' ∧ ox'.(m_ok) = ox.(m_ok)) as (ox' & Hox' & Hok).
  { unfold end_downtime. cbv zeta. set (m1 := update_object _ _ (send _ m)).
    assert (∃ o1, m1.(objects) !! x.(d_target) = Some o1 ∧ o1.(m_ok) = ox.(m_ok)) as (o1 & Ho1 & Hok1).
    { unfold m1. cbn. destruct (decide (d.(d_target) = x.(d_target))) as [->|Hne].
      - rewrite lookup_alter_eq, Hox. by eexists.
      - rewrite lookup_alter_ne by done. by exists ox. }
    set (n := Notify _ _ _ _). destruct (notify_if_out_fields (d_target d) n m1) as (_ & Hno & _).
    destruct (negb _ && _); cbn [update_object send set_objects objects]; rewrite Hno; [|by exists o1].
    destruct (decide (d.(d_target) = x.(d_target))) as [->|Hne].
    - rewrite lookup_alter_eq, Ho1. eexists. split; [done|]. by destruct (0 <? _).
    - rewrite lookup_alter_ne by done. by exists o1. }
  rewrite stop_loop_stuck; [done|]. exists c, x, ox'. unfold first_triggered, find_downtime in *. rewrite Hl.
  by rewrite (waits_ok ox ox' x).
Qed.

(** The expiry leaves the downtimes in effect. *)
Lemma expired_keeps now L x l : NoDup (_downtime_id <$> L) → l ⊆ L → x ∈ L → x.(_in_effect) = true → ∀ m,
  x ∈ m.(_scheduled_downtimes) →
  x ∈ (foldl (λ m d, if negb d.(_in_effect) && (d.(_end_time) <? now) then delete_downtime d.(_downtime_id) m else m)
         m l).(_scheduled_downtimes).
Proof.
  intros HL. induction l as [|d l IH]; intros Hl HxL He m Hx; [done|]. cbn [foldl].
  destruct (negb _ && _) eqn:Hd; [|apply IH; set_solver]. apply IH; [set_solver|done|done|].
  apply andb_true_iff in Hd as [Hd%negb_true_iff _]. unfold delete_downtime. destruct (find_downtime _ _); [|done]. cbn.
  assert (x.(_downtime_id) ≠ d.(_downtime_id)) as Hne.
  { intros Heq. assert (d ∈ L) as HdL by set_solver. pose (m0 := set_dts L m).
    pose proof (find_of_elem m0 d HL HdL) as H1. pose proof (find_of_elem m0 x HL HxL) as H2. congruence. }
  clear -Hx Hne. induction (_scheduled_downtimes m) as [|y ys IHy]; [done|]. cbn.
  destruct (Z.eqb_spec (_downtime_id y) (_downtime_id d)); set_solver.
Qed.

(** A flexible downtime that started because its host or service was already bad at its
    start time does not end when its host or service is fine at its end: it only counts
    as pending, and it is still in effect. *)
Theorem flexible_never_ends fuel now id d o m :
  good m → find_downtime id m = Some d → m.(objects) !! d.(d_target) = Some o →
  d.(_fixed) = false → d.(_start_flex_downtime) = false → d.(_in_effect) = true → o.(m_ok) = true →
  ∃ m' o', handle (S fuel) now id m = Ret m' ∧ find_downtime id m' = Some (set_incremented d) ∧
    m'.(objects) !! d.(d_target) = Some o' ∧ o'.(_scheduled_downtime_depth) = o.(_scheduled_downtime_depth) ∧
    ∀ later, set_incremented d ∈ (check_for_expired_downtime later m').(_scheduled_downtimes).
Proof.
  intros Hg Hd Ho Hfix Hflex He Hok.
  assert (waits o d = true) as Hw by (unfold waits; by rewrite Hfix, Hflex, Hok).
  destruct (find_elem _ _ _ Hd) as [_ Hid]. destruct (wait_fields d m) as [Hl Hobj].
  assert (find_downtime id (wait_for_problem d m) = Some (set_incremented d)) as Hd'.
  { unfold find_downtime in *. rewrite Hl, list_find_update by (intros x; by destruct (_ =? _)).
    destruct (list_find _ _) as [[i x]|]; [|done]. injection Hd as ->. cbn. by rewrite Z.eqb_refl. }
  exists (wait_for_problem d m), (set_pending (o.(_pending_flex_downtime) + 1) o). split_and!.
  - by apply (handle_wait fuel now id d o m).
  - done.
  - by rewrite Hobj, lookup_alter_eq, Ho.
  - done.
  - intros later. destruct (find_elem _ _ _ Hd') as [Hin _]. apply (expired_keeps later (wait_for_problem d m).(_scheduled_downtimes)); [|done..].
    apply (inv_nodup ∅). by apply (wait_inv ∅ id d m (proj1 Hg) Hd).
Qed.

Module Demo.
(** A service of host 1 and a service of host 2, both fine. *)
Definition svc : target := (1, Some 1).
Definition other : target := (2, Some 7).
Definition start : manager :=
  Manager [] 0 {[ svc := Monitored true 0 0 "h1" "s1"; other := Monitored true 0 0 "h2" "s7" ]}
    (Loop [] [] 50 50 0) ∅ 1 4096 [].

Definition ret {A} (d : A) (r : res A) : A := match r with Ret a => a | Throw _ => d end.

(** A downtime from 100 to 200, and one that it triggers. *)
Definition parent : manager :=
  (ret (None, start) (schedule_downtime 1 (λ _, []) 50 svc 50 "admin" "upgrade" 100 200 true 0 100 start)).2.
Definition both (fixed : bool) : manager :=
  (ret (None, start) (schedule_downtime 1 (λ _, []) 51 other 51 "admin" "depends" 100 200 fixed 1 100 parent)).2.
Definition begun (fixed : bool) : manager := ret start (handle_scheduled_downtime_by_id 4 100 1 (both fixed)).

Lemma start_good : good start.
Proof.
  split; [|split; [done|done]]. split; [by apply NoDup_nil|..].
  - intros t o Ho. cbn in Ho. rewrite !lookup_insert_Some in Ho.
    by destruct Ho as [[_ <-]|[_ [[_ <-]|[_ Ho]]]].
  - by intros d ?%not_elem_of_nil.
Qed.

Lemma both_steps : rtc dt_step start (both true).
Proof.
  eapply rtc_l; [|apply rtc_once].
  - eapply (step_schedule 1 (λ _, []) 50 svc 50 "admin" "upgrade" 100 200 true 0 100 start _ parent); [done..|].
    vm_compute. reflexivity.
  - eapply (step_schedule 1 (λ _, []) 51 other 51 "admin" "depends" 100 200 true 1 100 parent _ (both true)); [done..|].
    vm_compute. reflexivity.
Qed.

Lemma both_good : good (both true).
Proof. generalize start_good. induction both_steps; eauto using dt_step_good. Qed.

Lemma both_settled : settled (both true).
Proof.
  assert (∀ d, d ∈ (both true).(_scheduled_downtimes) → d.(_fixed) = true ∧ is_Some ((both true).(objects) !! d.(d_target)) ∧
    d.(_in_effect) = false) as Hall.
  { intros d Hd. assert ((both true).(_scheduled_downtimes) = [
      Downtime svc 50 "admin" "upgrade" 100 200 true 0 100 1 false 1 false false;
      Downtime other 51 "admin" "depends" 100 200 true 1 100 2 false 2 false false]) as Heq by (vm_compute; done).
    rewrite Heq in Hd. repeat (apply elem_of_cons in Hd as [->|Hd]; [cbn; split_and!; try done; vm_compute; by eexists|]).
    by apply not_elem_of_nil in Hd. }
  split.
  - intros d Hd _. by destruct (Hall d Hd).
  - intros d Hd. by destruct (Hall d Hd) as (_ & ? & _).
  - intros d p Hd _ _ He. destruct (Hall d Hd) as (_ & _ & Hf). congruence.
Qed.
End Demo.

(** Both services are in downtime once the first downtime has started. *)
Lemma downtime_depth_exact_witness :
  ∃ o, (Demo.begun true).(objects) !! Demo.other = Some o ∧ o.(_scheduled_downtime_depth) = 1.
Proof.
  assert ((Demo.begun true).(objects) !! Demo.other = Some (Monitored true 1 0 "h2" "s7")) as Ho by (vm_compute; done).
  exists (Monitored true 1 0 "h2" "s7"). split; [exact Ho|].
  refine (eq_trans (downtime_depth_exact Demo.start (Demo.begun true) Demo.other _ Demo.start_good _ Ho) _); [|vm_compute; done].
  eapply rtc_r; [exact Demo.both_steps|].
  eapply (step_event 4 100 (TimedEvent EVENT_SCHEDULED_DOWNTIME 100 false 0 false None (cell 4096 1) 0)).
  vm_compute. reflexivity.
Defined.

(** Both start; the second one is triggered. *)
Lemma handle_ends_witness :
  ∃ m', handle 3 100 1 (Demo.both true) = Ret m' ∧ good m' ∧
    ∃ d', find_downtime 1 m' = Some d' ∧ d'.(_in_effect) = true.
Proof.
  destruct (handle_ends 3 100 1 (Downtime Demo.svc 50 "admin" "upgrade" 100 200 true 0 100 1 false 1 false false) (Demo.both true))
    as (m' & Hh & Hg & Hd).
  - exact Demo.both_good.
  - exact Demo.both_settled.
  - vm_compute. done.
  - done.
  - intros p Hp Hid. destruct (inv_older _ _ (proj1 Demo.both_good) p Hp). cbn in Hid. lia.
  - vm_compute. lia.
  - exists m'. split_and!; [done|done|]. by apply Hd.
Defined.
