(* ===== verification/Notifier.v ===== *)
(** * Notifications: who is told what, and when

    [engine/src/notifier.cc], [engine/src/notification.cc] and the filters of
    [engine/src/contact.cc], [engine/src/escalation.cc],
    [engine/src/hostescalation.cc], [engine/src/serviceescalation.cc],
    [engine/src/host.cc] and [engine/src/service.cc] they call.  A notifier (a
    host or a service) decides for each category of notification whether one
    makes sense now, chooses the contacts, sends, and remembers what was sent.

    Time periods, dependencies and the modules that may veto a notification
    answer from outside: [env] holds their answers, and the value of the clock,
    for one call.  The notification commands themselves are processes the engine
    starts; their outcome does not change what is modelled here. *)

From S2P Require Import Prelude.

#[local] Open Scope Z_scope.

(** ** Enumerations ([notifier.hh]) *)

Inductive notification_category :=
  | cat_normal | cat_recovery | cat_acknowledgement | cat_flapping | cat_downtime | cat_custom.

#[export] Instance notification_category_eq_dec : EqDecision notification_category.
Proof. solve_decision. Defined.

Inductive notifier_type := host_notification | service_notification.

#[export] Instance notifier_type_eq_dec : EqDecision notifier_type.
Proof. solve_decision. Defined.

Inductive reason_type :=
  | reason_normal | reason_recovery | reason_acknowledgement | reason_flappingstart
  | reason_flappingstop | reason_flappingdisabled | reason_downtimestart | reason_downtimeend
  | reason_downtimecancelled | reason_custom.

#[export] Instance reason_type_eq_dec : EqDecision reason_type.
Proof. solve_decision. Defined.

(** [notification_flag] *)
Definition up : Z := 1.
Definition down : Z := 2.
Definition unreachable : Z := 4.
Definition ok : Z := 8.
Definition warning : Z := 16.
Definition critical : Z := 32.
Definition unknown : Z := 64.
Definition flappingstart : Z := 128.
Definition flappingstop : Z := 256.
Definition flappingdisabled : Z := 512.
Definition downtime : Z := 1024.

(** [notification_option] *)
Definition notification_option_none : Z := 0.
Definition notification_option_broadcast : Z := 1.
Definition notification_option_forced : Z := 2.
Definition notification_option_increment : Z := 4.

(** [x & flag], as a condition *)
Definition has_flag (x flag : Z) : bool := negb (Z.land x flag =? 0).

Definition get_category (type : reason_type) : notification_category :=
  match type with
  | reason_normal => cat_normal
  | reason_recovery => cat_recovery
  | reason_acknowledgement => cat_acknowledgement
  | reason_flappingstart | reason_flappingstop | reason_flappingdisabled => cat_flapping
  | reason_downtimestart | reason_downtimeend | reason_downtimecancelled => cat_downtime
  | reason_custom => cat_custom
  end.

(** ** Data *)

Record notification := Notif {
  n_type : reason_type;
  n_author : string;
  n_message : string;
  n_options : Z;
  n_id : Z;
  n_number : Z;
  n_escalated : bool;
  n_interval : Z;
  _notified_contact : gset string;
}.

Definition sent_to (n : notification) (user : string) : bool :=
  bool_decide (user ∈ n.(_notified_contact)).

Definition add_contacts (l : gset string) (n : notification) : notification :=
  Notif n.(n_type) n.(n_author) n.(n_message) n.(n_options) n.(n_id) n.(n_number)
    n.(n_escalated) n.(n_interval) (n.(_notified_contact) ∪ l).

Record contact := Contact {
  c_name : string;
  c_alias : string;
  (** [_notify_on[host_notification]] and [_notify_on[service_notification]] *)
  c_host_notify_on : Z;
  c_service_notify_on : Z;
  _host_notifications_enabled : bool;
  _service_notifications_enabled : bool;
}.

#[export] Instance contact_eq_dec : EqDecision contact.
Proof. solve_decision. Defined.

Record escalation := Escalation {
  (** [notifier_ptr == this] *)
  e_mine : bool;
  _first_notification : Z;
  _last_notification_e : Z;
  e_notification_interval : Z;
  _escalate_on : Z;
  (** [_escalation_period] is not empty *)
  e_has_period : bool;
  (** the members of its contact groups, group by group *)
  e_contactgroups : list (list contact);
}.

Inductive AckType := AckNone | AckNormal | AckSticky.

#[export] Instance AckType_eq_dec : EqDecision AckType.
Proof. solve_decision. Defined.

(** What a service sees of its host. *)
Record host_view := HostView { h_up : bool; h_hard : bool; h_downtime_depth : Z }.

Record notifier := Notifier {
  _notifier_type : notifier_type;
  (** [get_current_state_int()] *)
  current_state : Z;
  (** [get_state_type() == hard] *)
  hard : bool;
  is_flapping : bool;
  _is_volatile : bool;
  scheduled_downtime_depth : Z;
  (** [_host_ptr] of a service *)
  _host_ptr : host_view;
  last_hard_state_change : Z;
  _notifications_enabled : bool;
  _out_notification_type : Z;
  _notification_interval : Z;
  _first_notification_delay : Z;
  _recovery_notification_delay : Z;
  _acknowledgement_type : AckType;
  _escalations : list escalation;
  _contacts : list contact;
  _contact_groups : list (list contact);
  (** what was sent *)
  _notification_number : Z;
  _notification : notification_category → option notification;
  _last_notification : Z;
  _current_notification_id : Z;
}.

Definition set_sent (num : Z) (nt : notification_category → option notification) (last id : Z)
    (n : notifier) : notifier :=
  Notifier n.(_notifier_type) n.(current_state) n.(hard) n.(is_flapping) n.(_is_volatile)
    n.(scheduled_downtime_depth) n.(_host_ptr) n.(last_hard_state_change)
    n.(_notifications_enabled) n.(_out_notification_type) n.(_notification_interval)
    n.(_first_notification_delay) n.(_recovery_notification_delay) n.(_acknowledgement_type)
    n.(_escalations) n.(_contacts) n.(_contact_groups) num nt last id.

Definition upd (cat : notification_category) (x : option notification)
    (f : notification_category → option notification) : notification_category → option notification :=
  λ c, if decide (c = cat) then x else f c.

(** The result of [broker_notification_data] at the start of a notification. *)
Inductive neb_result := NEB_OK | NEBERROR_CALLBACKCANCEL | NEBERROR_CALLBACKOVERRIDE.

#[export] Instance neb_result_eq_dec : EqDecision neb_result.
Proof. solve_decision. Defined.

Record env := Env {
  (** configuration *)
  enable_notifications : bool;
  interval_length : Z;
  send_recovery_notifications_anyways : bool;
  soft_state_dependencies : bool;
  (** the clock *)
  now : Z;
  (** [check_time_against_period_for_notif] on the period of the notifier, and
      on the period of a contact for this type of notifier *)
  in_notification_period : bool;
  contact_in_period : contact → notifier_type → bool;
  (** [check_time_against_period] on the period of an escalation *)
  escalation_in_period : escalation → bool;
  (** [authorized_by_dependencies(dependency::notification)] *)
  authorized_by_dependencies : bool;
  (** what the event broker modules answer: at the start of a notification, and
      at the start of the notification of one contact *)
  broker_notification_data : neb_result;
  broker_contact_notification_data : contact → neb_result;
  (** [contact::contacts], in the order of its iterators *)
  all_contacts : list contact;
}.

(** ** The state of the notifier *)

Definition get_notify_on (n : notifier) (type : Z) : bool := has_flag n.(_out_notification_type) type.
Definition add_notify_on (type : Z) (out : Z) : Z := Z.lor out type.
Definition remove_notify_on (type : Z) (out : Z) : Z := Z.land out (Z.lnot type).

Definition problem_has_been_acknowledged (n : notifier) : bool :=
  negb (bool_decide (n.(_acknowledgement_type) = AckNone)).

(** [host::is_in_downtime], [service::is_in_downtime] *)
Definition is_in_downtime (n : notifier) : bool :=
  match n.(_notifier_type) with
  | host_notification => 0 <? n.(scheduled_downtime_depth)
  | service_notification =>
      (0 <? n.(scheduled_downtime_depth)) || (0 <? n.(_host_ptr).(h_downtime_depth))
  end.

(** The flag of a state: [up, down, unreachable] or
    [ok, warning, critical, unknown]; out of the array, 0. *)
Definition state_flag (t : notifier_type) (state : Z) : Z :=
  match t with
  | host_notification => nth (Z.to_nat state) [up; down; unreachable] 0
  | service_notification => nth (Z.to_nat state) [ok; warning; critical; unknown] 0
  end.

(** [host::get_notify_on_current_state], [service::get_notify_on_current_state] *)
Definition get_notify_on_current_state (e : env) (n : notifier) : bool :=
  match n.(_notifier_type) with
  | host_notification => get_notify_on n (state_flag host_notification n.(current_state))
  | service_notification =>
      if negb n.(_host_ptr).(h_up) && (n.(_host_ptr).(h_hard) || e.(soft_state_dependencies))
      then false
      else get_notify_on n (state_flag service_notification n.(current_state))
  end.

(** ** Viability *)

Definition _is_notification_viable_normal (e : env) (options : Z) (n : notifier) : bool :=
  let notification_interval :=
    match n.(_notification) cat_normal with
    | None => n.(_notification_interval)
    | Some nt => nt.(n_interval)
    end in
  if has_flag options notification_option_forced then true
  else if negb e.(enable_notifications) then false
  else if negb n.(_notifications_enabled) then false
  else if is_in_downtime n then false
  else if negb e.(in_notification_period) then false
  else if n.(is_flapping) then false
  else if n.(_is_volatile) then true
  else if negb n.(hard) then false
  else if problem_has_been_acknowledged n then false
  else if n.(current_state) =? 0 then false
  else if negb (get_notify_on_current_state e n) then false
  else if (0 <? n.(_first_notification_delay)) &&
          bool_decide (n.(_notification) cat_normal = None) &&
          (e.(now) <? n.(last_hard_state_change) +
             wrap_u32 (n.(_first_notification_delay) * e.(interval_length))) then false
  else if negb e.(authorized_by_dependencies) then false
  else
    match n.(_notification) cat_normal with
    | None => true
    | Some _ =>
        if n.(last_hard_state_change) <=? n.(_last_notification) then
          if notification_interval =? 0 then false
          else if e.(now) <? n.(_last_notification) +
                    wrap_u32 (notification_interval * e.(interval_length)) then false
          else true
        else true
    end.

(** Also forgets the problem when no recovery will follow it. *)
Definition _is_notification_viable_recovery (e : env) (n : notifier) : bool * notifier :=
  let '(retval, send_later) :=
    if negb e.(enable_notifications) then (false, false)
    else if negb n.(_notifications_enabled) then (false, false)
    else if negb e.(in_notification_period) then
      (if e.(send_recovery_notifications_anyways) then (true, false) else (false, true))
    else if is_in_downtime n then (false, true)
    else if n.(is_flapping) then (false, true)
    else if negb n.(hard) then (false, true)
    else if negb (n.(current_state) =? 0) then (false, true)
    else if negb (get_notify_on n up || get_notify_on n ok) then (false, false)
    else if e.(now) <? n.(last_hard_state_change) +
              wrap_u32 (n.(_recovery_notification_delay) * e.(interval_length)) then (false, true)
    else if n.(_notification_number) =? 0 then (false, false)
    else if bool_decide (n.(_notification) cat_normal = None) then (false, false)
    else (true, false) in
  if negb retval && negb send_later then
    (false, set_sent 0 (upd cat_normal None n.(_notification)) n.(_last_notification)
              n.(_current_notification_id) n)
  else (retval, n).

Definition _is_notification_viable_acknowledgement (e : env) (options : Z) (n : notifier) : bool :=
  if has_flag options notification_option_forced then true
  else if negb e.(enable_notifications) then false
  else if negb n.(_notifications_enabled) then false
  else if n.(current_state) =? 0 then false
  else true.

(** The flag a flapping notification is filtered with. *)
Definition flapping_flag (type : reason_type) : Z :=
  match type with
  | reason_flappingstart => flappingstart
  | reason_flappingstop => flappingstop
  | _ => flappingdisabled
  end.

Definition _is_notification_viable_flapping (e : env) (type : reason_type) (options : Z)
    (n : notifier) : bool :=
  let prev := n_type <$> n.(_notification) cat_flapping in
  if has_flag options notification_option_forced then true
  else if negb e.(enable_notifications) then false
  else if negb n.(_notifications_enabled) then false
  else if negb (get_notify_on n (flapping_flag type)) then false
  else if bool_decide (type = reason_flappingstart) && negb (bool_decide (prev = None)) then false
  else if (bool_decide (type = reason_flappingstop) || bool_decide (type = reason_flappingdisabled)) &&
          negb (bool_decide (prev = Some reason_flappingstart)) then false
  else if bool_decide (prev = Some type) then false
  else if is_in_downtime n then false
  else true.

Definition _is_notification_viable_downtime (e : env) (options : Z) (n : notifier) : bool :=
  if has_flag options notification_option_forced then true
  else if negb e.(enable_notifications) then false
  else if negb n.(_notifications_enabled) then false
  else if negb e.(enable_notifications) then false
  else if negb (get_notify_on n downtime) then false
  else if 0 <? n.(scheduled_downtime_depth) then false
  else true.

Definition _is_notification_viable_custom (e : env) (options : Z) (n : notifier) : bool :=
  if has_flag options notification_option_forced then true
  else if negb e.(enable_notifications) then false
  else if negb n.(_notifications_enabled) then false
  else if is_in_downtime n then false
  else true.

Definition is_notification_viable (e : env) (cat : notification_category) (type : reason_type)
    (options : Z) (n : notifier) : bool * notifier :=
  match cat with
  | cat_normal => (_is_notification_viable_normal e options n, n)
  | cat_recovery => _is_notification_viable_recovery e n
  | cat_acknowledgement => (_is_notification_viable_acknowledgement e options n, n)
  | cat_flapping => (_is_notification_viable_flapping e type options n, n)
  | cat_downtime => (_is_notification_viable_downtime e options n, n)
  | cat_custom => (_is_notification_viable_custom e options n, n)
  end.

(** ** Contacts *)

Definition notify_on (c : contact) (nt : notifier_type) : Z :=
  match nt with
  | host_notification => c.(c_host_notify_on)
  | service_notification => c.(c_service_notify_on)
  end.

Definition _to_notify_normal (c : contact) (n : notifier) : bool :=
  has_flag (notify_on c n.(_notifier_type)) (state_flag n.(_notifier_type) n.(current_state)).

Definition _to_notify_recovery (c : contact) (n : notifier) : bool :=
  let on := notify_on c n.(_notifier_type) in
  if negb (has_flag on ok) && negb (has_flag on up) then false
  else match n.(_notification) cat_normal with
       | None => false
       | Some normal_notif => sent_to normal_notif c.(c_name)
       end.

Definition _to_notify_flapping (c : contact) (type : reason_type) (n : notifier) : bool :=
  has_flag (notify_on c n.(_notifier_type)) (flapping_flag type).

Definition _to_notify_downtime (c : contact) (n : notifier) : bool :=
  has_flag (notify_on c n.(_notifier_type)) downtime.

(** The table [_to_notify]: acknowledgements and custom notifications reach
    every contact. *)
Definition _to_notify (cat : notification_category) (c : contact) (type : reason_type)
    (n : notifier) : bool :=
  match cat with
  | cat_normal => _to_notify_normal c n
  | cat_recovery => _to_notify_recovery c n
  | cat_acknowledgement => true
  | cat_flapping => _to_notify_flapping c type n
  | cat_downtime => _to_notify_downtime c n
  | cat_custom => true
  end.

Definition should_be_notified (e : env) (cat : notification_category) (type : reason_type)
    (n : notifier) (c : contact) : bool :=
  match n.(_notifier_type) with
  | service_notification =>
      if negb c.(_service_notifications_enabled) then false
      else if negb (e.(contact_in_period) c service_notification) then false
      else _to_notify cat c type n
  | host_notification =>
      if negb c.(_host_notifications_enabled) then false
      else if negb (e.(contact_in_period) c host_notification) then false
      else _to_notify cat c type n
  end.

(** [escalation::is_viable] *)
Definition escalation_is_viable (e : env) (notification_number : Z) (esc : escalation) : bool :=
  if esc.(e_has_period) && negb (e.(escalation_in_period) esc) then false
  else if (notification_number <? esc.(_first_notification)) ||
          ((esc.(_last_notification_e) <? notification_number) &&
           negb (esc.(_last_notification_e) =? 0)) then false
  else true.

(** [hostescalation::is_viable], [serviceescalation::is_viable] *)
Definition is_viable (e : env) (nt : notifier_type) (state notification_number : Z)
    (esc : escalation) : bool :=
  if escalation_is_viable e notification_number esc then
    has_flag esc.(_escalate_on) (state_flag nt state)
  else false.

(** A set of contacts, in the order of insertion. *)
Definition insert_contact (c : contact) (s : list contact) : list contact :=
  if decide (c ∈ s) then s else s ++ [c].

(** [for c in members: if (c->should_be_notified(...)) retval.insert(c)] *)
Definition add_members (e : env) (cat : notification_category) (type : reason_type) (n : notifier)
    (s : list contact) (members : list contact) : list contact :=
  foldl (λ s c, if should_be_notified e cat type n c then insert_contact c s else s) s members.

(** The escalations: the contacts chosen, the interval and [escalated]. *)
Fixpoint escalations_loop (e : env) (cat : notification_category) (type : reason_type)
    (n : notifier) (es : list escalation) (acc : list contact * Z * bool) : list contact * Z * bool :=
  match es with
  | [] => acc
  | esc :: es =>
      let '(retval, notif_interv, escalated) := acc in
      if is_viable e n.(_notifier_type) n.(current_state) n.(_notification_number) esc then
        let notif_interv :=
          if escalated : bool then
            (if esc.(e_notification_interval) <? notif_interv then esc.(e_notification_interval)
             else notif_interv)
          else esc.(e_notification_interval) in
        escalations_loop e cat type n es
          (foldl (add_members e cat type n) retval esc.(e_contactgroups), notif_interv, true)
      else escalations_loop e cat type n es acc
  end.

Definition get_contacts_to_notify (e : env) (cat : notification_category) (type : reason_type)
    (n : notifier) : list contact * Z * bool :=
  let '(retval, notif_interv, escalated) :=
    escalations_loop e cat type n n.(_escalations) ([], n.(_notification_interval), false) in
  if negb escalated then
    (foldl (add_members e cat type n) (add_members e cat type n retval n.(_contacts))
       n.(_contact_groups), notif_interv, escalated)
  else (retval, notif_interv, escalated).

(** ** Sending *)

(** The notification macros of the global [nagios_macros]. *)
Record macros := Macros {
  MACRO_NOTIFICATIONAUTHOR : string;
  MACRO_NOTIFICATIONCOMMENT : string;
  MACRO_NOTIFICATIONAUTHORNAME : string;
  MACRO_NOTIFICATIONAUTHORALIAS : string;
  MACRO_NOTIFICATIONTYPE : string;
  MACRO_HOSTNOTIFICATIONNUMBER : string;
  MACRO_SERVICENOTIFICATIONNUMBER : string;
  MACRO_NOTIFICATIONNUMBER : string;
  MACRO_NOTIFICATIONISESCALATED : string;
  MACRO_HOSTNOTIFICATIONID : string;
  MACRO_SERVICENOTIFICATIONID : string;
  MACRO_NOTIFICATIONRECIPIENTS : string;
}.

Definition notification_type_macro (type : reason_type) : string :=
  match type with
  | reason_acknowledgement => "ACKNOWLEDGEMENT"
  | reason_flappingstart => "FLAPPINGSTART"
  | reason_flappingstop => "FLAPPINGSTOP"
  | reason_flappingdisabled => "FLAPPINGDISABLED"
  | reason_downtimestart => "DOWNTIMESTART"
  | reason_downtimeend => "DOWNTIMEEND"
  | reason_downtimecancelled => "DOWNTIMECANCELLED"
  | reason_custom => "CUSTOM"
  | reason_recovery => "RECOVERY"
  | reason_normal => "PROBLEM"
  end.

(** The contact the author names, by its name or by its alias. *)
Definition find_author (e : env) (author : string) : option contact :=
  match list_find (λ c, c.(c_name) = author) e.(all_contacts) with
  | Some (_, c) => Some c
  | None => snd <$> list_find (λ c, c.(c_alias) = author) e.(all_contacts)
  end.

(** The macros set before the first contact is reached. *)
Definition set_macros (e : env) (nt : notifier_type) (notif : notification) (m : macros) : macros :=
  let author := find_author e notif.(n_author) in
  let number := pretty notif.(n_number) in
  let escalated := (if notif.(n_escalated) then "1" else "0")%string in
  let id := pretty notif.(n_id) in
  let on_host := bool_decide (nt = host_notification) in
  Macros notif.(n_author) notif.(n_message)
    (match author with Some c => c.(c_name) | None => EmptyString end)
    (match author with Some c => c.(c_alias) | None => EmptyString end)
    (notification_type_macro notif.(n_type))
    (if on_host then number else m.(MACRO_HOSTNOTIFICATIONNUMBER))
    (if on_host then m.(MACRO_SERVICENOTIFICATIONNUMBER) else number)
    number escalated
    (if on_host then id else m.(MACRO_HOSTNOTIFICATIONID))
    (if on_host then m.(MACRO_SERVICENOTIFICATIONID) else id)
    m.(MACRO_NOTIFICATIONRECIPIENTS).

Definition add_recipient (name : string) (m : macros) : macros :=
  Macros m.(MACRO_NOTIFICATIONAUTHOR) m.(MACRO_NOTIFICATIONCOMMENT)
    m.(MACRO_NOTIFICATIONAUTHORNAME) m.(MACRO_NOTIFICATIONAUTHORALIAS) m.(MACRO_NOTIFICATIONTYPE)
    m.(MACRO_HOSTNOTIFICATIONNUMBER) m.(MACRO_SERVICENOTIFICATIONNUMBER)
    m.(MACRO_NOTIFICATIONNUMBER) m.(MACRO_NOTIFICATIONISESCALATED)
    m.(MACRO_HOSTNOTIFICATIONID) m.(MACRO_SERVICENOTIFICATIONID)
    (if decide (m.(MACRO_NOTIFICATIONRECIPIENTS) = EmptyString) then name
     else (m.(MACRO_NOTIFICATIONRECIPIENTS) ++ "," ++ name)%string).

(** [host::notify_contact], [service::notify_contact]: [OK] unless a module
    cancels; the commands are run for their effect only. *)
Definition notify_contact (e : env) (c : contact) : bool :=
  negb (bool_decide (e.(broker_contact_notification_data) c = NEBERROR_CALLBACKCANCEL)).

(** The notifications handed to contacts, in order. *)
Definition outbox : Type := list (reason_type * contact).

Fixpoint execute_loop (e : env) (to_notify : list contact) (notif : notification) (m : macros)
    (out : outbox) : notification * macros * outbox :=
  match to_notify with
  | [] => (notif, m, out)
  | ctc :: to_notify =>
      if notify_contact e ctc then
        execute_loop e to_notify (add_contacts {[ ctc.(c_name) ]} notif)
          (add_recipient ctc.(c_name) m) (out ++ [(notif.(n_type), ctc)])
      else execute_loop e to_notify notif m out
  end.

(** What all notifiers share: the static [_next_notification_id], the global
    macros and, for the statements, what was handed to contacts. *)
Record globals := Globals {
  _next_notification_id : Z;
  global_macros : macros;
  handed : outbox;
}.

(** [true] is [OK]. *)
Definition execute (e : env) (nt : notifier_type) (to_notify : list contact)
    (notif : notification) (g : globals) : bool * notification * globals :=
  match e.(broker_notification_data) with
  | NEBERROR_CALLBACKCANCEL => (false, notif, g)
  | NEBERROR_CALLBACKOVERRIDE => (true, notif, g)
  | NEB_OK =>
      let '(notif, m, out) :=
        execute_loop e to_notify notif (set_macros e nt notif g.(global_macros)) g.(handed) in
      (true, notif, Globals g.(_next_notification_id) m out)
  end.

(** The slot that a notification sent successfully leaves, for a category other
    than [cat_normal]. *)
Definition settle (cat : notification_category) (type : reason_type) (notif : notification)
    (f : notification_category → option notification) : notification_category → option notification :=
  let f := upd cat (Some notif) f in
  match cat with
  | cat_recovery => upd cat_recovery None (upd cat_normal None f)
  | cat_flapping =>
      if bool_decide (type = reason_flappingstop) || bool_decide (type = reason_flappingdisabled)
      then upd cat_flapping None f else f
  | cat_downtime =>
      if bool_decide (type = reason_downtimeend) || bool_decide (type = reason_downtimecancelled)
      then upd cat_downtime None f else f
  | _ => upd cat None f
  end.

(** [true] is [OK]. *)
Definition notify (e : env) (type : reason_type) (not_author not_data : string) (options : Z)
    (n : notifier) (g : globals) : bool * notifier * globals :=
  let cat := get_category type in
  let '(viable, n) := is_notification_viable e cat type options n in
  if negb viable then (true, n, g)
  else
    let number :=
      if decide (type = reason_recovery) then n.(_notification_number)
      else wrap_u32 (n.(_notification_number) + 1) in
    let n := set_sent number n.(_notification) n.(_last_notification)
               n.(_current_notification_id) n in
    let '(to_notify, notification_interval, escalated) := get_contacts_to_notify e cat type n in
    let id := g.(_next_notification_id) in
    let n := set_sent number n.(_notification) n.(_last_notification) id n in
    let notif := Notif type not_author not_data options id number escalated
                   notification_interval ∅ in
    let g := Globals (wrap_u64 (id + 1)) g.(global_macros) g.(handed) in
    let '(retval, notif, g) := execute e n.(_notifier_type) to_notify notif g in
    if retval : bool then
      let last := if decide (to_notify = []) then n.(_last_notification) else e.(now) in
      match cat with
      | cat_normal =>
          let notif :=
            match n.(_notification) cat_normal with
            | Some normal_notif => add_contacts normal_notif.(_notified_contact) notif
            | None => notif
            end in
          (true, set_sent number (upd cat_normal (Some notif) n.(_notification)) last id n, g)
      | _ =>
          let number :=
            if bool_decide (cat = cat_acknowledgement) || bool_decide (cat = cat_downtime)
            then number else 0 in
          (true, set_sent number (settle cat type notif n.(_notification)) last id n, g)
      end
    else (false, n, g).

(** ** Next notification, and who is a contact *)

(** [host::is_valid_escalation_for_notification],
    [service::is_valid_escalation_for_notification] *)
Definition is_valid_escalation_for_notification (e : env) (options : Z) (n : notifier)
    (esc : escalation) : bool :=
  let notification_number :=
    if n.(current_state) =? 0 then wrap_u32 (n.(_notification_number) - 1)
    else n.(_notification_number) in
  if negb esc.(e_mine) then false
  else if has_flag options notification_option_broadcast then true
  else if notification_number <? esc.(_first_notification) then false
  else if negb (esc.(_last_notification_e) =? 0) &&
          (esc.(_last_notification_e) <? notification_number) then false
  else if esc.(e_has_period) && negb (e.(escalation_in_period) esc) then false
  else has_flag esc.(_escalate_on) (state_flag n.(_notifier_type) n.(current_state)).

(** The interval chosen so far, and whether an escalation chose it. *)
Fixpoint next_interval (e : env) (n : notifier) (es : list escalation) (acc : Z * bool) : Z * bool :=
  match es with
  | [] => acc
  | esc :: es =>
      let '(interval_to_use, have_escalated_interval) := acc in
      if negb (is_valid_escalation_for_notification e notification_option_none n esc)
      then next_interval e n es acc
      else if negb have_escalated_interval then next_interval e n es (esc.(e_notification_interval), true)
      else if esc.(e_notification_interval) <? interval_to_use
      then next_interval e n es (esc.(e_notification_interval), true)
      else next_interval e n es acc
  end.

(** The time, and [_no_more_notifications]. *)
Definition get_next_notification_time (e : env) (offset : Z) (n : notifier) : Z * bool :=
  let '(interval_to_use, _) := next_interval e n n.(_escalations) (n.(_notification_interval), false) in
  (offset + wrap_u32 (interval_to_use * e.(interval_length)),
   (interval_to_use =? 0) && negb n.(_is_volatile)).

Definition is_contact_for_notifier (n : notifier) (cntct : contact) : bool :=
  bool_decide (cntct ∈ n.(_contacts)) ||
  existsb (λ members, negb (existsb (λ c, bool_decide (c.(c_name) = cntct.(c_name))) members))
    n.(_contact_groups).
