(* ===== verification/Notifications.v ===== *)
(** * Properties of the notifications of a host or a service

    The choice of the contacts, then what holds over any sequence of calls of
    [notifier::notify]: the monitored state (current state, downtime, flapping,
    configuration) may change in any way between two calls, and so may the
    clock, the time periods and the answers of the modules. *)

From S2P Require Import Prelude Notifier.

#[local] Open Scope Z_scope.

(** ** The choice of the contacts *)

Lemma elem_of_concat {A} (x : A) ls : x ∈ concat ls ↔ ∃ l, l ∈ ls ∧ x ∈ l.
Proof.
  rewrite list_elem_of_In, in_concat.
  split; intros (l & ? & ?); exists l; [by rewrite !list_elem_of_In|by rewrite <- !list_elem_of_In].
Qed.

Lemma foldl_min {A} (f : A → Z) l : ∀ a,
  let m := foldl (λ i x, Z.min i (f x)) a l in
  m ≤ a ∧ (∀ x, x ∈ l → m ≤ f x) ∧ (m = a ∨ ∃ x, x ∈ l ∧ m = f x).
Proof.
  induction l as [|y l IH]; intros a; cbn [foldl]; [set_solver by lia|].
  destruct (IH (Z.min a (f y))) as (H1 & H2 & H3). cbv zeta. split_and!.
  - lia.
  - intros x [->|Hx]%elem_of_cons; [lia|by apply H2].
  - destruct H3 as [H3|(x & Hx & H3)]; [|right; set_solver].
    destruct (Z.min_spec a (f y)) as [[_ E]|[_ E]]; [left; lia|].
    right. exists y. split; [set_solver|lia].
Qed.

Section contacts.
Context (e : env) (cat : notification_category) (type : reason_type) (n : notifier).

#[local] Abbreviation wanted := (should_be_notified e cat type n).
#[local] Abbreviation add := (add_members e cat type n).

(** The escalations that apply now. *)
Definition viable_escalations : list escalation :=
  filter (λ esc, is_viable e n.(_notifier_type) n.(current_state) n.(_notification_number) esc = true)
    n.(_escalations).

(** The contacts configured for the notifier in its present state. *)
Definition candidates : list contact :=
  match viable_escalations with
  | [] => n.(_contacts) ++ concat n.(_contact_groups)
  | es => concat (concat (e_contactgroups <$> es))
  end.

(** The interval before the next notification. *)
Definition chosen_interval : Z :=
  match viable_escalations with
  | [] => n.(_notification_interval)
  | esc :: es =>
      foldl (λ i esc, Z.min i esc.(e_notification_interval)) esc.(e_notification_interval) es
  end.

Lemma elem_of_insert_contact x c s : x ∈ insert_contact c s ↔ x = c ∨ x ∈ s.
Proof. unfold insert_contact. case_decide; set_solver. Qed.

Lemma NoDup_insert_contact c s : NoDup s → NoDup (insert_contact c s).
Proof.
  unfold insert_contact. case_decide; [done|]. intros ?.
  apply NoDup_app. split_and!; [done|set_solver|apply NoDup_singleton].
Qed.

Lemma elem_of_add_members x l : ∀ s, x ∈ add s l ↔ x ∈ s ∨ (x ∈ l ∧ wanted x = true).
Proof.
  induction l as [|c l IH]; intros s; [set_solver|].
  unfold add_members in *. cbn [foldl]. rewrite IH.
  destruct (wanted c) eqn:Hc; rewrite ?elem_of_insert_contact, elem_of_cons.
  - split; [intros [[->|]|[]]|intros [|[[->|] ?]]]; auto.
  - split; [intros [|[]]|intros [|[[->|] ?]]]; auto. congruence.
Qed.

Lemma NoDup_add_members l : ∀ s, NoDup s → NoDup (add s l).
Proof.
  induction l as [|c l IH]; intros s Hs; [done|].
  unfold add_members in *. cbn [foldl]. apply IH. destruct (wanted c); [by apply NoDup_insert_contact|done].
Qed.

Lemma elem_of_add_groups x gs : ∀ s,
  x ∈ foldl add s gs ↔ x ∈ s ∨ (x ∈ concat gs ∧ wanted x = true).
Proof.
  induction gs as [|l gs IH]; intros s; cbn [foldl concat]; [set_solver|].
  rewrite IH, elem_of_add_members, elem_of_app. naive_solver.
Qed.

Lemma NoDup_add_groups gs : ∀ s, NoDup s → NoDup (foldl add s gs).
Proof. induction gs; intros s Hs; [done|]. cbn. by apply IHgs, NoDup_add_members. Qed.

(** The loop over the escalations, once one of them has been found viable, and
    before. *)
Lemma escalations_loop_found es : ∀ l i,
  let vs := filter (λ esc, is_viable e n.(_notifier_type) n.(current_state)
                             n.(_notification_number) esc = true) es in
  escalations_loop e cat type n es (l, i, true)
  = (foldl add l (concat (e_contactgroups <$> vs)),
     foldl (λ i esc, Z.min i esc.(e_notification_interval)) i vs, true).
Proof.
  induction es as [|esc es IH]; intros l i; [done|].
  cbn [escalations_loop]. destruct (is_viable _ _ _ _ esc) eqn:Hv.
  - rewrite filter_cons_True by done. cbn [fmap list_fmap concat foldl].
    rewrite foldl_app, IH. do 3 f_equal. destruct (Z.ltb_spec (e_notification_interval esc) i); lia.
  - rewrite filter_cons_False by congruence. apply IH.
Qed.

Lemma escalations_loop_start es : ∀ l i,
  let vs := filter (λ esc, is_viable e n.(_notifier_type) n.(current_state)
                             n.(_notification_number) esc = true) es in
  escalations_loop e cat type n es (l, i, false)
  = (foldl add l (concat (e_contactgroups <$> vs)),
     match vs with
     | [] => i
     | esc :: vs => foldl (λ i esc, Z.min i esc.(e_notification_interval)) esc.(e_notification_interval) vs
     end,
     negb (bool_decide (vs = []))).
Proof.
  induction es as [|esc es IH]; intros l i; [done|].
  cbn [escalations_loop]. destruct (is_viable _ _ _ _ esc) eqn:Hv.
  - rewrite filter_cons_True by done. cbn [fmap list_fmap concat foldl].
    rewrite foldl_app. apply (escalations_loop_found es).
  - rewrite filter_cons_False by congruence. apply IH.
Qed.

(** The contacts chosen are the candidates that accept the notification. *)
Lemma get_contacts_to_notify_spec l i esc :
  get_contacts_to_notify e cat type n = (l, i, esc) →
  NoDup l ∧ (∀ c, c ∈ l ↔ c ∈ candidates ∧ wanted c = true)
  ∧ i = chosen_interval ∧ esc = negb (bool_decide (viable_escalations = [])).
Proof.
  unfold get_contacts_to_notify, candidates, chosen_interval. rewrite escalations_loop_start.
  fold viable_escalations. destruct viable_escalations as [|v vs]; cbn [negb bool_decide].
  - rewrite bool_decide_eq_true_2 by done. cbn. intros [= <- <- <-]. split_and!; try done.
    + by apply NoDup_add_groups, NoDup_add_members, NoDup_nil.
    + intros c. rewrite elem_of_add_groups, elem_of_add_members, elem_of_app. set_solver.
  - rewrite bool_decide_eq_false_2 by done. cbn [negb]. intros [= <- <- <-]. split_and!; try done.
    + by apply NoDup_add_groups, NoDup_nil.
    + intros c. rewrite elem_of_add_groups. set_solver.
Qed.

End contacts.

(** ** One call of [notify] *)

(** The contacts reached among those chosen. *)
Definition reached (e : env) (l : list contact) : list contact :=
  match e.(broker_notification_data) with
  | NEB_OK => filter (λ c, notify_contact e c = true) l
  | _ => []
  end.

Definition names (l : list contact) : gset string := list_to_set (c_name <$> l).

Lemma elem_of_names x l : x ∈ names l ↔ ∃ c, c ∈ l ∧ c_name c = x.
Proof. unfold names. rewrite elem_of_list_to_set, list_elem_of_fmap. naive_solver. Qed.

Lemma add_contacts_empty nt : add_contacts ∅ nt = nt.
Proof. destruct nt. unfold add_contacts. cbn. f_equal. apply union_empty_r_L. Qed.

Lemma add_contacts_union s1 s2 nt : add_contacts s2 (add_contacts s1 nt) = add_contacts (s1 ∪ s2) nt.
Proof. unfold add_contacts. cbn. f_equal. by rewrite union_assoc_L. Qed.

Lemma execute_loop_spec e l : ∀ nt m out,
  let r := filter (λ c, notify_contact e c = true) l in
  ∃ m', execute_loop e l nt m out
        = (add_contacts (names r) nt, m', out ++ ((n_type nt,.) <$> r)).
Proof.
  induction l as [|c l IH]; intros nt m out; cbn [execute_loop].
  - exists m. unfold names. cbn. by rewrite add_contacts_empty, app_nil_r.
  - destruct (notify_contact e c) eqn:Hc.
    + rewrite filter_cons_True by done.
      destruct (IH (add_contacts {[c_name c]} nt) (add_recipient (c_name c) m)
                  (out ++ [(n_type nt, c)])) as [m' ->].
      exists m'. rewrite add_contacts_union. cbn. by rewrite <- app_assoc.
    + rewrite filter_cons_False by congruence. apply IH.
Qed.

(** The state once the number is settled and the notification has its id. *)
Definition numbered (type : reason_type) (n : notifier) : notifier :=
  set_sent (if decide (type = reason_recovery) then n.(_notification_number)
            else wrap_u32 (n.(_notification_number) + 1))
    n.(_notification) n.(_last_notification) n.(_current_notification_id) n.

(** The slots after a notification was sent. *)
Definition slots_after (type : reason_type) (nt : notification)
    (f : notification_category → option notification) : notification_category → option notification :=
  match get_category type with
  | cat_normal =>
      upd cat_normal
        (Some (match f cat_normal with
               | Some normal => add_contacts normal.(_notified_contact) nt
               | None => nt
               end)) f
  | cat => settle cat type nt f
  end.

Definition keeps_number (cat : notification_category) : bool :=
  match cat with cat_normal | cat_acknowledgement | cat_downtime => true | _ => false end.

(** The three ways a call ends, with the contacts it reached. *)
Inductive outcome (e : env) (type : reason_type) (author data : string) (options : Z)
    (n : notifier) (g : globals) : bool → notifier → globals → list contact → Prop :=
  | not_viable n1 :
      is_notification_viable e (get_category type) type options n = (false, n1) →
      outcome e type author data options n g true n1 g []
  | cancelled m :
      is_notification_viable e (get_category type) type options n = (true, n) →
      e.(broker_notification_data) = NEBERROR_CALLBACKCANCEL →
      let n2 := numbered type n in
      outcome e type author data options n g false
        (set_sent n2.(_notification_number) n2.(_notification) n2.(_last_notification)
           g.(_next_notification_id) n2)
        (Globals (wrap_u64 (g.(_next_notification_id) + 1)) m g.(handed)) []
  | sent m l i esc :
      is_notification_viable e (get_category type) type options n = (true, n) →
      e.(broker_notification_data) ≠ NEBERROR_CALLBACKCANCEL →
      let n2 := numbered type n in
      get_contacts_to_notify e (get_category type) type n2 = (l, i, esc) →
      let r := reached e l in
      let nt := Notif type author data options g.(_next_notification_id)
                  n2.(_notification_number) esc i (names r) in
      outcome e type author data options n g true
        (set_sent (if keeps_number (get_category type) then n2.(_notification_number) else 0)
           (slots_after type nt n.(_notification))
           (if decide (l = []) then n.(_last_notification) else e.(now))
           g.(_next_notification_id) n2)
        (Globals (wrap_u64 (g.(_next_notification_id) + 1)) m (g.(handed) ++ ((type,.) <$> r))) r.

(** A viable notification leaves the notifier as it is. *)
Lemma viable_keeps e cat type options n n1 :
  is_notification_viable e cat type options n = (true, n1) → n1 = n.
Proof.
  destruct cat; cbn [is_notification_viable]; try (by intros [=]).
  unfold _is_notification_viable_recovery. repeat case_match; cbn; congruence.
Qed.

Lemma execute_spec e nt l type author data options id number esc i g :
  let notif := Notif type author data options id number esc i in
  ∃ m, execute e nt l (notif ∅) g
  = (negb (bool_decide (e.(broker_notification_data) = NEBERROR_CALLBACKCANCEL)),
     notif (names (reached e l)),
     Globals g.(_next_notification_id) m (g.(handed) ++ ((type,.) <$> reached e l))).
Proof.
  unfold execute, reached. destruct (broker_notification_data e).
  - match goal with |- context [execute_loop e l ?n ?m ?o] =>
      destruct (execute_loop_spec e l n m o) as [m' ->] end.
    exists m'. unfold add_contacts. cbn. by rewrite union_empty_l_L.
  - exists (global_macros g). cbn. rewrite app_nil_r. by destruct g.
  - exists (global_macros g). cbn. rewrite app_nil_r. by destruct g.
Qed.

Lemma notify_outcome e type author data options n g r n' g' :
  notify e type author data options n g = (r, n', g') →
  ∃ to, outcome e type author data options n g r n' g' to.
Proof.
  unfold notify.
  destruct (is_notification_viable e (get_category type) type options n) as [v n1] eqn:Hv.
  destruct v; cbn [negb]; cycle 1.
  { intros [= <- <- <-]. eexists. by apply not_viable. }
  pose proof (viable_keeps _ _ _ _ _ _ Hv) as ->.
  change (set_sent _ _ (_last_notification n) (_current_notification_id n) n) with (numbered type n).
  destruct (get_contacts_to_notify e (get_category type) type (numbered type n)) as [[l i] esc] eqn:Hc.
  match goal with |- context [execute _ _ _ (Notif ?t ?a ?d ?o ?id ?nb ?es ?iv _) ?g] =>
    destruct (execute_spec e (_notifier_type n) l t a d o id nb es iv g) as [m Hx] end.
  change (_notifier_type (set_sent _ _ _ _ _)) with (_notifier_type n). rewrite Hx.
  destruct (decide (broker_notification_data e = NEBERROR_CALLBACKCANCEL)) as [Hb|Hb];
    [rewrite bool_decide_eq_true_2 by done|rewrite bool_decide_eq_false_2 by done]; cbn [negb].
  - intros [= <- <- <-]. exists []. unfold reached. rewrite Hb. cbn [fmap list_fmap]. cbn.
    rewrite app_nil_r. by apply cancelled.
  - intros Heq. exists (reached e l).
    pose proof (sent e type author data options n g m l i esc Hv Hb Hc) as S. cbv zeta in S.
    unfold slots_after, keeps_number in S.
    destruct (get_category type); injection Heq as <- <- <-; exact S.
Qed.

(** ** Sequences of calls *)

(** A call, with the notifier as monitoring left it at that time: what was sent
    is the notifier's own. *)
Record call := Call {
  k_env : env;
  k_type : reason_type;
  k_author : string;
  k_data : string;
  k_options : Z;
  k_seen : notifier;
}.

Definition observe (seen n : notifier) : notifier :=
  set_sent n.(_notification_number) n.(_notification) n.(_last_notification)
    n.(_current_notification_id) seen.

(** What the calls did, the last first: a notification was sent and reached
    these contacts; the problem is closed, nobody has to hear of its end. *)
Inductive entry := Sent (type : reason_type) (to : list contact) | Closed.

Definition do_call (k : call) (n : notifier) (g : globals) : bool * notifier * globals :=
  notify k.(k_env) k.(k_type) k.(k_author) k.(k_data) k.(k_options) (observe k.(k_seen) n) g.

(** The notification made sense and no module cancelled it. *)
Definition accepted (k : call) (n : notifier) : bool :=
  (is_notification_viable k.(k_env) (get_category k.(k_type)) k.(k_type) k.(k_options)
     (observe k.(k_seen) n)).1
  && negb (bool_decide (k.(k_env).(broker_notification_data) = NEBERROR_CALLBACKCANCEL)).

Definition step_log (k : call) (n : notifier) (g : globals) : list entry :=
  let '(_, n', g') := do_call k n g in
  (if bool_decide (n'.(_notification) cat_normal = None) then [Closed] else [])
  ++ (if accepted k n then [Sent k.(k_type) (drop (length g.(handed)) g'.(handed)).*2] else []).

Fixpoint run (ks : list call) (n : notifier) (g : globals) (log : list entry)
    : notifier * globals * list entry :=
  match ks with
  | [] => (n, g, log)
  | k :: ks => let '(_, n', g') := do_call k n g in run ks n' g' (step_log k n g ++ log)
  end.

(** The contacts told about the current problem. *)
Fixpoint told (log : list entry) : gset string :=
  match log with
  | [] | Closed :: _ => ∅
  | Sent reason_normal to :: log => names to ∪ told log
  | Sent _ _ :: log => told log
  end.

(** The last flapping notification sent, and the last about a downtime. *)
Fixpoint last_of (cat : notification_category) (log : list entry) : option reason_type :=
  match log with
  | [] => None
  | Sent type _ :: log => if decide (get_category type = cat) then Some type else last_of cat log
  | Closed :: log => last_of cat log
  end.

(** What the slots of a notifier say of the calls made so far. *)
Record slots_ok (f : notification_category → option notification) (log : list entry) : Prop := {
  ok_normal nt : f cat_normal = Some nt → nt.(n_type) = reason_normal ∧ nt.(_notified_contact) = told log;
  ok_flapping : n_type <$> f cat_flapping
                = (if decide (last_of cat_flapping log = Some reason_flappingstart)
                   then Some reason_flappingstart else None);
  ok_downtime : n_type <$> f cat_downtime
                = (if decide (last_of cat_downtime log = Some reason_downtimestart)
                   then Some reason_downtimestart else None);
  ok_recovery : f cat_recovery = None;
  ok_acknowledgement : f cat_acknowledgement = None;
  ok_custom : f cat_custom = None;
}.

(** A notifier that has sent nothing. *)
Definition fresh (n : notifier) : Prop :=
  n.(_notification_number) = 0 ∧ ∀ cat, n.(_notification) cat = None.

Lemma step_log_eq k n g r n' g' to :
  outcome k.(k_env) k.(k_type) k.(k_author) k.(k_data) k.(k_options) (observe k.(k_seen) n) g r n' g' to →
  do_call k n g = (r, n', g') →
  step_log k n g
  = (if bool_decide (n'.(_notification) cat_normal = None) then [Closed] else [])
    ++ (if accepted k n then [Sent k.(k_type) to] else []).
Proof.
  intros Ho Hd. unfold step_log. rewrite Hd. do 2 f_equal. unfold accepted.
  inversion Ho as [n1 Hv|m Hv Hb|m l i esc Hv Hb Hc]; subst; rewrite Hv; cbn [fst andb]; [done| |].
  - by rewrite Hb.
  - rewrite bool_decide_eq_false_2 by done. cbn [negb]. do 2 f_equal.
    cbn [handed]. rewrite drop_app_length. clear. by induction (reached (k_env k) l); cbn; f_equal.
Qed.

(** Non-viable calls at most forget the problem. *)
Lemma not_viable_slots e cat type options n n1 :
  is_notification_viable e cat type options n = (false, n1) →
  n1 = n ∨ (cat = cat_recovery ∧ n1 = set_sent 0 (upd cat_normal None n.(_notification))
                                       n.(_last_notification) n.(_current_notification_id) n).
Proof.
  destruct cat; cbn [is_notification_viable]; try (intros [= ? <-]; by left).
  unfold _is_notification_viable_recovery.
  match goal with |- (let '(_, _) := ?c in _) = _ → _ => destruct c as [rv sl] end.
  destruct rv, sl; cbn; intros [= <-]; by eauto.
Qed.

Lemma upd_same cat x f : upd cat x f cat = x.
Proof. unfold upd. by rewrite decide_True. Qed.

Lemma upd_other cat cat' x f : cat ≠ cat' → upd cat x f cat' = f cat'.
Proof. intros ?. unfold upd. by rewrite decide_False by congruence. Qed.

Lemma observe_slots seen n : (observe seen n).(_notification) = n.(_notification).
Proof. done. Qed.

(** The state of the notifier against the log; without a problem notification
    on record, nobody has to be told of a recovery. *)
Definition consistent (n : notifier) (log : list entry) : Prop :=
  slots_ok n.(_notification) log ∧ (n.(_notification) cat_normal = None → told log = ∅).

Lemma close_log n log :
  slots_ok n.(_notification) log →
  consistent n ((if bool_decide (n.(_notification) cat_normal = None) then [Closed] else []) ++ log).
Proof.
  intros Hok. case_bool_decide as Hn; [|by split].
  destruct Hok as [H1 H2 H3 H4 H5 H6]. split; [constructor|]; cbn [told last_of app]; [congruence|done..].
Qed.

Lemma slots_ok_forget f log : slots_ok f log → slots_ok (upd cat_normal None f) log.
Proof. by intros []. Qed.

Ltac slots :=
  repeat (rewrite bool_decide_eq_true_2 by done || rewrite bool_decide_eq_false_2 by done);
  cbn [orb]; rewrite ?upd_same, ?upd_other by done.

Lemma slots_after_ok f log type nt r :
  slots_ok f log → (f cat_normal = None → told log = ∅) →
  nt.(n_type) = type → nt.(_notified_contact) = names r →
  slots_ok (slots_after type nt f) (Sent type r :: log).
Proof.
  intros [H1 H2 H3 H4 H5 H6] H0 Ht Hr.
  constructor; unfold slots_after; destruct type; cbn [get_category settle]; slots; try done.
  - intros nt' [= <-]. destruct (f cat_normal) as [old|]; cbn [told].
    + destruct (H1 old eq_refl) as [_ <-]. cbn. split; [done|]. rewrite Hr. done.
    + split; [done|]. rewrite Hr, H0 by done. by rewrite union_empty_r_L.
  - change (Some (n_type nt) = Some reason_flappingstart). by rewrite Ht.
  - change (Some (n_type nt) = Some reason_downtimestart). by rewrite Ht.
Qed.

(** Every call keeps the slots consistent with what was sent. *)
Lemma step_consistent k n g log r n' g' :
  consistent n log → do_call k n g = (r, n', g') → consistent n' (step_log k n g ++ log).
Proof.
  intros [Hok H0] Hd. destruct (notify_outcome _ _ _ _ _ _ _ _ _ _ Hd) as [to Ho].
  rewrite (step_log_eq _ _ _ _ _ _ _ Ho Hd), <- app_assoc. apply close_log. unfold accepted.
  inversion Ho as [n1 Hv|m Hv Hb|m l i esc Hv Hb Hc]; subst; rewrite Hv; cbn [fst andb app].
  - destruct (not_viable_slots _ _ _ _ _ _ Hv) as [->|[_ ->]]; [done|].
    by apply slots_ok_forget.
  - rewrite bool_decide_eq_true_2 by done. done.
  - rewrite bool_decide_eq_false_2 by done. cbn. by apply slots_after_ok.
Qed.

Lemma run_consistent ks : ∀ n g log n' g' log',
  consistent n log → run ks n g log = (n', g', log') → consistent n' log'.
Proof.
  induction ks as [|k ks IH]; intros n g log n' g' log' Hc; cbn [run].
  - by intros [= <- <- <-].
  - destruct (do_call k n g) as [[r n1] g1] eqn:Hd. apply IH. by eapply step_consistent.
Qed.

Lemma fresh_consistent n : fresh n → consistent n [].
Proof.
  intros [_ Hf]. split; [|done]. constructor; rewrite ?Hf; cbn; try done.
Qed.

(** ** The recovery *)

(** The contact takes recovery notifications of this kind of notifier now. *)
Definition accepts_recovery (e : env) (nt : notifier_type) (c : contact) : bool :=
  match nt with
  | host_notification => c.(_host_notifications_enabled)
  | service_notification => c.(_service_notifications_enabled)
  end
  && e.(contact_in_period) c nt
  && (has_flag (notify_on c nt) ok || has_flag (notify_on c nt) up).

Lemma should_be_notified_recovery e n log c :
  consistent n log →
  should_be_notified e cat_recovery reason_recovery n c
  = accepts_recovery e n.(_notifier_type) c && bool_decide (c.(c_name) ∈ told log).
Proof.
  intros [[Hok _ _ _ _ _] H0]. unfold should_be_notified, accepts_recovery, _to_notify, _to_notify_recovery.
  assert (Hs : match n.(_notification) cat_normal with
               | Some nt => sent_to nt (c_name c) | None => false end
               = bool_decide (c_name c ∈ told log)).
  { destruct (n.(_notification) cat_normal) as [nt|] eqn:Hn; unfold sent_to.
    - by destruct (Hok nt eq_refl) as [_ ->].
    - by rewrite H0 by done. }
  rewrite Hs.
  destruct (n.(_notifier_type)), (_host_notifications_enabled c), (_service_notifications_enabled c),
    (contact_in_period e c _), (has_flag (notify_on c _) ok), (has_flag (notify_on c _) up); done.
Qed.

(** The contacts a call reached, in the order it reached them. *)
Definition newly_reached (g g' : globals) : list (reason_type * contact) :=
  drop (length g.(handed)) g'.(handed).

(** What an accepted recovery call does. *)
Lemma recovery_call k n g log r n' g' :
  consistent n log → k.(k_type) = reason_recovery → accepted k n = true →
  do_call k n g = (r, n', g') →
  n'.(_notification) cat_normal = None ∧ n'.(_notification_number) = 0
  ∧ ∀ t c, (t, c) ∈ newly_reached g g' ↔
      t = reason_recovery ∧ k.(k_env).(broker_notification_data) = NEB_OK
      ∧ notify_contact k.(k_env) c = true
      ∧ c ∈ candidates k.(k_env) (observe k.(k_seen) n)
      ∧ accepts_recovery k.(k_env) k.(k_seen).(_notifier_type) c = true ∧ c.(c_name) ∈ told log.
Proof.
  destruct k as [e ty au da op seen]. cbn [k_env k_type k_seen]. intros Hc -> Ha Hd.
  destruct (notify_outcome _ _ _ _ _ _ _ _ _ _ Hd) as [to Ho]. unfold accepted in Ha.
  inversion Ho as [n1 Hv|m Hv Hb n2|m l i esc Hv Hb n2 Hl r0 nt]; subst; cbn [k_env k_type k_options k_seen] in *;
    rewrite Hv in Ha; cbn [fst andb] in Ha;
    [done|rewrite bool_decide_eq_true_2 in Ha by done; done|].
  split_and!; [done..|]. intros t c.
  destruct (get_contacts_to_notify_spec _ _ _ _ _ _ _ Hl) as (_ & Hin & _).
  unfold newly_reached. cbn [handed]. rewrite drop_app_length, list_elem_of_fmap.
  assert (Hc' : consistent (numbered reason_recovery (observe seen n)) log) by done.
  assert (Hx : c ∈ reached e l ↔
    e.(broker_notification_data) = NEB_OK ∧ notify_contact e c = true
      ∧ c ∈ candidates e (observe seen n)
      ∧ accepts_recovery e seen.(_notifier_type) c = true ∧ c.(c_name) ∈ told log).
  { unfold reached. destruct (broker_notification_data e); [|set_solver..].
    rewrite list_elem_of_filter, Hin, (should_be_notified_recovery _ _ _ _ Hc'), andb_true_iff,
      bool_decide_eq_true. intuition. }
  rewrite <- Hx. split; [by intros (y & [= -> ->] & Hy)|]. intros (-> & Hy). by exists c.
Qed.

(** ** What a call leaves of the state *)

Ltac outcome_inv Ho :=
  inversion Ho as [nv Hv|m Hv Hb n2|m l i esc Hv Hb n2 Hl r0 nt]; subst.

(** Calls that are no problem and no recovery keep the problem on record; the
    time of the last notification moves to the present or not at all. *)
Definition quiet (type : reason_type) : bool :=
  negb (bool_decide (type = reason_normal) || bool_decide (type = reason_recovery)).

Lemma slots_after_quiet type nt f :
  quiet type = true → slots_after type nt f cat_normal = f cat_normal.
Proof. by destruct type; try discriminate. Qed.

Lemma quiet_step k n g r n' g' :
  quiet k.(k_type) = true → do_call k n g = (r, n', g') →
  n'.(_notification) cat_normal = n.(_notification) cat_normal
  ∧ (n'.(_last_notification) = n.(_last_notification) ∨ n'.(_last_notification) = k.(k_env).(now)).
Proof.
  intros Hq Hd. destruct (notify_outcome _ _ _ _ _ _ _ _ _ _ Hd) as [to Ho]. outcome_inv Ho.
  - destruct (not_viable_slots _ _ _ _ _ _ Hv) as [->|[Hr _]]; [by auto|].
    by destruct (k_type k).
  - by auto.
  - cbn [_notification set_sent _last_notification]. rewrite slots_after_quiet by done.
    split; [done|]. case_decide; auto.
Qed.

Lemma quiet_run t ks : ∀ n g log n' g' log',
  Forall (λ k, quiet k.(k_type) = true ∧ t ≤ k.(k_env).(now)) ks →
  t ≤ n.(_last_notification) →
  run ks n g log = (n', g', log') →
  n'.(_notification) cat_normal = n.(_notification) cat_normal ∧ t ≤ n'.(_last_notification).
Proof.
  induction ks as [|k ks IH]; intros n g log n' g' log' Hks Ht; cbn [run].
  { by intros [= <- <- <-]. }
  apply Forall_cons in Hks as [[Hq Hk] Hks].
  destruct (do_call k n g) as [[r n1] g1] eqn:Hd. intros Hr.
  destruct (quiet_step _ _ _ _ _ _ Hq Hd) as [Hs Hl].
  rewrite <- Hs. eapply IH; [done| |done]. destruct Hl as [-> | ->]; lia.
Qed.

(** A problem notification that reached a contact. *)
Lemma normal_step k n g r n' g' :
  k.(k_type) = reason_normal → newly_reached g g' ≠ [] → do_call k n g = (r, n', g') →
  n'.(_last_notification) = k.(k_env).(now) ∧ ∃ nt, n'.(_notification) cat_normal = Some nt.
Proof.
  destruct k as [e ty au da op seen]. cbn [k_type k_env]. intros -> Hr Hd.
  destruct (notify_outcome _ _ _ _ _ _ _ _ _ _ Hd) as [to Ho]. unfold newly_reached in Hr.
  outcome_inv Ho; try (by rewrite drop_all in Hr).
  split; [|by eexists]. cbn [_last_notification set_sent]. case_decide as Hnil; [|done]. subst l.
  destruct Hr. cbn [handed]. rewrite drop_app_length. unfold r0, reached.
  by destruct (broker_notification_data _).
Qed.

(** An accepted problem notification that is neither forced nor volatile. *)
Lemma normal_viable e options n :
  has_flag options notification_option_forced = false → n.(_is_volatile) = false →
  _is_notification_viable_normal e options n = true →
  (e.(enable_notifications) = true ∧ n.(_notifications_enabled) = true ∧ is_in_downtime n = false
   ∧ e.(in_notification_period) = true ∧ n.(is_flapping) = false ∧ n.(hard) = true
   ∧ problem_has_been_acknowledged n = false ∧ n.(current_state) ≠ 0
   ∧ get_notify_on_current_state e n = true ∧ e.(authorized_by_dependencies) = true)
  ∧ match n.(_notification) cat_normal with
    | None => 0 < n.(_first_notification_delay) →
              n.(last_hard_state_change)
              + wrap_u32 (n.(_first_notification_delay) * e.(interval_length)) ≤ e.(now)
    | Some nt => n.(last_hard_state_change) ≤ n.(_last_notification) →
                 nt.(n_interval) ≠ 0
                 ∧ n.(_last_notification) + wrap_u32 (nt.(n_interval) * e.(interval_length)) ≤ e.(now)
    end.
Proof.
  intros Hf Hvol. unfold _is_notification_viable_normal. rewrite Hf, Hvol.
  destruct (enable_notifications e), (_notifications_enabled n), (is_in_downtime n),
    (in_notification_period e), (is_flapping n), (hard n), (problem_has_been_acknowledged n),
    (Z.eqb_spec (current_state n) 0), (get_notify_on_current_state e n); try done; cbn [negb].
  destruct (_ && _ && _) eqn:Hdelay; [done|]. destruct (authorized_by_dependencies e); [|done].
  cbn [negb]. intros Hlast. split; [by split_and!|].
  destruct (_notification n cat_normal) as [nt|].
  - intros Hle. apply Z.leb_le in Hle. rewrite Hle in Hlast.
    destruct (Z.eqb_spec (n_interval nt) 0); [done|]. split; [done|].
    destruct (Z.ltb_spec (now e) (_last_notification n + wrap_u32 (n_interval nt * interval_length e)));
      [done|lia].
  - intros Hpos. apply Z.ltb_lt in Hpos. rewrite Hpos, bool_decide_eq_true_2 in Hdelay by done.
    cbn in Hdelay. apply Z.ltb_ge in Hdelay. lia.
Qed.

Lemma accepted_normal k n :
  k.(k_type) = reason_normal → accepted k n = true →
  _is_notification_viable_normal k.(k_env) k.(k_options) (observe k.(k_seen) n) = true.
Proof. unfold accepted. intros -> Ha. by apply andb_true_iff in Ha as [Ha _]. Qed.

(** Calls after which the number of notifications is kept: the problem stays
    open. *)
Definition keeps_open (k : call) : bool := keeps_number (get_category k.(k_type)).

Lemma open_step k n g r n' g' b :
  keeps_open k = true → do_call k n g = (r, n', g') →
  0 ≤ n.(_notification_number) ≤ b → b < 2 ^ 32 - 1 →
  (n.(_notification) cat_normal ≠ None → 1 ≤ n.(_notification_number)) →
  0 ≤ n'.(_notification_number) ≤ b + 1
  ∧ (n'.(_notification) cat_normal ≠ None → 1 ≤ n'.(_notification_number)).
Proof.
  intros Hk Hd Hn Hb1 H1. destruct (notify_outcome _ _ _ _ _ _ _ _ _ _ Hd) as [to Ho].
  unfold keeps_open in Hk.
  assert (Hnb : (numbered (k_type k) (observe (k_seen k) n)).(_notification_number)
                = n.(_notification_number) + 1).
  { cbn. rewrite decide_False by (by intros Hr; rewrite Hr in Hk). by autorewrite with machine_int. }
  outcome_inv Ho.
  - destruct (not_viable_slots _ _ _ _ _ _ Hv) as [->|[Hr _]]; [|by rewrite Hr in Hk].
    split; [cbn; lia|done].
  - change (_notification_number (set_sent ?x _ _ _ _)) with x. fold n2 in Hnb. rewrite Hnb. lia.
  - change (_notification_number (set_sent ?x _ _ _ _)) with x. rewrite Hk. fold n2 in Hnb. rewrite Hnb. lia.
Qed.

Lemma open_run ks : ∀ n g log n' g' log' b,
  forallb keeps_open ks = true → run ks n g log = (n', g', log') →
  0 ≤ n.(_notification_number) ≤ b → b + Z.of_nat (length ks) < 2 ^ 32 →
  (n.(_notification) cat_normal ≠ None → 1 ≤ n.(_notification_number)) →
  n'.(_notification) cat_normal ≠ None → 1 ≤ n'.(_notification_number).
Proof.
  induction ks as [|k ks IH]; intros n g log n' g' log' b Hks; cbn [run].
  { by intros [= <- <- <-]. }
  apply andb_true_iff in Hks as [Hk Hks].
  destruct (do_call k n g) as [[r n1] g1] eqn:Hd. cbn [length]. intros Hr Hn Hb1 H1.
  destruct (open_step _ _ _ _ _ _ b Hk Hd Hn ltac:(lia) H1) as [Hn1 H1'].
  eapply (IH _ _ _ _ _ _ (b + 1)); try done. lia.
Qed.

(** Nothing stands in the way of a recovery notification. *)
Definition recovery_due (e : env) (n : notifier) : bool :=
  e.(enable_notifications) && n.(_notifications_enabled) && e.(in_notification_period)
  && negb (is_in_downtime n) && negb n.(is_flapping) && n.(hard) && (n.(current_state) =? 0)
  && (get_notify_on n up || get_notify_on n ok)
  && (n.(last_hard_state_change) + wrap_u32 (n.(_recovery_notification_delay) * e.(interval_length))
      <=? e.(now)).

Lemma recovery_due_viable e options n :
  recovery_due e n = true →
  is_notification_viable e cat_recovery reason_recovery options n
  = if (n.(_notification_number) =? 0) || bool_decide (n.(_notification) cat_normal = None)
    then (false, set_sent 0 (upd cat_normal None n.(_notification)) n.(_last_notification)
                   n.(_current_notification_id) n)
    else (true, n).
Proof.
  unfold recovery_due. rewrite !andb_true_iff. intros [[[[[[[[H1 H2] H3] H4] H5] H6] H7] H8] H9].
  cbn [is_notification_viable]. unfold _is_notification_viable_recovery.
  apply Z.leb_le in H9. apply negb_true_iff in H4, H5.
  assert (H9' : (e.(now) <? n.(last_hard_state_change) +
              wrap_u32 (n.(_recovery_notification_delay) * e.(interval_length))) = false)
    by (apply Z.ltb_ge; lia).
  rewrite H1, H2, H3, H4, H5, H6, H7, H8, H9'. cbn [negb].
  by destruct (n.(_notification_number) =? 0), (bool_decide _).
Qed.

Lemma accepted_recovery k n :
  k.(k_type) = reason_recovery → recovery_due k.(k_env) (observe k.(k_seen) n) = true →
  k.(k_env).(broker_notification_data) ≠ NEBERROR_CALLBACKCANCEL →
  accepted k n = negb ((n.(_notification_number) =? 0)
                       || bool_decide (n.(_notification) cat_normal = None)).
Proof.
  unfold accepted. intros -> Hdue Hb. cbn [get_category].
  rewrite (recovery_due_viable _ _ _ Hdue).
  rewrite (bool_decide_eq_false_2 (broker_notification_data _ = _)) by done. cbn.
  by destruct (_notification_number n =? 0), (bool_decide _).
Qed.

(** ** Flapping *)

(** The flapping notifications sent, the last first. *)
Fixpoint flaps (log : list entry) : list reason_type :=
  match log with
  | [] => []
  | Sent type _ :: log => if decide (get_category type = cat_flapping) then type :: flaps log else flaps log
  | Closed :: log => flaps log
  end.

(** Starts and ends alternate, from a start on. *)
Fixpoint alternates (l : list reason_type) : Prop :=
  match l with
  | [] => True
  | x :: l => (x = reason_flappingstart ↔ head l ≠ Some reason_flappingstart) ∧ alternates l
  end.

Lemma last_of_flaps log : last_of cat_flapping log = head (flaps log).
Proof. induction log as [|[type to|] log IH]; cbn; [done| |done]. by case_decide. Qed.

Lemma flapping_viable e type options n :
  has_flag options notification_option_forced = false → get_category type = cat_flapping →
  _is_notification_viable_flapping e type options n = true →
  (type = reason_flappingstart ↔ n_type <$> n.(_notification) cat_flapping ≠ Some reason_flappingstart).
Proof.
  intros Hf Hc. unfold _is_notification_viable_flapping. rewrite Hf.
  destruct (n_type <$> _notification n cat_flapping) as [t|]; [destruct t|];
    destruct type; try done; repeat case_match; try done; naive_solver.
Qed.

Lemma flaps_step k n g log r n' g' :
  consistent n log → has_flag k.(k_options) notification_option_forced = false →
  do_call k n g = (r, n', g') → alternates (flaps log) → alternates (flaps (step_log k n g ++ log)).
Proof.
  intros [[_ Hfl _ _ _ _] _] Hf Hd Halt. destruct (notify_outcome _ _ _ _ _ _ _ _ _ _ Hd) as [to Ho].
  rewrite (step_log_eq _ _ _ _ _ _ _ Ho Hd), <- app_assoc.
  assert (Hskip : ∀ b l, flaps ((if b : bool then [Closed] else []) ++ l) = flaps l) by (by intros []).
  rewrite Hskip. destruct (accepted k n) eqn:Ha; [|done]. cbn [flaps app].
  destruct (decide (get_category (k_type k) = cat_flapping)) as [Hcat|]; [|done].
  cbn [alternates]. split; [|done].
  unfold accepted in Ha. rewrite Hcat in Ha. apply andb_true_iff in Ha as [Ha _].
  cbn [is_notification_viable fst] in Ha.
  rewrite (flapping_viable _ _ _ _ Hf Hcat Ha), observe_slots, Hfl, <- last_of_flaps.
  case_decide; naive_solver.
Qed.

Lemma flaps_run ks : ∀ n g log n' g' log',
  consistent n log → Forall (λ k, has_flag k.(k_options) notification_option_forced = false) ks →
  run ks n g log = (n', g', log') → alternates (flaps log) → alternates (flaps log').
Proof.
  induction ks as [|k ks IH]; intros n g log n' g' log' Hc Hks; cbn [run].
  { by intros [= <- <- <-]. }
  apply Forall_cons in Hks as [Hk Hks].
  destruct (do_call k n g) as [[r n1] g1] eqn:Hd. intros Hr Ha.
  eapply IH; [|done|done|]; [by eapply step_consistent|by eapply flaps_step].
Qed.

(** ** The next notification time *)

Section next_time.
Context (e : env) (n : notifier) (Hs : n.(current_state) ≠ 0).

#[local] Abbreviation viable :=
  (is_viable e n.(_notifier_type) n.(current_state) n.(_notification_number)).

(** While there is a problem, the two tests of an escalation agree. *)
Lemma valid_is_viable x :
  x.(e_mine) = true →
  is_valid_escalation_for_notification e notification_option_none n x = viable x.
Proof.
  intros Hx. unfold is_valid_escalation_for_notification, is_viable, escalation_is_viable.
  rewrite Hx. pose proof Hs as Hs'. apply Z.eqb_neq in Hs'. rewrite Hs'. cbn [negb].
  change (has_flag notification_option_none notification_option_broadcast) with false. cbn iota.
  by destruct (_ <? _first_notification x), (_last_notification_e x =? 0), (_last_notification_e x <? _),
    (e_has_period x), (escalation_in_period e x).
Qed.

Lemma next_interval_found es : ∀ i,
  Forall (λ x, x.(e_mine) = true) es →
  next_interval e n es (i, true)
  = (foldl (λ i x, Z.min i x.(e_notification_interval)) i (filter (λ x, viable x = true) es), true).
Proof.
  induction es as [|x es IH]; [done|]. intros i [Hx Hes]%Forall_cons_1.
  cbn [next_interval]. rewrite valid_is_viable by done. destruct (viable x) eqn:Hv; cbn [negb].
  - rewrite filter_cons_True by done. cbn [foldl].
    destruct (Z.ltb_spec (e_notification_interval x) i); rewrite IH by done; do 2 f_equal; lia.
  - rewrite filter_cons_False by congruence. by apply IH.
Qed.

Lemma next_interval_start es i :
  Forall (λ x, x.(e_mine) = true) es →
  (next_interval e n es (i, false)).1
  = match filter (λ x, viable x = true) es with
    | [] => i
    | x :: xs => foldl (λ i x, Z.min i x.(e_notification_interval)) x.(e_notification_interval) xs
    end.
Proof.
  induction es as [|x es IH]; [done|]. intros [Hx Hes]%Forall_cons_1.
  cbn [next_interval]. rewrite valid_is_viable by done. destruct (viable x) eqn:Hv; cbn [negb].
  - rewrite filter_cons_True by done. by rewrite next_interval_found.
  - rewrite filter_cons_False by congruence. by apply IH.
Qed.

End next_time.

(** ** A sample installation, for the concrete cases *)

Definition everything : Z := 2047.
Definition admin : contact := Contact "admin" "Admin" everything everything true true.
Definition guest : contact := Contact "guest" "Guest" everything everything true true.

(** A host watched by [admin], with an escalation to [guest] from the second
    notification on. *)
Definition sample_host (state : Z) (contacts : list contact) (escs : list escalation) : notifier :=
  Notifier host_notification state true false false 0 (HostView true true 0) 1000 true everything
    30 0 0 AckNone escs contacts [] 0 (λ _, None) 0 0.

Definition sample_escalation : escalation := Escalation true 2 0 10 everything false [[guest]].

Definition sample_env (t : Z) : env :=
  Env true 60 false false t true (λ _ _, true) (λ _, true) true NEB_OK (λ _, NEB_OK) [admin; guest].

Definition no_macros : macros := Macros "" "" "" "" "" "" "" "" "" "" "" "".
Definition sample_globals : globals := Globals 1 no_macros [].

Definition sample_call (type : reason_type) (t state : Z) : call :=
  Call (sample_env t) type "" "" notification_option_none
    (sample_host state [admin] [sample_escalation]).

Lemma sample_fresh : fresh (sample_host 0 [admin] [sample_escalation]).
Proof. by split. Qed.

(** [run] of sample calls, on the sample host. *)
Definition sample_run (ks : list call) : notifier * globals * list entry :=
  run ks (sample_host 0 [admin] [sample_escalation]) sample_globals [].

(** ** Theorems *)

(** C6: The audience of a recovery: after any sequence of calls from a notifier
    that has sent nothing, an accepted recovery notification reaches exactly the
    contacts configured for the notifier that take recoveries now, that no
    module refuses, and that were told about the problem since the last time it
    was closed; and it closes the problem. *)
Theorem recovery_audience ks n0 g0 n g log k r n' g' :
  fresh n0 → run ks n0 g0 [] = (n, g, log) →
  k.(k_type) = reason_recovery → accepted k n = true → do_call k n g = (r, n', g') →
  n'.(_notification) cat_normal = None ∧ n'.(_notification_number) = 0
  ∧ ∀ t c, (t, c) ∈ newly_reached g g' ↔
      t = reason_recovery ∧ k.(k_env).(broker_notification_data) = NEB_OK
      ∧ notify_contact k.(k_env) c = true
      ∧ c ∈ candidates k.(k_env) (observe k.(k_seen) n)
      ∧ accepts_recovery k.(k_env) k.(k_seen).(_notifier_type) c = true ∧ c.(c_name) ∈ told log.
Proof.
  intros Hf Hr Ht Ha Hd. eapply recovery_call; [|done..].
  by eapply run_consistent; [apply fresh_consistent|].
Qed.

Lemma recovery_audience_witness :
  let s := sample_run [sample_call reason_normal 2000 1] in
  let k := sample_call reason_recovery 9000 0 in
  (reason_recovery, admin) ∈ newly_reached s.1.2 (do_call k s.1.1 s.1.2).2.
Proof.
  intros s k.
  pose proof (recovery_audience [sample_call reason_normal 2000 1] _ sample_globals s.1.1 s.1.2 s.2 k
                (do_call k s.1.1 s.1.2).1.1 (do_call k s.1.1 s.1.2).1.2 (do_call k s.1.1 s.1.2).2
                sample_fresh ltac:(by vm_compute) eq_refl ltac:(by vm_compute) ltac:(by vm_compute))
    as (_ & _ & H).
  apply H. split_and!; [reflexivity..| | |].
  - apply (bool_decide_unpack _). vm_compute. exact I.
  - reflexivity.
  - apply (bool_decide_unpack _). vm_compute. exact I.
Defined.

(** C30: The recovery follows the problem: when contacts were told about a problem
    and only problem, acknowledgement and downtime notifications were requested
    since, a recovery requested while nothing stands in its way is accepted. *)
Theorem recovery_follows_problem ks n0 g0 n g log k :
  fresh n0 → run ks n0 g0 [] = (n, g, log) →
  forallb keeps_open ks = true → Z.of_nat (length ks) < 2 ^ 32 → told log ≠ ∅ →
  k.(k_type) = reason_recovery → recovery_due k.(k_env) (observe k.(k_seen) n) = true →
  k.(k_env).(broker_notification_data) ≠ NEBERROR_CALLBACKCANCEL →
  accepted k n = true.
Proof.
  intros Hf Hr Hks Hlen Htold Ht Hdue Hb. rewrite (accepted_recovery _ _ Ht Hdue Hb).
  destruct (run_consistent _ _ _ _ _ _ _ (fresh_consistent _ Hf) Hr) as [_ Hn].
  assert (Hs : n.(_notification) cat_normal ≠ None) by (intros H0; by apply Htold, Hn).
  destruct Hf as [Hnum Hnone].
  assert (1 ≤ n.(_notification_number)).
  { eapply (open_run ks n0 g0 [] n g log 0); try done; try lia. by rewrite Hnone. }
  destruct (Z.eqb_spec n.(_notification_number) 0); [lia|]. by rewrite bool_decide_eq_false_2.
Qed.

Lemma recovery_follows_problem_witness :
  accepted (sample_call reason_recovery 9000 0)
    (sample_run [sample_call reason_normal 2000 1; sample_call reason_acknowledgement 3000 1]).1.1 = true.
Proof.
  pose (ks := [sample_call reason_normal 2000 1; sample_call reason_acknowledgement 3000 1]).
  apply (recovery_follows_problem ks (sample_host 0 [admin] [sample_escalation]) sample_globals
           (sample_run ks).1.1 (sample_run ks).1.2 (sample_run ks).2 _ sample_fresh);
    [by vm_compute|reflexivity|by vm_compute|by vm_compute|reflexivity|by vm_compute|done].
Defined.

(** Re-notification: after a problem notification that reached a contact, and
    whatever acknowledgement, flapping, downtime and custom notifications come
    in between, the next problem notification that is neither forced nor for a
    volatile service waits the notification interval recorded with the first
    (none is sent when that is 0), unless the hard state changed. *)
Theorem renotification_spacing k0 ks k n g r n1 g1 log n2 g2 log2 :
  k0.(k_type) = reason_normal → do_call k0 n g = (r, n1, g1) → newly_reached g g1 ≠ [] →
  Forall (λ k, quiet k.(k_type) = true ∧ k0.(k_env).(now) ≤ k.(k_env).(now)) ks →
  run ks n1 g1 log = (n2, g2, log2) →
  k.(k_type) = reason_normal → has_flag k.(k_options) notification_option_forced = false →
  k.(k_seen).(_is_volatile) = false → accepted k n2 = true →
  k.(k_seen).(last_hard_state_change) ≤ k0.(k_env).(now) →
  ∃ nt, n1.(_notification) cat_normal = Some nt ∧ nt.(n_interval) ≠ 0
        ∧ k0.(k_env).(now) + wrap_u32 (nt.(n_interval) * k.(k_env).(interval_length)) ≤ k.(k_env).(now).
Proof.
  intros Ht0 Hd Hnew Hks Hr Ht Hf Hv Ha Hh.
  destruct (normal_step _ _ _ _ _ _ Ht0 Hnew Hd) as [Hlast [nt Hnt]].
  destruct (quiet_run _ _ _ _ _ _ _ _ Hks ltac:(by rewrite Hlast) Hr) as [Hs Hle].
  pose proof (accepted_normal _ _ Ht Ha) as Hv2.
  destruct (normal_viable _ _ (observe (k_seen k) n2) Hf Hv Hv2) as [_ Hgap]. cbn in Hgap. rewrite Hs, Hnt in Hgap.
  exists nt. split; [done|]. destruct Hgap as [Hi Hgap]; [lia|]. split; [done|]. lia.
Qed.

Lemma renotification_spacing_witness :
  let s := sample_run [sample_call reason_normal 2000 1] in
  ∃ nt, s.1.1.(_notification) cat_normal = Some nt ∧ nt.(n_interval) ≠ 0
        ∧ 2000 + wrap_u32 (nt.(n_interval) * 60) ≤ 5000.
Proof.
  pose (h := sample_host 0 [admin] [sample_escalation]).
  pose (d := do_call (sample_call reason_normal 2000 1) h sample_globals).
  pose (ks := [sample_call reason_acknowledgement 2500 1]).
  pose (t := run ks d.1.2 d.2 []).
  apply (renotification_spacing (sample_call reason_normal 2000 1) ks (sample_call reason_normal 5000 1)
           h sample_globals d.1.1 d.1.2 d.2 [] t.1.1 t.1.2 t.2); try (by vm_compute).
  repeat constructor. by vm_compute.
Defined.

(** Starts and ends of flapping alternate: over any sequence of calls that
    are not forced, the flapping notifications sent are a start, then a stop or
    a cancellation, then a start again. *)
Theorem flapping_alternates ks n0 g0 n g log :
  fresh n0 → Forall (λ k, has_flag k.(k_options) notification_option_forced = false) ks →
  run ks n0 g0 [] = (n, g, log) → alternates (flaps log).
Proof.
  intros Hf Hks Hr. eapply flaps_run; [by apply fresh_consistent|done|done|done].
Qed.

Definition sample_flaps : list call :=
  [sample_call reason_flappingstart 2000 1; sample_call reason_flappingstart 2100 1;
   sample_call reason_flappingstop 2200 1; sample_call reason_flappingdisabled 2300 1].

Lemma flapping_alternates_witness :
  flaps (sample_run sample_flaps).2 = [reason_flappingstop; reason_flappingstart]
  ∧ alternates (flaps (sample_run sample_flaps).2).
Proof.
  split; [by vm_compute|].
  apply (flapping_alternates sample_flaps (sample_host 0 [admin] [sample_escalation]) sample_globals
           (sample_run sample_flaps).1.1 (sample_run sample_flaps).1.2 (sample_run sample_flaps).2
           sample_fresh); [|by vm_compute].
  repeat constructor.
Defined.

(** The record of what was sent: after any sequence of calls from a notifier
    that has sent nothing, the slots hold a problem with exactly the contacts
    told about it, a flapping (a downtime) slot exactly while the last flapping
    (downtime) notification sent is a start, and nothing for recoveries,
    acknowledgements and custom notifications. *)
Theorem slots_record_history ks n0 g0 n g log :
  fresh n0 → run ks n0 g0 [] = (n, g, log) →
  slots_ok n.(_notification) log ∧ (n.(_notification) cat_normal = None → told log = ∅).
Proof. intros Hf Hr. exact (run_consistent _ _ _ _ _ _ _ (fresh_consistent _ Hf) Hr). Qed.

Lemma slots_record_history_witness :
  let s := sample_run (sample_call reason_normal 2000 1 :: sample_flaps) in
  told s.2 = {[ "admin"%string ]} ∧ slots_ok s.1.1.(_notification) s.2.
Proof.
  intros s. split; [by vm_compute|].
  apply (slots_record_history (sample_call reason_normal 2000 1 :: sample_flaps)
           (sample_host 0 [admin] [sample_escalation]) sample_globals s.1.1 s.1.2 s.2 sample_fresh).
  by vm_compute.
Defined.

(** The gates of a problem notification: one that is sent without being
    forced, for a notifier that is not volatile, finds notifications enabled for
    the program and the notifier, its period open, a hard problem state it is
    configured for, not acknowledged, no downtime, no flapping, no failed
    dependency, and the first notification delay elapsed. *)
Theorem problem_notification_gates k n g r n' g' :
  k.(k_type) = reason_normal → has_flag k.(k_options) notification_option_forced = false →
  k.(k_seen).(_is_volatile) = false →
  do_call k n g = (r, n', g') → g' ≠ g →
  let e := k.(k_env) in let s := observe k.(k_seen) n in
  e.(enable_notifications) = true ∧ s.(_notifications_enabled) = true ∧ is_in_downtime s = false
  ∧ e.(in_notification_period) = true ∧ s.(is_flapping) = false ∧ s.(hard) = true
  ∧ problem_has_been_acknowledged s = false ∧ s.(current_state) ≠ 0
  ∧ get_notify_on_current_state e s = true ∧ e.(authorized_by_dependencies) = true
  ∧ (n.(_notification) cat_normal = None → 0 < s.(_first_notification_delay) →
     s.(last_hard_state_change) + wrap_u32 (s.(_first_notification_delay) * e.(interval_length)) ≤ e.(now)).
Proof.
  destruct k as [e ty au da op seen]. cbn [k_type k_env k_options k_seen]. intros -> Hf Hvol Hd Hg.
  destruct (notify_outcome _ _ _ _ _ _ _ _ _ _ Hd) as [to Ho].
  assert (Hv' : _is_notification_viable_normal e op (observe seen n) = true)
    by (outcome_inv Ho; [done| |]; by injection Hv as Hv).
  destruct (normal_viable _ _ (observe seen n) Hf Hvol Hv') as [Hall Hdelay].
  cbv zeta. destruct Hall as (?&?&?&?&?&?&?&?&?&?). split_and!; try done.
  intros Hn. by rewrite observe_slots, Hn in Hdelay.
Qed.

Lemma problem_notification_gates_witness :
  (do_call (sample_call reason_normal 2000 1) (sample_host 0 [admin] []) sample_globals).2 ≠ sample_globals
  ∧ (sample_call reason_normal 2000 1).(k_seen).(current_state) ≠ 0.
Proof.
  pose (h := sample_host 0 [admin] []).
  pose (d := do_call (sample_call reason_normal 2000 1) h sample_globals).
  assert (Hne : d.2 ≠ sample_globals) by (by vm_compute).
  split; [exact Hne|].
  apply (problem_notification_gates (sample_call reason_normal 2000 1) h sample_globals d.1.1 d.1.2 d.2
           eq_refl eq_refl eq_refl); [by vm_compute|exact Hne].
Defined.

(** The contacts chosen: without duplicates, exactly those of the viable
    escalations (of the notifier when there is none) that accept the
    notification; the interval recorded is the smallest of the viable
    escalations, or the notifier's own. *)
Theorem contacts_chosen e cat type n l i escalated :
  get_contacts_to_notify e cat type n = (l, i, escalated) →
  NoDup l
  ∧ (∀ c, c ∈ l ↔ should_be_notified e cat type n c = true
       ∧ if escalated then ∃ esc members, esc ∈ viable_escalations e n ∧ members ∈ esc.(e_contactgroups)
                                         ∧ c ∈ members
         else c ∈ n.(_contacts) ∨ ∃ members, members ∈ n.(_contact_groups) ∧ c ∈ members)
  ∧ (if escalated then (∃ esc, esc ∈ viable_escalations e n ∧ i = esc.(e_notification_interval))
                       ∧ ∀ esc, esc ∈ viable_escalations e n → i ≤ esc.(e_notification_interval)
     else viable_escalations e n = [] ∧ i = n.(_notification_interval)).
Proof.
  intros Hg. destruct (get_contacts_to_notify_spec _ _ _ _ _ _ _ Hg) as (Hnd & Hin & -> & ->).
  split; [done|]. unfold candidates, chosen_interval in *.
  destruct (viable_escalations e n) as [|v vs].
  - rewrite bool_decide_eq_true_2 by done. cbn [negb]. split; [|done].
    intros c. rewrite Hin, elem_of_app, elem_of_concat. tauto.
  - rewrite bool_decide_eq_false_2 by done. cbn [negb]. split_and!.
    + intros c. rewrite Hin, elem_of_concat. setoid_rewrite elem_of_concat.
      setoid_rewrite list_elem_of_fmap. naive_solver.
    + destruct (foldl_min e_notification_interval vs (e_notification_interval v)) as (_ & _ & [Hi|Hi]).
      * exists v. split; [set_solver|done].
      * destruct Hi as (esc & ? & Hi). exists esc. split; [set_solver|done].
    + intros esc. destruct (foldl_min e_notification_interval vs (e_notification_interval v)) as (H1 & H2 & _).
      intros [->|Hx]%elem_of_cons; [done|by apply H2].
Qed.

Lemma contacts_chosen_witness :
  let n := numbered reason_normal (numbered reason_normal (sample_host 1 [admin] [sample_escalation])) in
  guest ∈ (get_contacts_to_notify (sample_env 2000) cat_normal reason_normal n).1.1.
Proof.
  intros n. pose (r := get_contacts_to_notify (sample_env 2000) cat_normal reason_normal n).
  destruct (contacts_chosen (sample_env 2000) cat_normal reason_normal n r.1.1 r.1.2 r.2
              ltac:(by vm_compute)) as (_ & H & _).
  apply H. split; [by vm_compute|]. change r.2 with true.
  exists sample_escalation, [guest]. split_and!; [|by apply list_elem_of_here..].
  change (viable_escalations (sample_env 2000) n) with [sample_escalation]. by apply list_elem_of_here.
Defined.

(** The next notification time announced for a problem is the offset plus the
    interval that the next notification would record: the escalations valid for
    [get_next_notification_time] are those [get_contacts_to_notify] finds
    viable, when they belong to the notifier. *)
Theorem next_notification_agrees e cat type offset n :
  n.(current_state) ≠ 0 → Forall (λ esc, esc.(e_mine) = true) n.(_escalations) →
  let '(_, i, _) := get_contacts_to_notify e cat type n in
  get_next_notification_time e offset n
  = (offset + wrap_u32 (i * e.(interval_length)), (i =? 0) && negb n.(_is_volatile)).
Proof.
  intros Hs Hm. destruct (get_contacts_to_notify e cat type n) as [[l i] esc] eqn:Hg.
  destruct (get_contacts_to_notify_spec _ _ _ _ _ _ _ Hg) as (_ & _ & -> & _).
  unfold get_next_notification_time, chosen_interval, viable_escalations.
  rewrite <- (next_interval_start e n Hs _ _ Hm). by destruct (next_interval _ _ _ _).
Qed.

Lemma next_notification_agrees_witness :
  get_next_notification_time (sample_env 2000) 5000 (sample_host 1 [admin] [sample_escalation])
  = (6800, false).
Proof.
  refine (next_notification_agrees (sample_env 2000) cat_normal reason_normal 5000
           (sample_host 1 [admin] [sample_escalation]) _ _); [done|]. by repeat constructor.
Defined.

(** A custom or flapping notification loses the recovery: once it has been
    sent, a recovery requested while nothing stands in its way is refused, and
    the problem is forgotten, so the contacts told about it are never told that
    it ended. *)
Theorem custom_loses_recovery k n g r n1 g1 k' r' n' g' :
  get_category k.(k_type) = cat_custom ∨ get_category k.(k_type) = cat_flapping →
  accepted k n = true → do_call k n g = (r, n1, g1) →
  k'.(k_type) = reason_recovery → recovery_due k'.(k_env) (observe k'.(k_seen) n1) = true →
  do_call k' n1 g1 = (r', n', g') →
  n1.(_notification) cat_normal = n.(_notification) cat_normal
  ∧ g' = g1 ∧ n'.(_notification) cat_normal = None.
Proof.
  intros Hcat Ha Hd Ht Hdue Hd'.
  assert (Hz : n1.(_notification_number) = 0).
  { destruct (notify_outcome _ _ _ _ _ _ _ _ _ _ Hd) as [to Ho]. unfold accepted in Ha.
    outcome_inv Ho; rewrite Hv in Ha; cbn in Ha; [done|by rewrite bool_decide_eq_true_2 in Ha|].
    by destruct Hcat as [-> | ->]. }
  assert (Hq : quiet k.(k_type) = true) by (revert Hcat; by destruct (k_type k); intros []).
  split; [apply (quiet_step _ _ _ _ _ _ Hq Hd)|].
  destruct k' as [e' ty au da op seen]. cbn [k_type k_env k_seen] in *. subst ty.
  unfold do_call, notify in Hd'. cbn [k_env k_type k_author k_data k_options k_seen get_category] in Hd'.
  rewrite (recovery_due_viable _ _ _ Hdue) in Hd'. cbn [observe _notification_number set_sent] in Hd'.
  rewrite Hz in Hd'. cbn in Hd'. by injection Hd' as <- <- <-.
Qed.

Lemma custom_loses_recovery_witness :
  let s := sample_run [sample_call reason_normal 2000 1; sample_call reason_custom 3000 1] in
  let k := sample_call reason_recovery 9000 0 in
  "admin"%string ∈ told s.2 ∧ (do_call k s.1.1 s.1.2).2 = s.1.2.
Proof.
  intros s k. split; [apply (bool_decide_unpack _); vm_compute; exact I|].
  pose (p := sample_run [sample_call reason_normal 2000 1]).
  pose (d' := do_call k s.1.1 s.1.2).
  destruct (custom_loses_recovery (sample_call reason_custom 3000 1) p.1.1 p.1.2 true s.1.1 s.1.2
              k d'.1.1 d'.1.2 d'.2) as (_ & H & _);
    [by left|by vm_compute..|exact H].
Defined.

(** With [send_recovery_notifications_anyways], a recovery requested outside
    of the notification period skips the other tests too: whatever the state, a
    host that is still down included, the contacts told about the problem that
    take recoveries are sent one, and the problem is closed.  [host::clear_flap]
    and [service::clear_flap] request a recovery without looking at the state. *)
Theorem recovery_anyways_skips_tests ks n0 g0 n g log k r n' g' :
  fresh n0 → run ks n0 g0 [] = (n, g, log) →
  k.(k_type) = reason_recovery → k.(k_env).(enable_notifications) = true →
  k.(k_seen).(_notifications_enabled) = true → k.(k_env).(in_notification_period) = false →
  k.(k_env).(send_recovery_notifications_anyways) = true →
  k.(k_env).(broker_notification_data) = NEB_OK →
  do_call k n g = (r, n', g') →
  n'.(_notification) cat_normal = None
  ∧ ∀ c, c ∈ candidates k.(k_env) (observe k.(k_seen) n) →
         accepts_recovery k.(k_env) k.(k_seen).(_notifier_type) c = true →
         notify_contact k.(k_env) c = true → c.(c_name) ∈ told log →
         (reason_recovery, c) ∈ newly_reached g g'.
Proof.
  intros Hf Hr Ht Hen Hen' Hper Hany Hb Hd.
  assert (Ha : accepted k n = true).
  { unfold accepted. rewrite Ht, Hb. cbn [get_category is_notification_viable].
    unfold _is_notification_viable_recovery. cbn [observe set_sent _notifications_enabled].
    by rewrite Hen, Hen', Hper, Hany. }
  destruct (recovery_call k n g log r n' g') as (H1 & _ & H2); try done.
  { by eapply run_consistent; [apply fresh_consistent|]. }
  split; [done|]. intros c ????. by apply H2.
Qed.

Lemma recovery_anyways_skips_tests_witness :
  let s := sample_run [sample_call reason_normal 2000 1] in
  let e := Env true 60 true false 2100 false (λ _ _, true) (λ _, true) true NEB_OK (λ _, NEB_OK) [admin] in
  let k := Call e reason_recovery "" "" notification_option_none (sample_host 1 [admin] []) in
  k.(k_seen).(current_state) ≠ 0
  ∧ (reason_recovery, admin) ∈ newly_reached s.1.2 (do_call k s.1.1 s.1.2).2.
Proof.
  intros s e k. split; [done|]. pose (d := do_call k s.1.1 s.1.2).
  destruct (recovery_anyways_skips_tests [sample_call reason_normal 2000 1] _ sample_globals
              s.1.1 s.1.2 s.2 k d.1.1 d.1.2 d.2 sample_fresh) as [_ H]; try (by vm_compute).
  apply (H admin); try (by vm_compute); apply (bool_decide_unpack _); vm_compute; exact I.
Defined.

(** [is_contact_for_notifier] answers true for a direct contact, and for a
    contact that is missing from one of the contact groups; membership of a
    group does not make it true. *)
Theorem is_contact_for_notifier_inverted n c :
  is_contact_for_notifier n c = true ↔
  c ∈ n.(_contacts)
  ∨ ∃ members, members ∈ n.(_contact_groups) ∧ ∀ c', c' ∈ members → c'.(c_name) ≠ c.(c_name).
Proof.
  unfold is_contact_for_notifier. rewrite orb_true_iff, bool_decide_eq_true, existsb_exists.
  setoid_rewrite negb_true_iff. setoid_rewrite <- not_true_iff_false.
  setoid_rewrite existsb_exists. setoid_rewrite bool_decide_eq_true. setoid_rewrite <- list_elem_of_In.
  split; (intros [|(m & ? & Hm)]; [by left|right; exists m; split; [done|]]).
  - intros c' ??. apply Hm. eauto.
  - intros (c' & ? & ?). by eapply Hm.
Qed.
