(* ===== verification/CheckOutput.v ===== *)
(** * The output of a check

    [parse_check_output] of [engine/src/utils.cc] cuts what a plugin printed into
    a short output, a long output and the performance data.  The text is a list
    of bytes. *)

From S2P Require Import Prelude.

#[local] Open Scope Z_scope.

(** ** Characters *)

Definition c_newline : Z := 10.
Definition c_pipe : Z := 124.
Definition c_backslash : Z := 92.
Definition c_n : Z := 110.
Definition c_space : Z := 32.

(** [std::isspace] *)
Definition isspace (c : Z) : bool := (c =? 32) || ((9 <=? c) && (c <=? 13)).

(** ** Cutting lines *)

(** [buffer.find("\n", start)]: what is before and after the first newline. *)
Fixpoint cut_newline (s : list Z) : option (list Z * list Z) :=
  match s with
  | [] => None
  | c :: s' => if c =? c_newline then Some ([], s')
               else match cut_newline s' with
                    | Some (l, r) => Some (c :: l, r)
                    | None => None
                    end
  end.

(** [buffer.find("\\n", start)]: the first backslash followed by an n. *)
Fixpoint cut_escaped (s : list Z) : option (list Z * list Z) :=
  match s with
  | c :: s' =>
      match (if c =? c_backslash then match s' with d :: s'' => if d =? c_n then Some s'' else None | [] => None end
             else None) with
      | Some r => Some ([], r)
      | None => match cut_escaped s' with
                | Some (l, r) => Some (c :: l, r)
                | None => None
                end
      end
  | [] => None
  end.

(** The next line and what follows; nothing follows the last one. *)
Definition next_line (newlines_are_escaped : bool) (s : list Z) : list Z * option (list Z) :=
  match (if newlines_are_escaped then cut_escaped s else None) with
  | Some (l, r) => (l, Some r)
  | None => match cut_newline s with
            | Some (l, r) => (l, Some r)
            | None => (s, None)
            end
  end.

(** [line.find_last_of('|')]: what is before and after the last pipe. *)
Fixpoint cut_last_pipe (s : list Z) : option (list Z * list Z) :=
  match s with
  | [] => None
  | c :: s' =>
      match cut_last_pipe s' with
      | Some (l, r) => Some (c :: l, r)
      | None => if c =? c_pipe then Some ([], s') else None
      end
  end.

(** [while (pipe < line.size() - 1 && isspace(line[pipe])) pipe++] *)
Fixpoint trim_start (s : list Z) : list Z :=
  match s with
  | c :: s' => match s' with
               | [] => s
               | _ => if isspace c then trim_start s' else s
               end
  | [] => []
  end.

(** [while (end_line > 1 && isspace(line[end_line - 1])) end_line--] *)
Definition trim_end (s : list Z) : list Z := rev (trim_start (rev s)).

(** ** The loop *)

Record parsed := Parsed {
  short_buffer : list Z;
  long_buffer : list Z;
  pd_buffer : list Z;
  long_pipe : bool;
  perfdata_already_filled : bool;
  line_number : Z;
}.

Definition parsed_init : parsed := Parsed [] [] [] false false 1.

(** One turn of the loop: the line is cut at its last pipe, unless the lines hold
    performance data only. *)
Definition parse_line (escape_newlines_please : bool) (p : parsed) (line : list Z) : parsed :=
  let newline := if escape_newlines_please then [c_backslash; c_n] else [c_newline] in
  let first := p.(line_number) =? 1 in
  let long := p.(long_buffer) ++ (if 2 <? p.(line_number) then newline else []) in
  let pd := p.(pd_buffer) ++ (if p.(perfdata_already_filled) then [c_space] else []) in
  match (if p.(long_pipe) then None else cut_last_pipe line) with
  | Some (before, after) =>
      let text := trim_end before in
      let perf := trim_start after in
      if first
      then Parsed (p.(short_buffer) ++ text) p.(long_buffer) (p.(pd_buffer) ++ perf) p.(long_pipe) true
             (p.(line_number) + 1)
      else Parsed p.(short_buffer) (long ++ text) (pd ++ perf) true p.(perfdata_already_filled)
             (p.(line_number) + 1)
  | None =>
      let line := trim_end line in
      if first
      then Parsed (p.(short_buffer) ++ line) p.(long_buffer) p.(pd_buffer) p.(long_pipe)
             p.(perfdata_already_filled) (p.(line_number) + 1)
      else if negb p.(long_pipe)
      then Parsed p.(short_buffer) (long ++ line) p.(pd_buffer) p.(long_pipe)
             p.(perfdata_already_filled) (p.(line_number) + 1)
      else Parsed p.(short_buffer) p.(long_buffer) (pd ++ line) p.(long_pipe)
             p.(perfdata_already_filled) (p.(line_number) + 1)
  end.

Fixpoint parse_loop (fuel : nat) (escape newlines_are_escaped : bool) (p : parsed) (s : list Z) : res parsed :=
  match fuel with
  | O => Throw fuel_exhausted
  | S fuel =>
      let '(line, rest) := next_line newlines_are_escaped s in
      let p := parse_line escape p line in
      match rest with
      | Some s' => parse_loop fuel escape newlines_are_escaped p s'
      | None => Ret p
      end
  end.

(** [parse_check_output] on empty output strings: the short output, the long
    output and the performance data. *)
Definition parse_check_output (buffer : list Z) (escape newlines_are_escaped : bool) :
    res (list Z * list Z * list Z) :=
  match parse_loop (S (length buffer)) escape newlines_are_escaped parsed_init buffer with
  | Ret p => Ret (p.(short_buffer), p.(long_buffer), p.(pd_buffer))
  | Throw e => Throw e
  end.

(** ** Lemmas *)

Lemma cut_newline_shorter s l r : cut_newline s = Some (l, r) → (length r < length s)%nat.
Proof.
  revert l. induction s as [|c s IH]; intros l; cbn [cut_newline]; [done|].
  case_match; [intros [= _ <-]; cbn; lia|]. destruct (cut_newline s) as [[l' r']|]; [|done].
  intros [= _ <-]. specialize (IH l' eq_refl). cbn. lia.
Qed.

Lemma cut_escaped_shorter s l r : cut_escaped s = Some (l, r) → (length r < length s)%nat.
Proof.
  revert l. induction s as [|c s IH]; intros l; cbn [cut_escaped]; [done|].
  destruct (c =? c_backslash); [destruct s as [|d s']; [done|destruct (d =? c_n)]|];
    try (intros [= _ <-]; cbn; lia);
    (destruct (cut_escaped _) as [[l' r']|]; [|done]); intros [= _ <-]; specialize (IH l' eq_refl); cbn in *; lia.
Qed.

Lemma next_line_shorter escaped s l r : next_line escaped s = (l, Some r) → (length r < length s)%nat.
Proof.
  unfold next_line. destruct escaped.
  - destruct (cut_escaped s) as [[l' r']|] eqn:E; [intros [= _ <-]; by eapply cut_escaped_shorter|].
    destruct (cut_newline s) as [[l' r']|] eqn:E'; [|done]. intros [= _ <-]. by eapply cut_newline_shorter.
  - destruct (cut_newline s) as [[l' r']|] eqn:E'; [|done]. intros [= _ <-]. by eapply cut_newline_shorter.
Qed.

Lemma parse_loop_total fuel escape escaped p s :
  (length s < fuel)%nat → ∃ p', parse_loop fuel escape escaped p s = Ret p'.
Proof.
  revert p s. induction fuel as [|fuel IH]; intros p s Hf; [lia|]. cbn [parse_loop].
  destruct (next_line escaped s) as [line [r|]] eqn:E; [|by eexists].
  apply next_line_shorter in E. apply IH. lia.
Qed.

(** [parse_check_output] ends on every output, whatever the plugin
    printed. *)
Theorem parse_check_output_total buffer escape escaped :
  ∃ r, parse_check_output buffer escape escaped = Ret r.
Proof.
  unfold parse_check_output.
  destruct (parse_loop_total (S (length buffer)) escape escaped parsed_init buffer) as [p ->]; [lia|].
  by eexists.
Qed.

(** Lines that hold no newline, joined by newlines. *)
Fixpoint join_lines (l : list Z) (ls : list (list Z)) : list Z :=
  match ls with
  | [] => l
  | l' :: ls' => l ++ c_newline :: join_lines l' ls'
  end.

Lemma cut_newline_app l r : c_newline ∉ l → cut_newline (l ++ c_newline :: r) = Some (l, r).
Proof.
  induction l as [|c l IH]; intros Hl; [done|]. apply not_elem_of_cons in Hl as [Hc Hl].
  cbn [app cut_newline]. rewrite (proj2 (Z.eqb_neq _ _)) by done. by rewrite IH.
Qed.

Lemma cut_newline_none l : c_newline ∉ l → cut_newline l = None.
Proof.
  induction l as [|c l IH]; intros Hl; [done|]. apply not_elem_of_cons in Hl as [Hc Hl].
  cbn [cut_newline]. rewrite (proj2 (Z.eqb_neq _ _)) by done. by rewrite IH.
Qed.

Lemma parse_loop_lines fuel escape p l ls :
  c_newline ∉ l → Forall (λ l, c_newline ∉ l) ls → (length (join_lines l ls) < fuel)%nat →
  parse_loop fuel escape false p (join_lines l ls) = Ret (foldl (parse_line escape) p (l :: ls)).
Proof.
  revert fuel p l. induction ls as [|l' ls IH]; intros fuel p l Hl Hls Hf;
    (destruct fuel as [|fuel]; [lia|]); cbn [parse_loop join_lines].
  - unfold next_line. by rewrite cut_newline_none.
  - apply Forall_cons in Hls as [Hl' Hls]. unfold next_line. rewrite cut_newline_app by done.
    cbn [join_lines] in Hf. rewrite length_app in Hf. cbn [length] in Hf. rewrite IH; [done..|lia].
Qed.

(** ** Printing and parsing *)

(** Text a line can hold as it is: one line, no pipe, no space at its end. *)
Definition text_ok (s : list Z) : Prop := s ≠ [] ∧ (c_newline ∉ s) ∧ (c_pipe ∉ s) ∧ trim_end s = s.
(** Performance data: one line, no pipe, no space at either end. *)
Definition perf_ok (s : list Z) : Prop := text_ok s ∧ trim_start s = s.

#[export] Instance text_ok_dec s : Decision (text_ok s).
Proof. unfold text_ok. apply _. Defined.
#[export] Instance perf_ok_dec s : Decision (perf_ok s).
Proof. unfold perf_ok. apply _. Defined.

(** [text | perf] *)
Definition with_perf (text perf : list Z) : list Z := text ++ [c_space; c_pipe; c_space] ++ perf.

Fixpoint intercalate (sep : list Z) (ls : list (list Z)) : list Z :=
  match ls with
  | [] => []
  | [l] => l
  | l :: ls' => l ++ sep ++ intercalate sep ls'
  end.

Lemma intercalate_snoc sep ls l :
  intercalate sep (ls ++ [l]) = intercalate sep ls ++ (if decide (ls = []) then [] else sep) ++ l.
Proof.
  induction ls as [|l0 ls IH]; [done|]. destruct ls as [|l1 ls]; [done|].
  change (intercalate sep ((l0 :: l1 :: ls) ++ [l])) with (l0 ++ sep ++ intercalate sep ((l1 :: ls) ++ [l])).
  change (intercalate sep (l0 :: l1 :: ls)) with (l0 ++ sep ++ intercalate sep (l1 :: ls)).
  rewrite IH, !decide_False by done. by rewrite <- !app_assoc.
Qed.

Lemma cut_last_pipe_none s : c_pipe ∉ s → cut_last_pipe s = None.
Proof.
  induction s as [|c s IH]; intros Hs; [done|]. apply not_elem_of_cons in Hs as [Hc Hs].
  cbn [cut_last_pipe]. rewrite IH by done. by rewrite (proj2 (Z.eqb_neq _ _)).
Qed.

Lemma cut_last_pipe_app l r : c_pipe ∉ r → cut_last_pipe (l ++ c_pipe :: r) = Some (l, r).
Proof.
  intros Hr. induction l as [|c l IH]; cbn [app cut_last_pipe].
  - by rewrite cut_last_pipe_none.
  - by rewrite IH.
Qed.

Lemma trim_end_space s : s ≠ [] → trim_end (s ++ [c_space]) = trim_end s.
Proof.
  intros Hs. unfold trim_end. rewrite rev_unit. cbn [trim_start].
  destruct (rev s) as [|c r] eqn:E; [|done]. apply (f_equal (@rev Z)) in E. by rewrite rev_involutive in E.
Qed.

Lemma trim_start_space s : s ≠ [] → trim_start (c_space :: s) = trim_start s.
Proof. intros Hs. by destruct s. Qed.

Lemma cut_with_perf text perf :
  perf_ok perf → cut_last_pipe (with_perf text perf) = Some (text ++ [c_space], c_space :: perf).
Proof.
  intros ((_ & _ & Hp & _) & _). unfold with_perf.
  change ([c_space; c_pipe; c_space] ++ perf) with ([c_space] ++ c_pipe :: c_space :: perf).
  rewrite app_assoc. apply cut_last_pipe_app. by apply not_elem_of_cons.
Qed.

(** The first line, with and without performance data. *)
Lemma parse_first escape short perf :
  text_ok short → perf_ok perf →
  parse_line escape parsed_init (with_perf short perf) = Parsed short [] perf false true 2.
Proof.
  intros (Hn & _ & _ & Ht) Hp. unfold parse_line. cbn [long_pipe parsed_init]. rewrite cut_with_perf by done.
  destruct Hp as ((Hpn & _) & Hps). by rewrite trim_end_space, Ht, trim_start_space, Hps.
Qed.

Lemma parse_first_plain escape short :
  text_ok short → parse_line escape parsed_init short = Parsed short [] [] false false 2.
Proof.
  intros (_ & _ & Hp & Ht). unfold parse_line. cbn [long_pipe parsed_init].
  by rewrite cut_last_pipe_none, Ht.
Qed.

Section Lines.
Variables (short pd : list Z) (filled : bool).

(** The lines of the long output. *)
Lemma parse_longs longs done :
  Forall text_ok longs →
  foldl (parse_line true)
    (Parsed short (intercalate [c_backslash; c_n] done) pd false filled (2 + Z.of_nat (length done))) longs =
  Parsed short (intercalate [c_backslash; c_n] (done ++ longs)) pd false filled
    (2 + Z.of_nat (length (done ++ longs))).
Proof.
  intros Hl. revert done. induction Hl as [|l ls (_ & _ & Hp & Ht) _ IH]; intros done.
  { by rewrite app_nil_r. }
  cbn [foldl].
  assert (parse_line true
    (Parsed short (intercalate [c_backslash; c_n] done) pd false filled (2 + Z.of_nat (length done))) l =
    Parsed short (intercalate [c_backslash; c_n] (done ++ [l])) pd false filled
      (2 + Z.of_nat (length (done ++ [l])))) as ->.
  { unfold parse_line. cbn [long_pipe line_number long_buffer short_buffer pd_buffer perfdata_already_filled].
    rewrite cut_last_pipe_none, Ht by done. rewrite (proj2 (Z.eqb_neq _ _)) by lia. cbn [negb].
    rewrite intercalate_snoc, length_app. cbn [length].
    f_equal; [|lia]. rewrite <- app_assoc. f_equal. f_equal.
    destruct done as [|d done]; [done|]. rewrite decide_False by done.
    by rewrite (proj2 (Z.ltb_lt _ _)) by (cbn; lia). }
  by rewrite IH, <- app_assoc.
Qed.

(** The last of them, with the rest of the performance data. *)
Lemma parse_last l perf done :
  text_ok l → perf_ok perf →
  parse_line true
    (Parsed short (intercalate [c_backslash; c_n] done) pd false filled (2 + Z.of_nat (length done)))
    (with_perf l perf) =
  Parsed short (intercalate [c_backslash; c_n] (done ++ [l]))
    ((pd ++ (if filled then [c_space] else [])) ++ perf) true filled (3 + Z.of_nat (length done)).
Proof.
  intros (Hn & _ & _ & Ht) Hp. unfold parse_line.
  cbn [long_pipe line_number long_buffer short_buffer pd_buffer perfdata_already_filled].
  rewrite cut_with_perf by done. destruct Hp as ((Hpn & _) & Hps).
  rewrite trim_end_space, Ht, trim_start_space, Hps by done.
  rewrite (proj2 (Z.eqb_neq _ _)) by lia. rewrite intercalate_snoc.
  f_equal; [|lia]. rewrite <- app_assoc. f_equal. f_equal.
  destruct done as [|d done]; [done|]. rewrite decide_False by done.
  by rewrite (proj2 (Z.ltb_lt _ _)) by (cbn; lia).
Qed.

(** The lines of performance data. *)
Lemma parse_perfs long k perfs pd' :
  Forall text_ok perfs → 2 ≤ k →
  foldl (parse_line true) (Parsed short long pd' true filled k) perfs =
  Parsed short long (pd' ++ mjoin ((λ p, (if filled then [c_space] else []) ++ p) <$> perfs)) true filled
    (k + Z.of_nat (length perfs)).
Proof.
  intros Hp. revert k pd'. induction Hp as [|p perfs (_ & _ & _ & Ht) _ IH]; intros k pd' Hk.
  { cbn. rewrite app_nil_r. f_equal. lia. }
  cbn [foldl fmap list_fmap]. unfold parse_line at 2.
  cbn [long_pipe line_number long_buffer short_buffer pd_buffer perfdata_already_filled].
  rewrite Ht, (proj2 (Z.eqb_neq _ _)) by lia. cbn [negb]. rewrite IH by lia.
  change (mjoin (?a :: ?b)) with (a ++ mjoin b). rewrite <- !app_assoc. f_equal. cbn [length]. lia.
Qed.

End Lines.

(** The lines a plugin prints: a short output with performance data, the lines of
    the long output, the last one with more data, and lines of data. *)
Definition plugin_lines (longs : list (list Z)) (more : option (list Z * list Z * list (list Z))) :
    list (list Z) :=
  longs ++ match more with
           | None => []
           | Some (l, perf, perfs) => with_perf l perf :: perfs
           end.

Definition more_ok (more : option (list Z * list Z * list (list Z))) : Prop :=
  match more with
  | None => True
  | Some (l, perf, perfs) => text_ok l ∧ perf_ok perf ∧ Forall text_ok perfs
  end.

Lemma with_perf_line l perf : text_ok l → perf_ok perf → c_newline ∉ with_perf l perf.
Proof.
  intros (_ & Hl & _) ((_ & Hp & _) & _). unfold with_perf. rewrite !not_elem_of_app. split; [done|].
  split; [|done]. by vm_compute; intros H; repeat (apply elem_of_cons in H as [H|H]; [discriminate|]); inversion H.
Qed.

Lemma plugin_lines_ok longs more :
  Forall text_ok longs → more_ok more → Forall (λ l, c_newline ∉ l) (plugin_lines longs more).
Proof.
  assert (∀ ls, Forall text_ok ls → Forall (λ l, c_newline ∉ l) ls) as H.
  { intros ls Hl. eapply Forall_impl; [exact Hl|]. by intros l (_ & ? & _). }
  intros Hl Hm. apply Forall_app. split; [by apply H|]. destruct more as [[[l perf] perfs]|]; [|constructor].
  destruct Hm as (? & ? & ?). constructor; [by apply with_perf_line|by apply H].
Qed.


(** When the first line has no performance data and several later lines
    have, the code never notes that some is already there, and the pieces are
    glued together without a space ([a=1] and [b=2] become [a=1b=2]). *)
Theorem perfdata_lines_glued short l perf perfs :
  text_ok short → text_ok l → perf_ok perf → Forall text_ok perfs →
  parse_check_output (join_lines short (with_perf l perf :: perfs)) true false =
    Ret (short, l, perf ++ mjoin perfs).
Proof.
  intros Hs Hl Hp Hps. unfold parse_check_output.
  rewrite parse_loop_lines; [|apply Hs|apply (plugin_lines_ok [] (Some (l, perf, perfs))); by try constructor|lia].
  cbn [foldl]. rewrite parse_first_plain by done.
  pose proof (parse_last short [] false l perf [] Hl Hp) as E. cbn [intercalate length app] in E.
  change (2 + Z.of_nat 0) with 2 in E. rewrite E, parse_perfs by (done || lia).
  cbn [short_buffer long_buffer pd_buffer app]. f_equal. f_equal. f_equal. f_equal.
  induction perfs as [|x xs IH]; [done|]. apply Forall_cons in Hps as [_ Hps].
  cbn [fmap list_fmap]. change (mjoin (?a :: ?b)) with (a ++ mjoin b). cbn [app]. f_equal. by apply IH.
Qed.

(** ** Witnesses *)


(** [OK], then [x | a=1], then [b=2] *)
Lemma perfdata_lines_glued_witness :
  parse_check_output [79; 75; 10; 120; 32; 124; 32; 97; 61; 49; 10; 98; 61; 50] true false =
  Ret ([79; 75], [120], [97; 61; 49; 98; 61; 50]).
Proof.
  apply (perfdata_lines_glued [79; 75] [120] [97; 61; 49] [[98; 61; 50]]);
    apply (bool_decide_unpack _); vm_compute; exact I.
Defined.
