(* ===== verification/ServiceCheck.v ===== *)
(** * The results of service checks

    [service::handle_async_check_result] of [engine/src/service.cc] and what it
    calls: the state of a service after a check (soft until enough checks agree,
    hard then), the notifications it asks for, its flapping, the time of its next
    check.

    A service is a notifier ([Notifier.notifier] holds its state, its state type,
    its acknowledgement and what was notified) with the fields of a checkable
    object, grouped by role.  The clock and the answers of the time periods are in
    [Notifier.env].  What the handler asks of the host, of the downtimes, of the
    event handlers and of the logs is recorded as a list of actions. *)

From Stdlib Require Import SpecFloat.
From S2P Require Import Prelude Notifier CheckOutput.

#[local] Open Scope Z_scope.

(** ** State *)

(** [service::service_state] *)
Definition state_ok : Z := 0.
Definition state_warning : Z := 1.
Definition state_critical : Z := 2.
Definition state_unknown : Z := 3.

(** When and how the service is checked. *)
Record checkable := Checkable {
  _last_check : Z;
  _next_check : Z;
  _should_be_scheduled : bool;
  _has_been_checked : bool;
  _is_executing : bool;
  _is_being_freshened : bool;
  (** [_check_type == check_passive] *)
  _check_passive : bool;
  _plugin_output : list Z;
  _long_plugin_output : list Z;
  _perf_data : list Z;
  (** in whole seconds *)
  _latency : Z;
  _check_options : Z;
  (** the check of this service in the low-priority event queue: its [run_time] and its [event_options] *)
  _queued : option (Z * Z);
}.

Definition set_last_check (v : Z) (r : checkable) : checkable :=
  Checkable v r.(_next_check) r.(_should_be_scheduled) r.(_has_been_checked) r.(_is_executing)
    r.(_is_being_freshened) r.(_check_passive) r.(_plugin_output) r.(_long_plugin_output)
    r.(_perf_data) r.(_latency) r.(_check_options) r.(_queued).
Definition set_next_check (v : Z) (r : checkable) : checkable :=
  Checkable r.(_last_check) v r.(_should_be_scheduled) r.(_has_been_checked) r.(_is_executing)
    r.(_is_being_freshened) r.(_check_passive) r.(_plugin_output) r.(_long_plugin_output)
    r.(_perf_data) r.(_latency) r.(_check_options) r.(_queued).
Definition set_should_be_scheduled (v : bool) (r : checkable) : checkable :=
  Checkable r.(_last_check) r.(_next_check) v r.(_has_been_checked) r.(_is_executing)
    r.(_is_being_freshened) r.(_check_passive) r.(_plugin_output) r.(_long_plugin_output)
    r.(_perf_data) r.(_latency) r.(_check_options) r.(_queued).
Definition set_has_been_checked (v : bool) (r : checkable) : checkable :=
  Checkable r.(_last_check) r.(_next_check) r.(_should_be_scheduled) v r.(_is_executing)
    r.(_is_being_freshened) r.(_check_passive) r.(_plugin_output) r.(_long_plugin_output)
    r.(_perf_data) r.(_latency) r.(_check_options) r.(_queued).
Definition set_is_executing (v : bool) (r : checkable) : checkable :=
  Checkable r.(_last_check) r.(_next_check) r.(_should_be_scheduled) r.(_has_been_checked) v
    r.(_is_being_freshened) r.(_check_passive) r.(_plugin_output) r.(_long_plugin_output)
    r.(_perf_data) r.(_latency) r.(_check_options) r.(_queued).
Definition set_is_being_freshened (v : bool) (r : checkable) : checkable :=
  Checkable r.(_last_check) r.(_next_check) r.(_should_be_scheduled) r.(_has_been_checked)
    r.(_is_executing) v r.(_check_passive) r.(_plugin_output) r.(_long_plugin_output)
    r.(_perf_data) r.(_latency) r.(_check_options) r.(_queued).
Definition set_check_passive (v : bool) (r : checkable) : checkable :=
  Checkable r.(_last_check) r.(_next_check) r.(_should_be_scheduled) r.(_has_been_checked)
    r.(_is_executing) r.(_is_being_freshened) v r.(_plugin_output) r.(_long_plugin_output)
    r.(_perf_data) r.(_latency) r.(_check_options) r.(_queued).
Definition set_plugin_output (v : list Z) (r : checkable) : checkable :=
  Checkable r.(_last_check) r.(_next_check) r.(_should_be_scheduled) r.(_has_been_checked)
    r.(_is_executing) r.(_is_being_freshened) r.(_check_passive) v r.(_long_plugin_output)
    r.(_perf_data) r.(_latency) r.(_check_options) r.(_queued).
Definition set_long_plugin_output (v : list Z) (r : checkable) : checkable :=
  Checkable r.(_last_check) r.(_next_check) r.(_should_be_scheduled) r.(_has_been_checked)
    r.(_is_executing) r.(_is_being_freshened) r.(_check_passive) r.(_plugin_output) v
    r.(_perf_data) r.(_latency) r.(_check_options) r.(_queued).
Definition set_perf_data (v : list Z) (r : checkable) : checkable :=
  Checkable r.(_last_check) r.(_next_check) r.(_should_be_scheduled) r.(_has_been_checked)
    r.(_is_executing) r.(_is_being_freshened) r.(_check_passive) r.(_plugin_output)
    r.(_long_plugin_output) v r.(_latency) r.(_check_options) r.(_queued).
Definition set_latency (v : Z) (r : checkable) : checkable :=
  Checkable r.(_last_check) r.(_next_check) r.(_should_be_scheduled) r.(_has_been_checked)
    r.(_is_executing) r.(_is_being_freshened) r.(_check_passive) r.(_plugin_output)
    r.(_long_plugin_output) r.(_perf_data) v r.(_check_options) r.(_queued).
Definition set_check_options (v : Z) (r : checkable) : checkable :=
  Checkable r.(_last_check) r.(_next_check) r.(_should_be_scheduled) r.(_has_been_checked)
    r.(_is_executing) r.(_is_being_freshened) r.(_check_passive) r.(_plugin_output)
    r.(_long_plugin_output) r.(_perf_data) r.(_latency) v r.(_queued).
Definition set_queued (v : option (Z * Z)) (r : checkable) : checkable :=
  Checkable r.(_last_check) r.(_next_check) r.(_should_be_scheduled) r.(_has_been_checked)
    r.(_is_executing) r.(_is_being_freshened) r.(_check_passive) r.(_plugin_output)
    r.(_long_plugin_output) r.(_perf_data) r.(_latency) r.(_check_options) v.

(** How its state evolves. *)
Record tracking := Tracking {
  _last_state : Z;
  _last_hard_state : Z;
  _current_attempt : Z;
  _last_state_change : Z;
  _host_problem_at_last_check : bool;
  _next_notification : Z;
  _no_more_notifications : bool;
}.

Definition set_last_state (v : Z) (r : tracking) : tracking :=
  Tracking v r.(_last_hard_state) r.(_current_attempt) r.(_last_state_change)
    r.(_host_problem_at_last_check) r.(_next_notification) r.(_no_more_notifications).
Definition set_last_hard_state (v : Z) (r : tracking) : tracking :=
  Tracking r.(_last_state) v r.(_current_attempt) r.(_last_state_change)
    r.(_host_problem_at_last_check) r.(_next_notification) r.(_no_more_notifications).
Definition set_current_attempt (v : Z) (r : tracking) : tracking :=
  Tracking r.(_last_state) r.(_last_hard_state) v r.(_last_state_change)
    r.(_host_problem_at_last_check) r.(_next_notification) r.(_no_more_notifications).
Definition set_last_state_change (v : Z) (r : tracking) : tracking :=
  Tracking r.(_last_state) r.(_last_hard_state) r.(_current_attempt) v
    r.(_host_problem_at_last_check) r.(_next_notification) r.(_no_more_notifications).
Definition set_host_problem_at_last_check (v : bool) (r : tracking) : tracking :=
  Tracking r.(_last_state) r.(_last_hard_state) r.(_current_attempt) r.(_last_state_change) v
    r.(_next_notification) r.(_no_more_notifications).
Definition set_next_notification (v : Z) (r : tracking) : tracking :=
  Tracking r.(_last_state) r.(_last_hard_state) r.(_current_attempt) r.(_last_state_change)
    r.(_host_problem_at_last_check) v r.(_no_more_notifications).
Definition set_no_more_notifications (v : bool) (r : tracking) : tracking :=
  Tracking r.(_last_state) r.(_last_hard_state) r.(_current_attempt) r.(_last_state_change)
    r.(_host_problem_at_last_check) r.(_next_notification) v.

Record problem_ids := Problem_ids {
  _last_event_id : Z;
  _current_event_id : Z;
  _current_problem_id : Z;
  _last_problem_id : Z;
}.


(** [_last_time_ok] and its like *)
Record state_times := State_times {
  _last_time_ok : Z;
  _last_time_warning : Z;
  _last_time_critical : Z;
  _last_time_unknown : Z;
}.


Record history := History {
  (** 21 entries, the oldest at the index *)
  _state_history : list Z;
  _state_history_index : nat;
  _percent_state_change : spec_float;
  (** [_flapping_comment_id] is not 0 *)
  _flapping_comment : bool;
}.


Record service := Service {
  sv_notif : notifier;
  sv_check : checkable;
  sv_track : tracking;
  sv_ids : problem_ids;
  sv_times : state_times;
  sv_hist : history;
}.

Definition set_sv_notif (v : notifier) (r : service) : service :=
  Service v r.(sv_check) r.(sv_track) r.(sv_ids) r.(sv_times) r.(sv_hist).
Definition set_sv_check (v : checkable) (r : service) : service :=
  Service r.(sv_notif) v r.(sv_track) r.(sv_ids) r.(sv_times) r.(sv_hist).
Definition set_sv_track (v : tracking) (r : service) : service :=
  Service r.(sv_notif) r.(sv_check) v r.(sv_ids) r.(sv_times) r.(sv_hist).
Definition set_sv_ids (v : problem_ids) (r : service) : service :=
  Service r.(sv_notif) r.(sv_check) r.(sv_track) v r.(sv_times) r.(sv_hist).
Definition set_sv_times (v : state_times) (r : service) : service :=
  Service r.(sv_notif) r.(sv_check) r.(sv_track) r.(sv_ids) v r.(sv_hist).
Definition set_sv_hist (v : history) (r : service) : service :=
  Service r.(sv_notif) r.(sv_check) r.(sv_track) r.(sv_ids) r.(sv_times) v.

(** What the handler reads and writes of the host; its state and its downtime are
    in the notifier ([_host_ptr]). *)
Record host := Host {
  h_has_been_checked : bool;
  (** [get_initial_state() == host::state_up] *)
  h_initial_up : bool;
  h_next_check : Z;
  h_last_check : Z;
  h_last_state_change : Z;
  h_last_hard_state_change : Z;
}.

Definition set_h_has_been_checked (v : bool) (r : host) : host :=
  Host v r.(h_initial_up) r.(h_next_check) r.(h_last_check) r.(h_last_state_change)
    r.(h_last_hard_state_change).
Definition set_h_initial_up (v : bool) (r : host) : host :=
  Host r.(h_has_been_checked) v r.(h_next_check) r.(h_last_check) r.(h_last_state_change)
    r.(h_last_hard_state_change).
Definition set_h_next_check (v : Z) (r : host) : host :=
  Host r.(h_has_been_checked) r.(h_initial_up) v r.(h_last_check) r.(h_last_state_change)
    r.(h_last_hard_state_change).
Definition set_h_last_check (v : Z) (r : host) : host :=
  Host r.(h_has_been_checked) r.(h_initial_up) r.(h_next_check) v r.(h_last_state_change)
    r.(h_last_hard_state_change).
Definition set_h_last_state_change (v : Z) (r : host) : host :=
  Host r.(h_has_been_checked) r.(h_initial_up) r.(h_next_check) r.(h_last_check) v
    r.(h_last_hard_state_change).
Definition set_h_last_hard_state_change (v : Z) (r : host) : host :=
  Host r.(h_has_been_checked) r.(h_initial_up) r.(h_next_check) r.(h_last_check)
    r.(h_last_state_change) v.

(** What the handler asks of other parts. *)
Inductive action :=
  | ARunHostCheck                     (* [hst->run_async_check] *)
  | AHostNotify                       (* [hst->notify(reason_normal, ...)] *)
  | AHostFlapping                     (* [hst->check_for_flapping(true, false, true)] *)
  | ANotify (type : reason_type)      (* [notify(type, ...)] on the service *)
  | ALog (state : Z) (hard : bool) (attempt : Z)
  | AEventHandler (state : Z) (hard : bool) (attempt : Z)
  | ADeleteAckComments
  | APendingFlex                      (* [check_pending_flex_service_downtime] *)
  | AObsess
  | ABrokerCheck
  | AUpdateStatus
  | APerfData
  | APredictive (master : nat).       (* [run_async_check] of a master service *)

Record world := World {
  w_svc : service;
  w_host : host;
  w_globals : globals;
  next_event_id : Z;
  next_problem_id : Z;
  currently_running_service_checks : Z;
  (** what was asked of the other parts, oldest first *)
  w_actions : list action;
}.

Definition set_w_svc (v : service) (r : world) : world :=
  World v r.(w_host) r.(w_globals) r.(next_event_id) r.(next_problem_id)
    r.(currently_running_service_checks) r.(w_actions).
Definition set_w_host (v : host) (r : world) : world :=
  World r.(w_svc) v r.(w_globals) r.(next_event_id) r.(next_problem_id)
    r.(currently_running_service_checks) r.(w_actions).
Definition set_w_globals (v : globals) (r : world) : world :=
  World r.(w_svc) r.(w_host) v r.(next_event_id) r.(next_problem_id)
    r.(currently_running_service_checks) r.(w_actions).
Definition set_next_event_id (v : Z) (r : world) : world :=
  World r.(w_svc) r.(w_host) r.(w_globals) v r.(next_problem_id)
    r.(currently_running_service_checks) r.(w_actions).
Definition set_next_problem_id (v : Z) (r : world) : world :=
  World r.(w_svc) r.(w_host) r.(w_globals) r.(next_event_id) v
    r.(currently_running_service_checks) r.(w_actions).
Definition set_currently_running_service_checks (v : Z) (r : world) : world :=
  World r.(w_svc) r.(w_host) r.(w_globals) r.(next_event_id) r.(next_problem_id) v r.(w_actions).
Definition set_w_actions (v : list action) (r : world) : world :=
  World r.(w_svc) r.(w_host) r.(w_globals) r.(next_event_id) r.(next_problem_id)
    r.(currently_running_service_checks) v.

(** The fields of the notifier the handler writes. *)
Definition set_state (state : Z) (hd : bool) (n : notifier) : notifier :=
  Notifier n.(_notifier_type) state hd n.(is_flapping) n.(_is_volatile)
    n.(scheduled_downtime_depth) n.(_host_ptr) n.(last_hard_state_change)
    n.(_notifications_enabled) n.(_out_notification_type) n.(_notification_interval)
    n.(_first_notification_delay) n.(_recovery_notification_delay) n.(_acknowledgement_type)
    n.(_escalations) n.(_contacts) n.(_contact_groups) n.(_notification_number) n.(_notification)
    n.(_last_notification) n.(_current_notification_id).
Definition set_is_flapping (b : bool) (n : notifier) : notifier :=
  Notifier n.(_notifier_type) n.(current_state) n.(hard) b n.(_is_volatile)
    n.(scheduled_downtime_depth) n.(_host_ptr) n.(last_hard_state_change)
    n.(_notifications_enabled) n.(_out_notification_type) n.(_notification_interval)
    n.(_first_notification_delay) n.(_recovery_notification_delay) n.(_acknowledgement_type)
    n.(_escalations) n.(_contacts) n.(_contact_groups) n.(_notification_number) n.(_notification)
    n.(_last_notification) n.(_current_notification_id).
Definition set_last_hard_state_change (t : Z) (n : notifier) : notifier :=
  Notifier n.(_notifier_type) n.(current_state) n.(hard) n.(is_flapping) n.(_is_volatile)
    n.(scheduled_downtime_depth) n.(_host_ptr) t
    n.(_notifications_enabled) n.(_out_notification_type) n.(_notification_interval)
    n.(_first_notification_delay) n.(_recovery_notification_delay) n.(_acknowledgement_type)
    n.(_escalations) n.(_contacts) n.(_contact_groups) n.(_notification_number) n.(_notification)
    n.(_last_notification) n.(_current_notification_id).
Definition set_acknowledgement (a : AckType) (n : notifier) : notifier :=
  Notifier n.(_notifier_type) n.(current_state) n.(hard) n.(is_flapping) n.(_is_volatile)
    n.(scheduled_downtime_depth) n.(_host_ptr) n.(last_hard_state_change)
    n.(_notifications_enabled) n.(_out_notification_type) n.(_notification_interval)
    n.(_first_notification_delay) n.(_recovery_notification_delay) a
    n.(_escalations) n.(_contacts) n.(_contact_groups) n.(_notification_number) n.(_notification)
    n.(_last_notification) n.(_current_notification_id).
Definition set_last_notification (t : Z) (n : notifier) : notifier :=
  set_sent n.(_notification_number) n.(_notification) t n.(_current_notification_id) n.

(** ** Settings and results *)

(** The configuration of the service and of the engine, and what else the handler
    looks at.  [flap_on] and [stalk_on] are the masks of states. *)
Record svc_config := SvcConfig {
  max_check_attempts : Z;
  check_interval : Z;
  retry_interval : Z;
  active_checks_enabled : bool;
  passive_checks_enabled : bool;
  freshness_threshold : Z;
  pending_flex_downtime : Z;
  flap_detection_enabled : bool;
  low_flap_threshold : spec_float;
  high_flap_threshold : spec_float;
  flap_on : Z;
  stalk_on : Z;
  accept_passive_service_checks : bool;
  cached_host_check_horizon : Z;
  cached_service_check_horizon : Z;
  obsess_over_services : bool;
  enable_predictive_service_dependency_checks : bool;
  state_changes_use_cached_state : bool;
  log_service_retries : bool;
  low_service_flap_threshold : spec_float;
  high_service_flap_threshold : spec_float;
  enable_flap_detection : bool;
  additional_freshness_latency : Z;
  max_service_check_spread : Z;
  event_start : Z;
  (** the master services of the dependencies of this one: the time of their last
      check, and whether a check is executing *)
  masters : list (Z * bool);
  (** [get_next_valid_time] on the check period of the service *)
  next_valid_time : Z → Z;
}.

(** [check_result] *)
Record check_result := CheckResult {
  cr_passive : bool;
  (** [check_options & CHECK_OPTION_FRESHNESS_CHECK] *)
  cr_freshness : bool;
  cr_reschedule : bool;
  cr_exited_ok : bool;
  cr_return_code : Z;
  cr_start_time : Z;
  (** in whole seconds *)
  cr_latency : Z;
  cr_output : list Z;
}.

(** [CHECK_OPTION_FORCE_EXECUTION] *)
Definition CHECK_OPTION_NONE : Z := 0.
Definition CHECK_OPTION_FORCE_EXECUTION : Z := 1.

(** ** Access to the parts of the world *)

Definition on_notif (f : notifier → notifier) (w : world) : world :=
  set_w_svc (set_sv_notif (f w.(w_svc).(sv_notif)) w.(w_svc)) w.
Definition on_check (f : checkable → checkable) (w : world) : world :=
  set_w_svc (set_sv_check (f w.(w_svc).(sv_check)) w.(w_svc)) w.
Definition on_track (f : tracking → tracking) (w : world) : world :=
  set_w_svc (set_sv_track (f w.(w_svc).(sv_track)) w.(w_svc)) w.
Definition on_host (f : host → host) (w : world) : world := set_w_host (f w.(w_host)) w.
Definition act (a : action) (w : world) : world := set_w_actions (w.(w_actions) ++ [a]) w.

Abbreviation notif w := (w.(w_svc).(sv_notif)).
Abbreviation check w := (w.(w_svc).(sv_check)).
Abbreviation track w := (w.(w_svc).(sv_track)).
Abbreviation state w := (w.(w_svc).(sv_notif).(current_state)).
Abbreviation is_hard w := (w.(w_svc).(sv_notif).(hard)).
Abbreviation attempt w := (w.(w_svc).(sv_track).(_current_attempt)).
Abbreviation host_up w := (w.(w_svc).(sv_notif).(_host_ptr).(h_up)).

Definition set_current_state (s : Z) (n : notifier) : notifier := set_state s n.(hard) n.
Definition set_state_type (hd : bool) (n : notifier) : notifier := set_state n.(current_state) hd n.

(** [notify(type, "", "", notification_option_none)] *)
Definition do_notify (e : env) (type : reason_type) (w : world) : world :=
  let '(_, n, g) := notify e type EmptyString EmptyString notification_option_none (notif w) w.(w_globals) in
  act (ANotify type) (set_w_globals g (on_notif (λ _, n) w)).

(** [log_event] *)
Definition log_event (c : svc_config) (w : world) : world :=
  if negb (is_hard w) && negb c.(log_service_retries) then w
  else act (ALog (state w) (is_hard w) (attempt w)) w.

(** [handle_service_event]: the modules are told of the state, and the event
    handlers run. *)
Definition handle_service_event (w : world) : world :=
  act (AEventHandler (state w) (is_hard w) (attempt w)) w.

(** ** Freshness *)

Definition is_result_fresh (c : svc_config) (e : env) (w : world) : bool :=
  let threshold :=
    if c.(freshness_threshold) =? 0 then
      (if is_hard w || (state w =? state_ok)
       then wrap_u32 (c.(check_interval) * e.(interval_length)) else c.(retry_interval) * e.(interval_length))
      + (check w).(_latency) + c.(additional_freshness_latency)
    else c.(freshness_threshold) in
  let expiration_time :=
    if negb (check w).(_has_been_checked) then c.(event_start) + threshold
    else if c.(active_checks_enabled) && ((check w).(_last_check) <? c.(event_start)) &&
            (c.(freshness_threshold) =? 0)
    then c.(event_start) + threshold + wrap_u32 (c.(max_service_check_spread) * e.(interval_length))
    else (check w).(_last_check) + threshold in
  negb (expiration_time <? e.(now)).

(** ** Flapping *)

Definition MAX_STATE_HISTORY_ENTRIES : nat := 21.

Definition low_curve_value : spec_float := ddiv (dint 3) (dint 4).
Definition high_curve_value : spec_float := ddiv (dint 5) (dint 4).

(** The weight of a change between the entries [x - 1] and [x]. *)
Definition curve (x : nat) : spec_float :=
  dadd (ddiv (dmul (dint (Z.of_nat x - 1)) (dsub high_curve_value low_curve_value)) (dint 19)) low_curve_value.

(** The loop over the history, oldest entry first. *)
Fixpoint curved_changes (x : nat) (last : Z) (hist : list Z) (acc : spec_float) : spec_float :=
  match hist with
  | [] => acc
  | s :: hist' => curved_changes (S x) s hist' (if last =? s then acc else dadd acc (curve x))
  end.

Definition percent_state_change (h : history) : spec_float :=
  let entries := drop h.(_state_history_index) h.(_state_history) ++ take h.(_state_history_index) h.(_state_history) in
  match entries with
  | [] => S754_zero false
  | last :: hist => ddiv (dmul (curved_changes 1 last hist (S754_zero false)) (dint 100)) (dint 20)
  end.

(** Puts the current state in the history. *)
Definition record_state (s : Z) (h : history) : history :=
  let i := S h.(_state_history_index) in
  History (<[h.(_state_history_index) := s]> h.(_state_history))
    (if (MAX_STATE_HISTORY_ENTRIES <=? i)%nat then O else i) h.(_percent_state_change) h.(_flapping_comment).

Definition set_flap (e : env) (allow_flapstart_notification : bool) (w : world) : world :=
  let h := w.(w_svc).(sv_hist) in
  let w := set_w_svc (set_sv_hist (History h.(_state_history) h.(_state_history_index) h.(_percent_state_change) true) w.(w_svc)) w in
  let w := on_notif (set_is_flapping true) w in
  if allow_flapstart_notification then do_notify e reason_flappingstart w else w.

Definition clear_flap (e : env) (w : world) : world :=
  let h := w.(w_svc).(sv_hist) in
  let w := set_w_svc (set_sv_hist (History h.(_state_history) h.(_state_history_index) h.(_percent_state_change) false) w.(w_svc)) w in
  let w := on_notif (set_is_flapping false) w in
  let w := do_notify e reason_flappingstop w in
  do_notify e reason_recovery w.

(** [get_low_flap_threshold() <= 0.0 ? global : own] *)
Definition threshold (own global : spec_float) : spec_float :=
  if SFleb own (S754_zero false) then global else own.

Definition check_for_flapping (c : svc_config) (e : env) (update allow : bool) (w : world) : world :=
  let low := threshold c.(low_flap_threshold) c.(low_service_flap_threshold) in
  let high := threshold c.(high_flap_threshold) c.(high_service_flap_threshold) in
  let update_history :=
    update && has_flag c.(flap_on) (state_flag service_notification (state w)) && host_up w in
  let h := w.(w_svc).(sv_hist) in
  let w := if update_history then set_w_svc (set_sv_hist (record_state (state w) h) w.(w_svc)) w else w in
  let h := w.(w_svc).(sv_hist) in
  let pct := percent_state_change h in
  let w := set_w_svc (set_sv_hist (History h.(_state_history) h.(_state_history_index) pct h.(_flapping_comment))
                        w.(w_svc)) w in
  if negb c.(enable_flap_detection) then w
  else if negb c.(flap_detection_enabled) then w
  else if SFltb low pct && SFltb pct high then w
  else
    let is_flapping :=
      if SFltb pct low then false
      else if SFleb high pct then negb (state w =? state_ok) || (notif w).(is_flapping)
      else false in
    if is_flapping && negb (notif w).(Notifier.is_flapping) then set_flap e allow w
    else if negb is_flapping && (notif w).(Notifier.is_flapping) then clear_flap e w
    else w.

(** ** Scheduling *)

(** [schedule_check]: there is one check of a service in the queue at most; the
    new one replaces it when it is forced, or earlier. *)
Definition schedule_check (c : svc_config) (check_time options : Z) (no_update_status_now : bool) (w : world) :
    bool * world :=
  let forced o := has_flag o CHECK_OPTION_FORCE_EXECUTION in
  if negb c.(active_checks_enabled) && negb (forced options) then (false, w)
  else
    let use_original :=
      match (check w).(_queued) with
      | None => None
      | Some (run_time, o) =>
          if forced o then
            if forced options && (check_time <? run_time) then None else Some run_time
          else if forced options then None
          else if check_time <? run_time then None else Some run_time
      end in
    let '(no_update, w) :=
      match use_original with
      | Some run_time =>
          (no_update_status_now, on_check (λ k, set_check_options options (set_next_check run_time k)) w)
      | None =>
          (no_update_status_now || bool_decide (is_Some (check w).(_queued)) || negb c.(active_checks_enabled),
           on_check (λ k, set_queued (Some (check_time, options))
                            (set_next_check check_time (set_check_options options k))) w)
      end in
    (true, if no_update then w else act AUpdateStatus w).

(** ** The handler, part by part *)

(** The guards: [None] goes on, [Some ok] returns [OK] or [ERROR]. *)
Definition accept_result (c : svc_config) (e : env) (cr : check_result) (w : world) : option bool * world :=
  let w := if negb cr.(cr_passive) && (0 <? w.(currently_running_service_checks))
           then set_currently_running_service_checks (w.(currently_running_service_checks) - 1) w else w in
  if cr.(cr_passive) && (negb c.(accept_passive_service_checks) || negb c.(passive_checks_enabled))
  then (Some false, w)
  else
    let w := if cr.(cr_freshness) then on_check (set_is_being_freshened false) w else w in
    let w := if negb cr.(cr_passive) then on_check (set_is_executing false) w else w in
    if cr.(cr_freshness) && is_result_fresh c e w then (Some true, w) else (None, w).

(** The texts of a check that went wrong, in ASCII. *)
Definition text (s : string) : list Z :=
  Z.of_nat ∘ Ascii.nat_of_ascii <$> String.list_ascii_of_string s.
Definition out_of_bounds_text (code : Z) : list Z :=
  text ("(Return code of " +:+ pretty code +:+ " is out of bounds" +:+
        (if code =? 126 then " - plugin may not be executable"
         else if code =? 127 then " - plugin may be missing" else "") +:+ ")").

(** [std::replace(';', ':')] *)
Definition no_semicolon (s : list Z) : list Z := (λ ch, if ch =? 59 then 58 else ch) <$> s.

(** The state of the result, and the texts it sets: the output, and the long output
    and the performance data, which an abnormal result leaves as they were. *)
Definition result_state (cr : check_result) : Z * list Z * option (list Z * list Z) :=
  if negb cr.(cr_exited_ok) then (state_unknown, text "(Service check did not exit properly)", None)
  else if (cr.(cr_return_code) <? 0) || (3 <? cr.(cr_return_code))
  then (state_unknown, out_of_bounds_text cr.(cr_return_code), None)
  else
    let '(short, long, perf) :=
      match parse_check_output cr.(cr_output) true false with
      | Ret p => p
      | Throw _ => ([], [], [])
      end in
    (cr.(cr_return_code),
     match short with [] => text "(No output returned from plugin)" | _ => no_semicolon short end,
     Some (long, perf)).

(** The last time in each state. *)
Definition record_time (s t : Z) (ts : state_times) : state_times :=
  if s =? state_ok then State_times t ts.(_last_time_warning) ts.(_last_time_critical) ts.(_last_time_unknown)
  else if s =? state_warning then State_times ts.(_last_time_ok) t ts.(_last_time_critical) ts.(_last_time_unknown)
  else if s =? state_critical then State_times ts.(_last_time_ok) ts.(_last_time_warning) t ts.(_last_time_unknown)
  else State_times ts.(_last_time_ok) ts.(_last_time_warning) ts.(_last_time_critical) t.

(** The result is stored. *)
Definition record_result (cr : check_result) (w : world) : world :=
  let '(st, output, texts) := result_state cr in
  let w := on_check (λ k, set_check_passive cr.(cr_passive)
                            (set_last_check cr.(cr_start_time) (set_latency cr.(cr_latency) k))) w in
  let w := on_track (set_last_state (state w)) w in
  let w := on_check (λ k, match texts with
                          | Some (long, perf) => set_perf_data perf (set_long_plugin_output long k)
                          | None => k
                          end) w in
  let w := on_check (set_plugin_output output) w in
  let w := on_notif (set_current_state st) w in
  set_w_svc (set_sv_times (record_time st cr.(cr_start_time) w.(w_svc).(sv_times)) w.(w_svc)) w.

(** The first check of a host that was never checked, when the service is fine. *)
Definition first_host_check (e : env) (w : world) : bool :=
  let h := w.(w_host) in
  (state w =? state_ok) && negb h.(h_has_been_checked) &&
  (negb h.(h_initial_up) || (h.(h_next_check) =? 0) || (300 <? wrap_u64 (h.(h_next_check) - e.(now)))).

(** The attempt number. *)
Definition update_attempt (c : svc_config) (w : world) : world :=
  if ((track w).(_last_state) =? state_ok) && negb (state w =? (track w).(_last_state))
  then on_track (set_current_attempt 1) w
  else if negb (is_hard w) && (attempt w <? c.(max_check_attempts))
  then on_track (set_current_attempt (attempt w + 1)) w
  else w.

Definition state_change (w : world) : bool := negb (state w =? (track w).(_last_state)).

Definition hard_state_change (c : svc_config) (w : world) : bool :=
  ((track w).(_host_problem_at_last_check) && (state w =? state_ok)) ||
  ((c.(max_check_attempts) <=? attempt w) &&
   (negb (state w =? (track w).(_last_hard_state)) ||
    ((notif w).(last_hard_state_change) <? (track w).(_last_state_change)))).

(** A change resets the notification times and the acknowledgement. *)
Definition on_change (sc hsc : bool) (w : world) : world :=
  if sc || hsc then
    let w := on_notif (set_last_notification 0) w in
    let w := on_track (λ t, set_no_more_notifications false (set_next_notification 0 t)) w in
    if (bool_decide ((notif w).(_acknowledgement_type) = AckNormal) && (sc || negb hsc)) ||
       (bool_decide ((notif w).(_acknowledgement_type) = AckSticky) && (state w =? state_ok))
    then act ADeleteAckComments (on_notif (set_acknowledgement AckNone) w)
    else w
  else w.

(** The times of the changes. *)
Definition change_times (sc hsc : bool) (w : world) : world :=
  let t := (check w).(_last_check) in
  let zero v := if v =? 0 then t else v in
  let w := on_track (λ k, set_last_state_change (zero k.(_last_state_change)) k) w in
  let w := on_notif (λ n, set_last_hard_state_change (zero n.(last_hard_state_change)) n) w in
  let w := on_host (λ h, set_h_last_state_change (zero h.(h_last_state_change)) h) w in
  let w := on_host (λ h, set_h_last_hard_state_change (zero h.(h_last_hard_state_change)) h) w in
  let w := if sc then on_track (set_last_state_change t) w else w in
  if hsc then on_notif (set_last_hard_state_change t) w else w.

(** The ids of the event and of the problem. *)
Definition change_ids (sc : bool) (w : world) : world :=
  if sc then
    let ids := w.(w_svc).(sv_ids) in
    let ids := Problem_ids ids.(_current_event_id) w.(next_event_id) ids.(_current_problem_id) ids.(_last_problem_id) in
    let w := set_next_event_id (w.(next_event_id) + 1) w in
    let from_ok := (track w).(_last_state) =? state_ok in
    let ids := if from_ok then Problem_ids ids.(_last_event_id) ids.(_current_event_id) w.(next_problem_id) ids.(_last_problem_id)
               else ids in
    let w := if from_ok then set_next_problem_id (w.(next_problem_id) + 1) w else w in
    let ids := if state w =? state_ok
               then Problem_ids ids.(_last_event_id) ids.(_current_event_id) 0 ids.(_current_problem_id)
               else ids in
    set_w_svc (set_sv_ids ids w.(w_svc)) w
  else w.

(** Can the state the host was last found in be used? *)
Definition use_cached_host (c : svc_config) (e : env) (sc : bool) (w : world) : bool :=
  (negb sc || c.(state_changes_use_cached_state)) && w.(w_host).(h_has_been_checked) &&
  (wrap_u64 (e.(now) - w.(w_host).(h_last_check)) <=? c.(cached_host_check_horizon)).

(** [check_for_flapping] on the service and on its host *)
Definition flapping_checks (c : svc_config) (e : env) (w : world) : world :=
  act AHostFlapping (check_for_flapping c e true true w).

(** [last_check + check_interval * interval_length] *)
Definition regular_check (c : svc_config) (e : env) (w : world) : Z :=
  (check w).(_last_check) + wrap_u32 (c.(check_interval) * e.(interval_length)).
Definition retry_check (c : svc_config) (e : env) (w : world) : Z :=
  (check w).(_last_check) + c.(retry_interval) * e.(interval_length).

(** What the branches of the handler leave: the world, the time of the next check
    (0 when none is computed), and two flags. *)
Record outcome := Outcome { o_world : world; o_next : Z; o_logged : bool; o_flapping_done : bool }.

(** The service is OK. *)
Definition ok_branch (c : svc_config) (e : env) (first_host sc hsc resched : bool) (w : world) : outcome :=
  let w := on_notif (set_acknowledgement AckNone) w in
  let w := if negb (host_up w) && negb first_host && negb (use_cached_host c e sc w) then act ARunHostCheck w else w in
  let '(w, logged, flapping_done) :=
    if hsc then
      let w := on_notif (λ n, set_last_hard_state_change (check w).(_last_check) (set_state_type true n)) w in
      let w := on_track (set_current_attempt 1) w in
      let w := log_event c w in
      let w := flapping_checks c e w in
      let w := do_notify e reason_recovery w in
      (handle_service_event w, true, true)
    else if sc then
      let w := on_notif (set_state_type false) w in
      let w := on_track (set_current_attempt (Z.max 1 (c.(max_check_attempts) - 1))) w in
      let w := log_event c w in
      (handle_service_event w, true, false)
    else (w, false, false) in
  let w := do_notify e reason_recovery w in
  let w := if c.(obsess_over_services) then act AObsess w else w in
  let w := on_track (λ t, set_no_more_notifications false (set_next_notification 0
                            (set_last_hard_state state_ok (set_host_problem_at_last_check false t)))) w in
  let w := on_notif (λ n, set_acknowledgement AckNone (set_last_notification 0 n)) w in
  Outcome w (if resched then regular_check c e w else 0) logged flapping_done.

(** The route to the host, when the service has a problem: the host is checked
    again, or assumed to be as before. *)
Definition check_route (c : svc_config) (e : env) (sc : bool) (w : world) : world :=
  if host_up w then
    if use_cached_host c e sc w then w
    else if sc then act ARunHostCheck w
    else w
  else if sc && negb c.(state_changes_use_cached_state) && negb ((track w).(_last_hard_state) =? state_ok)
  then act ARunHostCheck w
  else
    let w := if negb w.(w_host).(h_has_been_checked)
             then on_host (λ h, set_h_has_been_checked true (set_h_last_check (check w).(_last_check) h)) w else w in
    act AHostNotify w.

(** The host is down, or was at the last check. *)
Definition host_effect (sc hsc : bool) (w : world) : bool * world :=
  if negb (host_up w) then
    let hsc := hsc || negb ((track w).(_last_hard_state) =? state w) in
    let w := if sc || hsc then on_track (set_last_state_change (check w).(_last_check)) w else w in
    let w := if hsc then
               on_track (set_last_hard_state (state w))
                 (on_notif (λ n, set_state_type true (set_last_hard_state_change (check w).(_last_check) n)) w)
             else w in
    (hsc, on_track (set_host_problem_at_last_check true) w)
  else if (track w).(_host_problem_at_last_check) then
    let w := on_track (set_host_problem_at_last_check false) w in
    (hsc, if negb (is_hard w) then on_track (set_current_attempt 1) w else w)
  else (hsc, w).

(** More checks are needed before the problem is a hard one. *)
Definition retry_branch (c : svc_config) (e : env) (hsc resched : bool) (w : world) : outcome :=
  if negb (host_up w) then
    let next := if resched then regular_check c e w else 0 in
    if hsc then Outcome (handle_service_event (log_event c w)) next true false
    else Outcome w next false false
  else
    let w := on_notif (set_state_type false) w in
    let w := handle_service_event (log_event c w) in
    Outcome w (if resched then retry_check c e w else 0) true false.

(** The problem is a hard one. *)
Definition max_attempts_branch (c : svc_config) (e : env) (sc hsc resched : bool) (w : world) : outcome :=
  let w := on_notif (set_state_type true) w in
  let logged := hsc || (notif w).(_is_volatile) in
  let w := if logged then log_event c w else w in
  let w := if (hsc || sc) && (0 <? c.(pending_flex_downtime)) then act APendingFlex w else w in
  let w := flapping_checks c e w in
  let w := do_notify e reason_normal w in
  let w := if hsc || (notif w).(_is_volatile) then handle_service_event w else w in
  let w := on_track (set_last_hard_state (state w)) w in
  Outcome w (if resched then regular_check c e w else 0) logged true.

(** The service has a problem; also, the master services to check. *)
Definition problem_branch (c : svc_config) (e : env) (sc hsc resched : bool) (w : world) : outcome * list (Z * bool) :=
  let w := check_route c e sc w in
  let '(hsc, w) := host_effect sc hsc w in
  let '(o, preds) :=
    if attempt w <? c.(max_check_attempts) then
      let o := retry_branch c e hsc resched w in
      (o, if c.(enable_predictive_service_dependency_checks) &&
             (attempt o.(o_world) =? c.(max_check_attempts) - 1) then c.(masters) else [])
    else (max_attempts_branch c e sc hsc resched w, []) in
  let w := if c.(obsess_over_services) then act AObsess o.(o_world) else o.(o_world) in
  (Outcome w o.(o_next) o.(o_logged) o.(o_flapping_done), preds).

(** The next check is put in the queue; the boolean is [need_update]. *)
Definition reschedule (c : svc_config) (e : env) (next : Z) (w : world) : bool * world :=
  let next := if next <? e.(now) then e.(now) else next in
  let next := c.(next_valid_time) next in
  let w := on_check (λ k, set_should_be_scheduled
                            (negb (c.(check_interval) =? 0) && c.(active_checks_enabled))
                            (set_next_check next k)) w in
  if (check w).(_should_be_scheduled) then schedule_check c next CHECK_OPTION_NONE true w else (false, w).

(** The output changed while the state did not, and the state is stalked. *)
Definition stalk (c : svc_config) (sc logged : bool) (old_output : list Z) (w : world) : world :=
  if is_hard w && negb sc && negb logged && negb (bool_decide (old_output = (check w).(_plugin_output))) &&
     has_flag c.(stalk_on) (state_flag service_notification (state w))
  then log_event c w else w.

(** The masters of the predictive checks: those not checked recently and not
    being checked. *)
Fixpoint predictive (c : svc_config) (e : env) (i : nat) (ms : list (Z * bool)) (w : world) : world :=
  match ms with
  | [] => w
  | (last, executing) :: ms =>
      let w := if negb (wrap_u64 (e.(now) - last) <=? c.(cached_service_check_horizon)) && negb executing
               then act (APredictive i) w else w in
      predictive c e (S i) ms w
  end.

(** The state, from the result to the end of the two branches: the world, the
    flags and the masters. *)
Definition process_result (c : svc_config) (e : env) (cr : check_result) (w : world) :
    bool * bool * outcome * list (Z * bool) :=
  let w := record_result cr w in
  let first := first_host_check e w in
  let w := if first then act ARunHostCheck w else w in
  let w := update_attempt c w in
  let sc := state_change w in
  let hsc := hard_state_change c w in
  let resched := cr.(cr_reschedule) || sc || hsc in
  let w := on_change sc hsc w in
  let w := change_times sc hsc w in
  let w := change_ids sc w in
  if state w =? state_ok then (sc, resched, ok_branch c e first sc hsc resched w, [])
  else let '(o, preds) := problem_branch c e sc hsc resched w in (sc, resched, o, preds).

(** The end: rescheduling, logs, status, flapping, performance data. *)
Definition finish (c : svc_config) (e : env) (sc resched : bool) (old_output : list Z) (o : outcome)
    (preds : list (Z * bool)) : world :=
  let '(need_update, w) := if resched then reschedule c e o.(o_next) o.(o_world) else (false, o.(o_world)) in
  let w := stalk c sc o.(o_logged) old_output w in
  let w := act ABrokerCheck w in
  let '(need_update, w) :=
    if negb (resched && (check w).(_should_be_scheduled) && (check w).(_has_been_checked)) ||
       negb c.(active_checks_enabled)
    then (true, on_check (set_has_been_checked true) w)
    else (need_update, w) in
  let w := if need_update then act AUpdateStatus w else w in
  let w := if o.(o_flapping_done) then w else flapping_checks c e w in
  let w := act APerfData w in
  predictive c e 0 preds w.

(** [handle_async_check_result]; [true] is [OK]. *)
Definition handle_async_check_result (c : svc_config) (e : env) (cr : check_result) (w : world) : bool * world :=
  match accept_result c e cr w with
  | (Some r, w) => (r, w)
  | (None, w) =>
      let old_output := (check w).(_plugin_output) in
      let '(sc, resched, o, preds) := process_result c e cr w in
      (true, finish c e sc resched old_output o preds)
  end.
