(* ===== verification/ServiceFacts.v ===== *)
(** * What the results of service checks do to a service

    The theorems on [ServiceCheck].  The handler is long because it notifies, logs,
    reschedules and watches for flapping as it goes; the state of the service is a
    small machine inside it.  [core] is what that machine reads and writes, every
    operation of the handler is shown to act on it or to leave it alone, and
    [core_step] is the machine.  [phase] is the machine as a user sees it: soft
    problems are counted, a problem that lasts becomes hard. *)

From Stdlib Require Import SpecFloat Sorted.
From S2P Require Import Prelude Notifier Notifications CheckOutput ServiceCheck.

#[local] Open Scope Z_scope.

(** ** The machine inside the handler *)

Record core := Core {
  k_state : Z;
  k_hard : bool;
  k_attempt : Z;
  k_last_hard : Z;
  k_host_problem : bool;
  k_changed : Z;         (* [_last_state_change] *)
  k_hard_changed : Z;    (* [_last_hard_state_change] *)
  k_problem_id : Z;
  k_next_problem_id : Z;
  k_asked : nat;         (* how often the notification of a problem was asked for *)
  k_up : bool;           (* the host is up *)
  k_last : Z;            (* [_last_state] *)
  k_time : Z;            (* [_last_check] *)
}.

Definition is_problem_call (a : action) : bool :=
  match a with ANotify reason_normal => true | _ => false end.

Definition core_of (w : world) : core :=
  Core (state w) (is_hard w) (attempt w) (track w).(_last_hard_state) (track w).(_host_problem_at_last_check)
    (track w).(_last_state_change) (notif w).(last_hard_state_change)
    w.(w_svc).(sv_ids).(_current_problem_id) w.(next_problem_id)
    (length (filter is_problem_call w.(w_actions)))
    (host_up w) (track w).(_last_state) (check w).(_last_check).

(** ** What leaves the machine alone *)

Lemma core_act a w : is_problem_call a = false → core_of (act a w) = core_of w.
Proof.
  intros Ha. unfold core_of. cbn. rewrite filter_app, filter_cons, Ha, filter_nil. by rewrite app_nil_r.
Qed.

Lemma notify_keeps e type a d o n g r n' g' :
  notify e type a d o n g = (r, n', g') →
  ∃ num nt last id, n' = set_sent num nt last id n.
Proof.
  unfold notify. intros H.
  assert (∃ num nt last id, (is_notification_viable e (get_category type) type o n).2
                            = set_sent num nt last id n) as (a1 & a2 & a3 & a4 & Hn).
  { destruct (get_category type); cbn [is_notification_viable snd];
      try (exists (_notification_number n), (_notification n), (_last_notification n), (_current_notification_id n);
           by destruct n).
    unfold _is_notification_viable_recovery. repeat case_match; cbn [snd];
      try (eexists _, _, _, _; reflexivity);
      exists (_notification_number n), (_notification n), (_last_notification n), (_current_notification_id n);
      by destruct n. }
  destruct (is_notification_viable e (get_category type) type o n) as [v n1]. cbn [snd] in Hn. subst n1.
  repeat case_match; simplify_eq; by eexists _, _, _, _.
Qed.

Definition asks_problem (k : core) : core :=
  Core k.(k_state) k.(k_hard) k.(k_attempt) k.(k_last_hard) k.(k_host_problem) k.(k_changed) k.(k_hard_changed)
    k.(k_problem_id) k.(k_next_problem_id) (S k.(k_asked)) k.(k_up) k.(k_last) k.(k_time).

Lemma core_notify e type w :
  core_of (do_notify e type w) =
  (if bool_decide (type = reason_normal) then asks_problem (core_of w) else core_of w).
Proof.
  unfold do_notify. destruct (notify _ _ _ _ _ _ _) as [[r n'] g'] eqn:H.
  destruct (notify_keeps _ _ _ _ _ _ _ _ _ _ H) as (num & nt & la & id & ->).
  case_bool_decide as Ht.
  - subst type. unfold core_of, asks_problem. cbn.
    rewrite filter_app, filter_cons. cbn. rewrite length_app, Nat.add_comm. reflexivity.
  - rewrite core_act by (by destruct type). reflexivity.
Qed.

Lemma core_log c w : core_of (log_event c w) = core_of w.
Proof. unfold log_event. case_match; [done|]. by apply core_act. Qed.

Lemma core_event w : core_of (handle_service_event w) = core_of w.
Proof. by apply core_act. Qed.

Lemma core_check_for_flapping c e u a w : core_of (check_for_flapping c e u a w) = core_of w.
Proof.
  unfold check_for_flapping, set_flap, clear_flap.
  repeat case_match; rewrite ?core_notify; cbn; rewrite ?core_notify; done.
Qed.

Lemma core_flapping_checks c e w : core_of (flapping_checks c e w) = core_of w.
Proof. unfold flapping_checks. rewrite core_act by done. apply core_check_for_flapping. Qed.

Lemma core_on_change sc hsc w : core_of (on_change sc hsc w) = core_of w.
Proof. unfold on_change. repeat case_match; rewrite ?core_act by done; reflexivity. Qed.

Lemma core_check_route c e sc w : core_of (check_route c e sc w) = core_of w.
Proof. unfold check_route. repeat case_match; rewrite ?core_act by done; reflexivity. Qed.

Lemma core_schedule_check c t o u w : core_of (schedule_check c t o u w).2 = core_of w.
Proof. unfold schedule_check. repeat case_match; simplify_eq; cbn [snd]; rewrite ?core_act by done; reflexivity. Qed.

Lemma core_reschedule c e next w : core_of (reschedule c e next w).2 = core_of w.
Proof. unfold reschedule. case_match; [rewrite core_schedule_check|]; reflexivity. Qed.

Lemma core_stalk c sc l o w : core_of (stalk c sc l o w) = core_of w.
Proof. unfold stalk. case_match; [apply core_log|done]. Qed.

Lemma core_predictive c e ms : ∀ i w, core_of (predictive c e i ms w) = core_of w.
Proof.
  induction ms as [|[la ex] ms IH]; intros i w; cbn [predictive]; [done|].
  rewrite IH. case_match; [by apply core_act|done].
Qed.

Lemma core_checked b w : core_of (on_check (set_has_been_checked b) w) = core_of w.
Proof. done. Qed.

Create Rewrite HintDb core_db.
#[export] Hint Rewrite core_log core_event core_check_for_flapping core_flapping_checks core_on_change
  core_check_route core_schedule_check core_reschedule core_stalk core_predictive core_checked core_notify : core_db.

(** Removes the operations that leave the machine alone. *)
Ltac quiet := repeat first [progress autorewrite with core_db | rewrite core_act by done].

Lemma core_finish c e sc resched old o preds :
  core_of (finish c e sc resched old o preds) = core_of o.(o_world).
Proof.
  unfold finish. pose proof (core_reschedule c e o.(o_next) o.(o_world)) as Hr.
  destruct (reschedule c e (o_next o) (o_world o)) as [nu w']. cbn [snd] in Hr.
  revert Hr. destruct resched; repeat case_match; simplify_eq; quiet; done.
Qed.

(** ** The machine *)

(** What a result in state [s] obtained at [t] does to the machine. *)
Definition core_step (max s t : Z) (k : core) : core :=
  let sc := negb (s =? k.(k_state)) in
  let from_ok := (k.(k_state) =? state_ok) && sc in
  let n := if from_ok then 1
           else if negb k.(k_hard) && (k.(k_attempt) <? max) then k.(k_attempt) + 1 else k.(k_attempt) in
  let hsc := (k.(k_host_problem) && (s =? state_ok)) ||
             ((max <=? n) && (negb (s =? k.(k_last_hard)) || (k.(k_hard_changed) <? k.(k_changed)))) in
  let changed := if sc then t else if k.(k_changed) =? 0 then t else k.(k_changed) in
  let hard_changed := if hsc then t else if k.(k_hard_changed) =? 0 then t else k.(k_hard_changed) in
  let id := if sc then if s =? state_ok then 0 else if from_ok then k.(k_next_problem_id) else k.(k_problem_id)
            else k.(k_problem_id) in
  let next_id := if from_ok then k.(k_next_problem_id) + 1 else k.(k_next_problem_id) in
  if s =? state_ok then
    Core s (if hsc then true else if sc then false else k.(k_hard))
      (if hsc then 1 else if sc then Z.max 1 (max - 1) else n)
      state_ok false changed hard_changed id next_id k.(k_asked) k.(k_up) k.(k_state) t
  else if k.(k_up) then
    let n := if k.(k_host_problem) && negb k.(k_hard) then 1 else n in
    if n <? max then
      Core s false n k.(k_last_hard) false changed hard_changed id next_id k.(k_asked) k.(k_up) k.(k_state) t
    else
      Core s true n s false changed hard_changed id next_id (S k.(k_asked)) k.(k_up) k.(k_state) t
  else
    let hsc := hsc || negb (k.(k_last_hard) =? s) in
    Core s (hsc || (max <=? n) || k.(k_hard)) n s true
      (if sc || hsc then t else changed) (if hsc then t else hard_changed) id next_id
      (if n <? max then k.(k_asked) else S k.(k_asked)) k.(k_up) k.(k_state) t.

Definition core_accept (cr : check_result) (k : core) : core :=
  Core (result_state cr).1.1 k.(k_hard) k.(k_attempt) k.(k_last_hard) k.(k_host_problem) k.(k_changed)
    k.(k_hard_changed) k.(k_problem_id) k.(k_next_problem_id) k.(k_asked) k.(k_up) k.(k_state) cr.(cr_start_time).

Lemma core_record cr w : core_of (record_result cr w) = core_accept cr (core_of w).
Proof. unfold record_result, core_accept. destruct (result_state cr) as [[st out] [[lo pe]|]]; reflexivity. Qed.

Lemma core_accept_result c e cr w r w' : accept_result c e cr w = (r, w') → core_of w' = core_of w.
Proof. unfold accept_result. intros H. repeat case_match; simplify_eq; reflexivity. Qed.

(** The writes of the handler, on the machine. *)
Definition with_hard (v : bool) (k : core) : core :=
  Core k.(k_state) v k.(k_attempt) k.(k_last_hard) k.(k_host_problem) k.(k_changed)
    k.(k_hard_changed) k.(k_problem_id) k.(k_next_problem_id) k.(k_asked) k.(k_up) k.(k_last)
    k.(k_time).
Definition with_attempt (v : Z) (k : core) : core :=
  Core k.(k_state) k.(k_hard) v k.(k_last_hard) k.(k_host_problem) k.(k_changed) k.(k_hard_changed)
    k.(k_problem_id) k.(k_next_problem_id) k.(k_asked) k.(k_up) k.(k_last) k.(k_time).
Definition with_last_hard (v : Z) (k : core) : core :=
  Core k.(k_state) k.(k_hard) k.(k_attempt) v k.(k_host_problem) k.(k_changed) k.(k_hard_changed)
    k.(k_problem_id) k.(k_next_problem_id) k.(k_asked) k.(k_up) k.(k_last) k.(k_time).
Definition with_host_problem (v : bool) (k : core) : core :=
  Core k.(k_state) k.(k_hard) k.(k_attempt) k.(k_last_hard) v k.(k_changed) k.(k_hard_changed)
    k.(k_problem_id) k.(k_next_problem_id) k.(k_asked) k.(k_up) k.(k_last) k.(k_time).
Definition with_changed (v : Z) (k : core) : core :=
  Core k.(k_state) k.(k_hard) k.(k_attempt) k.(k_last_hard) k.(k_host_problem) v k.(k_hard_changed)
    k.(k_problem_id) k.(k_next_problem_id) k.(k_asked) k.(k_up) k.(k_last) k.(k_time).
Definition with_hard_changed (v : Z) (k : core) : core :=
  Core k.(k_state) k.(k_hard) k.(k_attempt) k.(k_last_hard) k.(k_host_problem) k.(k_changed) v
    k.(k_problem_id) k.(k_next_problem_id) k.(k_asked) k.(k_up) k.(k_last) k.(k_time).

Lemma core_set_hard b w : core_of (on_notif (set_state_type b) w) = with_hard b (core_of w).
Proof. done. Qed.
Lemma core_set_attempt n w : core_of (on_track (set_current_attempt n) w) = with_attempt n (core_of w).
Proof. done. Qed.
Lemma core_set_last_hard s w : core_of (on_track (set_last_hard_state s) w) = with_last_hard s (core_of w).
Proof. done. Qed.
Lemma core_set_host_problem b w :
  core_of (on_track (set_host_problem_at_last_check b) w) = with_host_problem b (core_of w).
Proof. done. Qed.
Lemma core_set_changed t w : core_of (on_track (set_last_state_change t) w) = with_changed t (core_of w).
Proof. done. Qed.
Lemma core_hard_recovery t w :
  core_of (on_notif (λ n, set_last_hard_state_change t (set_state_type true n)) w) =
  with_hard_changed t (with_hard true (core_of w)).
Proof. done. Qed.
Lemma core_hard_host t w :
  core_of (on_notif (λ n, set_state_type true (set_last_hard_state_change t n)) w) =
  with_hard_changed t (with_hard true (core_of w)).
Proof. done. Qed.
Lemma core_reset w :
  core_of (on_track (λ t, set_no_more_notifications false (set_next_notification 0
     (set_last_hard_state state_ok (set_host_problem_at_last_check false t)))) w) =
  with_last_hard state_ok (with_host_problem false (core_of w)).
Proof. done. Qed.
Lemma core_forget w : core_of (on_notif (λ n, set_acknowledgement AckNone (set_last_notification 0 n)) w) = core_of w.
Proof. done. Qed.
Lemma core_ack a w : core_of (on_notif (set_acknowledgement a) w) = core_of w.
Proof. done. Qed.
#[export] Hint Rewrite core_set_hard core_set_attempt core_set_last_hard core_set_host_problem core_set_changed
  core_hard_recovery core_hard_host core_reset core_forget core_ack : core_db.

Lemma core_ok_branch c e first sc hsc resched w :
  let k := core_of w in
  core_of (ok_branch c e first sc hsc resched w).(o_world) =
  Core k.(k_state) (if hsc then true else if sc then false else k.(k_hard))
    (if hsc then 1 else if sc then Z.max 1 (c.(max_check_attempts) - 1) else k.(k_attempt))
    state_ok false k.(k_changed) (if hsc then k.(k_time) else k.(k_hard_changed))
    k.(k_problem_id) k.(k_next_problem_id) k.(k_asked) k.(k_up) k.(k_last) k.(k_time).
Proof.
  cbv zeta. unfold ok_branch.
  destruct hsc, sc; cbn [o_world]; repeat case_match; simplify_eq; quiet; reflexivity.
Qed.

Lemma core_update_attempt c w :
  let k := core_of w in
  core_of (update_attempt c w) =
  with_attempt
    (if (k.(k_last) =? state_ok) && negb (k.(k_state) =? k.(k_last)) then 1
     else if negb k.(k_hard) && (k.(k_attempt) <? c.(max_check_attempts)) then k.(k_attempt) + 1 else k.(k_attempt)) k.
Proof. cbv zeta. unfold update_attempt. cbn. repeat case_match; reflexivity. Qed.

(** The test of a hard change, on the machine. *)
Definition core_hsc (max : Z) (k : core) : bool :=
  (k.(k_host_problem) && (k.(k_state) =? state_ok)) ||
  ((max <=? k.(k_attempt)) &&
   (negb (k.(k_state) =? k.(k_last_hard)) || (k.(k_hard_changed) <? k.(k_changed)))).

Lemma core_change_times sc hsc w :
  let k := core_of w in
  core_of (change_times sc hsc w) =
  with_hard_changed (if hsc then k.(k_time) else if k.(k_hard_changed) =? 0 then k.(k_time) else k.(k_hard_changed))
    (with_changed (if sc then k.(k_time) else if k.(k_changed) =? 0 then k.(k_time) else k.(k_changed)) k).
Proof. destruct sc, hsc; reflexivity. Qed.

Lemma core_change_ids sc w :
  let k := core_of w in
  sc = negb (k.(k_state) =? k.(k_last)) →
  core_of (change_ids sc w) =
  Core k.(k_state) k.(k_hard) k.(k_attempt) k.(k_last_hard) k.(k_host_problem) k.(k_changed) k.(k_hard_changed)
    (if sc then if k.(k_state) =? state_ok then 0
                else if k.(k_last) =? state_ok then k.(k_next_problem_id) else k.(k_problem_id)
     else k.(k_problem_id))
    (if (k.(k_last) =? state_ok) && sc then k.(k_next_problem_id) + 1 else k.(k_next_problem_id))
    k.(k_asked) k.(k_up) k.(k_last) k.(k_time).
Proof.
  cbv zeta. intros Hsc. unfold change_ids, core_of in *. cbn in *.
  destruct sc; [|by rewrite andb_false_r].
  destruct (_last_state _ =? state_ok) eqn:E1, (state w =? state_ok) eqn:E2; cbn; rewrite ?E1, ?E2; try reflexivity.
Qed.

Lemma core_host_effect sc hsc w :
  let k := core_of w in
  let hsc' := if k.(k_up) then hsc else hsc || negb (k.(k_last_hard) =? k.(k_state)) in
  (host_effect sc hsc w).1 = hsc' ∧
  core_of (host_effect sc hsc w).2 =
  if k.(k_up) then
    if k.(k_host_problem) then
      with_attempt (if k.(k_hard) then k.(k_attempt) else 1) (with_host_problem false k)
    else k
  else
    let k := if sc || hsc' then with_changed k.(k_time) k else k in
    let k := if hsc' then with_last_hard k.(k_state) (with_hard_changed k.(k_time) (with_hard true k)) else k in
    with_host_problem true k.
Proof.
  cbv zeta. unfold host_effect. cbn [k_up core_of].
  destruct (host_up w); cbn [negb].
  - cbn [k_host_problem core_of]. destruct (_host_problem_at_last_check _); [|done].
    destruct (is_hard w) eqn:Eh; cbn; rewrite ?Eh; cbn; split; try done; unfold core_of; cbn; by rewrite Eh.
  - cbn [k_last_hard k_state core_of].
    destruct (hsc || _); destruct sc; cbn [orb fst snd]; split; done.
Qed.

Lemma core_retry_branch c e hsc resched w :
  let k := core_of w in
  core_of (retry_branch c e hsc resched w).(o_world) = if k.(k_up) then with_hard false k else k.
Proof.
  cbv zeta. unfold retry_branch. cbn [k_up core_of].
  destruct (host_up w); cbn [negb]; repeat case_match; cbn [o_world]; quiet; done.
Qed.

Lemma core_max_attempts_branch c e sc hsc resched w :
  let k := core_of w in
  core_of (max_attempts_branch c e sc hsc resched w).(o_world) =
  with_last_hard k.(k_state) (asks_problem (with_hard true k)).
Proof.
  cbv zeta. unfold max_attempts_branch. cbn [o_world].
  match goal with |- core_of (on_track (set_last_hard_state ?s) ?w') = _ => set (w1 := w') end.
  assert (core_of w1 = asks_problem (with_hard true (core_of w))) as H.
  { subst w1. repeat case_match; quiet; reflexivity. }
  rewrite core_set_last_hard. change (state w1) with (core_of w1).(k_state). by rewrite H.
Qed.

Lemma core_problem_branch c e sc hsc resched w :
  let k := core_of w in
  let hsc' := hsc || negb (k.(k_last_hard) =? k.(k_state)) in
  k.(k_state) ≠ state_ok →
  core_of (problem_branch c e sc hsc resched w).1.(o_world) =
  if k.(k_up) then
    let n := if k.(k_host_problem) && negb k.(k_hard) then 1 else k.(k_attempt) in
    if n <? c.(max_check_attempts) then with_hard false (with_attempt n (with_host_problem false k))
    else with_last_hard k.(k_state) (asks_problem (with_hard true (with_attempt n (with_host_problem false k))))
  else
    let k' := with_last_hard k.(k_state) (with_host_problem true
                (with_changed (if sc || hsc' then k.(k_time) else k.(k_changed))
                (with_hard_changed (if hsc' then k.(k_time) else k.(k_hard_changed)) k))) in
    if k.(k_attempt) <? c.(max_check_attempts) then with_hard (hsc' || k.(k_hard)) k'
    else asks_problem (with_hard true k').
Proof.
  cbv zeta. intros _. unfold problem_branch.
  set (w1 := check_route c e sc w).
  assert (core_of w1 = core_of w) as H1 by apply core_check_route. rewrite <- H1. clearbody w1. clear H1 w.
  destruct (core_host_effect sc hsc w1) as [Hh Hk]. destruct (host_effect sc hsc w1) as [hsc' w2].
  cbn [fst snd] in Hh, Hk. cbv zeta in Hh, Hk.
  change (attempt w2) with (core_of w2).(k_attempt).
  assert (∀ o : outcome, core_of (if obsess_over_services c then act AObsess (o_world o) else o_world o)
                         = core_of (o_world o)) as Hob by (intros o; destruct (obsess_over_services c); quiet; reflexivity).
  destruct (k_attempt (core_of w2) <? max_check_attempts c) eqn:E; cbn [fst o_world]; rewrite Hob.
  - rewrite core_retry_branch. revert E Hh. rewrite Hk. clear.
    destruct (core_of w1) as [s h n lh hp ch hc pi np ask up la t]. cbn.
    destruct up, hp, h; cbn; try (intros -> ->; done).
    all: destruct hsc, (Z.eqb_spec lh s), sc; cbn; intros -> ->; subst; done.
  - rewrite core_max_attempts_branch. revert E Hh. rewrite Hk. clear.
    destruct (core_of w1) as [s h n lh hp ch hc pi np ask up la t]. cbn.
    destruct up, hp, h; cbn; try (intros -> ->; done).
    all: destruct hsc, (Z.eqb_spec lh s), sc; cbn; intros -> ->; subst; done.
Qed.

(** The whole handler moves the machine by [core_step]. *)
Lemma core_process c e cr w :
  core_of (process_result c e cr w).1.2.(o_world) =
  core_step c.(max_check_attempts) (result_state cr).1.1 cr.(cr_start_time) (core_of w).
Proof.
  unfold process_result.
  set (w1 := record_result cr w).
  assert (core_of w1 = core_accept cr (core_of w)) as H1 by apply core_record. clearbody w1.
  generalize (first_host_check e w1). intros first.
  set (w2 := if first then _ else _).
  assert (core_of w2 = core_accept cr (core_of w)) as H2 by (subst w2; destruct first; quiet; done).
  clearbody w2. clear H1 w1.
  pose proof (core_update_attempt c w2) as H3. set (w3 := update_attempt c w2) in *. clearbody w3.
  cbv zeta in H3. rewrite H2 in H3. clear H2 w2.
  change (state_change w3) with (negb ((core_of w3).(k_state) =? (core_of w3).(k_last))).
  change (hard_state_change c w3) with (core_hsc c.(max_check_attempts) (core_of w3)).
  set (sc := negb (k_state _ =? _)). set (hsc := core_hsc _ _).
  pose proof (core_change_ids sc (change_times sc hsc (on_change sc hsc w3))) as H4. cbv zeta in H4.
  rewrite core_change_times, core_on_change in H4. specialize (H4 eq_refl).
  set (w4 := change_ids sc _) in *. clearbody w4.
  subst sc hsc. rewrite H3 in *. clear H3 w3.
  change (state w4) with (core_of w4).(k_state).
  destruct (core_of w) as [s0 h n lh hp ch hc pi np ask up la t0].
  unfold core_hsc in *. unfold core_step. cbn [k_state k_hard k_attempt k_last_hard k_host_problem k_changed k_hard_changed
    k_problem_id k_next_problem_id k_asked k_up k_last k_time with_attempt with_changed with_hard_changed core_accept] in *.
  rewrite H4. cbn [k_state].
  set (s := (result_state cr).1.1) in *. set (t := cr_start_time cr) in *.
  destruct (s =? state_ok) eqn:E; rewrite ?E in *.
  - cbn [fst snd]. rewrite core_ok_branch, H4. cbn.
    match goal with |- context [hp && true || ?b] => destruct (hp && true || b) end; reflexivity.
  - match goal with |- context [problem_branch c e ?a ?b ?d w4] =>
      pose proof (core_problem_branch c e a b d w4) as Hp; destruct (problem_branch c e a b d w4) as [o preds] end.
    cbv zeta in Hp. rewrite H4 in Hp. cbn [k_state k_up fst snd] in Hp |- *.
    rewrite Hp by (by apply Z.eqb_neq). clear Hp H4.
    cbn [k_state k_hard k_attempt k_last_hard k_host_problem k_changed k_hard_changed
      k_problem_id k_next_problem_id k_asked k_up k_last k_time with_attempt with_changed with_hard_changed
      with_last_hard with_host_problem with_hard asks_problem].
    match goal with |- context [(if hp && negb h then 1 else ?x) <? _] => set (n1 := x) end.
    match goal with |- context [hp && false || ?b] => set (hsc := hp && false || b) end.
    rewrite (Z.leb_antisym n1). clearbody n1 hsc.
    destruct up; [destruct (_ <? _); destruct (s =? s0), (s0 =? state_ok); reflexivity|].
    destruct (_ <? _), (s =? s0), (s0 =? state_ok), (lh =? s), hsc, h; reflexivity.
Qed.

(** The result passes the guards of the handler. *)
Definition taken (c : svc_config) (e : env) (cr : check_result) (w : world) : bool :=
  match (accept_result c e cr w).1 with None => true | Some _ => false end.

Lemma core_handle c e cr w :
  core_of (handle_async_check_result c e cr w).2 =
  if taken c e cr w then core_step c.(max_check_attempts) (result_state cr).1.1 cr.(cr_start_time) (core_of w)
  else core_of w.
Proof.
  unfold handle_async_check_result, taken. destruct (accept_result c e cr w) as [[r|] w'] eqn:Ha;
    apply core_accept_result in Ha; cbn [fst snd]; [done|].
  pose proof (core_process c e cr w') as Hp. destruct (process_result c e cr w') as [[[sc rs] o] ps].
  cbn [fst snd] in *. by rewrite core_finish, Hp, Ha.
Qed.

Lemma result_state_range cr : 0 ≤ (result_state cr).1.1 ≤ 3.
Proof.
  unfold result_state, state_unknown.
  destruct (negb (cr_exited_ok cr)); [cbn; lia|].
  destruct ((_ <? 0) || _) eqn:E; [cbn; lia|]. apply orb_false_iff in E as [E1 E2].
  destruct (match parse_check_output _ _ _ with Ret p => p | Throw _ => _ end) as [[sh lo] pe]. cbn. lia.
Qed.

(** ** Runs *)

(** The host as the service sees it when the result comes, the clock and the
    answers of the time periods then, and the result. *)
Record observation := Observation { ob_host : host_view; ob_env : env; ob_result : check_result }.

Definition see_host (h : host_view) (n : notifier) : notifier :=
  Notifier n.(_notifier_type) n.(current_state) n.(hard) n.(is_flapping) n.(_is_volatile)
    n.(scheduled_downtime_depth) h n.(last_hard_state_change)
    n.(_notifications_enabled) n.(_out_notification_type) n.(_notification_interval)
    n.(_first_notification_delay) n.(_recovery_notification_delay) n.(_acknowledgement_type)
    n.(_escalations) n.(_contacts) n.(_contact_groups) n.(_notification_number) n.(_notification)
    n.(_last_notification) n.(_current_notification_id).

Definition observe (c : svc_config) (w : world) (ob : observation) : world :=
  (handle_async_check_result c ob.(ob_env) ob.(ob_result) (on_notif (see_host ob.(ob_host)) w)).2.

Definition run_results (c : svc_config) (obs : list observation) (w : world) : world := foldl (observe c) w obs.

Definition with_up (b : bool) (k : core) : core :=
  Core k.(k_state) k.(k_hard) k.(k_attempt) k.(k_last_hard) k.(k_host_problem) k.(k_changed) k.(k_hard_changed)
    k.(k_problem_id) k.(k_next_problem_id) k.(k_asked) b k.(k_last) k.(k_time).

Lemma core_observe c ob w :
  core_of (observe c w ob) =
  if taken c ob.(ob_env) ob.(ob_result) (on_notif (see_host ob.(ob_host)) w)
  then core_step c.(max_check_attempts) (result_state ob.(ob_result)).1.1 ob.(ob_result).(cr_start_time)
         (with_up ob.(ob_host).(h_up) (core_of w))
  else with_up ob.(ob_host).(h_up) (core_of w).
Proof. unfold observe. by rewrite core_handle. Qed.

(** ** The invariant *)

(** The attempts are within bounds, a soft problem has attempts left, and the
    service has a problem id when it has a problem. *)
Record service_ok (max : Z) (k : core) : Prop := ServiceOk {
  so_attempt : 1 ≤ k.(k_attempt) ≤ max;
  so_state : 0 ≤ k.(k_state) ≤ 3;
  so_soft : k.(k_state) ≠ state_ok → k.(k_hard) = false → k.(k_attempt) < max;
  so_id : k.(k_problem_id) = 0 ↔ k.(k_state) = state_ok;
  so_ids : 0 ≤ k.(k_problem_id) < k.(k_next_problem_id);
}.

Lemma core_step_ok max s t k :
  1 ≤ max → 0 ≤ s ≤ 3 → service_ok max k → service_ok max (core_step max s t k).
Proof.
  intros Hmax Hs [Ha Hr Hsoft Hid Hids]. destruct k as [s0 h n lh hp ch hc pi np ask up la t0].
  unfold core_step, state_ok in *. cbn in *.
  destruct (Z.eqb_spec s 0), (Z.eqb_spec s0 0), (Z.eqb_spec s s0); try lia; subst; cbn.
  all: repeat match goal with
         | |- context [if ?b then _ else _] => destruct b eqn:?
         end; split; cbn; try lia; try done; intros; try lia.
  all: unfold state_ok in *; try lia.
Qed.

Lemma observe_ok c ob w :
  1 ≤ c.(max_check_attempts) → service_ok c.(max_check_attempts) (core_of w) →
  service_ok c.(max_check_attempts) (core_of (observe c w ob)).
Proof.
  intros Hm Hk. rewrite core_observe.
  assert (service_ok (max_check_attempts c) (with_up ob.(ob_host).(h_up) (core_of w))) as Hk' by (by destruct Hk).
  case_match; [|done]. apply core_step_ok; [done|apply result_state_range|done].
Qed.

(** ** The service as its users see it *)

Inductive phase :=
  | Fine                       (* OK, hard *)
  | Recovering                 (* OK, soft *)
  | Retrying (s n : Z)         (* a problem seen [n] times in a row, soft *)
  | Confirmed (s : Z).         (* a problem, hard *)

Definition phase_step (max s : Z) (p : phase) : phase :=
  if s =? state_ok then
    match p with
    | Retrying _ n => if n + 1 <? max then Recovering else Fine
    | _ => Fine
    end
  else
    match p with
    | Fine | Recovering => if 1 <? max then Retrying s 1 else Confirmed s
    | Retrying _ n => if n + 1 <? max then Retrying s (n + 1) else Confirmed s
    | Confirmed _ => Confirmed s
    end.

(** The phases after each result. *)
Fixpoint phases (max : Z) (p : phase) (ss : list Z) : list phase :=
  match ss with
  | [] => []
  | s :: ss => phase_step max s p :: phases max (phase_step max s p) ss
  end.

Definition phase_after (max : Z) (p : phase) (ss : list Z) : phase := foldl (λ p s, phase_step max s p) p ss.

Definition is_confirmed (p : phase) : bool := match p with Confirmed _ => true | _ => false end.

(** The machine is in this phase, and its times are before [T]. *)
Definition at_phase (max T : Z) (p : phase) (k : core) : Prop :=
  k.(k_host_problem) = false ∧ k.(k_changed) ≤ T ∧ 0 < k.(k_hard_changed) ≤ T ∧
  match p with
  | Fine => k.(k_state) = state_ok ∧ k.(k_hard) = true ∧ k.(k_attempt) = 1 ∧ k.(k_last_hard) = state_ok
  | Recovering =>
      k.(k_state) = state_ok ∧ k.(k_hard) = false ∧ k.(k_attempt) = max - 1 ∧ 1 < max ∧
      k.(k_last_hard) = state_ok ∧ k.(k_hard_changed) < k.(k_changed)
  | Retrying s n =>
      s ≠ state_ok ∧ k.(k_state) = s ∧ k.(k_hard) = false ∧ k.(k_attempt) = n ∧ 1 ≤ n < max ∧
      k.(k_last_hard) = state_ok ∧ k.(k_hard_changed) < k.(k_changed)
  | Confirmed s =>
      s ≠ state_ok ∧ k.(k_state) = s ∧ k.(k_hard) = true ∧ k.(k_attempt) = max ∧ k.(k_last_hard) = s
  end.

Lemma at_phase_step max s t T p k :
  1 ≤ max → T < t → k.(k_up) = true → at_phase max T p k →
  at_phase max t (phase_step max s p) (core_step max s t k) ∧
  k_asked (core_step max s t k) = (k.(k_asked) + (if is_confirmed (phase_step max s p) then 1 else 0))%nat.
Proof.
  intros Hm Ht Hup Hk. destruct k as [s0 h n lh hp ch hc pi np ask up la t0].
  destruct p as [| |s1 n1|s1]; unfold at_phase in Hk; cbn in Hk, Hup; destruct_and?; subst;
    unfold phase_step, core_step, state_ok in *; cbn in *.
  all: destruct (Z.eqb_spec s 0); cbn.
  all: repeat match goal with
         | |- context [?a =? ?b] => destruct (Z.eqb_spec a b); cbn [andb orb negb] in *; try lia
         end.
  all: repeat match goal with
         | |- context [?a <? ?b] =>
             lazymatch a with context [if _ then _ else _] => fail | _ => destruct (Z.ltb_spec a b) end;
             cbn [andb orb negb] in *; try lia
         | |- context [?a <=? ?b] =>
             lazymatch b with context [if _ then _ else _] => fail | _ => destruct (Z.leb_spec a b) end;
             cbn [andb orb negb] in *; try lia
         end; unfold at_phase, state_ok; cbn; split_and?; lia || done.
Qed.

Definition start_of (ob : observation) : Z := ob.(ob_result).(cr_start_time).

(** Results that come one after the other, while the host is up. *)
Definition timely (T : Z) (obs : list observation) : Prop :=
  Forall (λ ob, ob.(ob_host).(h_up) = true) obs ∧
  StronglySorted Z.lt (T :: (start_of <$> obs)).

(** Results the handler uses: no result of a freshness check, no passive one
    unless they are accepted. *)
Definition usable (c : svc_config) (cr : check_result) : bool :=
  negb cr.(cr_freshness) &&
  (negb cr.(cr_passive) || (c.(accept_passive_service_checks) && c.(passive_checks_enabled))).

Lemma usable_taken c e cr w : usable c cr = true → taken c e cr w = true.
Proof.
  unfold usable, taken, accept_result. destruct (cr_freshness cr), (cr_passive cr); cbn; try done.
  destruct (accept_passive_service_checks c), (passive_checks_enabled c); cbn; done.
Qed.

Definition state_of (ob : observation) : Z := (result_state ob.(ob_result)).1.1.

Lemma run_phases c obs : ∀ T p w,
  1 ≤ c.(max_check_attempts) → timely T obs → Forall (λ ob, usable c ob.(ob_result)) obs →
  at_phase c.(max_check_attempts) T p (core_of w) →
  let ps := phases c.(max_check_attempts) p (state_of <$> obs) in
  (∃ T', at_phase c.(max_check_attempts) T' (phase_after c.(max_check_attempts) p (state_of <$> obs))
           (core_of (run_results c obs w))) ∧
  k_asked (core_of (run_results c obs w)) = (k_asked (core_of w) + length (filter is_confirmed ps))%nat.
Proof.
  induction obs as [|ob obs IH]; intros T p w Hm [Hup Hso] Hus Hk;
    unfold run_results, phase_after in *; cbn [phases foldl fmap list_fmap].
  { split; [by exists T|cbn; lia]. }
  apply Forall_cons in Hus as [Hu Hus].
  apply StronglySorted_inv in Hso as [Hso Hlt]. cbn in Hlt. apply Forall_cons in Hlt as [Hlt _].
  apply Forall_cons in Hup as [Hup1 Hup].
  destruct (at_phase_step (max_check_attempts c) (state_of ob) (cr_start_time (ob_result ob)) T p
              (with_up true (core_of w))) as [Hk' Ha]; [done..|].
  assert (core_of (observe c w ob) = core_step (max_check_attempts c) (state_of ob) (cr_start_time (ob_result ob))
                                       (with_up true (core_of w))) as Ho.
  { rewrite core_observe, usable_taken, Hup1; [done|]. by apply Is_true_true. }
  rewrite <- Ho in Hk', Ha.
  destruct (IH (cr_start_time (ob_result ob)) (phase_step (max_check_attempts c) (state_of ob) p) (observe c w ob))
    as [[T' HT'] Hask]; [done| |done..|].
  { by split. }
  split; [by exists T'|]. rewrite Hask, Ha.
  change (k_asked (with_up true (core_of w))) with (k_asked (core_of w)).
  rewrite filter_cons. destruct (is_confirmed (phase_step _ _ _)); case_decide; cbn [length]; try lia; done.
Qed.

(** ** The schedule and the history *)

(** The check in the queue and the time of the next one, the time of the last one,
    the flapping flag and the history. *)
Definition aux : Type := option (Z * Z) * Z * Z * bool * list Z * nat.

Definition aux_of (w : world) : aux :=
  ((check w).(_queued), (check w).(_next_check), (check w).(_last_check), (notif w).(is_flapping), w.(w_svc).(sv_hist).(_state_history), w.(w_svc).(sv_hist).(_state_history_index)).

Lemma aux_notify e type w : aux_of (do_notify e type w) = aux_of w.
Proof.
  unfold do_notify. destruct (notify _ _ _ _ _ _ _) as [[r n'] g'] eqn:H.
  by destruct (notify_keeps _ _ _ _ _ _ _ _ _ _ H) as (num & nt & la & id & ->).
Qed.

Lemma aux_act a w : aux_of (act a w) = aux_of w.
Proof. done. Qed.

Lemma aux_log c w : aux_of (log_event c w) = aux_of w.
Proof. unfold log_event. by case_match. Qed.

Lemma aux_event w : aux_of (handle_service_event w) = aux_of w.
Proof. done. Qed.

Lemma aux_on_change sc hsc w : aux_of (on_change sc hsc w) = aux_of w.
Proof. unfold on_change. by repeat case_match. Qed.

Lemma aux_update_attempt c w : aux_of (update_attempt c w) = aux_of w.
Proof. unfold update_attempt. by repeat case_match. Qed.

Lemma aux_change_times sc hsc w : aux_of (change_times sc hsc w) = aux_of w.
Proof. by destruct sc, hsc. Qed.

Lemma aux_change_ids sc w : aux_of (change_ids sc w) = aux_of w.
Proof. unfold change_ids. by repeat case_match. Qed.

Lemma aux_check_route c e sc w : aux_of (check_route c e sc w) = aux_of w.
Proof. unfold check_route. by repeat case_match. Qed.

Lemma aux_host_effect sc hsc w : aux_of (host_effect sc hsc w).2 = aux_of w.
Proof. unfold host_effect. by repeat case_match. Qed.

Lemma aux_stalk c sc l o w : aux_of (stalk c sc l o w) = aux_of w.
Proof. unfold stalk. case_match; [apply aux_log|done]. Qed.

Lemma aux_predictive c e ms : ∀ i w, aux_of (predictive c e i ms w) = aux_of w.
Proof. induction ms as [|[la ex] ms IH]; intros i w; cbn [predictive]; [done|]. rewrite IH. by case_match. Qed.

Lemma aux_hard b w : aux_of (on_notif (set_state_type b) w) = aux_of w.
Proof. done. Qed.
Lemma aux_track f w : aux_of (on_track f w) = aux_of w.
Proof. done. Qed.
Lemma aux_hard_recovery t w :
  aux_of (on_notif (λ n, set_last_hard_state_change t (set_state_type true n)) w) = aux_of w.
Proof. done. Qed.
Lemma aux_forget w : aux_of (on_notif (λ n, set_acknowledgement AckNone (set_last_notification 0 n)) w) = aux_of w.
Proof. done. Qed.
Lemma aux_ack a w : aux_of (on_notif (set_acknowledgement a) w) = aux_of w.
Proof. done. Qed.

Create Rewrite HintDb aux_db.
#[export] Hint Rewrite aux_notify aux_act aux_log aux_event aux_on_change aux_update_attempt aux_change_times
  aux_change_ids aux_check_route aux_stalk aux_predictive aux_hard aux_track aux_hard_recovery aux_forget aux_ack : aux_db.

(** The history and the flag after [check_for_flapping(true, ...)]. *)
Definition aux_flap (c : svc_config) (k : core) (a : aux) : aux :=
  let '(q, nx, t, fl, hist, i) := a in
  let h := if has_flag c.(flap_on) (state_flag service_notification k.(k_state)) && k.(k_up)
           then record_state k.(k_state) (History hist i (S754_zero false) false) else History hist i (S754_zero false) false in
  let low := threshold c.(low_flap_threshold) c.(low_service_flap_threshold) in
  let high := threshold c.(high_flap_threshold) c.(high_service_flap_threshold) in
  let pct := percent_state_change h in
  let fl := if negb c.(enable_flap_detection) || negb c.(flap_detection_enabled) then fl
            else if SFltb low pct && SFltb pct high then fl
            else if SFltb pct low then false
            else if SFleb high pct then negb (k.(k_state) =? state_ok) || fl else false in
  (q, nx, t, fl, h.(_state_history), h.(_state_history_index)).

Lemma aux_check_for_flapping c e allow w :
  aux_of (check_for_flapping c e true allow w) = aux_flap c (core_of w) (aux_of w).
Proof.
  unfold check_for_flapping, aux_flap. cbn [aux_of core_of k_state k_up andb].
  set (upd := has_flag _ _ && _).
  set (w1 := if upd then _ else w).
  set (h1 := if upd then record_state _ (History _ _ _ false) else _).
  assert (aux_of w1 = (_queued (check w), _next_check (check w), _last_check (check w), is_flapping (notif w),
                       _state_history h1, _state_history_index h1)) as H1.
  { subst w1 h1. destruct upd; done. }
  assert (state w1 = state w) as Hs by (subst w1; by destruct upd).
  assert (is_flapping (notif w1) = is_flapping (notif w)) as Hf by (subst w1; by destruct upd).
  assert (percent_state_change (sv_hist (w_svc w1)) = percent_state_change h1) as Hp.
  { unfold percent_state_change. by injection H1 as _ _ _ _ -> ->. }
  set (w2 := set_w_svc (set_sv_hist _ _) w1).
  assert (aux_of w2 = aux_of w1) as H2 by done. rewrite H1 in H2.
  change (state w1) with (state w2) in Hs. change (is_flapping (notif w1)) with (is_flapping (notif w2)) in Hf.
  clearbody w2 h1. rewrite Hp, Hs, Hf. clear H1. rename H2 into H1. unfold set_flap, clear_flap.
  destruct (negb (enable_flap_detection c)); [by rewrite H1|].
  destruct (negb (flap_detection_enabled c)); [by rewrite H1|]. cbn [orb].
  destruct (_ && SFltb _ _); [by rewrite H1|].
  set (fl := if SFltb _ _ then false else _). clearbody fl. clear Hp.
  unfold aux_of in H1. injection H1 as Hq Hn Hc Hw Hh Hi.
  destruct fl, (is_flapping (notif w)) eqn:Ef, allow; cbn [andb negb]; rewrite ?aux_notify; unfold aux_of; cbn; congruence.
Qed.

Lemma aux_flapping_checks c e w : aux_of (flapping_checks c e w) = aux_flap c (core_of w) (aux_of w).
Proof. unfold flapping_checks. rewrite aux_act. apply aux_check_for_flapping. Qed.

Lemma aux_record cr w :
  aux_of (record_result cr w) =
  ((check w).(_queued), (check w).(_next_check), cr.(cr_start_time), (notif w).(is_flapping),
   w.(w_svc).(sv_hist).(_state_history), w.(w_svc).(sv_hist).(_state_history_index)).
Proof. unfold record_result. destruct (result_state cr) as [[st out] [[lo pe]|]]; reflexivity. Qed.

Lemma aux_accept_result c e cr w r w' : accept_result c e cr w = (r, w') → aux_of w' = aux_of w.
Proof. unfold accept_result. intros H. repeat case_match; simplify_eq; reflexivity. Qed.

(** The core a branch of the handler leaves, and the history: one check for
    flapping, on the state the branch leaves, in the branch or at the end. *)
Definition flapped (c : svc_config) (done : bool) (k : core) (a : aux) :=
  if done then aux_flap c k a else a.

Lemma aux_flap_core c k k' a : k.(k_state) = k'.(k_state) → k.(k_up) = k'.(k_up) → aux_flap c k a = aux_flap c k' a.
Proof. unfold aux_flap. by intros -> ->. Qed.

Lemma aux_ok_branch c e first sc hsc resched w :
  let o := ok_branch c e first sc hsc resched w in
  aux_of o.(o_world) = flapped c o.(o_flapping_done) (core_of w) (aux_of w).
Proof.
  cbv zeta. unfold ok_branch, flapped.
  destruct hsc, sc; cbn [o_world o_flapping_done]; repeat case_match; simplify_eq;
    autorewrite with aux_db; rewrite ?aux_flapping_checks; autorewrite with aux_db; try reflexivity.
  all: apply aux_flap_core; quiet; reflexivity.
Qed.

Lemma aux_retry_branch c e hsc resched w :
  let o := retry_branch c e hsc resched w in
  o.(o_flapping_done) = false ∧ aux_of o.(o_world) = aux_of w.
Proof. cbv zeta. unfold retry_branch. repeat case_match; cbn; autorewrite with aux_db; done. Qed.

Lemma aux_max_attempts_branch c e sc hsc resched w :
  let o := max_attempts_branch c e sc hsc resched w in
  o.(o_flapping_done) = true ∧ aux_of o.(o_world) = aux_flap c (core_of w) (aux_of w).
Proof.
  cbv zeta. unfold max_attempts_branch. cbn [o_world o_flapping_done]. split; [done|].
  repeat case_match; autorewrite with aux_db; rewrite aux_flapping_checks; autorewrite with aux_db;
    apply aux_flap_core; quiet; reflexivity.
Qed.

Lemma host_effect_frame sc hsc w :
  (core_of (host_effect sc hsc w).2).(k_state) = state w ∧ (core_of (host_effect sc hsc w).2).(k_up) = host_up w.
Proof. unfold host_effect. by repeat case_match. Qed.

(** The time of the next check, as a function of the state of the service. *)
Definition next_time (c : svc_config) (e : env) (t : Z) (k : core) : Z :=
  t + (if negb (k.(k_state) =? state_ok) && k.(k_up) && negb k.(k_hard)
       then c.(retry_interval) * e.(interval_length) else wrap_u32 (c.(check_interval) * e.(interval_length))).

Lemma aux_problem_branch c e sc hsc resched w :
  state w ≠ state_ok →
  let o := (problem_branch c e sc hsc resched w).1 in
  aux_of o.(o_world) = flapped c o.(o_flapping_done) (core_of w) (aux_of w) ∧
  (resched = true → o.(o_next) = next_time c e (check w).(_last_check) (core_of o.(o_world))).
Proof.
  cbv zeta. intros Hs. unfold problem_branch.
  set (w1 := check_route c e sc w).
  assert (core_of w1 = core_of w) as H1 by apply core_check_route.
  assert (aux_of w1 = aux_of w) as H2 by apply aux_check_route. clearbody w1.
  pose proof (host_effect_frame sc hsc w1) as [Hst Hup]. pose proof (aux_host_effect sc hsc w1) as H3.
  destruct (host_effect sc hsc w1) as [hsc' w2]. cbn [fst snd] in *.
  rewrite H2 in H3. clear H2.
  assert (state w1 = state w) as E1 by (by change (k_state (core_of w1) = k_state (core_of w)); rewrite H1).
  assert (host_up w1 = host_up w) as E2 by (by change (k_up (core_of w1) = k_up (core_of w)); rewrite H1).
  rewrite E1 in Hst. rewrite E2 in Hup. clear E1 E2 H1 w1.
  assert (_last_check (check w2) = _last_check (check w)) as Ht by (by injection H3).
  assert (∀ o : outcome, aux_of (if obsess_over_services c then act AObsess (o_world o) else o_world o)
                         = aux_of (o_world o)) as Hob by (intros o; by destruct (obsess_over_services c)).
  assert (∀ o : outcome, core_of (if obsess_over_services c then act AObsess (o_world o) else o_world o)
                         = core_of (o_world o)) as Hob' by (intros o; destruct (obsess_over_services c); quiet; reflexivity).
  destruct (attempt w2 <? max_check_attempts c) eqn:E; cbn [fst o_world o_flapping_done o_next]; rewrite Hob, Hob'.
  - destruct (aux_retry_branch c e hsc' resched w2) as [-> ->]. split; [done|]. intros ->.
    pose proof (core_retry_branch c e hsc' true w2) as Hk. cbv zeta in Hk. rewrite Hk.
    unfold retry_branch, next_time, regular_check, retry_check. cbn [k_up core_of] in Hup |- *. rewrite Hup in *.
    destruct (host_up w) eqn:Eu; cbn [negb].
    + cbn [o_next k_state k_up k_hard with_hard core_of]. rewrite Hup. cbn in Hst. rewrite Hst, (proj2 (Z.eqb_neq _ _) Hs). cbn.
      f_equal. assert (aux_of (handle_service_event (log_event c (on_notif (set_state_type false) w2))) = aux_of w) as Hx.
      { autorewrite with aux_db. done. }
      by injection Hx.
    + cbn [k_up core_of]. rewrite Hup, andb_false_r. destruct hsc'; cbn [o_next andb]; by rewrite Ht.
  - destruct (aux_max_attempts_branch c e sc hsc' resched w2) as [-> ->]. split.
    { rewrite H3. by apply aux_flap_core. }
    intros ->. pose proof (core_max_attempts_branch c e sc hsc' true w2) as Hk. cbv zeta in Hk. rewrite Hk.
    unfold next_time. cbn [k_hard with_last_hard asks_problem with_hard]. rewrite andb_false_r.
    unfold max_attempts_branch. cbn [o_next]. unfold regular_check. f_equal.
    match goal with |- _last_check (check ?x) = _ => assert (aux_of x = aux_flap c (core_of w2) (aux_of w)) as Hx end.
    { rewrite <- H3. destruct (aux_max_attempts_branch c e sc hsc' true w2) as [_ Hy]. exact Hy. }
    unfold aux_flap in Hx. cbn in Hx. by injection Hx.
Qed.

Definition aux_time (a : aux) : Z := a.1.1.1.2.

Lemma aux_time_flapped c b k a : aux_time (flapped c b k a) = aux_time a.
Proof. destruct a as [[[[[q nx] t] fl] hist] i]. by destruct b. Qed.

Lemma next_ok_branch c e first sc hsc w :
  (ok_branch c e first sc hsc true w).(o_next) =
  (check w).(_last_check) + wrap_u32 (c.(check_interval) * e.(interval_length)).
Proof.
  assert ((ok_branch c e first sc hsc true w).(o_next) =
          regular_check c e (ok_branch c e first sc hsc true w).(o_world)) as ->.
  { unfold ok_branch. by destruct (if hsc then _ else _) as [[w' l] f]. }
  unfold regular_check. f_equal.
  change (aux_time (aux_of (o_world (ok_branch c e first sc hsc true w))) = aux_time (aux_of w)).
  by rewrite aux_ok_branch, aux_time_flapped.
Qed.

(** What is common to the two branches. *)
Lemma process_shape c e cr w : ∃ first sc hsc resched w4,
  (cr.(cr_reschedule) = true → resched = true) ∧
  aux_of w4 = ((check w).(_queued), (check w).(_next_check), cr.(cr_start_time), (notif w).(is_flapping),
               w.(w_svc).(sv_hist).(_state_history), w.(w_svc).(sv_hist).(_state_history_index)) ∧
  state w4 = (result_state cr).1.1 ∧ host_up w4 = host_up w ∧
  process_result c e cr w =
  if state w4 =? state_ok then (sc, resched, ok_branch c e first sc hsc resched w4, [])
  else (sc, resched, (problem_branch c e sc hsc resched w4).1, (problem_branch c e sc hsc resched w4).2).
Proof.
  unfold process_result.
  set (first := first_host_check e (record_result cr w)).
  set (w2 := update_attempt c _). set (sc := state_change w2). set (hsc := hard_state_change c w2).
  set (w4 := change_ids sc _).
  exists first, sc, hsc, (cr_reschedule cr || sc || hsc), w4.
  assert (core_of (if first then act ARunHostCheck (record_result cr w) else record_result cr w)
          = core_accept cr (core_of w)) as H1 by (destruct first; quiet; apply core_record).
  assert (∃ k, core_of w4 = k ∧ k_state k = (result_state cr).1.1 ∧ k_up k = host_up w) as (k & Hk & Hs & Hu).
  { eexists. split; [done|]. subst w4. rewrite core_change_ids; rewrite core_change_times, core_on_change.
    - cbn [k_state k_up with_hard_changed with_changed]. subst w2. rewrite core_update_attempt, H1. done.
    - reflexivity. }
  split_and!.
  - by intros ->.
  - subst w4. autorewrite with aux_db. subst w2. autorewrite with aux_db.
    destruct first; autorewrite with aux_db; apply aux_record.
  - change (k_state (core_of w4) = (result_state cr).1.1). by rewrite Hk.
  - change (k_up (core_of w4) = host_up w). by rewrite Hk.
  - destruct (state w4 =? state_ok); [done|]. by destruct (problem_branch c e sc hsc _ w4).
Qed.

(** One check for flapping, on the state the result leaves; and the next time. *)
Lemma aux_process c e cr w :
  let '(sc, resched, o, preds) := process_result c e cr w in
  let a := ((check w).(_queued), (check w).(_next_check), cr.(cr_start_time), (notif w).(is_flapping),
            w.(w_svc).(sv_hist).(_state_history), w.(w_svc).(sv_hist).(_state_history_index)) in
  (cr.(cr_reschedule) = true → resched = true) ∧
  aux_of o.(o_world) = flapped c o.(o_flapping_done) (core_of o.(o_world)) a ∧
  (resched = true → o.(o_next) = next_time c e cr.(cr_start_time) (core_of o.(o_world))).
Proof.
  pose proof (core_process c e cr w) as Hk.
  assert (∀ k : core, let k' := core_step (max_check_attempts c) (result_state cr).1.1 (cr_start_time cr) k in
            k_state k' = (result_state cr).1.1 ∧ k_up k' = k_up k) as Hst.
  { intros k. unfold core_step. by repeat case_match. }
  destruct (process_shape c e cr w) as (first & sc & hsc & resched & w4 & Hr & Ha & Hs & Hu & Heq).
  rewrite Heq in *. clear Heq.
  assert (_last_check (check w4) = cr_start_time cr) as Ht by (unfold aux_of in Ha; congruence).
  destruct (state w4 =? state_ok) eqn:E; cbn [fst snd] in Hk |- *; (split; [done|]); rewrite Hk, <- Ha;
    destruct (Hst (core_of w)) as [Hs' Hu'].
  - split; [rewrite aux_ok_branch; unfold flapped; destruct (o_flapping_done _)|].
    + apply aux_flap_core; [rewrite Hs'; exact Hs|rewrite Hu'; exact Hu].
    + done.
    + intros ->. rewrite next_ok_branch, Ht. unfold next_time. rewrite Hs', <- Hs, E. done.
  - destruct (aux_problem_branch c e sc hsc resched w4) as [Hp Hn]; [by apply Z.eqb_neq|].
    split; [rewrite Hp; unfold flapped; destruct (o_flapping_done _)|].
    + apply aux_flap_core; [rewrite Hs'; exact Hs|rewrite Hu'; exact Hu].
    + done.
    + intros Hre. rewrite Hn by done. by rewrite Ht, Hk.
Qed.

(** The queue after a check that is not forced is asked for. *)
Definition requeue (next : Z) (q : option (Z * Z)) : Z * Z :=
  match q with
  | None => (next, CHECK_OPTION_NONE)
  | Some (r, o) =>
      if has_flag o CHECK_OPTION_FORCE_EXECUTION then (r, o)
      else if next <? r then (next, CHECK_OPTION_NONE) else (r, o)
  end.

Definition recurring (c : svc_config) : bool := negb (c.(check_interval) =? 0) && c.(active_checks_enabled).

Lemma aux_reschedule c e next w :
  let w' := (reschedule c e next w).2 in
  let t := c.(next_valid_time) (Z.max next e.(now)) in
  aux_of w' =
  (if recurring c then (Some (requeue t (check w).(_queued)), (requeue t (check w).(_queued)).1)
   else ((check w).(_queued), t),
   (check w).(_last_check), (notif w).(is_flapping), w.(w_svc).(sv_hist).(_state_history),
   w.(w_svc).(sv_hist).(_state_history_index)).
Proof.
  cbv zeta. unfold reschedule, recurring.
  assert ((if next <? now e then now e else next) = Z.max next (now e)) as -> by (case_match; lia).
  set (t := next_valid_time c _). cbn [on_check set_w_svc w_svc set_sv_check sv_check _should_be_scheduled
    set_should_be_scheduled].
  destruct (negb (check_interval c =? 0)), (active_checks_enabled c) eqn:Ea; cbn [andb]; [|done..].
  unfold schedule_check. rewrite Ea. cbn [negb andb].
  change (has_flag CHECK_OPTION_NONE CHECK_OPTION_FORCE_EXECUTION) with false. cbn [andb]. unfold requeue.
  destruct (_queued (sv_check (w_svc w))) as [[r o]|] eqn:Eq; cbn; rewrite Eq; [|done].
  destruct (has_flag o _); cbn; [unfold aux_of; cbn; by rewrite Eq|].
  destruct (t <? r); unfold aux_of; cbn; by rewrite ?Eq.
Qed.

Lemma aux_finish c e sc resched old o preds :
  aux_of (finish c e sc resched old o preds) =
  let a := if resched then aux_of (reschedule c e o.(o_next) o.(o_world)).2 else aux_of o.(o_world) in
  flapped c (negb o.(o_flapping_done)) (core_of o.(o_world)) a.
Proof.
  cbv zeta. unfold finish. pose proof (core_reschedule c e o.(o_next) o.(o_world)) as Hr.
  destruct (reschedule c e (o_next o) (o_world o)) as [nu w']. cbn [snd] in *.
  assert (∃ nu' w1, (if resched then (nu, w') else (false, o_world o)) = (nu', w1) ∧
     core_of w1 = core_of (o_world o) ∧ aux_of w1 = if resched then aux_of w' else aux_of (o_world o))
    as (nu' & w1 & -> & Hc1 & <-) by (destruct resched; by eexists _, _).
  set (w2 := act ABrokerCheck (stalk c sc (o_logged o) old w1)).
  assert (core_of w2 = core_of w1) as Hc2 by (subst w2; quiet; done).
  assert (aux_of w2 = aux_of w1) as Ha2 by (subst w2; autorewrite with aux_db; done).
  clearbody w2.
  assert (∀ b, ∃ nu2 w3, (if b : bool then (true, on_check (set_has_been_checked true) w2) else (nu', w2)) = (nu2, w3) ∧
     core_of w3 = core_of w1 ∧ aux_of w3 = aux_of w1) as H3.
  { intros [|]; eexists _, _; (split; [done|]); split; done. }
  match goal with |- context [if ?b then (true, _) else _] => destruct (H3 b) as (nu2 & w3 & -> & Hc3 & <-) end.
  rewrite aux_predictive, aux_act. unfold flapped. rewrite <- Hc1, <- Hc3.
  destruct (o_flapping_done o); cbn [negb]; destruct nu2; rewrite ?aux_flapping_checks; quiet; done.
Qed.

(** What a result that is taken leaves. *)
Lemma handle_aux c e cr w :
  taken c e cr w = true →
  let w' := (handle_async_check_result c e cr w).2 in
  let q := (check w).(_queued) in
  let t := c.(next_valid_time) (Z.max (next_time c e cr.(cr_start_time) (core_of w')) e.(now)) in
  ∃ qn, aux_of w' = aux_flap c (core_of w')
     (qn, cr.(cr_start_time), (notif w).(is_flapping), w.(w_svc).(sv_hist).(_state_history),
      w.(w_svc).(sv_hist).(_state_history_index)) ∧
    (cr.(cr_reschedule) = true → recurring c = true → qn = (Some (requeue t q), (requeue t q).1)) ∧
    (qn.1 = q ∨ recurring c = true ∧ qn.1 = Some (requeue t q)).
Proof.
  intros Htk. cbv zeta.
  unfold taken, handle_async_check_result in *. destruct (accept_result c e cr w) as [[r|] w'] eqn:Ha; [done|].
  pose proof (core_accept_result _ _ _ _ _ _ Ha) as Hcw. apply aux_accept_result in Ha.
  pose proof (aux_process c e cr w') as Hp.
  destruct (process_result c e cr w') as [[[sc rs] o] ps]. cbn [fst snd] in *. destruct Hp as (Hrs & Hao & Hn).
  rewrite core_finish, aux_finish. cbv zeta.
  unfold aux_of in Ha at 1 2. injection Ha as Hq Hnx Hlc Hfl Hh Hi. rewrite Hq, Hnx, Hfl, Hh, Hi in Hao.
  clear - Hrs Hao Hn. rename o into oc. destruct oc as [wo nx lg fd]. cbn [o_world o_next o_flapping_done] in *.
  pose proof (aux_reschedule c e nx wo) as Hr. cbv zeta in Hr.
  set (tt := next_valid_time c (next_time _ _ _ _ `max` _)) in *.
  assert (_queued (check wo) = _queued (check w)) as Hqo.
  { change ((aux_of wo).1.1.1.1.1 = _queued (check w)). rewrite Hao. by destruct fd. }
  assert (rs = true → next_valid_time c (nx `max` now e) = tt) as Htt by (intros H; by rewrite Hn).
  assert (∃ qn : option (Z * Z) * Z,
    (if rs then aux_of (reschedule c e nx wo).2 else aux_of wo) =
      (qn, (aux_of wo).1.1.1.2, (aux_of wo).1.1.2, (aux_of wo).1.2, (aux_of wo).2) ∧
    (rs = true → recurring c = true → qn = (Some (requeue tt (_queued (check w))), (requeue tt (_queued (check w))).1)) ∧
    (qn.1 = _queued (check w) ∨ recurring c = true ∧ qn.1 = Some (requeue tt (_queued (check w)))))
    as (qn & -> & Hq1 & Hq2).
  { destruct rs.
    - rewrite Hr, Hqo, Htt by done. eexists. split; [reflexivity|]. split; [by intros _ ->|].
      destruct (recurring c); [by right|by left].
    - eexists (_, _). split; [reflexivity|]. split; [done|]. left. cbn. done. }
  exists qn. rewrite Hao. split; [|split; [auto|done]]. by destruct qn, fd.
Qed.

(** ** The ring of the last states *)

(** The states in the order in which they were recorded. *)
Definition chron (h : list Z) (i : nat) : list Z := drop i h ++ take i h.

Definition ring_ok (h : list Z) (i : nat) : Prop :=
  length h = MAX_STATE_HISTORY_ENTRIES ∧ (i < MAX_STATE_HISTORY_ENTRIES)%nat.

Lemma length_chron h i : ring_ok h i → length (chron h i) = 21%nat.
Proof. unfold ring_ok, chron, MAX_STATE_HISTORY_ENTRIES. intros [Hl Hi]. rewrite length_app, length_drop, length_take. lia. Qed.

Lemma chron_record s h i pct b :
  ring_ok h i →
  let h' := record_state s (History h i pct b) in
  ring_ok h'.(_state_history) h'.(_state_history_index) ∧
  chron h'.(_state_history) h'.(_state_history_index) = drop 1 (chron h i) ++ [s].
Proof.
  unfold ring_ok, MAX_STATE_HISTORY_ENTRIES. intros [Hl Hi]. cbv zeta. unfold record_state, MAX_STATE_HISTORY_ENTRIES.
  cbn [_state_history _state_history_index]. rewrite length_insert.
  split; [split; [done|]; case_match eqn:E; [lia|apply Nat.leb_gt in E; lia]|].
  destruct (lookup_lt_is_Some_2 h i) as [x Hx]; [lia|].
  unfold chron. rewrite (drop_S h x i Hx). change (drop 1 ((x :: drop (S i) h) ++ take i h)) with (drop (S i) h ++ take i h).
  assert (take (S i) (<[i:=s]> h) = take i h ++ [s]) as Ht.
  { rewrite (take_S_r _ _ s) by (apply list_lookup_insert_eq; lia). by rewrite take_insert_ge by lia. }
  case_match eqn:E.
  - apply Nat.leb_le in E. assert (i = 20)%nat as -> by lia.
    rewrite drop_0, take_0, app_nil_r, (drop_ge h) by lia. rewrite app_nil_l, <- Ht. symmetry. apply take_ge. rewrite length_insert. lia.
  - by rewrite Ht, drop_insert_lt, app_assoc by lia.
Qed.

Lemma curved_changes_stable n s : ∀ x acc, curved_changes x s (replicate n s) acc = acc.
Proof. induction n as [|n IH]; intros x acc; cbn; [done|]. by rewrite Z.eqb_refl, IH. Qed.

Lemma percent_stable h s :
  chron h.(_state_history) h.(_state_history_index) = replicate 21 s → percent_state_change h = S754_zero false.
Proof.
  unfold percent_state_change, chron. intros ->. change (replicate 21 s) with (s :: replicate 20 s).
  cbv beta iota. rewrite curved_changes_stable. vm_compute. reflexivity.
Qed.

Lemma positive_not_below low : SFltb (S754_zero false) low = true → SFltb low (S754_zero false) = false.
Proof. by destruct low as [[]|[]| |[]]. Qed.

(** A result the history keeps. *)
Definition tracked (c : svc_config) (ob : observation) : Prop :=
  usable c ob.(ob_result) = true ∧ ob.(ob_host).(h_up) = true ∧
  has_flag c.(flap_on) (state_flag service_notification (state_of ob)) = true.

Abbreviation hist_of w := (w.(w_svc).(sv_hist)).

Lemma core_step_state max s t k : k_state (core_step max s t k) = s ∧ k_up (core_step max s t k) = k_up k.
Proof. unfold core_step. by repeat case_match. Qed.

Lemma observe_history c ob w :
  tracked c ob → ring_ok (hist_of w).(_state_history) (hist_of w).(_state_history_index) →
  let h := hist_of (observe c w ob) in
  ring_ok h.(_state_history) h.(_state_history_index) ∧
  chron h.(_state_history) h.(_state_history_index) =
    drop 1 (chron (hist_of w).(_state_history) (hist_of w).(_state_history_index)) ++ [state_of ob] ∧
  (c.(enable_flap_detection) = true → c.(flap_detection_enabled) = true →
   SFltb (S754_zero false) (threshold c.(low_flap_threshold) c.(low_service_flap_threshold)) = true →
   percent_state_change h = S754_zero false → (notif (observe c w ob)).(is_flapping) = false).
Proof.
  intros (Hus & Hup & Hfl) Hring. cbv zeta.
  pose proof (usable_taken c (ob_env ob) (ob_result ob) (on_notif (see_host (ob_host ob)) w) Hus) as Htk.
  pose proof (core_handle c (ob_env ob) (ob_result ob) (on_notif (see_host (ob_host ob)) w)) as Hk.
  rewrite Htk in Hk. destruct (handle_aux c (ob_env ob) (ob_result ob) _ Htk) as (qn & Ha & _).
  change (handle_async_check_result c (ob_env ob) (ob_result ob) (on_notif (see_host (ob_host ob)) w)).2
    with (observe c w ob) in *.
  pose proof (core_step_state (max_check_attempts c) (state_of ob) (cr_start_time (ob_result ob))
                (core_of (on_notif (see_host (ob_host ob)) w))) as [Hs Hu].
  unfold state_of in Hs, Hu. rewrite <- Hk in Hs, Hu. change (k_up (core_of (on_notif _ w))) with (h_up (ob_host ob)) in Hu.
  rewrite Hup in Hu.
  set (k := core_of (observe c w ob)) in *. clearbody k. clear Hk.
  unfold aux_flap in Ha. rewrite Hs, Hu in Ha. unfold state_of in Hfl. rewrite Hfl in Ha. cbn [andb] in Ha.
  destruct qn as [q nx]. injection Ha as _ _ _ Hf Hh Hi.
  change (hist_of (on_notif (see_host (ob_host ob)) w)) with (hist_of w) in *.
  set (h := record_state _ _) in *.
  destruct (chron_record (state_of ob) (hist_of w).(_state_history) (hist_of w).(_state_history_index)
    (S754_zero false) false Hring)
    as [Hr Hc]. change (record_state _ _) with h in Hr, Hc.
  rewrite Hh, Hi. split; [done|]. split; [done|].
  intros He1 He2 Hlow Hp.
  assert (percent_state_change h = S754_zero false) as Hp'.
  { rewrite <- Hp. unfold percent_state_change. by rewrite Hh, Hi. }
  rewrite Hf, He1, He2, Hp', (positive_not_below _ Hlow), Hlow. done.
Qed.

Lemma run_history c obs : ∀ w,
  Forall (tracked c) obs → ring_ok (hist_of w).(_state_history) (hist_of w).(_state_history_index) →
  let h := hist_of (run_results c obs w) in
  ring_ok h.(_state_history) h.(_state_history_index) ∧
  chron h.(_state_history) h.(_state_history_index) =
    drop (length obs) (chron (hist_of w).(_state_history) (hist_of w).(_state_history_index) ++ (state_of <$> obs)).
Proof.
  induction obs as [|ob obs IH] using rev_ind; intros w Ht Hr; cbv zeta.
  { split; [done|]. cbn. by rewrite app_nil_r. }
  apply Forall_app in Ht as [Ht Ht1]. apply Forall_cons in Ht1 as [Ht1 _].
  destruct (IH w Ht Hr) as [Hr' Hc']. unfold run_results in *. rewrite foldl_snoc.
  destruct (observe_history c ob _ Ht1 Hr') as (Hr'' & Hc'' & _). split; [done|].
  rewrite Hc'', Hc', drop_drop, fmap_app, length_app, app_assoc. cbn [length fmap list_fmap].
  pose proof (length_chron _ _ Hr) as Hl.
  rewrite (drop_app_le (_ ++ _)); [done|]. rewrite length_app, length_fmap, Hl. lia.
Qed.

(** ** Phases of a lasting problem *)

Definition phase_of_problem (max : Z) (s n : Z) : phase := if n <? max then Retrying s n else Confirmed s.

Lemma phases_problem max ss : ∀ s n,
  1 ≤ n → Forall (λ s, s ≠ state_ok) ss →
  phase_after max (phase_of_problem max s n) ss =
    phase_of_problem max (default s (last ss)) (n + Z.of_nat (length ss)) ∧
  Z.of_nat (length (filter is_confirmed (phases max (phase_of_problem max s n) ss))) =
    Z.min (Z.of_nat (length ss)) (Z.max 0 (n + Z.of_nat (length ss) + 1 - Z.max (n + 1) max)).
Proof.
  induction ss as [|s1 ss IH]; intros s n Hn Hss; cbn [phase_after foldl phases length].
  { rewrite Z.add_0_r. split; [done|]. cbn. lia. }
  apply Forall_cons in Hss as [Hs1 Hss].
  assert (phase_step max s1 (phase_of_problem max s n) = phase_of_problem max s1 (n + 1)) as ->.
  { unfold phase_step, phase_of_problem. rewrite (proj2 (Z.eqb_neq _ _) Hs1).
    destruct (Z.ltb_spec n max); [done|]. by destruct (Z.ltb_spec (n + 1) max); [lia|]. }
  destruct (IH s1 (n + 1)) as [IH1 IH2]; [lia|done|]. unfold phase_after in IH1. rewrite IH1. split.
  - f_equal; [|lia]. rewrite last_cons. by destruct (last ss).
  - assert (is_confirmed (phase_of_problem max s1 (n + 1)) = negb (n + 1 <? max)) as Hc
      by (unfold phase_of_problem; by destruct (n + 1 <? max)).
    rewrite filter_cons. case_decide as Hd; rewrite Hc in Hd; destruct (Z.ltb_spec (n + 1) max); try done;
      cbn [length]; rewrite ?Nat2Z.inj_succ, IH2; lia.
Qed.

(** ** Sequences of checks and requests *)

(** How often the handler asked for the notification of a problem. *)
Definition problem_calls (w : world) : nat := length (filter is_problem_call w.(w_actions)).

(** A request of [schedule_check], or a result. *)
Inductive activity :=
  | Request (check_time options : Z)
  | Result (ob : observation).

Definition perform (c : svc_config) (w : world) (a : activity) : world :=
  match a with
  | Request t o => (schedule_check c t o false w).2
  | Result ob => observe c w ob
  end.

Definition forced (o : Z) : bool := has_flag o CHECK_OPTION_FORCE_EXECUTION.

(** A forced check that runs at [t] at the latest is in the queue. *)
Definition forced_by (t : Z) (w : world) : Prop :=
  ∃ r o, (check w).(_queued) = Some (r, o) ∧ forced o = true ∧ r ≤ t.

Lemma request_forced c t o u w :
  forced o = true → forced_by t (schedule_check c t o u w).2.
Proof.
  intros Ho. unfold schedule_check, forced_by, forced in *. rewrite Ho, andb_false_r. cbn [negb].
  destruct (_queued (check w)) as [[r o']|] eqn:Eq; [destruct (has_flag o' _) eqn:Eo; cbn [andb];
    [destruct (Z.ltb_spec t r)|]|]; cbv beta iota zeta; try (destruct (_ || _); by exists t, o).
  exists r, o'. rewrite <- Eq. by destruct u.
Qed.

Lemma request_keeps_forced c t t' o u w : forced_by t w → forced_by t (schedule_check c t' o u w).2.
Proof.
  intros (r & o' & Hq & Ho & Hr). unfold schedule_check, forced_by, forced in *.
  destruct (negb _ && _); [by exists r, o'|]. rewrite Hq, Ho.
  destruct (has_flag o _) eqn:Eo; cbn [andb]; [destruct (Z.ltb_spec t' r)|]; cbv beta iota zeta.
  - destruct (_ || _); exists t', o; (split_and!; [done..|lia]).
  - exists r, o'. by destruct u.
  - exists r, o'. by destruct u.
Qed.

Lemma result_keeps_forced c t ob w : forced_by t w → forced_by t (observe c w ob).
Proof.
  intros (r & o & Hq & Ho & Hr). exists r, o. split; [|done].
  unfold observe. set (w1 := on_notif (see_host (ob_host ob)) w).
  assert (_queued (check w1) = Some (r, o)) as Hq1 by exact Hq. clearbody w1. clear Hq.
  destruct (taken c (ob_env ob) (ob_result ob) w1) eqn:Et.
  - destruct (handle_aux c (ob_env ob) (ob_result ob) w1 Et) as (qn & Ha & _ & Hcase).
    set (w2 := (handle_async_check_result _ _ _ _).2) in *.
    assert (_queued (check w2) = qn.1) as ->.
    { destruct qn as [q nx]. unfold aux_flap in Ha. by injection Ha. }
    rewrite Hq1 in Hcase. unfold requeue in Hcase. unfold forced in Ho. rewrite Ho in Hcase.
    destruct Hcase as [->|[_ ->]]; done.
  - unfold taken, handle_async_check_result in *. destruct (accept_result _ _ _ _) as [[b|] w'] eqn:Ea; [|done].
    cbn [snd]. apply aux_accept_result in Ea. rewrite <- Hq1. unfold aux_of in Ea. by injection Ea.
Qed.

Lemma perform_keeps_forced c t acts : ∀ w, forced_by t w → forced_by t (foldl (perform c) w acts).
Proof.
  induction acts as [|[t' o|ob] acts IH]; intros w Hw; cbn [foldl perform]; [done|..]; apply IH.
  - by apply request_keeps_forced.
  - by apply result_keeps_forced.
Qed.

(** ** A sample service, for the concrete cases *)

(** Three attempts, checks every 5 minutes, or every minute while a problem is soft. *)
Definition sample_config : svc_config :=
  SvcConfig 3 5 1 true true 0 0 true (dint 5) (dint 20) everything 0 true 15 15 false true false true
    (dint 5) (dint 20) true 15 30 0 [] id.

Definition sample_service (contacts : list contact) (flapping : bool) : service :=
  Service
    (Notifier service_notification state_ok true flapping false 0 (HostView true true 0) 1000 true everything
       30 0 0 AckNone [] contacts [] 0 (λ _, None) 0 0)
    (Checkable 1000 1300 true true false false false [] [] [] 0 0 None)
    (Tracking state_ok state_ok 1 1000 false 0 false) (Problem_ids 0 0 0 0) (State_times 1000 0 0 0)
    (History (replicate 21 state_ok) 0 (S754_zero false) flapping).

Definition sample_world (flapping : bool) : world :=
  World (sample_service [admin] flapping) (Host true true 1300 1000 500 500) sample_globals 1 1 0 [].

(** The result [code] of an active check at [t]. *)
Definition sample_result (code t : Z) : observation :=
  Observation (HostView true true 0) (sample_env t) (CheckResult false false true true code t 0 (text "x")).

(** ** Theorems *)

(** Whatever the results of the checks of a service and the states of its
    host, and whether the results are accepted or not, the attempt number stays
    between 1 and [max_check_attempts], the state is one of the four states of a
    service, a problem that is not hard has attempts left, and the service has a
    problem id exactly when it has a problem. *)
Theorem service_invariant c obs w :
  1 ≤ c.(max_check_attempts) → service_ok c.(max_check_attempts) (core_of w) →
  service_ok c.(max_check_attempts) (core_of (run_results c obs w)).
Proof.
  intros Hm. unfold run_results. revert w.
  induction obs as [|ob obs IH]; intros w Hw; cbn [foldl]; [done|]. apply IH. by apply observe_ok.
Qed.

Lemma service_invariant_witness :
  service_ok 3 (core_of (run_results sample_config [sample_result 2 1300; sample_result 7 1360] (sample_world false))).
Proof.
  apply (service_invariant sample_config); [cbn; lia|].
  split; vm_compute; try done; split; done.
Defined.

(** C10: while its host is up, a service goes through the phases of a simple
    machine ([phase_step]): a problem is soft and counted until it was seen
    [max_check_attempts] times in a row, hard from then on, and a recovery from a
    soft problem is soft unless it was the last attempt but one.  The notification
    of a problem is asked for exactly once per result that leaves the problem
    hard. *)
Theorem service_follows_phases c obs T p w :
  1 ≤ c.(max_check_attempts) → timely T obs → Forall (λ ob, usable c ob.(ob_result)) obs →
  at_phase c.(max_check_attempts) T p (core_of w) →
  let ss := state_of <$> obs in
  (∃ T', at_phase c.(max_check_attempts) T' (phase_after c.(max_check_attempts) p ss) (core_of (run_results c obs w))) ∧
  problem_calls (run_results c obs w) =
    (problem_calls w + length (filter is_confirmed (phases c.(max_check_attempts) p ss)))%nat.
Proof. intros Hm Ht Hu Hp. exact (run_phases c obs T p w Hm Ht Hu Hp). Qed.

Lemma service_follows_phases_witness :
  let obs := [sample_result 2 1300; sample_result 1 1360; sample_result 2 1420; sample_result 0 1720] in
  problem_calls (run_results sample_config obs (sample_world false)) = 1%nat.
Proof.
  destruct (service_follows_phases sample_config
    [sample_result 2 1300; sample_result 1 1360; sample_result 2 1420; sample_result 0 1720] 1000 Fine
    (sample_world false)) as [_ H].
  - cbn. lia.
  - split; repeat constructor; done.
  - repeat constructor.
  - by vm_compute.
  - etransitivity; [exact H|]. vm_compute. reflexivity.
Defined.

(** From a service that is OK, and while its host is up, [n] problems in a row
    leave a soft problem at attempt [n] with nobody notified as long as
    [n < max_check_attempts]; the [max_check_attempts]-th makes the problem hard, and
    a notification is asked for then and at every result after it.  The states may
    differ (warning, critical, unknown). *)
Theorem problem_confirmed_at_max c obs ob T w :
  let all := ob :: obs in
  let n := Z.of_nat (length all) in
  let w' := run_results c all w in
  1 ≤ c.(max_check_attempts) → timely T all → Forall (λ ob, usable c ob.(ob_result)) all →
  at_phase c.(max_check_attempts) T Fine (core_of w) →
  Forall (λ ob, state_of ob ≠ state_ok) all →
  (n < c.(max_check_attempts) →
   is_hard w' = false ∧ attempt w' = n ∧ problem_calls w' = problem_calls w) ∧
  (c.(max_check_attempts) ≤ n →
   is_hard w' = true ∧ attempt w' = c.(max_check_attempts) ∧
   Z.of_nat (problem_calls w') = Z.of_nat (problem_calls w) + (n + 1 - c.(max_check_attempts))).
Proof.
  cbv zeta. intros Hm Ht Hu Hp Hs. destruct (run_phases c _ T Fine w Hm Ht Hu Hp) as [[T' Hat] Hask].
  apply Forall_cons in Hs as [Hs1 Hs].
  destruct (phases_problem (max_check_attempts c) (state_of <$> obs) (state_of ob) 1) as [Hph Hcnt]; [lia|by apply Forall_fmap|].
  unfold phase_after in *. cbn [fmap list_fmap foldl phases] in Hat, Hask.
  assert (phase_step (max_check_attempts c) (state_of ob) Fine = phase_of_problem (max_check_attempts c) (state_of ob) 1) as Hst.
  { unfold phase_step. by rewrite (proj2 (Z.eqb_neq _ _) Hs1). }
  rewrite Hst in Hat, Hask. rewrite Hph in Hat. rewrite length_fmap in Hat, Hcnt.
  set (w' := run_results c (ob :: obs) w) in *.
  change (k_asked (core_of w')) with (problem_calls w') in Hask.
  change (k_asked (core_of w)) with (problem_calls w) in Hask.
  assert (is_confirmed (phase_of_problem (max_check_attempts c) (state_of ob) 1) = negb (1 <? max_check_attempts c)) as Hc
    by (unfold phase_of_problem; by destruct (1 <? max_check_attempts c)).
  rewrite filter_cons in Hask. cbn [length]. rewrite Nat2Z.inj_succ.
  unfold phase_of_problem at 1 in Hat.
  split; intros Hn.
  - rewrite (proj2 (Z.ltb_lt _ _)) in Hat by lia. destruct Hat as (_ & _ & _ & _ & _ & Hh & Hatt & _).
    split_and!; [exact Hh|etransitivity; [exact Hatt|lia]|].
    case_decide as Hd; rewrite Hc in Hd; destruct (Z.ltb_spec 1 (max_check_attempts c)); try done; cbn [length] in Hask; lia.
  - rewrite (proj2 (Z.ltb_ge _ _)) in Hat by lia. destruct Hat as (_ & _ & _ & _ & _ & Hh & Hatt & _).
    split_and!; [exact Hh|exact Hatt|].
    case_decide as Hd; rewrite Hc in Hd; destruct (Z.ltb_spec 1 (max_check_attempts c)); try done; cbn [length] in Hask; lia.
Qed.

Lemma problem_confirmed_at_max_witness :
  let w' := run_results sample_config [sample_result 2 1300; sample_result 1 1360; sample_result 2 1420] (sample_world false) in
  is_hard w' = true ∧ attempt w' = 3 ∧ Z.of_nat (problem_calls w') = 0 + 1.
Proof.
  apply (problem_confirmed_at_max sample_config [sample_result 1 1360; sample_result 2 1420] (sample_result 2 1300) 1000
           (sample_world false)).
  - cbn. lia.
  - split; repeat constructor; done.
  - repeat constructor.
  - by vm_compute.
  - repeat constructor; by vm_compute.
  - cbn. lia.
Defined.

(** A result that asks for rescheduling, of a service that is checked
    regularly and has no check in the queue, puts one check in the queue, at the
    first valid time after the retry interval when the service has a soft problem
    and its host is up, after the check interval otherwise, and not in the past. *)
Theorem next_check_time c e cr w :
  usable c cr = true → cr.(cr_reschedule) = true → c.(check_interval) ≠ 0 → c.(active_checks_enabled) = true →
  (check w).(_queued) = None →
  let w' := (handle_async_check_result c e cr w).2 in
  let interval := if negb (state w' =? state_ok) && host_up w && negb (is_hard w')
                  then c.(retry_interval) * e.(interval_length) else wrap_u32 (c.(check_interval) * e.(interval_length)) in
  let t := c.(next_valid_time) (Z.max (cr.(cr_start_time) + interval) e.(now)) in
  (check w').(_queued) = Some (t, CHECK_OPTION_NONE) ∧ (check w').(_next_check) = t.
Proof.
  intros Hu Hr Hci Hac Hq. cbv zeta. pose proof (usable_taken c e cr w Hu) as Htk.
  pose proof (core_handle c e cr w) as Hk. rewrite Htk in Hk.
  destruct (handle_aux c e cr w Htk) as (qn & Ha & Hqn & _).
  set (w' := (handle_async_check_result c e cr w).2) in *. clearbody w'.
  assert (host_up w = host_up w') as ->.
  { change (k_up (core_of w) = k_up (core_of w')). rewrite Hk. symmetry. apply core_step_state. }
  specialize (Hqn Hr). rewrite Hq in Hqn. unfold recurring in Hqn. rewrite Hac, (proj2 (Z.eqb_neq _ _) Hci) in Hqn.
  specialize (Hqn eq_refl). unfold requeue, next_time in Hqn. cbn [k_state k_up k_hard core_of fst] in Hqn.
  destruct qn as [q nx]. unfold aux_flap in Ha. injection Ha as Hq' Hn' _ _ _ _. injection Hqn as -> ->. done.
Qed.

Lemma next_check_time_witness :
  let w' := (handle_async_check_result sample_config (sample_env 1301) (ob_result (sample_result 2 1300)) (sample_world false)).2 in
  (check w').(_queued) = Some (1360, CHECK_OPTION_NONE).
Proof.
  etransitivity; [apply (next_check_time sample_config (sample_env 1301) (ob_result (sample_result 2 1300)) (sample_world false));
    (reflexivity || (cbn; lia))|]. vm_compute. reflexivity.
Defined.

(** Once a forced check is asked for at [t], a forced check that runs at [t] at
    the latest stays in the queue, whatever other checks are asked for and whatever
    results come before it runs. *)
Theorem forced_check_kept c t o before after w :
  forced o = true → forced_by t (foldl (perform c) w (before ++ Request t o :: after)).
Proof.
  intros Ho. rewrite foldl_app. cbn [foldl perform]. apply perform_keeps_forced. by apply request_forced.
Qed.

Lemma forced_check_kept_witness :
  forced_by 2000 (foldl (perform sample_config) (sample_world false)
    ([Request 1400 0] ++ Request 2000 1 :: [Request 1500 0; Result (sample_result 2 1300); Request 2500 1])).
Proof. apply forced_check_kept. reflexivity. Defined.

(** The history of states is a ring; when the last 21 results or more are in
    the same state, one the flap detection looks at, and came while the host was
    up, the service is not flapping, however unstable it was before (for a positive
    low threshold). *)
Theorem flapping_ends c obs s w :
  (21 ≤ length obs)%nat → Forall (tracked c) obs → Forall (λ ob, state_of ob = s) obs →
  ring_ok (hist_of w).(_state_history) (hist_of w).(_state_history_index) →
  c.(enable_flap_detection) = true → c.(flap_detection_enabled) = true →
  SFltb (S754_zero false) (threshold c.(low_flap_threshold) c.(low_service_flap_threshold)) = true →
  (notif (run_results c obs w)).(is_flapping) = false.
Proof.
  intros Hlen Ht Hs Hr He1 He2 Hlow.
  destruct (run_history c obs w Ht Hr) as [_ Hc].
  destruct obs as [|ob obs _] using rev_ind; [cbn in Hlen; lia|].
  apply Forall_app in Ht as [Ht Ht1]. apply Forall_cons in Ht1 as [Ht1 _].
  destruct (run_history c obs w Ht Hr) as [Hr' _].
  unfold run_results in *. rewrite foldl_snoc in *.
  destruct (observe_history c ob _ Ht1 Hr') as (_ & _ & Hf). apply Hf; [done..|].
  apply (percent_stable _ s). rewrite Hc.
  assert (state_of <$> obs ++ [ob] = replicate (length (obs ++ [ob])) s) as ->.
  { clear - Hs. induction Hs; cbn; [done|]. by f_equal. }
  pose proof (length_chron _ _ Hr) as Hl.
  rewrite drop_app, drop_ge by lia. rewrite app_nil_l, drop_replicate, Hl. f_equal. lia.
Qed.

Lemma flapping_ends_witness :
  (notif (run_results sample_config (replicate 21 (sample_result 0 1300)) (sample_world true))).(is_flapping) = false.
Proof.
  apply (flapping_ends _ _ state_ok).
  - cbn. lia.
  - repeat constructor.
  - repeat constructor.
  - vm_compute. split; [done|lia].
  - done.
  - done.
  - vm_compute. reflexivity.
Defined.
