(* ===== verification/HostCheck.v ===== *)
(** * The checks of hosts

    [engine/src/host.cc] and [engine/src/checks/checker.cc]: what the result of a check of a
    host does to the host, and to the hosts around it.  A host that does not answer is down,
    or unreachable when none of its parents is up; the hosts that may have changed with it
    are checked again.

    The hosts are in one store, by their names: checks of parents and children change other
    hosts than the one a result is for.  A host is a notifier with the fields of a checkable
    object, as a service is ([ServiceCheck]).  What is asked of other parts is recorded as a
    list of actions, each with its host. *)

From stdpp Require Import functions.
From Stdlib Require Import SpecFloat.
From S2P Require Import Prelude Circular Notifier CheckOutput ServiceCheck.

(** ** State *)

(** [host::host_state] *)
Definition state_up : Z := 0.
Definition state_down : Z := 1.
Definition state_unreachable : Z := 2.

(** [_last_time_up] and its like *)
Record host_times := HostTimes { _last_time_up : Z; _last_time_down : Z; _last_time_unreachable : Z }.

Record host := Host {
  hs_notif : notifier;
  hs_check : checkable;
  hs_track : tracking;
  hs_ids : problem_ids;
  hs_times : host_times;
  hs_hist : history;
  _should_reschedule_current_check : bool;
  _last_state_history_update : Z;
}.

(** What is asked of other parts. *)
Inductive action :=
  | ANotify (type : reason_type)
  | ALog (state : Z) (hard : bool) (attempt : Z)
  | AEventHandler (state : Z) (hard : bool) (attempt : Z)
  | ADeleteAckComments
  | APendingFlex                    (* [check_pending_flex_host_downtime] *)
  | AObsess
  | AServicesUnknown                (* [_switch_all_services_to_unknown] *)
  | AUpdateStatus
  | ABrokerCheck
  | AStart (options : Z) (reschedule : bool) (latency : Z).   (* the command of a check is started *)

Record network := Network {
  nw_hosts : string → host;
  nw_globals : globals;
  next_event_id : Z;
  next_problem_id : Z;
  currently_running_host_checks : Z;
  (** what was asked, oldest first *)
  nw_actions : list (string * action);
}.

(** ** Settings *)

Record hst_config := HstConfig {
  hc_max_check_attempts : Z;
  hc_check_interval : Z;
  hc_retry_interval : Z;
  hc_active_checks_enabled : bool;
  hc_passive_checks_enabled : bool;
  hc_check_freshness : bool;
  hc_freshness_threshold : Z;
  (** [get_check_command_ptr()] is not null *)
  hc_has_command : bool;
  (** [check_command().empty()] *)
  hc_command_empty : bool;
  hc_flap_detection_enabled : bool;
  hc_low_flap_threshold : spec_float;
  hc_high_flap_threshold : spec_float;
  hc_flap_on : Z;
  hc_stalk_on : Z;
  hc_total_services : Z;
  hc_total_service_check_interval : Z;
  (** in the order of the iterators; the pointer may be null *)
  hc_parent_hosts : list (string * bool);
  hc_child_hosts : list (string * bool);
  (** the masters of the dependencies of this host *)
  hc_masters : list string;
  (** [get_next_valid_time] and [check_time_against_period] on the check period *)
  hc_next_valid_time : Z → Z;
  hc_in_check_period : Z → bool;
  (** what the broker modules answer before a check *)
  hc_precheck : neb_result;
}.

Record engine_config := EngineConfig {
  ec_accept_passive_host_checks : bool;
  ec_cached_host_check_horizon : Z;
  ec_enable_predictive_host_dependency_checks : bool;
  ec_log_host_retries : bool;
  ec_low_host_flap_threshold : spec_float;
  ec_high_host_flap_threshold : spec_float;
  ec_enable_flap_detection : bool;
  ec_additional_freshness_latency : Z;
  ec_max_host_check_spread : Z;
  ec_event_start : Z;
  ec_host_down_disable_service_checks : bool;
  ec_soft_state_dependencies : bool;
  ec_check_host_freshness : bool;
  ec_host_check_timeout : Z;
  ec_check_reaper_interval : Z;
}.

(** What a command that was run synchronously gives: whether a module took the check over,
    the exit code and the output, those of a refused or failed command included. *)
Record sync_result := SyncResult { sr_taken_over : bool; sr_exit_code : Z; sr_output : list Z }.

Definition CHECK_OPTION_FRESHNESS_CHECK : Z := 2.
Definition CHECK_OPTION_ORPHAN_CHECK : Z := 4.

Section Checks.
Context (cfg : string → hst_config) (ec : engine_config) (env_of : string → env).
Context (deps : list (dependency string)) (dep_fuel : nat).
Context (exec : string → network → sync_result).

(** ** Access to the store *)

Definition upd (h : string) (f : host → host) (w : network) : network :=
  Network (<[h := f (w.(nw_hosts) h)]> w.(nw_hosts)) w.(nw_globals) w.(next_event_id) w.(next_problem_id)
    w.(currently_running_host_checks) w.(nw_actions).
Definition act (h : string) (a : action) (w : network) : network :=
  Network w.(nw_hosts) w.(nw_globals) w.(next_event_id) w.(next_problem_id)
    w.(currently_running_host_checks) (w.(nw_actions) ++ [(h, a)]).
Definition set_globals (g : globals) (w : network) : network :=
  Network w.(nw_hosts) g w.(next_event_id) w.(next_problem_id) w.(currently_running_host_checks) w.(nw_actions).
Definition set_next_ids (event problem : Z) (w : network) : network :=
  Network w.(nw_hosts) w.(nw_globals) event problem w.(currently_running_host_checks) w.(nw_actions).
Definition set_running (n : Z) (w : network) : network :=
  Network w.(nw_hosts) w.(nw_globals) w.(next_event_id) w.(next_problem_id) n w.(nw_actions).

Definition on_notif (h : string) (f : notifier → notifier) : network → network :=
  upd h (λ x, Host (f x.(hs_notif)) x.(hs_check) x.(hs_track) x.(hs_ids) x.(hs_times) x.(hs_hist)
                x.(_should_reschedule_current_check) x.(_last_state_history_update)).
Definition on_check (h : string) (f : checkable → checkable) : network → network :=
  upd h (λ x, Host x.(hs_notif) (f x.(hs_check)) x.(hs_track) x.(hs_ids) x.(hs_times) x.(hs_hist)
                x.(_should_reschedule_current_check) x.(_last_state_history_update)).
Definition on_track (h : string) (f : tracking → tracking) : network → network :=
  upd h (λ x, Host x.(hs_notif) x.(hs_check) (f x.(hs_track)) x.(hs_ids) x.(hs_times) x.(hs_hist)
                x.(_should_reschedule_current_check) x.(_last_state_history_update)).
Definition on_ids (h : string) (f : problem_ids → problem_ids) : network → network :=
  upd h (λ x, Host x.(hs_notif) x.(hs_check) x.(hs_track) (f x.(hs_ids)) x.(hs_times) x.(hs_hist)
                x.(_should_reschedule_current_check) x.(_last_state_history_update)).
Definition on_times (h : string) (f : host_times → host_times) : network → network :=
  upd h (λ x, Host x.(hs_notif) x.(hs_check) x.(hs_track) x.(hs_ids) (f x.(hs_times)) x.(hs_hist)
                x.(_should_reschedule_current_check) x.(_last_state_history_update)).
Definition on_hist (h : string) (f : history → history) : network → network :=
  upd h (λ x, Host x.(hs_notif) x.(hs_check) x.(hs_track) x.(hs_ids) x.(hs_times) (f x.(hs_hist))
                x.(_should_reschedule_current_check) x.(_last_state_history_update)).
Definition set_should_reschedule (h : string) (b : bool) : network → network :=
  upd h (λ x, Host x.(hs_notif) x.(hs_check) x.(hs_track) x.(hs_ids) x.(hs_times) x.(hs_hist) b x.(_last_state_history_update)).
Definition set_history_update (h : string) (t : Z) : network → network :=
  upd h (λ x, Host x.(hs_notif) x.(hs_check) x.(hs_track) x.(hs_ids) x.(hs_times) x.(hs_hist)
                x.(_should_reschedule_current_check) t).

Definition nt (h : string) (w : network) : notifier := (w.(nw_hosts) h).(hs_notif).
Definition ck (h : string) (w : network) : checkable := (w.(nw_hosts) h).(hs_check).
Definition tr (h : string) (w : network) : tracking := (w.(nw_hosts) h).(hs_track).
Definition hstate (h : string) (w : network) : Z := (nt h w).(current_state).
Definition hhard (h : string) (w : network) : bool := (nt h w).(hard).
Definition hattempt (h : string) (w : network) : Z := (tr h w).(_current_attempt).

Definition time_now (h : string) : Z := (env_of h).(now).

(** [notify(type, "", "", notification_option_none)] *)
Definition do_notify (h : string) (type : reason_type) (w : network) : network :=
  let '(_, n, g) := notify (env_of h) type EmptyString EmptyString notification_option_none (nt h w) w.(nw_globals) in
  act h (ANotify type) (set_globals g (on_notif h (λ _, n) w)).

Definition log_event (h : string) (w : network) : network := act h (ALog (hstate h w) (hhard h w) (hattempt h w)) w.
Definition handle_host_event (h : string) (w : network) : network :=
  act h (AEventHandler (hstate h w) (hhard h w) (hattempt h w)) w.

(** ** Attempts and reachability *)

Definition adjust_check_attempt (is_active : bool) (h : string) (w : network) : network :=
  if hhard h w then on_track h (set_current_attempt 1) w
  else if is_active && (hstate h w =? state_up) then on_track h (set_current_attempt 1) w
  else if hattempt h w <? (cfg h).(hc_max_check_attempts) then on_track h (set_current_attempt (hattempt h w + 1)) w
  else w.

Definition determine_host_reachability (h : string) (new_state : Z) (w : network) : Z :=
  if new_state =? state_up then state_up
  else
    match (cfg h).(hc_parent_hosts) with
    | [] => state_down
    | parents =>
        if existsb (λ p, p.2 && (hstate p.1 w =? state_up)) parents then state_down else state_unreachable
    end.

(** ** Flapping *)

Definition set_flap (h : string) (allow_flapstart_notification : bool) (w : network) : network :=
  let w := on_hist h (λ k, History k.(_state_history) k.(_state_history_index) k.(_percent_state_change) true) w in
  let w := on_notif h (set_is_flapping true) w in
  if allow_flapstart_notification then do_notify h reason_flappingstart w else w.

Definition clear_flap (h : string) (w : network) : network :=
  let w := on_hist h (λ k, History k.(_state_history) k.(_state_history_index) k.(_percent_state_change) false) w in
  let w := on_notif h (set_is_flapping false) w in
  let w := do_notify h reason_flappingstop w in
  do_notify h reason_recovery w.

(** How long the history waits for a state that did not come from a check. *)
Definition wait_threshold (h : string) (w : network) : Z :=
  if (cfg h).(hc_total_services) =? 0
  then wrap_u32 ((nt h w).(_notification_interval) * (env_of h).(interval_length))
  else wrap_u64 ((cfg h).(hc_total_service_check_interval) * (env_of h).(interval_length)) / (cfg h).(hc_total_services).

Definition update_history (update actual_check : bool) (h : string) (w : network) : bool :=
  update && negb (hstate h w =? state_unreachable) &&
  has_flag (cfg h).(hc_flap_on) (state_flag host_notification (hstate h w)) &&
  (actual_check || negb (wrap_u64 (time_now h - (w.(nw_hosts) h).(_last_state_history_update)) <? wait_threshold h w)).

Definition check_for_flapping (update actual_check allow : bool) (h : string) (w : network) : network :=
  let low := threshold (cfg h).(hc_low_flap_threshold) ec.(ec_low_host_flap_threshold) in
  let high := threshold (cfg h).(hc_high_flap_threshold) ec.(ec_high_host_flap_threshold) in
  let w := if update_history update actual_check h w
           then on_hist h (record_state (hstate h w)) (set_history_update h (time_now h) w) else w in
  let pct := percent_state_change (w.(nw_hosts) h).(hs_hist) in
  let w := on_hist h (λ k, History k.(_state_history) k.(_state_history_index) pct k.(_flapping_comment)) w in
  if negb ec.(ec_enable_flap_detection) then w
  else if negb (cfg h).(hc_flap_detection_enabled) then w
  else if SFltb low pct && SFltb pct high then w
  else
    let flapping :=
      if SFleb pct low then false
      else if SFleb high pct then negb (hstate h w =? state_up) || (nt h w).(is_flapping)
      else false in
    if flapping && negb (nt h w).(is_flapping) then set_flap h allow w
    else if negb flapping && (nt h w).(is_flapping) then clear_flap h w
    else w.

(** [handle_flap_detection_disabled] *)
Definition handle_flap_detection_disabled (h : string) (w : network) : network :=
  let w :=
    if (nt h w).(is_flapping) then
      let w := on_notif h (set_is_flapping false) w in
      let w := on_hist h (λ k, History k.(_state_history) k.(_state_history_index) k.(_percent_state_change) false) w in
      do_notify h reason_recovery (do_notify h reason_flappingdisabled w)
    else w in
  act h AUpdateStatus w.

(** ** Scheduling *)

(** [schedule_check]; the result says whether the status was sent. *)
Definition schedule_check (check_time options : Z) (no_update_status_now : bool) (h : string) (w : network) : bool * network :=
  let forced o := has_flag o CHECK_OPTION_FORCE_EXECUTION in
  if negb (cfg h).(hc_active_checks_enabled) && negb (forced options) then (false, w)
  else
    let use_original :=
      match (ck h w).(_queued) with
      | None => None
      | Some (run_time, o) =>
          if forced o then
            if forced options && (check_time <? run_time) then None else Some run_time
          else if forced options then None
          else if check_time <? run_time then None else Some run_time
      end in
    let w :=
      match use_original with
      | Some run_time => on_check h (λ k, set_check_options options (set_next_check run_time k)) w
      | None =>
          on_check h (λ k, set_queued (Some (check_time, options)) (set_next_check check_time (set_check_options options k))) w
      end in
    if no_update_status_now then (false, w) else (true, act h AUpdateStatus w).

(** [is_result_fresh] *)
Definition is_result_fresh (h : string) (w : network) : bool :=
  let c := cfg h in
  let threshold :=
    if c.(hc_freshness_threshold) =? 0 then
      (if hhard h w || (hstate h w =? state_up) then c.(hc_check_interval) else c.(hc_retry_interval)) * (env_of h).(interval_length)
      + (ck h w).(_latency) + ec.(ec_additional_freshness_latency)
    else c.(hc_freshness_threshold) in
  let expiration_time :=
    if negb (ck h w).(_has_been_checked) then ec.(ec_event_start) + threshold
    else if c.(hc_active_checks_enabled) && ((ck h w).(_last_check) <? ec.(ec_event_start)) && (c.(hc_freshness_threshold) =? 0)
    then ec.(ec_event_start) + threshold + wrap_u32 (ec.(ec_max_host_check_spread) * (env_of h).(interval_length))
    else (ck h w).(_last_check) + threshold in
  negb (expiration_time <? time_now h).

(** [check_result_freshness], over the hosts in the order of their map *)
Definition freshen (h : string) (w : network) : network :=
  if negb (cfg h).(hc_check_freshness) then w
  else if negb (cfg h).(hc_active_checks_enabled) && negb (cfg h).(hc_passive_checks_enabled) then w
  else if (ck h w).(_is_executing) then w
  else if (ck h w).(_is_being_freshened) then w
  else if negb ((cfg h).(hc_in_check_period) (time_now h)) then w
  else if is_result_fresh h w then w
  else
    (schedule_check (time_now h) (Z.lor CHECK_OPTION_FORCE_EXECUTION CHECK_OPTION_FRESHNESS_CHECK) false h
       (on_check h (set_is_being_freshened true) w)).2.
Definition check_result_freshness (hosts : list string) (w : network) : network :=
  if negb ec.(ec_check_host_freshness) then w else foldl (λ w h, freshen h w) w hosts.

(** [check_for_orphaned] *)
Definition rescue_orphan (h : string) (w : network) : network :=
  if (ck h w).(_next_check) =? 0 then w
  else if negb (ck h w).(_is_executing) then w
  else if (ck h w).(_next_check) + (ck h w).(_latency) + ec.(ec_host_check_timeout) + ec.(ec_check_reaper_interval) + 600 <? time_now h then
    let w := if 0 <? w.(currently_running_host_checks) then set_running (w.(currently_running_host_checks) - 1) w else w in
    (schedule_check (time_now h) CHECK_OPTION_ORPHAN_CHECK false h (on_check h (set_is_executing false) w)).2
  else w.
Definition check_for_orphaned (hosts : list string) (w : network) : network := foldl (λ w h, rescue_orphan h w) w hosts.

(** ** Running checks *)

Definition view_of (w : network) (h : string) : object_view :=
  ObjectView (negb (hhard h w)) (tr h w).(_last_hard_state) (hstate h w) (ck h w).(_has_been_checked).

(** [verify_check_viability]: whether the check is viable, whether the time is a valid one,
    and when to try again. *)
Definition verify_check_viability (options : Z) (h : string) (w : network) : res (bool * bool * Z) :=
  let c := cfg h in
  let interval :=
    wrap_i32 ((if negb (hhard h w) && negb (hstate h w =? state_up) then c.(hc_retry_interval) * (env_of h).(interval_length)
               else wrap_u32 (c.(hc_check_interval) * (env_of h).(interval_length)))) in
  let interval := if interval <=? 0 then 300 else interval in
  let t := time_now h in
  if has_flag options CHECK_OPTION_FORCE_EXECUTION then Ret (true, true, t)
  else
    let '(perform, preferred) := if negb c.(hc_active_checks_enabled) then (false, t + interval) else (true, t) in
    let '(perform, valid, preferred) :=
      if negb (c.(hc_in_check_period) t) then (false, false, t) else (perform, true, preferred) in
    let! authorized :=
      Circular.authorized_by_dependencies deps ec.(ec_soft_state_dependencies) (view_of w) dep_fuel execution_dependency h in
    let '(perform, preferred) := if negb authorized then (false, t + interval) else (perform, preferred) in
    Ret (perform, valid, preferred).

(** [run_async_check]: whether it is [OK], whether the time was a valid one, the preferred time *)
Definition run_async_check (options latency : Z) (scheduled_check reschedule_check : bool) (h : string) (w : network) :
    res (bool * bool * Z * network) :=
  let c := cfg h in
  if negb c.(hc_has_command) then Ret (false, true, 0, w)
  else
    let! v := verify_check_viability options h w in
    let '(viable, valid, preferred) := v in
    if negb viable then Ret (false, valid, preferred, w)
    else
      let w := if reschedule_check then set_should_reschedule h true w else w in
      if (ck h w).(_is_executing) && negb (has_flag options CHECK_OPTION_FORCE_EXECUTION) then Ret (true, valid, preferred, w)
      else
        match c.(hc_precheck) with
        | NEBERROR_CALLBACKCANCEL => Ret (false, valid, preferred, w)
        | NEBERROR_CALLBACKOVERRIDE => Ret (true, valid, preferred, w)
        | NEB_OK =>
            let w := if scheduled_check then on_check h (set_check_options CHECK_OPTION_NONE) w else w in
            let w := adjust_check_attempt true h w in
            let w := if scheduled_check then w else on_check h (set_next_check (time_now h)) w in
            let w := set_running (w.(currently_running_host_checks) + 1) w in
            let w := on_check h (set_is_executing true) w in
            Ret (true, valid, preferred, act h (AStart options reschedule_check latency) w)
        end.

(** [run_scheduled_check]; [true] is [OK] *)
Definition run_scheduled_check (options latency : Z) (h : string) (w : network) : res (bool * network) :=
  let c := cfg h in
  let! r := run_async_check options latency true true h w in
  let '(ok, valid, preferred, w) := r in
  if ok then Ret (true, w)
  else
    let w :=
      if (ck h w).(_should_be_scheduled) then
        let t := time_now h in
        let preferred :=
          if preferred <=? t
          then t + (if c.(hc_check_interval) <=? 0 then 300 else wrap_u32 (c.(hc_check_interval) * (env_of h).(interval_length)))
          else preferred in
        let next_valid_time := c.(hc_next_valid_time) preferred in
        if negb valid && (next_valid_time =? preferred)
        then on_check h (set_next_check (next_valid_time + 60 * 60 * 24 * 7)) w
        else on_check h (λ k, set_should_be_scheduled true (set_next_check next_valid_time k)) w
      else w in
    let w := act h AUpdateStatus w in
    Ret (false, if (ck h w).(_should_be_scheduled) then (schedule_check (ck h w).(_next_check) options false h w).2 else w).

(** ** The state of a host changes *)

Definition record_host_time (st t : Z) (k : host_times) : host_times :=
  if st =? state_up then HostTimes t k.(_last_time_down) k.(_last_time_unreachable)
  else if st =? state_down then HostTimes k.(_last_time_up) t k.(_last_time_unreachable)
  else if st =? state_unreachable then HostTimes k.(_last_time_up) k.(_last_time_down) t
  else k.

(** The ids of the event and of the problem. *)
Definition change_ids (h : string) (w : network) : network :=
  let from_up := (tr h w).(_last_state) =? state_up in
  let to_up := hstate h w =? state_up in
  let event := w.(next_event_id) in
  let problem := w.(next_problem_id) in
  let w := on_ids h (λ i,
    let current := if from_up then problem else i.(_current_problem_id) in
    Problem_ids i.(_current_event_id) event (if to_up then 0 else current) (if to_up then current else i.(_last_problem_id))) w in
  set_next_ids (event + 1) (if from_up then problem + 1 else problem) w.

(** A normal acknowledgement ends with any change, a sticky one with the problem. *)
Definition reset_acknowledgement (h : string) (w : network) : network :=
  match (nt h w).(_acknowledgement_type) with
  | AckNormal => act h ADeleteAckComments (on_notif h (set_acknowledgement AckNone) w)
  | AckSticky => if hstate h w =? state_up then act h ADeleteAckComments (on_notif h (set_acknowledgement AckNone) w) else w
  | AckNone => w
  end.

Definition state_changed (h : string) (w : network) : bool :=
  negb ((tr h w).(_last_state) =? hstate h w) || negb ((tr h w).(_last_hard_state) =? hstate h w) ||
  ((hstate h w =? state_up) && negb (hhard h w)).

(** [handle_state] *)
Definition handle_state (h : string) (w : network) : network :=
  let t := time_now h in
  let st := hstate h w in
  let w := act h AObsess w in
  let w := on_times h (record_host_time st t) w in
  let have_to_change_service_state := ec.(ec_host_down_disable_service_checks) && negb (st =? state_up) && hhard h w in
  if state_changed h w then
    let w := if negb (hhard h w) || negb ((tr h w).(_last_state) =? st) then on_track h (set_last_state_change t) w else w in
    let w := if hhard h w then on_notif h (set_last_hard_state_change t) w else w in
    let w := change_ids h w in
    let w := reset_acknowledgement h w in
    let w := on_notif h (set_last_notification 0) w in
    let w := on_track h (λ k, set_no_more_notifications false (set_next_notification 0 k)) w in
    let w := if hhard h w || ec.(ec_log_host_retries) then log_event h w else w in
    let w := act h APendingFlex w in
    let w := do_notify h (if st =? state_up then reason_recovery else reason_normal) w in
    let w := handle_host_event h w in
    let w := if st =? state_up then on_track h (set_current_attempt 1) w else w in
    if have_to_change_service_state then act h AServicesUnknown w else w
  else
    let w := do_notify h (if st =? state_up then reason_recovery else reason_normal) w in
    if negb (hhard h w) && ec.(ec_log_host_retries) then log_event h w else w.

(** ** The result of a check *)

Definition set_state_of (h : string) (st : Z) : network → network := on_notif h (set_current_state st).
Definition set_type_of (h : string) (hd : bool) : network → network := on_notif h (set_state_type hd).

(** The hosts among [l] whose state satisfies [f]. *)
Definition hosts_in (f : Z → bool) (l : list (string * bool)) (w : network) : list string :=
  (filter (λ p, p.2 && f (hstate p.1 w) = true) l).*1.

Definition not_up (st : Z) : bool := negb (st =? state_up).
Definition is_up (st : Z) : bool := st =? state_up.
Definition not_unreachable (st : Z) : bool := negb (st =? state_unreachable).

(** Where the handler is after it set the state: the store, the hosts to check, whether the
    next check is to be scheduled, and when. *)
Record verdict := Verdict { v_net : network; v_hosts : list string; v_reschedule : bool; v_next : Z }.

(** The serial checks of the parents, until one is up: whether there is a parent, and one
    that is up.  [run] is [run_sync_check_3x]: it is given the state of the last parent, which
    stays when the check cannot be run. *)
Fixpoint check_parents_serially (run : string → Z → network → res (Z * network)) (parents : list (string * bool))
    (parent_state : Z) (has_parent : bool) (w : network) : res (bool * bool * network) :=
  match parents with
  | [] => Ret (has_parent, false, w)
  | (p, false) :: parents => check_parents_serially run parents parent_state has_parent w
  | (p, true) :: parents =>
      let! r := run p parent_state w in
      if r.1 =? state_up then Ret (true, true, r.2) else check_parents_serially run parents r.1 true r.2
  end.

(** The host was up and is not: its only attempt. *)
Definition single_attempt (run : string → Z → network → res (Z * network)) (h : string) (new_state next : Z) (w : network) : res verdict :=
  let w := set_type_of h true w in
  let! w :=
    (if negb (ck h w).(_check_passive) then
       let! r := check_parents_serially run (cfg h).(hc_parent_hosts) state_up false w in
       let '(has_parent, parent_up, w) := r in
       Ret (if parent_up then set_state_of h state_down w
            else if has_parent then w
            else set_state_of h (match (cfg h).(hc_parent_hosts) with [] => state_down | _ => state_unreachable end) w)
     else Ret (set_state_of h (determine_host_reachability h new_state w) w)) in
  Ret (Verdict w (hosts_in not_unreachable (cfg h).(hc_child_hosts) w) true next).

(** The host was up and is not: the first of several attempts. *)
Definition first_attempt (h : string) (new_state retry : Z) (w : network) : verdict :=
  let w := set_type_of h false w in
  let w := set_state_of h (determine_host_reachability h new_state w) w in
  let masters :=
    if ec.(ec_enable_predictive_host_dependency_checks) && (hattempt h w =? (cfg h).(hc_max_check_attempts) - 1)
    then (cfg h).(hc_masters) else [] in
  Verdict w (hosts_in is_up (cfg h).(hc_parent_hosts) w ++ hosts_in not_unreachable (cfg h).(hc_child_hosts) w ++ masters) true retry.

(** The host is still not up. *)
Definition still_down (h : string) (new_state : Z) (resched : bool) (next retry : Z) (w : network) : verdict :=
  let hd := (hattempt h w =? (cfg h).(hc_max_check_attempts)) || (hattempt h w =? 1) in
  let w := set_type_of h hd w in
  let w := set_state_of h (determine_host_reachability h new_state w) w in
  if negb ((tr h w).(_last_state) =? hstate h w) || negb ((tr h w).(_last_hard_state) =? hstate h w)
  then Verdict w [] true (if hd then next else retry)
  else Verdict w [] resched next.

(** The host just recovered. *)
Definition recovery (h : string) (next : Z) (w : network) : verdict :=
  let w := set_state_of h state_up w in
  Verdict w (hosts_in not_up (cfg h).(hc_parent_hosts) w ++ hosts_in not_up (cfg h).(hc_child_hosts) w) true next.

Definition new_verdict (run : string → Z → network → res (Z * network)) (h : string) (new_state : Z) (resched : bool) (w : network) : res verdict :=
  let next := (ck h w).(_last_check) + wrap_u32 ((cfg h).(hc_check_interval) * (env_of h).(interval_length)) in
  let retry := (ck h w).(_last_check) + (cfg h).(hc_retry_interval) * (env_of h).(interval_length) in
  let w := if (ck h w).(_check_passive) then adjust_check_attempt false h w else w in
  if negb (hstate h w =? state_up) then
    Ret (if new_state =? state_up then recovery h next w else still_down h new_state resched next retry w)
  else if new_state =? state_up then Ret (Verdict (set_type_of h true (set_state_of h state_up w)) [] resched next)
  else if (cfg h).(hc_max_check_attempts) =? 1 then single_attempt run h new_state next w
  else Ret (first_attempt h new_state retry w).

(** The next check, and whether the status was sent. *)
Definition reschedule (next : Z) (h : string) (w : network) : bool * network :=
  let t := time_now h in
  let next := (cfg h).(hc_next_valid_time) (if next <? t then t else next) in
  let should :=
    negb (((cfg h).(hc_check_interval) =? 0) && (hhard h w || (hstate h w =? state_up))) && (cfg h).(hc_active_checks_enabled) in
  let w := on_check h (λ k, set_next_check next (set_should_be_scheduled should k)) w in
  if should then schedule_check next CHECK_OPTION_NONE false h w else (false, w).

(** The checks of the other hosts. *)
Fixpoint run_hosts (use_cached : bool) (horizon current_time : Z) (l : list string) (w : network) : res network :=
  match l with
  | [] => Ret w
  | x :: l =>
      if (use_cached && (wrap_u64 (current_time - (ck x w).(_last_check)) <=? horizon)) || (ck x w).(_is_executing)
      then run_hosts use_cached horizon current_time l w
      else
        let! r := run_async_check CHECK_OPTION_NONE 0 false false x w in
        run_hosts use_cached horizon current_time l r.2
  end.

(** The state is stalked, and neither it nor the output changed. *)
Definition stalk (h : string) (old_output : list Z) (w : network) : network :=
  if ((tr h w).(_last_state) =? hstate h w) && bool_decide (old_output = (ck h w).(_plugin_output)) &&
     has_flag (cfg h).(hc_stalk_on) (state_flag host_notification (hstate h w))
  then log_event h w else w.

(** [process_check_result_3x] *)
Definition process_check_result_3x (run : string → Z → network → res (Z * network)) (h : string) (new_state : Z)
    (old_output : list Z) (resched use_cached : bool) (horizon : Z) (w : network) : res network :=
  let! v := new_verdict run h new_state resched w in
  let w := handle_state h v.(v_net) in
  let w := stalk h old_output w in
  let w := check_for_flapping true true true h w in
  let '(sent, w) := if v.(v_reschedule) then reschedule v.(v_next) h w else (false, w) in
  let w := if sent then w else act h AUpdateStatus w in
  run_hosts use_cached horizon (if v.(v_reschedule) then time_now h else 0) v.(v_hosts) w.

(** *** Synchronous checks *)

Definition assumed_up : list Z := text "(Host assumed to be UP)".
Definition no_output : list Z := text "(No output returned from host check)".

(** The texts of an output: [None] when it does not parse, which does not happen. *)
Definition parse_texts (output : list Z) : list Z * list Z * list Z :=
  match parse_check_output output true false with Ret p => p | Throw _ => ([], [], []) end.

(** [checker::_execute_sync] *)
Definition _execute_sync (h : string) (w : network) : Z * network :=
  let r := exec h w in
  if r.(sr_taken_over) then (hstate h w, w)
  else
    let '(short, long, perf) := parse_texts r.(sr_output) in
    let '(short, code) := if (cfg h).(hc_command_empty) then (assumed_up, state_ok) else (short, r.(sr_exit_code)) in
    let short := no_semicolon (match short with [] => no_output | _ => short end) in
    let w := on_check h (λ k, set_plugin_output short (set_long_plugin_output long (set_perf_data perf
                               (set_check_passive false (set_last_check (time_now h) k))))) w in
    (if (code =? state_ok) || (code =? state_warning) then state_up else state_down, w).

(** [checker::run_sync], through [run_sync_check_3x]: the new state of the host, or [state]
    when the check cannot be run. *)
Fixpoint run_sync_check_3x (fuel : nat) (use_cached : bool) (horizon : Z) (options : Z) (h : string) (state : Z) (w : network)
    {struct fuel} : res (Z * network) :=
  match fuel with
  | O => Throw fuel_exhausted
  | S fuel =>
      if negb (cfg h).(hc_has_command) then Ret (state, w)
      else
        let! v := verify_check_viability options h w in
        if negb v.1.1 then Ret (hstate h w, w)
        else if use_cached && negb (has_flag options CHECK_OPTION_FORCE_EXECUTION) && (ck h w).(_has_been_checked) &&
                (wrap_u64 (time_now h - (ck h w).(_last_check)) <=? horizon)
        then Ret (hstate h w, w)
        else
          let w := on_check h (set_latency 0) w in
          let w := adjust_check_attempt true h w in
          let w := on_track h (set_last_state (hstate h w)) w in
          let w := if hhard h w then on_track h (set_last_hard_state (hstate h w)) w else w in
          let old_output := (ck h w).(_plugin_output) in
          let w := on_check h (λ k, set_check_passive false (set_check_options CHECK_OPTION_NONE
                                     (set_is_being_freshened false (set_has_been_checked true k)))) w in
          let w := act h ABrokerCheck w in
          let '(result, w) := _execute_sync h w in
          let! w := process_check_result_3x (run_sync_check_3x fuel use_cached horizon options) h result old_output false use_cached horizon w in
          Ret (hstate h w, act h ABrokerCheck w)
  end.

(** *** Asynchronous results *)

Definition out_of_bounds (code : Z) : list Z :=
  text ("(Return code of " +:+ pretty code +:+ " is out of bounds" +:+
        (if (code =? 126) || (code =? 127) then " - plugin may be missing" else "") +:+ ")").

(** The state of the result and its texts. *)
Definition result_of (h : string) (cr : check_result) : Z * (list Z * list Z * list Z) :=
  let '(short, long, perf) := parse_texts cr.(cr_output) in
  let short := no_semicolon (match short with [] => no_output | _ => short end) in
  if cr.(cr_passive) then (cr.(cr_return_code), (short, long, perf))
  else
    let '(code, texts) :=
      if negb cr.(cr_exited_ok) then (state_unknown, (text "(Host check did not exit properly)", [], []))
      else if (cr.(cr_return_code) <? 0) || (3 <? cr.(cr_return_code))
      then (state_unknown, (out_of_bounds cr.(cr_return_code), [], []))
      else (cr.(cr_return_code), (short, long, perf)) in
    let '(code, texts) := if (cfg h).(hc_command_empty) then (state_ok, (assumed_up, texts.1.2, texts.2)) else (code, texts) in
    (if (code =? state_ok) || (code =? state_warning) then state_up else state_down, texts).

(** The guards: [None] goes on, [Some ok] returns [OK] or [ERROR]. *)
Definition accept_result (cr : check_result) (h : string) (w : network) : option bool * network :=
  let w := if negb cr.(cr_passive) && (0 <? w.(currently_running_host_checks))
           then set_running (w.(currently_running_host_checks) - 1) w else w in
  if cr.(cr_passive) && (negb ec.(ec_accept_passive_host_checks) || negb (cfg h).(hc_passive_checks_enabled))
  then (Some false, w)
  else
    let w := if cr.(cr_freshness) then on_check h (set_is_being_freshened false) w else w in
    if cr.(cr_freshness) && is_result_fresh h w then (Some true, w) else (None, w).

(** The result is stored: whether the next check is to be scheduled, and the old output. *)
Definition record_result (cr : check_result) (h : string) (w : network) : bool * list Z * Z * network :=
  let zero v := if v =? 0 then (ck h w).(_last_check) else v in
  let w := on_track h (λ k, set_last_state_change (zero k.(_last_state_change)) k) w in
  let w := on_notif h (λ n, set_last_hard_state_change (zero n.(last_hard_state_change)) n) w in
  let resched := cr.(cr_reschedule) || (w.(nw_hosts) h).(_should_reschedule_current_check) in
  let w := set_should_reschedule h false w in
  let w := on_check h (λ k, set_check_passive cr.(cr_passive) (set_last_check cr.(cr_start_time)
             (set_is_executing (cr.(cr_passive) && k.(_is_executing)) (set_has_been_checked true (set_latency cr.(cr_latency) k))))) w in
  let w := on_track h (set_last_state (hstate h w)) w in
  let w := if hhard h w then on_track h (set_last_hard_state (hstate h w)) w else w in
  let old_output := (ck h w).(_plugin_output) in
  let '(st, (short, long, perf)) := result_of h cr in
  let w := on_check h (λ k, set_plugin_output short (set_long_plugin_output long (set_perf_data perf k))) w in
  (resched, old_output, st, w).

(** [handle_async_check_result_3x]; [true] is [OK].  [fuel] bounds the serial checks. *)
Definition handle_async_check_result_3x (fuel : nat) (cr : check_result) (h : string) (w : network) : res (bool * network) :=
  match accept_result cr h w with
  | (Some r, w) => Ret (r, w)
  | (None, w) =>
      let '(resched, old_output, st, w) := record_result cr h w in
      let! w := process_check_result_3x (run_sync_check_3x fuel true ec.(ec_cached_host_check_horizon) CHECK_OPTION_NONE) h st old_output
                  resched true ec.(ec_cached_host_check_horizon) w in
      Ret (true, act h ABrokerCheck w)
  end.
End Checks.
