(* ===== verification/HostFacts.v ===== *)
(** * The checks of hosts: theorems

    What decides the state of a host is a small part of it, its core.  The checks of other
    hosts that a result starts change their attempts at most; the serial checks of parents
    end, since no host is its own ancestor. *)

From stdpp Require Import functions relations.
From Stdlib Require Import SpecFloat.
From S2P Require Import Prelude Circular Notifier Notifications CheckOutput ServiceCheck ServiceFacts HostCheck.

(** ** The core of a host *)

Record hcore := HCore {
  c_state : Z;
  c_hard : bool;
  c_attempt : Z;
  c_last : Z;
  c_last_hard : Z;
  c_problem : Z;
}.

Definition hcore_of (x : string) (w : network) : hcore :=
  let y := w.(nw_hosts) x in
  HCore y.(hs_notif).(current_state) y.(hs_notif).(hard) y.(hs_track).(_current_attempt) y.(hs_track).(_last_state)
    y.(hs_track).(_last_hard_state) y.(hs_ids).(_current_problem_id).

Lemma hosts_upd h f w x : (upd h f w).(nw_hosts) x = if decide (x = h) then f (w.(nw_hosts) h) else w.(nw_hosts) x.
Proof.
  unfold upd. cbn. destruct (decide (x = h)) as [->|Hne]; [by rewrite fn_lookup_insert|by rewrite fn_lookup_insert_ne].
Qed.

(** The same cores, and the same next problem. *)
Record quiet (w w' : network) : Prop := {
  q_core x : hcore_of x w' = hcore_of x w;
  q_problem : w'.(HostCheck.next_problem_id) = w.(HostCheck.next_problem_id);
}.

#[export] Instance quiet_preorder : PreOrder quiet.
Proof.
  split; [done|]. intros w1 w2 w3 [A1 A2] [B1 B2]. split; [|congruence]. intros x. by rewrite B1, A1.
Qed.

Create HintDb quiet.

Lemma quiet_upd h f w : hcore_of h (upd h f w) = hcore_of h w → quiet w (upd h f w).
Proof.
  intros Hf. split; [|done]. intros x. destruct (decide (x = h)) as [->|Hne]; [done|].
  unfold hcore_of. by rewrite hosts_upd, decide_False.
Qed.

(** Closes [quiet w (upd h f w)] when [f] keeps the fields of the core. *)
Ltac quiet_upd := apply quiet_upd; unfold hcore_of; rewrite !hosts_upd, !decide_True by done; cbn.

Lemma quiet_act h a w : quiet w (act h a w).
Proof. done. Qed.
Lemma quiet_globals g w : quiet w (set_globals g w).
Proof. done. Qed.
Lemma quiet_running n w : quiet w (set_running n w).
Proof. done. Qed.
Lemma quiet_on_check h f w : quiet w (on_check h f w).
Proof. by quiet_upd. Qed.
Lemma quiet_on_times h f w : quiet w (on_times h f w).
Proof. by quiet_upd. Qed.
Lemma quiet_on_hist h f w : quiet w (on_hist h f w).
Proof. by quiet_upd. Qed.
Lemma quiet_should_reschedule h b w : quiet w (set_should_reschedule h b w).
Proof. by quiet_upd. Qed.
Lemma quiet_history_update h t w : quiet w (set_history_update h t w).
Proof. by quiet_upd. Qed.
Lemma quiet_on_notif h f w : (∀ n, (f n).(current_state) = n.(current_state) ∧ (f n).(hard) = n.(hard)) → quiet w (on_notif h f w).
Proof. intros Hf. quiet_upd. by destruct (Hf (hs_notif (nw_hosts w h))) as [-> ->]. Qed.
Lemma quiet_flapping h b w : quiet w (on_notif h (set_is_flapping b) w).
Proof. by apply quiet_on_notif. Qed.
Lemma quiet_hard_change h t w : quiet w (on_notif h (set_last_hard_state_change t) w).
Proof. by apply quiet_on_notif. Qed.
Lemma quiet_acknowledgement h a w : quiet w (on_notif h (set_acknowledgement a) w).
Proof. by apply quiet_on_notif. Qed.
Lemma quiet_last_notification h t w : quiet w (on_notif h (set_last_notification t) w).
Proof. by apply quiet_on_notif. Qed.
Lemma quiet_state_change h t w : quiet w (on_track h (set_last_state_change t) w).
Proof. by quiet_upd. Qed.

Lemma quiet_notification_times h w : quiet w (on_track h (λ k, set_no_more_notifications false (set_next_notification 0 k)) w).
Proof. by quiet_upd. Qed.

#[export] Hint Resolve quiet_act quiet_globals quiet_running quiet_on_check quiet_on_times quiet_on_hist quiet_should_reschedule
  quiet_history_update quiet_flapping quiet_hard_change quiet_acknowledgement quiet_last_notification quiet_state_change : quiet.

Section Quiet.
Context (cfg : string → hst_config) (ec : engine_config) (env_of : string → env).

Lemma quiet_notify h type w : quiet w (do_notify env_of h type w).
Proof.
  unfold do_notify. destruct (notify _ _ _ _ _ _ _) as [[r n] g] eqn:Hn.
  destruct (notify_keeps _ _ _ _ _ _ _ _ _ _ Hn) as (num & told & la & id & ->).
  etransitivity; [|apply quiet_act]. etransitivity; [|apply quiet_globals]. by quiet_upd.
Qed.
Hint Resolve quiet_notify : quiet.

Lemma quiet_log h w : quiet w (HostCheck.log_event h w).
Proof. apply quiet_act. Qed.
Lemma quiet_event h w : quiet w (handle_host_event h w).
Proof. apply quiet_act. Qed.
Hint Resolve quiet_log quiet_event : quiet.
Lemma quiet_maybe_log (b : bool) h w : quiet w (if b then HostCheck.log_event h w else w).
Proof. by destruct b. Qed.

Lemma quiet_set_flap h b w : quiet w (HostCheck.set_flap env_of h b w).
Proof. unfold HostCheck.set_flap. destruct b; repeat (etransitivity; [|solve [auto with quiet]]); done. Qed.
Lemma quiet_clear_flap h w : quiet w (HostCheck.clear_flap env_of h w).
Proof. unfold HostCheck.clear_flap. repeat (etransitivity; [|solve [auto with quiet]]); done. Qed.
Hint Resolve quiet_set_flap quiet_clear_flap : quiet.

Lemma quiet_check_for_flapping u a al h w : quiet w (HostCheck.check_for_flapping cfg ec env_of u a al h w).
Proof.
  unfold HostCheck.check_for_flapping. set (w1 := if update_history _ _ _ _ _ _ then _ else _).
  assert (quiet w w1) as H1. { unfold w1. destruct (update_history _ _ _ _ _ _); [|done]. etransitivity; [|apply quiet_on_hist]. auto with quiet. }
  etransitivity; [exact H1|]. set (w2 := on_hist _ _ w1). assert (quiet w1 w2) as H2 by apply quiet_on_hist.
  etransitivity; [exact H2|]. repeat case_match; auto with quiet; done.
Qed.

Lemma quiet_schedule_check t o u h w : quiet w (HostCheck.schedule_check cfg t o u h w).2.
Proof.
  unfold HostCheck.schedule_check. destruct (_ && _); [done|]. cbv zeta. set (w1 := match _ with Some _ => _ | None => _ end).
  assert (quiet w w1) by (unfold w1; case_match; apply quiet_on_check). destruct u; [done|]. etransitivity; [done|]. apply quiet_act.
Qed.

Lemma quiet_reschedule next h w : quiet w (HostCheck.reschedule cfg env_of next h w).2.
Proof. unfold HostCheck.reschedule. cbv zeta. case_match; cbn [snd]; [etransitivity; [|apply quiet_schedule_check]|]; apply quiet_on_check. Qed.

Lemma quiet_stalk h o w : quiet w (HostCheck.stalk cfg h o w).
Proof. unfold HostCheck.stalk. case_match; [apply quiet_log|done]. Qed.

Lemma quiet_reset_acknowledgement h w : quiet w (reset_acknowledgement h w).
Proof. unfold reset_acknowledgement. repeat case_match; try done; (etransitivity; [|apply quiet_act]); apply quiet_acknowledgement. Qed.
End Quiet.

(** ** One host changes *)

Record becomes (h : string) (c : hcore) (n : Z) (w w' : network) : Prop := {
  b_core : hcore_of h w' = c;
  b_other x : x ≠ h → hcore_of x w' = hcore_of x w;
  b_problem : w'.(HostCheck.next_problem_id) = n;
}.

Lemma quiet_becomes h c n w w1 w2 w3 : quiet w w1 → becomes h c n w1 w2 → quiet w2 w3 → becomes h c n w w3.
Proof.
  intros [A1 A2] [B1 B2 B3] [D1 D2]. split; [by rewrite D1| |congruence]. intros x Hx. by rewrite D1, B2, A1.
Qed.

Lemma becomes_trans h c c' n n' w w1 w2 : becomes h c n w w1 → becomes h c' n' w1 w2 → becomes h c' n' w w2.
Proof. intros [A1 A2 A3] [B1 B2 B3]. split; [done| |done]. intros x Hx. by rewrite B2, A2. Qed.

Lemma becomes_same h w : becomes h (hcore_of h w) w.(HostCheck.next_problem_id) w w.
Proof. done. Qed.

Lemma upd_becomes h f w : becomes h (hcore_of h (upd h f w)) w.(HostCheck.next_problem_id) w (upd h f w).
Proof. split; [done| |done]. intros x Hx. unfold hcore_of. by rewrite hosts_upd, decide_False. Qed.

Definition with_state (st : Z) (c : hcore) : hcore := HCore st c.(c_hard) c.(c_attempt) c.(c_last) c.(c_last_hard) c.(c_problem).
Definition with_type (hd : bool) (c : hcore) : hcore := HCore c.(c_state) hd c.(c_attempt) c.(c_last) c.(c_last_hard) c.(c_problem).
Definition with_attempt (a : Z) (c : hcore) : hcore := HCore c.(c_state) c.(c_hard) a c.(c_last) c.(c_last_hard) c.(c_problem).

Ltac upd_becomes :=
  match goal with |- becomes ?h _ _ ?w ?w' =>
    replace w.(HostCheck.next_problem_id) with w'.(HostCheck.next_problem_id) by done;
    eapply (λ p, eq_ind _ (λ c, becomes h c _ w w') (upd_becomes h _ w) _ p);
    unfold hcore_of; rewrite !hosts_upd, !decide_True by done; reflexivity
  end.

Lemma core_set_state h st w : becomes h (with_state st (hcore_of h w)) w.(HostCheck.next_problem_id) w (set_state_of h st w).
Proof. upd_becomes. Qed.
Lemma core_set_type h hd w : becomes h (with_type hd (hcore_of h w)) w.(HostCheck.next_problem_id) w (set_type_of h hd w).
Proof. upd_becomes. Qed.
Lemma hcore_set_attempt h a w : becomes h (with_attempt a (hcore_of h w)) w.(HostCheck.next_problem_id) w (on_track h (set_current_attempt a) w).
Proof. upd_becomes. Qed.

(** The attempt of a check that starts. *)
Definition adjusted (max : Z) (is_active : bool) (c : hcore) : hcore :=
  if c.(c_hard) then with_attempt 1 c
  else if is_active && (c.(c_state) =? state_up) then with_attempt 1 c
  else if c.(c_attempt) <? max then with_attempt (c.(c_attempt) + 1) c
  else c.

(** The end of a result: the ids follow the state, a recovery resets the attempts. *)
Definition changed (c : hcore) : bool :=
  negb (c.(c_last) =? c.(c_state)) || negb (c.(c_last_hard) =? c.(c_state)) || ((c.(c_state) =? state_up) && negb c.(c_hard)).
Definition settled (problem : Z) (c : hcore) : hcore :=
  if changed c then
    HCore c.(c_state) c.(c_hard) (if c.(c_state) =? state_up then 1 else c.(c_attempt)) c.(c_last) c.(c_last_hard)
      (if c.(c_state) =? state_up then 0 else if c.(c_last) =? state_up then problem else c.(c_problem))
  else c.
Definition next_problem (problem : Z) (c : hcore) : Z := if changed c && (c.(c_last) =? state_up) then problem + 1 else problem.

Section Cores.
Context (cfg : string → hst_config) (ec : engine_config) (env_of : string → env).

Lemma core_adjust is_active h w :
  becomes h (adjusted (cfg h).(hc_max_check_attempts) is_active (hcore_of h w)) w.(HostCheck.next_problem_id) w (adjust_check_attempt cfg is_active h w).
Proof.
  unfold adjust_check_attempt, adjusted, hhard, hstate, hattempt, nt, tr. cbn [c_hard c_state c_attempt hcore_of].
  repeat case_match; [apply hcore_set_attempt..|apply becomes_same].
Qed.

Lemma hcore_change_ids h w : let c := hcore_of h w in
  becomes h (HCore c.(c_state) c.(c_hard) c.(c_attempt) c.(c_last) c.(c_last_hard)
               (if c.(c_state) =? state_up then 0 else if c.(c_last) =? state_up then w.(HostCheck.next_problem_id) else c.(c_problem)))
    (if c.(c_last) =? state_up then w.(HostCheck.next_problem_id) + 1 else w.(HostCheck.next_problem_id)) w (HostCheck.change_ids h w).
Proof.
  intros c. split.
  - unfold HostCheck.change_ids, on_ids, hcore_of. cbn. by rewrite fn_lookup_insert.
  - intros x Hx. unfold HostCheck.change_ids, on_ids, hcore_of. cbn. by rewrite fn_lookup_insert_ne.
  - done.
Qed.

Lemma core_handle_state h w :
  becomes h (settled w.(HostCheck.next_problem_id) (hcore_of h w)) (next_problem w.(HostCheck.next_problem_id) (hcore_of h w))
    w (handle_state ec env_of h w).
Proof.
  unfold handle_state. cbv zeta. set (w1 := on_times h _ _). assert (quiet w w1) as Hq1 by (etransitivity; [apply quiet_act|apply quiet_on_times]).
  replace (state_changed h w1) with (changed (hcore_of h w)) by (rewrite <- (q_core _ _ Hq1); done).
  replace (hstate h w) with (c_state (hcore_of h w)) by done. unfold settled, next_problem.
  destruct (changed (hcore_of h w)) eqn:Hch; cbn [andb].
  - set (w2 := if _ || _ then _ else w1). assert (quiet w1 w2) as Hq2 by (unfold w2; case_match; [apply quiet_state_change|done]).
    set (w3 := if hhard h w2 then _ else w2). assert (quiet w2 w3) as Hq3 by (unfold w3; case_match; [apply quiet_hard_change|done]).
    assert (quiet w w3) as Hq by (by repeat (etransitivity; [eassumption|])). clear Hq1 Hq2 Hq3.
    pose proof (hcore_change_ids h w3) as Hids. cbv zeta in Hids. rewrite (q_core _ _ Hq), (q_problem _ _ Hq) in Hids.
    set (w4 := HostCheck.change_ids h w3) in *.
    set (w5 := handle_host_event h _). assert (quiet w4 w5) as Hq5.
    { unfold w5. etransitivity; [|apply quiet_event]. etransitivity; [|apply quiet_notify]. etransitivity; [|apply quiet_act].
      etransitivity; [|apply quiet_maybe_log]. etransitivity; [|apply quiet_notification_times]. etransitivity; [|apply quiet_last_notification].
      apply quiet_reset_acknowledgement. }
    assert (∀ w', quiet w' (if ec_host_down_disable_service_checks ec && negb (c_state (hcore_of h w) =? state_up) && hhard h w1
                            then act h AServicesUnknown w' else w')) as Hlast by (intros w'; by destruct (_ && _)).
    destruct (c_state (hcore_of h w) =? state_up).
    + eapply quiet_becomes; [exact Hq| |apply Hlast]. eapply becomes_trans; [eapply quiet_becomes; [reflexivity|exact Hids|exact Hq5]|].
      pose proof (hcore_set_attempt h 1 w5) as Ha. rewrite (q_core _ _ Hq5), (q_problem _ _ Hq5), (b_core _ _ _ _ _ Hids), (b_problem _ _ _ _ _ Hids) in Ha.
      exact Ha.
    + eapply quiet_becomes; [exact Hq| |apply Hlast]. eapply quiet_becomes; [reflexivity|exact Hids|exact Hq5].
  - eapply quiet_becomes; [reflexivity|apply becomes_same|].
    etransitivity; [exact Hq1|]. etransitivity; [|apply quiet_maybe_log]. apply quiet_notify.
Qed.
End Cores.

(** ** Attempts *)

(** Another attempt, in its bounds. *)
Definition nudged (max : Z) (c c' : hcore) : Prop :=
  ∃ a, c' = with_attempt a c ∧ (1 ≤ c.(c_attempt) ≤ max → 1 ≤ a ≤ max).

Lemma with_attempt_same c : with_attempt c.(c_attempt) c = c.
Proof. by destruct c. Qed.

Lemma nudged_refl max c : nudged max c c.
Proof. exists c.(c_attempt). by rewrite with_attempt_same. Qed.

Lemma nudged_trans max c c' c'' : nudged max c c' → nudged max c' c'' → nudged max c c''.
Proof. intros (a & -> & Ha) (b & -> & Hb). exists b. split; [done|]. auto. Qed.

Lemma adjusted_nudged max is_active c : 1 ≤ max → nudged max c (adjusted max is_active c).
Proof.
  intros Hm. unfold adjusted. repeat case_match; [exists 1; split; [done|lia]..| |apply nudged_refl].
  exists (c.(c_attempt) + 1). split; [done|]. lia.
Qed.

Section Async.
Context (cfg : string → hst_config) (ec : engine_config) (env_of : string → env).
Context (deps : list (dependency string)) (dep_fuel : nat).
Context (Hmax : ∀ x, 1 ≤ (cfg x).(hc_max_check_attempts)).

Abbreviation max x := (hc_max_check_attempts (cfg x)).

Record nudge (w w' : network) : Prop := {
  n_core x : nudged (max x) (hcore_of x w) (hcore_of x w');
  n_problem : w'.(HostCheck.next_problem_id) = w.(HostCheck.next_problem_id);
}.

#[local] Instance nudge_preorder : PreOrder nudge.
Proof.
  split; [intros w; split; [intros x; apply nudged_refl|done]|]. intros w1 w2 w3 [A1 A2] [B1 B2].
  split; [|congruence]. intros x. by eapply nudged_trans.
Qed.

Lemma quiet_nudge w w' : quiet w w' → nudge w w'.
Proof. intros [A1 A2]. split; [|done]. intros x. rewrite A1. apply nudged_refl. Qed.

Lemma becomes_nudge h c w w' : becomes h c w.(HostCheck.next_problem_id) w w' → nudged (max h) (hcore_of h w) c → nudge w w'.
Proof.
  intros [B1 B2 B3] Hn. split; [|done]. intros x. destruct (decide (x = h)) as [->|Hne]; [by rewrite B1|]. rewrite B2 by done. apply nudged_refl.
Qed.

Lemma adjust_nudge a h w : nudge w (adjust_check_attempt cfg a h w).
Proof using Hmax. eapply becomes_nudge; [apply core_adjust|]. apply adjusted_nudged, Hmax. Qed.

Context (Hnocirc : ∀ i, ¬ circular deps execution_dependency i).
Context (Hresolved : ∀ d, d ∈ deps → d.(master_ptr) ≠ d.(dependent_ptr)) (Hfuel : (length deps < dep_fuel)%nat).

Lemma viability_ends options h w : ∃ v, verify_check_viability cfg ec env_of deps dep_fuel options h w = Ret v.
Proof using Hnocirc Hresolved Hfuel.
  unfold verify_check_viability. cbv zeta. case_match; [by eauto|].
  destruct (if negb (hc_active_checks_enabled _) then _ else _) as [? ?].
  destruct (if negb (hc_in_check_period _ _) then _ else _) as [[? ?] ?].
  destruct (authorized_ends deps (ec_soft_state_dependencies ec) (view_of w) execution_dependency Hnocirc Hresolved dep_fuel [] h)
    as [authorized ->]; [split; [constructor|]; intros i Hi; by apply not_elem_of_nil in Hi|cbn; lia|].
  destruct (if negb authorized then _ else _) as [? ?]. by eauto.
Qed.

Lemma run_async_nudge options latency scheduled resched h w :
  ∃ r w', run_async_check cfg ec env_of deps dep_fuel options latency scheduled resched h w = Ret (r, w') ∧ nudge w w'.
Proof using Hmax Hnocirc Hresolved Hfuel.
  unfold run_async_check. cbv zeta. case_match; [by eexists _, _|].
  destruct (viability_ends options h w) as [[[viable valid] preferred] ->]. destruct viable; cbn [negb]; [|by eexists _, _].
  set (w1 := if resched then _ else w). assert (nudge w w1) as H1 by (unfold w1; case_match; [apply quiet_nudge, quiet_should_reschedule|done]).
  case_match; [by eexists _, _|]. destruct (hc_precheck (cfg h)); [|by eexists _, _..].
  eexists _, _. split; [done|]. etransitivity; [exact H1|].
  etransitivity; [|apply quiet_nudge, quiet_act]. etransitivity; [|apply quiet_nudge, quiet_on_check]. etransitivity; [|apply quiet_nudge, quiet_running].
  destruct scheduled.
  - etransitivity; [|apply adjust_nudge]. apply quiet_nudge, quiet_on_check.
  - etransitivity; [|apply quiet_nudge, quiet_on_check]. apply adjust_nudge.
Qed.

Lemma run_hosts_nudge use_cached horizon t l : ∀ w, ∃ w', run_hosts cfg ec env_of deps dep_fuel use_cached horizon t l w = Ret w' ∧ nudge w w'.
Proof using Hmax Hnocirc Hresolved Hfuel.
  induction l as [|x l IH]; intros w; [by exists w|]. cbn [run_hosts]. case_match; [apply IH|].
  destruct (run_async_nudge CHECK_OPTION_NONE 0 false false x w) as (r & w1 & -> & H1). cbn [snd].
  destruct (IH w1) as (w' & -> & H2). exists w'. split; [done|]. by etransitivity.
Qed.

Lemma adjust_other is_active h w x : x ≠ h → hcore_of x (adjust_check_attempt cfg is_active h w) = hcore_of x w.
Proof. intros Hx. by apply (b_other _ _ _ _ _ (core_adjust cfg is_active h w)). Qed.

Lemma run_async_other options latency scheduled resched h w r w' x :
  run_async_check cfg ec env_of deps dep_fuel options latency scheduled resched h w = Ret (r, w') → x ≠ h → hcore_of x w' = hcore_of x w.
Proof.
  unfold run_async_check. cbv zeta. intros Hr Hx. case_match; [by simplify_eq|].
  destruct (verify_check_viability _ _ _ _ _ _ _ _) as [[[viable valid] preferred]|]; [|done]. cbn in Hr.
  destruct viable; cbn [negb] in Hr; [|by simplify_eq].
  set (w1 := if resched then _ else w) in Hr. assert (quiet w w1) as H1 by (unfold w1; destruct resched; [apply quiet_should_reschedule|done]).
  clearbody w1. case_match; [simplify_eq; apply H1|]. destruct (hc_precheck (cfg h)); simplify_eq; try apply H1.
  destruct scheduled; repeat (rewrite (q_core _ _ (quiet_act _ _ _)) || rewrite (q_core _ _ (quiet_on_check _ _ _)) ||
    rewrite (q_core _ _ (quiet_running _ _)) || rewrite adjust_other by done); apply H1.
Qed.

Lemma run_hosts_other use_cached horizon t l x : x ∉ l → ∀ w w',
  run_hosts cfg ec env_of deps dep_fuel use_cached horizon t l w = Ret w' → hcore_of x w' = hcore_of x w.
Proof.
  induction l as [|y l IH]; intros Hx w w'; [by intros [= <-]|]. apply not_elem_of_cons in Hx as [Hx Hl]. cbn [run_hosts].
  case_match; [by apply IH|]. destruct (run_async_check _ _ _ _ _ _ _ _ _ _ _) as [[r w1]|] eqn:Hr; [|done]. cbn.
  intros Hw'. rewrite (IH Hl _ _ Hw'). by eapply run_async_other.
Qed.

(** ** The invariant of a host *)

Record core_ok (m : Z) (c : hcore) : Prop := {
  ok_attempt : 1 ≤ c.(c_attempt) ≤ m;
  ok_state : 0 ≤ c.(c_state) ≤ 2;
  ok_problem : c.(c_problem) ≠ 0 ↔ c.(c_state) ≠ state_up;
}.

Definition net_ok (w : network) : Prop := (∀ x, core_ok (max x) (hcore_of x w)) ∧ 0 < w.(HostCheck.next_problem_id).

Lemma nudged_ok m c c' : core_ok m c → nudged m c c' → core_ok m c'.
Proof. intros [A1 A2 A3] (a & -> & Ha). split; cbn; [by apply Ha|done|done]. Qed.

Lemma nudge_ok w w' : net_ok w → nudge w w' → net_ok w'.
Proof. intros [H1 H2] [A1 A2]. split; [|by rewrite A2]. intros x. by eapply nudged_ok. Qed.

(** The end of a result restores the invariant. *)
Lemma settled_ok m np c0 c : core_ok m c0 → 0 < np → c.(c_last) = c0.(c_state) → c.(c_problem) = c0.(c_problem) →
  1 ≤ c.(c_attempt) ≤ m → 0 ≤ c.(c_state) ≤ 2 → core_ok m (settled np c).
Proof.
  intros [A1 A2 A3] Hnp Hl Hp Ha Hs. unfold settled. destruct (changed c) eqn:Hch.
  - split; cbn; [case_match; lia|done|]. rewrite Hl, Hp. unfold state_up in *.
    destruct (Z.eqb_spec (c_state c) 0), (Z.eqb_spec (c_state c0) 0); naive_solver lia.
  - split; [done|done|]. rewrite Hp, A3. unfold changed in Hch. rewrite !orb_false_iff, !negb_false_iff, !Z.eqb_eq in Hch.
    destruct Hch as [[Hch _] _]. by rewrite <- Hl, Hch.
Qed.

(** ** The state a result gives *)

Abbreviation parents h := (hc_parent_hosts (cfg h)).

Definition reach (h : string) (new_state : Z) (w : network) : Z := determine_host_reachability cfg h new_state w.

Lemma reach_bounds h new_state w : 0 ≤ reach h new_state w ≤ 2.
Proof. clear Hfuel. unfold reach, determine_host_reachability. repeat case_match; unfold state_up, state_down, state_unreachable; lia. Qed.

Lemma reach_same h new_state w w' : (∀ x, (x, true) ∈ parents h → c_state (hcore_of x w') = c_state (hcore_of x w)) →
  reach h new_state w' = reach h new_state w.
Proof.
  intros Hsame. unfold reach, determine_host_reachability. case_match; [done|]. destruct (parents h) as [|p ps] eqn:Hps; [done|].
  assert (∀ l, (∀ x, (x, true) ∈ l → c_state (hcore_of x w') = c_state (hcore_of x w)) →
    existsb (λ p, p.2 && (hstate p.1 w' =? state_up)) l = existsb (λ p, p.2 && (hstate p.1 w =? state_up)) l) as Hl.
  { induction l as [|[x b] l IH]; intros Hl; [done|]. cbn [existsb fst snd]. rewrite IH by (intros y Hy; apply Hl; by right).
    destruct b; cbn [andb]; [|done]. specialize (Hl x (list_elem_of_here _ _)). unfold hstate, nt. cbn in Hl. by rewrite Hl. }
  by rewrite Hl.
Qed.

Definition decided (m new_state reached : Z) (c : hcore) : hcore :=
  if negb (c.(c_state) =? state_up) then
    if new_state =? state_up then with_state state_up c
    else with_state reached (with_type ((c.(c_attempt) =? m) || (c.(c_attempt) =? 1)) c)
  else if new_state =? state_up then with_type true (with_state state_up c)
  else with_state reached (with_type (m =? 1) c).

(** The core when the handler starts to decide. *)
Definition started (h : string) (w : network) : hcore :=
  if (ck h w).(_check_passive) then adjusted (max h) false (hcore_of h w) else hcore_of h w.

(** No serial checks: there are several attempts, or the host was not up, or it is up now,
    or the result is passive. *)
Definition no_serial (h : string) (new_state : Z) (w : network) : Prop :=
  max h ≠ 1 ∨ hstate h w ≠ state_up ∨ new_state = state_up ∨ (ck h w).(_check_passive) = true.

Context (Hself : ∀ h, (h, true) ∉ parents h).

Lemma reach_becomes h new_state c n w w' : becomes h c n w w' → reach h new_state w' = reach h new_state w.
Proof using Hself.
  intros [_ Hother _]. apply reach_same. intros x Hx. rewrite Hother; [done|]. intros ->. by apply (Hself h).
Qed.

Lemma ck_becomes h f w : (∀ x, (f x).(hs_check) = x.(hs_check)) → ck h (upd h f w) = ck h w.
Proof. intros Hf. unfold ck. by rewrite hosts_upd, decide_True, Hf. Qed.

Lemma ck_adjust h w : ck h (adjust_check_attempt cfg false h w) = ck h w.
Proof. unfold adjust_check_attempt. repeat case_match; try apply ck_becomes; done. Qed.

Lemma new_verdict_plain run h new_state resched w : no_serial h new_state w →
  ∃ v, new_verdict cfg ec env_of run h new_state resched w = Ret v ∧
    becomes h (decided (max h) new_state (reach h new_state w) (started h w)) w.(HostCheck.next_problem_id) w v.(v_net) ∧
    (v.(v_reschedule) = false → v.(v_hosts) = []).
Proof using Hself.
  intros Hns. unfold new_verdict. cbv zeta. set (w1 := if _check_passive (ck h w) then _ else w).
  assert (becomes h (started h w) w.(HostCheck.next_problem_id) w w1) as Hb1.
  { unfold w1, started. case_match; [apply core_adjust|apply becomes_same]. }
  assert (ck h w1 = ck h w) as Hck by (unfold w1; case_match; [apply ck_adjust|done]).
  set (c := started h w) in *. unfold decided. pose proof (b_core _ _ _ _ _ Hb1) as Hc.
  replace (hstate h w1) with (c_state c) by (rewrite <- Hc; done).
  assert (reach h new_state w1 = reach h new_state w) as Hr1 by (by eapply reach_becomes).
  destruct (Z.eqb_spec (c_state c) state_up) as [Hup|Hup]; cbn [negb].
  - destruct (Z.eqb_spec new_state state_up) as [Hn|Hn].
    + eexists. split; [done|]. split; [|done]. cbn [v_net]. eapply becomes_trans; [exact Hb1|].
      rewrite <- (b_problem _ _ _ _ _ Hb1), <- Hc. eapply becomes_trans; [apply core_set_state|].
      pose proof (core_set_type h true (set_state_of h state_up w1)) as Ht.
      by rewrite (b_core _ _ _ _ _ (core_set_state h state_up w1)) in Ht.
    + assert (∀ hd, becomes h (with_state (reach h new_state w) (with_type hd c)) w.(HostCheck.next_problem_id) w
                 (set_state_of h (reach h new_state (set_type_of h hd w1)) (set_type_of h hd w1))) as Hset.
      { intros hd. pose proof (core_set_type h hd w1) as Ht. rewrite Hc in Ht. rewrite (reach_becomes _ _ _ _ _ _ Ht), Hr1.
        pose proof (core_set_state h (reach h new_state w) (set_type_of h hd w1)) as Hs. rewrite (b_core _ _ _ _ _ Ht) in Hs.
        rewrite (b_problem _ _ _ _ _ Ht), (b_problem _ _ _ _ _ Hb1) in Hs. eapply becomes_trans; [exact Hb1|]. by eapply becomes_trans. }
      destruct (Z.eqb_spec (max h) 1) as [Hm|Hm].
      * assert ((ck h w).(_check_passive) = true) as Hpass.
        { destruct Hns as [?|[?|[?|?]]]; try done. exfalso. unfold hstate, nt in *. unfold c, started in Hup.
          assert (∀ b, c_state (adjusted (max h) b (hcore_of h w)) = c_state (hcore_of h w)) as Hadj.
          { intros b. unfold adjusted. by repeat case_match. }
          destruct (_check_passive (ck h w)); [rewrite Hadj in Hup|]; cbn in Hup; done. }
        unfold single_attempt. cbv zeta. assert (ck h (set_type_of h true w1) = ck h w) as -> by (rewrite <- Hck; by apply ck_becomes).
        rewrite Hpass. cbn [negb]. eexists. split; [done|]. split; [|done]. cbn [v_net]. apply Hset.
      * eexists. split; [done|]. split; [|done]. apply Hset.
  - destruct (Z.eqb_spec new_state state_up) as [Hn|Hn].
    + eexists. split; [done|]. split; [|done]. cbn [v_net]. eapply becomes_trans; [exact Hb1|].
      rewrite <- (b_problem _ _ _ _ _ Hb1), <- Hc. apply core_set_state.
    + eexists. split; [done|]. set (hd := (c_attempt c =? max h) || (c_attempt c =? 1)).
      assert (hattempt h w1 = c_attempt c) as Ha by (rewrite <- Hc; done).
      unfold still_down. rewrite Ha. fold hd. cbv zeta.
      assert (becomes h (with_state (reach h new_state w) (with_type hd c)) w.(HostCheck.next_problem_id) w
                 (set_state_of h (reach h new_state (set_type_of h hd w1)) (set_type_of h hd w1))) as Hset.
      { pose proof (core_set_type h hd w1) as Ht. rewrite Hc in Ht. rewrite (reach_becomes _ _ _ _ _ _ Ht), Hr1.
        pose proof (core_set_state h (reach h new_state w) (set_type_of h hd w1)) as Hs. rewrite (b_core _ _ _ _ _ Ht) in Hs.
        rewrite (b_problem _ _ _ _ _ Ht), (b_problem _ _ _ _ _ Hb1) in Hs. eapply becomes_trans; [exact Hb1|]. by eapply becomes_trans. }
      unfold reach in Hset. case_match; (split; [exact Hset|done]).
Qed.

(** The hosts that a result of [h] may have checked. *)
Definition near (h x : string) : Prop := (x, true) ∈ parents h ∨ (x, true) ∈ (cfg h).(hc_child_hosts) ∨ x ∈ (cfg h).(hc_masters).

Lemma elem_of_hosts_in f l w x : x ∈ hosts_in f l w → (x, true) ∈ l.
Proof.
  unfold hosts_in. intros ([y b] & -> & Hin)%list_elem_of_fmap. apply list_elem_of_filter in Hin as [Hf Hin]. cbn in *.
  by destruct b.
Qed.

Lemma verdict_near run h new_state resched w v x :
  new_verdict cfg ec env_of run h new_state resched w = Ret v → x ∈ v.(v_hosts) → near h x.
Proof.
  unfold new_verdict, near. cbv zeta. generalize (if _check_passive (ck h w) then adjust_check_attempt cfg false h w else w). intros w1 Hv Hx.
  repeat case_match; simplify_eq.
  - unfold recovery in Hx. cbn in Hx. apply elem_of_app in Hx as [Hx%elem_of_hosts_in|Hx%elem_of_hosts_in]; auto.
  - unfold still_down in Hx. cbv zeta in Hx. case_match; cbn in Hx; by apply elem_of_nil in Hx.
  - cbn in Hx. by apply elem_of_nil in Hx.
  - unfold single_attempt in Hv. cbv zeta in Hv. destruct (if negb _ then _ else _) as [w2|]; [|done]. cbn in Hv. simplify_eq.
    cbn in Hx. apply elem_of_hosts_in in Hx. auto.
  - unfold first_attempt in Hx. cbv zeta in Hx. cbn [v_hosts] in Hx. rewrite !elem_of_app in Hx.
    destruct Hx as [Hx%elem_of_hosts_in|[Hx%elem_of_hosts_in|Hx]]; [by auto..|]. case_match; [by auto|by apply elem_of_nil in Hx].
Qed.

(** The rest of the handler: the state settles, then other hosts are checked. *)
Definition finish (h : string) (old_output : list Z) (use_cached : bool) (horizon : Z) (v : verdict) : res network :=
  let w := handle_state ec env_of h v.(v_net) in
  let w := HostCheck.stalk cfg h old_output w in
  let w := HostCheck.check_for_flapping cfg ec env_of true true true h w in
  let '(told, w) := if v.(v_reschedule) then HostCheck.reschedule cfg env_of v.(v_next) h w else (false, w) in
  let w := if told then w else act h AUpdateStatus w in
  run_hosts cfg ec env_of deps dep_fuel use_cached horizon (if v.(v_reschedule) then time_now env_of h else 0) v.(v_hosts) w.

Lemma finish_core h old_output use_cached horizon v :
  let np := v.(v_net).(HostCheck.next_problem_id) in
  let c := hcore_of h v.(v_net) in
  ∃ w1 t, finish h old_output use_cached horizon v = run_hosts cfg ec env_of deps dep_fuel use_cached horizon t v.(v_hosts) w1 ∧
    becomes h (settled np c) (next_problem np c) v.(v_net) w1.
Proof.
  cbv zeta. unfold finish. cbv zeta. pose proof (core_handle_state ec env_of h v.(v_net)) as Hb.
  set (w1 := handle_state ec env_of h (v_net v)) in *.
  set (w2 := HostCheck.check_for_flapping _ _ _ _ _ _ _ _).
  assert (quiet w1 w2) as Hq by (etransitivity; [apply quiet_stalk|apply quiet_check_for_flapping]).
  destruct (if v_reschedule v then _ else _) as [told w3] eqn:Hr.
  assert (quiet w2 w3) as Hq3.
  { destruct (v_reschedule v); [|by simplify_eq]. change w3 with (told, w3).2. rewrite <- Hr. apply quiet_reschedule. }
  set (w4 := if told then w3 else _). assert (quiet w3 w4) as Hq4 by (by unfold w4; destruct told).
  eexists w4, _. split; [done|]. eapply quiet_becomes; [reflexivity|exact Hb|]. by do 2 (etransitivity; [eassumption|]).
Qed.

Lemma process_finish run h new_state old_output resched use_cached horizon w v :
  new_verdict cfg ec env_of run h new_state resched w = Ret v →
  process_check_result_3x cfg ec env_of deps dep_fuel run h new_state old_output resched use_cached horizon w =
    finish h old_output use_cached horizon v.
Proof. intros Hv. unfold process_check_result_3x. by rewrite Hv. Qed.

(** ** A result without serial checks *)

Definition recorded (c : hcore) : hcore :=
  HCore c.(c_state) c.(c_hard) c.(c_attempt) c.(c_state) (if c.(c_hard) then c.(c_state) else c.(c_last_hard)) c.(c_problem).

Lemma core_record_states h w :
  let w1 := on_track h (set_last_state (hstate h w)) w in
  becomes h (recorded (hcore_of h w)) w.(HostCheck.next_problem_id) w
    (if hhard h w1 then on_track h (set_last_hard_state (hstate h w1)) w1 else w1).
Proof.
  cbv zeta. set (w1 := on_track h _ w). assert (hhard h w1 = hhard h w) as -> by (unfold hhard, nt, w1, on_track; by rewrite hosts_upd, decide_True).
  assert (hstate h w1 = hstate h w) as -> by (unfold hstate, nt, w1, on_track; by rewrite hosts_upd, decide_True).
  split; [|intros x Hx; unfold hcore_of; destruct (hhard h w); unfold w1, on_track; by rewrite !hosts_upd, !decide_False by done
    |by destruct (hhard h w)].
  unfold recorded, hcore_of. cbn [c_state c_hard c_attempt c_last c_last_hard c_problem]. unfold hstate, hhard, nt.
  destruct (hard _) eqn:Hh; unfold w1, on_track; rewrite !hosts_upd, !decide_True by done; cbn; by rewrite ?Hh.
Qed.

Lemma hcore_record cr h w :
  let '(resched, old_output, st, w') := record_result cfg cr h w in
  becomes h (recorded (hcore_of h w)) w.(HostCheck.next_problem_id) w w' ∧
  (ck h w').(_check_passive) = cr.(cr_passive) ∧ st = (result_of cfg h cr).1.
Proof.
  unfold record_result. cbv zeta. destruct (result_of cfg h cr) as [st [[short long] perf]]. cbn [fst].
  set (w1 := on_check h _ (set_should_reschedule h false _)).
  assert (quiet w w1) as Hq1.
  { unfold w1. etransitivity; [|apply quiet_on_check]. etransitivity; [|apply quiet_should_reschedule].
    etransitivity; [|by apply quiet_on_notif]. by quiet_upd. }
  pose proof (core_record_states h w1) as Hb. cbv zeta in Hb. rewrite (q_core _ _ Hq1), (q_problem _ _ Hq1) in Hb.
  split_and!; [|..|done]; [by eapply quiet_becomes; [exact Hq1|exact Hb|apply quiet_on_check]|].
  transitivity (_check_passive (ck h w1)); [|unfold w1, ck, on_check; by rewrite hosts_upd, decide_True].
  unfold ck at 1, on_check at 1. rewrite hosts_upd, decide_True by done. cbn [hs_check _check_passive set_plugin_output].
  unfold ck. case_match; unfold on_track; rewrite !hosts_upd, !decide_True by done; done.
Qed.

Lemma quiet_accept cr h w r w' : accept_result cfg ec env_of cr h w = (r, w') → quiet w w'.
Proof.
  unfold HostCheck.accept_result. cbv zeta. set (w1 := if _ && _ then set_running _ _ else w).
  assert (quiet w w1) as Hq by (unfold w1; by case_match). case_match; [by intros [= _ <-]|].
  set (w2 := if cr_freshness cr then _ else w1). assert (quiet w1 w2) by (unfold w2; case_match; [apply quiet_on_check|done]).
  assert (quiet w w2) by (by etransitivity). case_match; by intros [= _ <-].
Qed.

(** The handler takes the result. *)
Definition accepts (cr : check_result) (h : string) (w : network) : Prop := (accept_result cfg ec env_of cr h w).1 = None.

Definition plain (cr : check_result) (h : string) (w : network) : Prop :=
  max h ≠ 1 ∨ hstate h w ≠ state_up ∨ (result_of cfg h cr).1 = state_up ∨ cr.(cr_passive) = true.

(** The core of a host after a result, when no serial check is run. *)
Definition after_result (cr : check_result) (h : string) (w : network) : hcore :=
  let c := recorded (hcore_of h w) in
  let st := (result_of cfg h cr).1 in
  settled w.(HostCheck.next_problem_id)
    (decided (max h) st (reach h st w) (if cr.(cr_passive) then adjusted (max h) false c else c)).

Lemma result_plain exec fuel cr h w : accepts cr h w → plain cr h w →
  ∃ n w1 w', handle_async_check_result_3x cfg ec env_of deps dep_fuel exec fuel cr h w = Ret (true, w') ∧
    becomes h (after_result cr h w) n w w1 ∧ nudge w1 w' ∧ (¬ near h h → hcore_of h w' = after_result cr h w).
Proof using Hmax Hnocirc Hresolved Hfuel Hself.
  unfold accepts, plain, handle_async_check_result_3x. intros Hacc Hpl.
  destruct (accept_result cfg ec env_of cr h w) as [r w0] eqn:Ea. cbn in Hacc. subst r. apply quiet_accept in Ea.
  pose proof (hcore_record cr h w0) as Hrec. destruct (record_result cfg cr h w0) as [[[resched old] st] w2] eqn:Hr.
  destruct Hrec as (Hb & Hp & ->). rewrite (q_core _ _ Ea), (q_problem _ _ Ea) in Hb.
  assert (becomes h (recorded (hcore_of h w)) w.(HostCheck.next_problem_id) w w2) as Hb2 by (by eapply quiet_becomes; [exact Ea|exact Hb|done]).
  destruct (new_verdict_plain (run_sync_check_3x cfg ec env_of deps dep_fuel exec fuel true ec.(ec_cached_host_check_horizon) CHECK_OPTION_NONE)
    h (result_of cfg h cr).1 resched w2) as (v & Hv & Hvb & _).
  { unfold no_serial. rewrite Hp. assert (hstate h w2 = hstate h w) as ->; [|done].
    change (c_state (hcore_of h w2) = c_state (hcore_of h w)). by rewrite (b_core _ _ _ _ _ Hb2). }
  rewrite (process_finish _ _ _ _ _ _ _ _ _ Hv).
  destruct (finish_core h old true ec.(ec_cached_host_check_horizon) v) as (w3 & t & -> & Hw3).
  destruct (run_hosts_nudge true ec.(ec_cached_host_check_horizon) t v.(v_hosts) w3) as (w' & Hrun & Hn). rewrite Hrun.
  assert (hcore_of h (v_net v) = decided (max h) (result_of cfg h cr).1 (reach h (result_of cfg h cr).1 w)
    (if cr.(cr_passive) then adjusted (max h) false (recorded (hcore_of h w)) else recorded (hcore_of h w))) as Hc.
  { rewrite (b_core _ _ _ _ _ Hvb), (reach_becomes _ _ _ _ _ _ Hb2). unfold started. by rewrite Hp, (b_core _ _ _ _ _ Hb2). }
  rewrite Hc, (b_problem _ _ _ _ _ Hvb), (b_problem _ _ _ _ _ Hb2) in Hw3.
  eexists _, w3, (act h ABrokerCheck w'). split_and!; [done| |by etransitivity; [|apply quiet_nudge, quiet_act]|].
  - eapply becomes_trans; [exact Hb2|]. by eapply becomes_trans.
  - intros Hnear. rewrite (q_core _ _ (quiet_act _ _ _)), (run_hosts_other _ _ _ _ _ (λ Hin, Hnear (verdict_near _ _ _ _ _ _ _ Hv Hin)) _ _ Hrun).
    by apply Hw3.
Qed.

Lemma adjusted_state m b c : c_state (adjusted m b c) = c_state c.
Proof. unfold adjusted. by repeat case_match. Qed.

Lemma settled_state np c : c_state (settled np c) = c_state c.
Proof. unfold settled. by case_match. Qed.

Lemma settled_hard np c : c_hard (settled np c) = c_hard c.
Proof. unfold settled. by case_match. Qed.

Lemma decided_state m new_state reached c :
  c_state (decided m new_state reached c) = if new_state =? state_up then state_up else reached.
Proof. unfold decided. by repeat case_match. Qed.

Lemma after_result_state cr h w :
  c_state (after_result cr h w) = if (result_of cfg h cr).1 =? state_up then state_up else reach h (result_of cfg h cr).1 w.
Proof. unfold after_result. by rewrite settled_state, decided_state. Qed.

(** Some parent is up. *)
Definition parent_up (h : string) (w : network) : Prop := ∃ p, (p, true) ∈ parents h ∧ hstate p w = state_up.

Lemma reach_spec h new_state w : new_state ≠ state_up →
  (parents h = [] ∨ parent_up h w) ∧ reach h new_state w = state_down ∨
  ¬ (parents h = [] ∨ parent_up h w) ∧ reach h new_state w = state_unreachable.
Proof.
  intros Hn. unfold reach, determine_host_reachability, parent_up. rewrite (proj2 (Z.eqb_neq _ _) Hn).
  destruct (parents h) as [|p ps] eqn:Hps; [by left; auto|]. rewrite <- Hps. destruct (existsb _ (parents h)) eqn:He.
  - left. split; [right|done]. apply existsb_exists in He as ([x b] & Hin & Hx). apply andb_true_iff in Hx as [Hb Hx]. cbn in *. subst b.
    exists x. split; [by apply list_elem_of_In|by apply Z.eqb_eq].
  - right. split; [|done]. intros [Hnil|(x & Hin & Hx)]; [congruence|]. apply not_true_iff_false in He. apply He, existsb_exists.
    exists (x, true). split; [by apply list_elem_of_In|]. by apply Z.eqb_eq.
Qed.

Lemma nudged_state m c c' : nudged m c c' → c_state c' = c_state c ∧ c_hard c' = c_hard c ∧ c_problem c' = c_problem c.
Proof. by intros (a & -> & _). Qed.

(** The states after a result: the one of [h] is decided, the others stay. *)
Lemma result_states exec fuel cr h w : accepts cr h w → plain cr h w →
  ∃ w', handle_async_check_result_3x cfg ec env_of deps dep_fuel exec fuel cr h w = Ret (true, w') ∧
    hstate h w' = c_state (after_result cr h w) ∧ ∀ x, x ≠ h → hstate x w' = hstate x w ∧ hhard x w' = hhard x w.
Proof using Hmax Hnocirc Hresolved Hfuel Hself.
  intros Ha Hp. destruct (result_plain exec fuel cr h w Ha Hp) as (n & w1 & w' & Hr & Hb & Hn & _). exists w'. split; [done|]. split.
  - change (c_state (hcore_of h w') = c_state (after_result cr h w)). rewrite (proj1 (nudged_state _ _ _ (n_core _ _ Hn h))). by rewrite (b_core _ _ _ _ _ Hb).
  - intros x Hx. destruct (nudged_state _ _ _ (n_core _ _ Hn x)) as (Hs & Hh & _). rewrite (b_other _ _ _ _ _ Hb) in Hs, Hh by done. done.
Qed.

Lemma result_reachability exec fuel cr h w : accepts cr h w → plain cr h w →
  ∃ w', handle_async_check_result_3x cfg ec env_of deps dep_fuel exec fuel cr h w = Ret (true, w') ∧
    let problem := (result_of cfg h cr).1 ≠ state_up in
    let reached := parents h = [] ∨ parent_up h w' in
    (hstate h w' = state_up ↔ ¬ problem) ∧ (hstate h w' = state_down ↔ problem ∧ reached) ∧
    (hstate h w' = state_unreachable ↔ problem ∧ ¬ reached) ∧
    ∀ x, x ≠ h → hstate x w' = hstate x w ∧ hhard x w' = hhard x w.
Proof using Hmax Hnocirc Hresolved Hfuel Hself.
  intros Ha Hp. destruct (result_states exec fuel cr h w Ha Hp) as (w' & Hr & Hs & Ho). exists w'. split; [done|]. cbv zeta.
  rewrite after_result_state in Hs. destruct (Z.eqb_spec (result_of cfg h cr).1 state_up) as [He|He].
  - rewrite Hs, He. unfold state_up, state_down, state_unreachable in *. split_and!; [..|done]; naive_solver.
  - rewrite <- (reach_same h _ w w') in Hs by (intros x Hx; apply Ho; intros ->; by apply (Hself h)).
    destruct (reach_spec h (result_of cfg h cr).1 w' He) as [[Hreach He']|[Hreach He']]; rewrite Hs, He';
      unfold state_up, state_down, state_unreachable in *; split_and!; [..|done| | | |done]; naive_solver.
Qed.

(** ** The phases of a host *)

(** [Recovered] is the recovery of a problem that was not confirmed: UP, but still soft. *)
Inductive hphase := Reached | Recovered | Soft (k : Z) | Confirmed.

Definition at_hphase (m : Z) (p : hphase) (c : hcore) : Prop :=
  match p with
  | Reached => c.(c_state) = state_up ∧ c.(c_hard) = true
  | Recovered => c.(c_state) = state_up ∧ c.(c_hard) = false ∧ c.(c_attempt) = 1
  | Soft k => c.(c_state) ≠ state_up ∧ c.(c_hard) = false ∧ c.(c_attempt) = k ∧ 1 ≤ k ≤ m
  | Confirmed => c.(c_state) ≠ state_up ∧ c.(c_hard) = true
  end.

(** What a result does, passive or not, up or not. *)
Definition hphase_step (m : Z) (p : hphase) (o : bool * bool) : hphase :=
  match p, o with
  | Soft _, (_, true) => Recovered
  | _, (_, true) => Reached
  | Reached, (_, false) => Soft 1
  | Recovered, (passive, false) => Soft (if passive then 2 else 1)
  | Soft k, (_, false) => if m <=? k + 1 then Confirmed else Soft (k + 1)
  | Confirmed, (_, false) => Confirmed
  end.

Lemma after_phase m p (passive : bool) new_state reached np c : 1 < m → at_hphase m p c → (new_state ≠ state_up → reached ≠ state_up) →
  let c0 := if passive then c else adjusted m true c in
  let c1 := recorded c0 in
  at_hphase m (hphase_step m p (passive, new_state =? state_up))
    (settled np (decided m new_state reached (if passive then adjusted m false c1 else c1))).
Proof.
  intros Hm Hp Hr. cbv zeta. destruct c as [st hd at_ la lh pb]. unfold at_hphase in *.
  assert (m ≠ 1) as Hm1 by lia. apply Z.eqb_neq in Hm1.
  destruct p as [| |k|]; cbn in Hp; destruct_and?; subst; destruct (Z.eqb_spec new_state state_up) as [Hn|Hn]; try specialize (Hr Hn);
    unfold state_up in *; destruct passive; cbn [hphase_step];
    try match goal with |- context [m <=? k + 1] => destruct (Z.leb_spec m (k + 1)) end;
    unfold recorded, adjusted; cbn [c_state c_hard c_attempt c_last c_last_hard c_problem with_attempt andb];
    repeat match goal with
    | |- context [?a =? ?b] => destruct (Z.eqb_spec a b)
    | |- context [?a <? ?b] => destruct (Z.ltb_spec a b)
    end; try lia; cbn [andb];
    unfold decided, settled, changed; cbn [c_state c_hard c_attempt c_last c_last_hard c_problem with_attempt with_state with_type];
    repeat (case_match; cbn [c_state c_hard c_attempt c_last c_last_hard c_problem with_attempt with_state with_type] in *);
    unfold state_up in *; rewrite ?negb_true_iff, ?negb_false_iff, ?orb_true_iff, ?orb_false_iff, ?Z.eqb_eq, ?Z.eqb_neq in *;
    naive_solver lia.
Qed.

(** A round: a check that is started and its result, or a passive result alone. *)
Record hround := HRound {
  r_env : string → env;
  r_exec : string → network → sync_result;
  r_options : Z;
  r_latency : Z;
  r_scheduled : bool;
  r_reschedule : bool;
  r_result : check_result;
}.

Definition start_round (h : string) (o : hround) (w : network) : res network :=
  if o.(r_result).(cr_passive) then Ret w
  else
    let! r := run_async_check cfg ec env_of deps dep_fuel o.(r_options) o.(r_latency) o.(r_scheduled) o.(r_reschedule) h w in
    Ret r.2.
Definition round (exec : string → network → sync_result) (fuel : nat) (h : string) (o : hround) (w : network) : res network :=
  let! w := start_round h o w in
  let! r := handle_async_check_result_3x cfg ec env_of deps dep_fuel exec fuel o.(r_result) h w in
  Ret r.2.

(** The command was started, unless the result is passive, and the result is taken. *)
Definition taken_round (h : string) (o : hround) (w : network) : Prop :=
  ∃ w1, start_round h o w = Ret w1 ∧ (o.(r_result).(cr_passive) = false → w1.(nw_actions) ≠ w.(nw_actions)) ∧ accepts o.(r_result) h w1.

Definition round_outcome (h : string) (o : hround) : bool * bool := (o.(r_result).(cr_passive), (result_of cfg h o.(r_result)).1 =? state_up).

Lemma actions_adjust b h w : (adjust_check_attempt cfg b h w).(nw_actions) = w.(nw_actions).
Proof. unfold adjust_check_attempt. by repeat case_match. Qed.

Lemma run_async_core options latency scheduled resched h w r w' :
  run_async_check cfg ec env_of deps dep_fuel options latency scheduled resched h w = Ret (r, w') → w'.(nw_actions) ≠ w.(nw_actions) →
  hcore_of h w' = adjusted (max h) true (hcore_of h w) ∧ ∀ x, x ≠ h → hcore_of x w' = hcore_of x w.
Proof.
  intros Hr Hact. split; [|intros x; by eapply run_async_other]. revert Hr. unfold run_async_check. cbv zeta.
  intros Hr. case_match; [by simplify_eq|].
  destruct (verify_check_viability _ _ _ _ _ _ _ _) as [[[viable valid] preferred]|]; [|done]. cbn in Hr.
  destruct viable; cbn [negb] in Hr; [|by simplify_eq].
  set (w1 := if resched then _ else w) in Hr. assert (quiet w w1) as H1 by (unfold w1; destruct resched; [apply quiet_should_reschedule|done]).
  assert (w1.(nw_actions) = w.(nw_actions)) as Ha by (unfold w1; by destruct resched).
  clearbody w1. case_match; [by simplify_eq|]. destruct (hc_precheck (cfg h)); simplify_eq; [|done..].
  rewrite (q_core _ _ (quiet_act _ _ _)), (q_core _ _ (quiet_on_check _ _ _)), (q_core _ _ (quiet_running _ _)).
  destruct scheduled; rewrite ?(q_core _ _ (quiet_on_check _ _ _)), (b_core _ _ _ _ _ (core_adjust _ _ _ _)), ?(q_core _ _ (quiet_on_check _ _ _));
    by rewrite (q_core _ _ H1).
Qed.

Lemma start_core h o w w1 : start_round h o w = Ret w1 → (o.(r_result).(cr_passive) = false → w1.(nw_actions) ≠ w.(nw_actions)) →
  hcore_of h w1 = if o.(r_result).(cr_passive) then hcore_of h w else adjusted (max h) true (hcore_of h w).
Proof.
  unfold start_round. destruct (cr_passive _); [by intros [= <-]|]. intros Hs Hact.
  destruct (run_async_check _ _ _ _ _ _ _ _ _ _ _) as [[r w2]|] eqn:Hr; [|done]. cbn in Hs. simplify_eq.
  by apply (run_async_core _ _ _ _ _ _ _ _ Hr), Hact.
Qed.

Lemma round_phase exec fuel h o p w : 1 < max h → ¬ near h h → taken_round h o w → at_hphase (max h) p (hcore_of h w) →
  ∃ w', round exec fuel h o w = Ret w' ∧ at_hphase (max h) (hphase_step (max h) p (round_outcome h o)) (hcore_of h w').
Proof using Hmax Hnocirc Hresolved Hfuel Hself.
  intros Hm Hnear (w1 & Hs & Hact & Hacc) Hp. unfold round. rewrite Hs.
  destruct (result_plain exec fuel _ h w1 Hacc) as (n & w2 & w' & -> & _ & _ & Hc); [left; lia|]. exists w'. split; [done|].
  rewrite (Hc Hnear). unfold after_result. rewrite (start_core _ _ _ _ Hs Hact). apply after_phase; [done|done|].
  intros Hn. destruct (reach_spec h _ w1 Hn) as [[_ ->]|[_ ->]]; done.
Qed.

(** ** Serial checks *)

Definition parent_of (h p : string) : Prop := (p, true) ∈ parents h.

(** Only [h] and its ancestors change, but for their attempts. *)
Definition only_above (h : string) (w w' : network) : Prop :=
  ∀ x, ¬ rtc parent_of h x → nudged (max x) (hcore_of x w) (hcore_of x w').

(** What [run_sync_check_3x] does to the store. *)
Definition checks (h : string) (w w' : network) : Prop := net_ok w' ∧ only_above h w w'.

Lemma only_above_trans h w w1 w2 : only_above h w w1 → only_above h w1 w2 → only_above h w w2.
Proof. intros H1 H2 x Hx. eapply nudged_trans; eauto. Qed.

Lemma nudge_above h w w' : nudge w w' → only_above h w w'.
Proof. intros [Hn _] x _. apply Hn. Qed.

Lemma becomes_above h c n w w' : becomes h c n w w' → only_above h w w'.
Proof. intros [_ Ho _] x Hx. rewrite Ho; [apply nudged_refl|]. intros ->. by apply Hx. Qed.

Lemma parent_above h p w w' : parent_of h p → only_above p w w' → only_above h w w'.
Proof. intros Hp Ho x Hx. apply Ho. intros Hr. apply Hx. by eapply rtc_l. Qed.

Lemma parent_not_above h p w w' : ¬ tc parent_of h h → parent_of h p → only_above p w w' → nudged (max h) (hcore_of h w) (hcore_of h w').
Proof. intros Hac Hp Ho. apply Ho. intros Hr. apply Hac. by eapply tc_rtc_r; [apply tc_once|]. Qed.

Lemma set_type_ok h hd w : net_ok w → net_ok (set_type_of h hd w).
Proof.
  intros [Hok Hnp]. split; [|done]. intros x. destruct (decide (x = h)) as [->|Hne].
  - rewrite (b_core _ _ _ _ _ (core_set_type h hd w)). by destruct (Hok h).
  - by rewrite (b_other _ _ _ _ _ (core_set_type h hd w)).
Qed.

Section Serial.
Context (run : string → Z → network → res (Z * network)) (h : string) (Hac : ¬ tc parent_of h h).
Context (Hrun : ∀ p s w, parent_of h p → net_ok w → ∃ s' w', run p s w = Ret (s', w') ∧ checks p w w').

Lemma serially_ends l : (∀ p, (p, true) ∈ l → parent_of h p) → ∀ s hp w, net_ok w →
  ∃ r w', check_parents_serially run l s hp w = Ret (r, w') ∧ checks h w w' ∧ nudged (max h) (hcore_of h w) (hcore_of h w').
Proof using Hac Hrun.
  induction l as [|[p b] l IH]; intros Hl s hp w Hok.
  - eexists _, w. split; [done|]. split; [|apply nudged_refl]. split; [done|]. apply nudge_above. reflexivity.
  - assert (∀ q, (q, true) ∈ l → parent_of h q) as Hl' by (intros q Hq; apply Hl; by right). destruct b; cbn [check_parents_serially]; [|by apply IH].
    assert (parent_of h p) as Hp by (apply Hl; left). destruct (Hrun p s w Hp Hok) as (s' & w1 & -> & Hok1 & Ho1). cbn [fst snd].
    assert (checks h w w1 ∧ nudged (max h) (hcore_of h w) (hcore_of h w1)) as [Hc Hn].
    { split; [split; [done|by eapply parent_above]|by eapply parent_not_above]. }
    destruct (s' =? state_up); [by eexists _, w1|]. destruct (IH Hl' s' true w1 Hok1) as (r & w' & -> & [Hok' Ho'] & Hn').
    exists r, w'. split; [done|]. split; [split; [done|]|by eapply nudged_trans]. eapply only_above_trans; [apply Hc|done].
Qed.

(** What the verdict leaves: all is well but the problem id of [h], which is the one its last
    state had. *)
Record judged (w w' : network) : Prop := {
  j_other x : x ≠ h → core_ok (max x) (hcore_of x w');
  j_problem : 0 < w'.(HostCheck.next_problem_id);
  j_last : c_last (hcore_of h w') = c_last (hcore_of h w);
  j_id : c_problem (hcore_of h w') = c_problem (hcore_of h w);
  j_attempt : 1 ≤ c_attempt (hcore_of h w') ≤ max h;
  j_state : 0 ≤ c_state (hcore_of h w') ≤ 2;
  j_above : only_above h w w';
}.

Lemma judged_becomes c n w w1 w' : net_ok w1 → only_above h w w1 → nudged (max h) (hcore_of h w) (hcore_of h w1) →
  becomes h c n w1 w' → 0 < n → c_last c = c_last (hcore_of h w1) → c_problem c = c_problem (hcore_of h w1) →
  1 ≤ c_attempt c ≤ max h → 0 ≤ c_state c ≤ 2 → judged w w'.
Proof.
  intros [Hok _] Ho (a & Ha & _) Hb Hn Hl Hp Hat Hst. pose proof (b_core _ _ _ _ _ Hb) as Hc.
  split; rewrite ?Hc, ?Hl, ?Hp, ?Ha; [|by rewrite (b_problem _ _ _ _ _ Hb)|done..|].
  - intros x Hx. by rewrite (b_other _ _ _ _ _ Hb).
  - eapply only_above_trans; [exact Ho|]. by eapply becomes_above.
Qed.

Lemma decided_keeps m new_state reached c : 0 ≤ reached ≤ 2 → let d := decided m new_state reached c in
  c_last d = c_last c ∧ c_problem d = c_problem c ∧ c_attempt d = c_attempt c ∧ 0 ≤ c_state d ≤ 2.
Proof. intros Hr. clear -Hr. cbv zeta. unfold decided, state_up. repeat case_match; cbn; split_and!; try done; lia. Qed.

Lemma plain_judged new_state resched w : net_ok w → no_serial h new_state w →
  ∃ v, new_verdict cfg ec env_of run h new_state resched w = Ret v ∧ judged w v.(v_net).
Proof using Hmax Hself.
  intros Hok Hns. destruct (new_verdict_plain run h new_state resched w Hns) as (v & Hv & Hb & _). exists v. split; [done|].
  destruct (decided_keeps (max h) new_state (reach h new_state w) (started h w) (reach_bounds h new_state w)) as (Hl & Hp & Ha & Hs).
  assert (nudged (max h) (hcore_of h w) (started h w)) as (a & He & Hin).
  { unfold started. case_match; [apply adjusted_nudged, Hmax|apply nudged_refl]. }
  eapply judged_becomes; [exact Hok|intros x _; apply nudged_refl|apply nudged_refl|exact Hb|apply Hok|rewrite Hl, He; done|rewrite Hp, He; done| |done].
  rewrite Ha, He. apply Hin. apply Hok.
Qed.

Lemma single_judged new_state next w : net_ok w → hstate h w = state_up → (ck h w).(_check_passive) = false →
  ∃ v, single_attempt cfg run h new_state next w = Ret v ∧ judged w v.(v_net).
Proof using Hac Hrun.
  intros Hok Hup Hpass. unfold single_attempt. cbv zeta. pose proof (core_set_type h true w) as Ht. set (w1 := set_type_of h true w) in *.
  assert (ck h w1 = ck h w) as -> by (by apply ck_becomes). rewrite Hpass. cbn [negb].
  destruct (serially_ends (parents h) (λ p Hp, Hp) state_up false w1) as ([has_parent up] & w2 & -> & [Hok2 Ho2] & Hn2); [by apply set_type_ok|].
  cbv beta iota. eexists. split; [done|]. cbn [v_net]. destruct Hn2 as (a & Ha & Hin). rewrite (b_core _ _ _ _ _ Ht) in Ha, Hin.
  set (st := if up then state_down else if has_parent then state_up else match parents h with [] => state_down | _ => state_unreachable end).
  match goal with |- judged w ?w' => assert (becomes h (with_state st (hcore_of h w2)) w2.(HostCheck.next_problem_id) w2 w') as Hb end.
  { unfold st. destruct up; [apply core_set_state|]. destruct has_parent; [|apply core_set_state].
    replace (with_state state_up (hcore_of h w2)) with (hcore_of h w2); [apply becomes_same|].
    rewrite Ha. change (c_state (hcore_of h w) = state_up) in Hup. unfold with_state, with_attempt, with_type. cbn [c_state c_hard c_attempt c_last c_last_hard c_problem].
    by rewrite Hup. }
  assert (only_above h w w2) as Ho by (eapply only_above_trans; [by eapply becomes_above|done]).
  split; rewrite ?(b_core _ _ _ _ _ Hb), ?Ha; cbn; [|rewrite (b_problem _ _ _ _ _ Hb); apply Hok2|done|done|apply Hin, Hok| |].
  - intros x Hx. rewrite (b_other _ _ _ _ _ Hb) by done. apply Hok2.
  - clear. unfold st, state_up, state_down, state_unreachable. repeat case_match; lia.
  - eapply only_above_trans; [exact Ho|]. by eapply becomes_above.
Qed.

Lemma verdict_judged new_state resched w : net_ok w → ∃ v, new_verdict cfg ec env_of run h new_state resched w = Ret v ∧ judged w v.(v_net).
Proof using Hmax Hself Hac Hrun.
  intros Hok. destruct (decide (max h = 1)) as [Hm|Hm]; [|by apply plain_judged; [|left]].
  destruct (decide (hstate h w = state_up)) as [Hup|Hup]; [|by apply plain_judged; [|right; left]].
  destruct (decide (new_state = state_up)) as [Hn|Hn]; [by apply plain_judged; [|right; right; left]|].
  destruct ((ck h w).(_check_passive)) eqn:Hp; [by apply plain_judged; [|right; right; right]|].
  unfold new_verdict. rewrite Hp, Hup, Hm, (proj2 (Z.eqb_neq _ _) Hn). cbn [negb Z.eqb]. by apply single_judged.
Qed.

Lemma process_checks new_state old_output resched use_cached horizon w :
  net_ok w → c_last (hcore_of h w) = c_state (hcore_of h w) →
  ∃ w', process_check_result_3x cfg ec env_of deps dep_fuel run h new_state old_output resched use_cached horizon w = Ret w' ∧ checks h w w'.
Proof using Hmax Hself Hac Hrun Hnocirc Hresolved Hfuel.
  intros Hok Hl. destruct (verdict_judged new_state resched w Hok) as (v & Hv & Hj). rewrite (process_finish _ _ _ _ _ _ _ _ _ Hv).
  destruct (finish_core h old_output use_cached horizon v) as (w1 & t & -> & Hb).
  destruct (run_hosts_nudge use_cached horizon t v.(v_hosts) w1) as (w' & -> & Hn). exists w'. split; [done|]. split.
  - eapply nudge_ok; [|exact Hn]. split.
    + intros x. destruct (decide (x = h)) as [->|Hne]; [|rewrite (b_other _ _ _ _ _ Hb) by done; by apply Hj].
      rewrite (b_core _ _ _ _ _ Hb). apply (settled_ok _ _ (hcore_of h w)); [apply Hok|apply (j_problem _ _ Hj)|by rewrite (j_last _ _ Hj)|apply (j_id _ _ Hj)|apply (j_attempt _ _ Hj)|apply (j_state _ _ Hj)].
    + rewrite (b_problem _ _ _ _ _ Hb). unfold next_problem. pose proof (j_problem _ _ Hj). case_match; lia.
  - eapply only_above_trans; [apply Hj|]. eapply only_above_trans; [by eapply becomes_above|]. by apply nudge_above.
Qed.
End Serial.

Lemma quiet_ok w w' : net_ok w → quiet w w' → net_ok w'.
Proof using Hmax. intros Hok Hq. by eapply nudge_ok, quiet_nudge. Qed.

Lemma recorded_ok h n w w' : net_ok w → 0 < n → becomes h (recorded (hcore_of h w)) n w w' → net_ok w'.
Proof.
  intros [Hok _] Hn Hb. split; [|by rewrite (b_problem _ _ _ _ _ Hb)]. intros x. destruct (decide (x = h)) as [->|Hne].
  - rewrite (b_core _ _ _ _ _ Hb). by destruct (Hok h).
  - by rewrite (b_other _ _ _ _ _ Hb).
Qed.

Lemma quiet_execute exec h w : quiet w (_execute_sync cfg env_of exec h w).2.
Proof.
  unfold _execute_sync. cbv zeta. case_match; [done|]. destruct (parse_texts _) as [[short long] perf].
  destruct (if hc_command_empty _ then _ else _) as [short' code]. apply quiet_on_check.
Qed.

Lemma checks_refl h w : net_ok w → checks h w w.
Proof. intros Hok. split; [done|]. intros x _. apply nudged_refl. Qed.

Context (hosts : list string) (Hclosed : ∀ h p, h ∈ hosts → parent_of h p → p ∈ hosts).
Context (Hacyclic : ∀ h, ¬ tc parent_of h h).

Lemma sync_checks exec fuel h : h ∈ hosts → (length hosts < fuel)%nat → ∀ use_cached horizon options s w, net_ok w →
  ∃ s' w', run_sync_check_3x cfg ec env_of deps dep_fuel exec fuel use_cached horizon options h s w = Ret (s', w') ∧ checks h w w'.
Proof using Hmax Hself Hnocirc Hresolved Hfuel Hclosed Hacyclic.
  intros Hh Hf. revert fuel h Hh Hf.
  apply (acyclic_depth hosts parent_of (λ fuel h, ∀ use_cached horizon options s w, net_ok w →
    ∃ s' w', run_sync_check_3x cfg ec env_of deps dep_fuel exec fuel use_cached horizon options h s w = Ret (s', w') ∧ checks h w w'));
    [done|by intros x _|].
  intros n h Hh IH use_cached horizon options s w Hok. cbn [run_sync_check_3x].
  case_match; [by exists s, w; split; [|apply checks_refl]|].
  destruct (viability_ends options h w) as [[[viable valid] preferred] ->]. cbn [fst snd].
  destruct viable; cbn [negb]; [|by eexists _, w; split; [|apply checks_refl]].
  case_match; [by eexists _, w; split; [|apply checks_refl]|].
  set (w1 := adjust_check_attempt cfg true h _).
  assert (nudge w w1) as Hn1 by (etransitivity; [apply quiet_nudge, quiet_on_check|apply adjust_nudge]).
  pose proof (core_record_states h w1) as Hb. cbv zeta in Hb |- *. set (w2 := if hhard h _ then _ else _) in *.
  assert (net_ok w1) as Hok1 by (by eapply nudge_ok). assert (net_ok w2) as Hok2 by (eapply recorded_ok; [exact Hok1|apply Hok1|exact Hb]).
  set (w3 := act h ABrokerCheck _). pose proof (quiet_execute exec h w3) as Hq4. destruct (_execute_sync cfg env_of exec h w3) as [result w4].
  cbn [snd] in Hq4. assert (quiet w2 w4) as Hq by (etransitivity; [|exact Hq4]; etransitivity; [apply quiet_on_check|apply quiet_act]).
  edestruct (process_checks (run_sync_check_3x cfg ec env_of deps dep_fuel exec n use_cached horizon options) h) as (w5 & -> & Hok5 & Ho5);
    [by apply Hacyclic|by intros; apply IH|by eapply quiet_ok|rewrite (q_core _ _ Hq), (b_core _ _ _ _ _ Hb); done|].
  eexists _, _. split; [done|]. split; [done|]. eapply only_above_trans; [by apply nudge_above|].
  eapply only_above_trans; [by eapply becomes_above|]. eapply only_above_trans; [by apply nudge_above, quiet_nudge|].
  eapply only_above_trans; [exact Ho5|]. by apply nudge_above, quiet_nudge, quiet_act.
Qed.

Lemma result_checks exec fuel cr h w : h ∈ hosts → (length hosts < fuel)%nat → net_ok w →
  ∃ r w', handle_async_check_result_3x cfg ec env_of deps dep_fuel exec fuel cr h w = Ret (r, w') ∧ checks h w w'.
Proof using Hmax Hself Hnocirc Hresolved Hfuel Hclosed Hacyclic.
  intros Hh Hf Hok. unfold handle_async_check_result_3x. destruct (accept_result cfg ec env_of cr h w) as [r w0] eqn:Ea. apply quiet_accept in Ea.
  assert (net_ok w0) as Hok0 by (by eapply quiet_ok). assert (only_above h w w0) as Ho0 by (by apply nudge_above, quiet_nudge).
  destruct r as [r|]; [by eexists _, w0|].
  pose proof (hcore_record cr h w0) as Hrec. destruct (record_result cfg cr h w0) as [[[resched old] st] w2] eqn:Hr. destruct Hrec as (Hb & _ & _).
  edestruct (process_checks (run_sync_check_3x cfg ec env_of deps dep_fuel exec fuel true ec.(ec_cached_host_check_horizon) CHECK_OPTION_NONE) h)
    as (w5 & -> & Hok5 & Ho5); [by apply Hacyclic|intros; apply sync_checks; [by eapply Hclosed|done..]
    |eapply recorded_ok; [exact Hok0|apply Hok0|exact Hb]|rewrite (b_core _ _ _ _ _ Hb); done|].
  eexists _, _. split; [done|]. split; [done|]. eapply only_above_trans; [exact Ho0|]. eapply only_above_trans; [by eapply becomes_above|exact Ho5].
Qed.

Lemma scheduled_checks options latency h w : net_ok w →
  ∃ r w', run_scheduled_check cfg ec env_of deps dep_fuel options latency h w = Ret (r, w') ∧ nudge w w'.
Proof using Hmax Hnocirc Hresolved Hfuel.
  intros Hok. unfold run_scheduled_check. destruct (run_async_nudge options latency true true h w) as ([[ok valid] preferred] & w1 & -> & Hn).
  destruct ok; [by eexists _, w1|]. eexists _, _. split; [done|]. etransitivity; [exact Hn|]. apply quiet_nudge. cbv zeta.
  set (w2 := act h AUpdateStatus _). assert (quiet w1 w2) as Hq.
  { unfold w2. etransitivity; [|apply quiet_act]. repeat case_match; try apply quiet_on_check; done. }
  case_match; [etransitivity; [exact Hq|apply quiet_schedule_check]|done].
Qed.
End Async.

(** ** Operations on the hosts *)

Inductive host_op :=
  | OScheduled (h : string) (options latency : Z)
  | OAsync (h : string) (options latency : Z) (scheduled reschedule : bool)
  | OSync (h : string) (use_cached : bool) (horizon options state : Z)
  | OResult (h : string) (cr : check_result)
  | OSchedule (h : string) (check_time options : Z) (no_update_status_now : bool)
  | OFreshness
  | OOrphans
  | OFlapDisabled (h : string).

(** An operation, with the time and the settings of the program then, and what the commands
    that are run give. *)
Record host_event := HostEvent { he_env : string → env; he_exec : string → network → sync_result; he_op : host_op }.

Definition op_host (o : host_op) : option string :=
  match o with
  | OScheduled h _ _ | OAsync h _ _ _ _ | OSync h _ _ _ _ | OResult h _ | OSchedule h _ _ _ | OFlapDisabled h => Some h
  | OFreshness | OOrphans => None
  end.

Section Operations.
Context (cfg : string → hst_config) (ec : engine_config) (deps : list (dependency string)) (hosts : list string).

Definition do_op (fuel : nat) (e : host_event) (w : network) : res network :=
  let env_of := e.(he_env) in
  match e.(he_op) with
  | OScheduled h o l => let! r := run_scheduled_check cfg ec env_of deps fuel o l h w in Ret r.2
  | OAsync h o l s b => let! r := run_async_check cfg ec env_of deps fuel o l s b h w in Ret r.2
  | OSync h c z o st => let! r := run_sync_check_3x cfg ec env_of deps fuel e.(he_exec) fuel c z o h st w in Ret r.2
  | OResult h cr => let! r := handle_async_check_result_3x cfg ec env_of deps fuel e.(he_exec) fuel cr h w in Ret r.2
  | OSchedule h t o u => Ret (HostCheck.schedule_check cfg t o u h w).2
  | OFreshness => Ret (check_result_freshness cfg ec env_of hosts w)
  | OOrphans => Ret (check_for_orphaned cfg ec env_of hosts w)
  | OFlapDisabled h => Ret (HostCheck.handle_flap_detection_disabled env_of h w)
  end.

Fixpoint do_ops (fuel : nat) (l : list host_event) (w : network) : res network :=
  match l with
  | [] => Ret w
  | e :: l => let! w := do_op fuel e w in do_ops fuel l w
  end.

(** What the verification of the configuration ensures: a host can be checked once at least,
    no dependency depends on itself, the parents are hosts, and no host is its own
    ancestor. *)
Record well_configured : Prop := {
  wc_max x : 1 ≤ (cfg x).(hc_max_check_attempts);
  wc_dependencies i : ¬ circular deps execution_dependency i;
  wc_masters d : d ∈ deps → d.(master_ptr) ≠ d.(dependent_ptr);
  wc_parents h p : h ∈ hosts → parent_of cfg h p → p ∈ hosts;
  wc_ancestors h : ¬ tc (parent_of cfg) h h;
}.

Lemma wc_self : well_configured → ∀ h, (h, true) ∉ (cfg h).(hc_parent_hosts).
Proof. intros Hwc h Hin. by apply (wc_ancestors Hwc h), tc_once. Qed.

Lemma quiet_foldl (f : string → network → network) : (∀ h w, quiet w (f h w)) → ∀ l w, quiet w (foldl (λ w h, f h w) w l).
Proof. intros Hf l. induction l as [|h l IH]; intros w; [done|]. cbn [foldl]. etransitivity; [apply Hf|apply IH]. Qed.

Lemma quiet_freshen env_of h w : quiet w (freshen cfg ec env_of h w).
Proof. unfold freshen. repeat case_match; try done. etransitivity; [apply quiet_on_check|apply quiet_schedule_check]. Qed.

Lemma quiet_rescue env_of h w : quiet w (rescue_orphan cfg ec env_of h w).
Proof.
  unfold rescue_orphan. cbv zeta. repeat case_match; try done; (etransitivity; [|apply quiet_schedule_check]); (etransitivity; [|apply quiet_on_check]); done.
Qed.

Lemma quiet_flap_disabled env_of h w : quiet w (HostCheck.handle_flap_detection_disabled env_of h w).
Proof.
  unfold HostCheck.handle_flap_detection_disabled. cbv zeta. etransitivity; [|apply quiet_act]. case_match; [|done].
  etransitivity; [|apply quiet_notify]. etransitivity; [|apply quiet_notify]. etransitivity; [apply quiet_flapping|apply quiet_on_hist].
Qed.

Lemma do_op_ok fuel e w : well_configured → (length deps < fuel)%nat → (length hosts < fuel)%nat →
  (∀ h, op_host e.(he_op) = Some h → h ∈ hosts) → net_ok cfg w → ∃ w', do_op fuel e w = Ret w' ∧ net_ok cfg w'.
Proof.
  intros Hwc Hd Hh Hin Hok. pose proof (wc_self Hwc) as Hself. destruct Hwc as [Hmax Hcirc Hmast Hpar Hanc]. unfold do_op. cbv zeta.
  assert (∀ w', quiet w w' → net_ok cfg w') as Hquiet by (intros w'; by apply quiet_ok).
  destruct (he_op e) as [h o l|h o l s b|h c z o st|h cr|h t o u| | |h].
  - destruct (scheduled_checks cfg ec (he_env e) deps fuel Hmax Hcirc Hmast Hd o l h w Hok) as (r & w' & -> & Hn). exists w'. split; [done|]. by eapply nudge_ok.
  - destruct (run_async_nudge cfg ec (he_env e) deps fuel Hmax Hcirc Hmast Hd o l s b h w) as (r & w' & -> & Hn). exists w'. split; [done|]. by eapply nudge_ok.
  - destruct (sync_checks cfg ec (he_env e) deps fuel Hmax Hcirc Hmast Hd Hself hosts Hpar Hanc (he_exec e) fuel h (Hin h eq_refl) Hh c z o st w Hok)
      as (s' & w' & -> & Hw' & _). by exists w'.
  - destruct (result_checks cfg ec (he_env e) deps fuel Hmax Hcirc Hmast Hd Hself hosts Hpar Hanc (he_exec e) fuel cr h w (Hin h eq_refl) Hh Hok)
      as (r & w' & -> & Hw' & _). by exists w'.
  - eexists. split; [done|]. apply Hquiet, quiet_schedule_check.
  - eexists. split; [done|]. apply Hquiet. unfold check_result_freshness. case_match; [done|]. apply quiet_foldl, quiet_freshen.
  - eexists. split; [done|]. apply Hquiet, quiet_foldl, quiet_rescue.
  - eexists. split; [done|]. apply Hquiet, quiet_flap_disabled.
Qed.
End Operations.

(** ** Sequences of rounds *)

Section Rounds.
Context (cfg : string → hst_config) (ec : engine_config) (deps : list (dependency string)) (hosts : list string).
Context (dep_fuel fuel : nat) (h : string).

Inductive rounds : list hround → network → network → Prop :=
  | rounds_nil w : rounds [] w w
  | rounds_cons o l w w1 w' : taken_round cfg ec o.(r_env) deps dep_fuel h o w →
      round cfg ec o.(r_env) deps dep_fuel o.(r_exec) fuel h o w = Ret w1 → rounds l w1 w' → rounds (o :: l) w w'.

Lemma rounds_phase o p w : well_configured cfg deps hosts → (length deps < dep_fuel)%nat → 1 < (cfg h).(hc_max_check_attempts) → ¬ near cfg h h →
  taken_round cfg ec o.(r_env) deps dep_fuel h o w → at_hphase (cfg h).(hc_max_check_attempts) p (hcore_of h w) →
  ∃ w', round cfg ec o.(r_env) deps dep_fuel o.(r_exec) fuel h o w = Ret w' ∧
    at_hphase (cfg h).(hc_max_check_attempts) (hphase_step (cfg h).(hc_max_check_attempts) p (round_outcome cfg h o)) (hcore_of h w').
Proof.
  intros Hwc Hf Hm Hnear Ht Hp. exact (round_phase cfg ec o.(r_env) deps dep_fuel (wc_max _ _ _ Hwc) (wc_dependencies _ _ _ Hwc)
    (wc_masters _ _ _ Hwc) Hf (wc_self _ _ _ Hwc) o.(r_exec) fuel h o p w Hm Hnear Ht Hp).
Qed.

(** A round as a function, to run examples. *)
Definition run_round (o : hround) (w : network) : bool * network :=
  match start_round cfg ec o.(r_env) deps dep_fuel h o w, round cfg ec o.(r_env) deps dep_fuel o.(r_exec) fuel h o w with
  | Ret w1, Ret w' =>
      ((o.(r_result).(cr_passive) || (length w.(nw_actions) <? length w1.(nw_actions))%nat) &&
       match (accept_result cfg ec o.(r_env) o.(r_result) h w1).1 with None => true | Some _ => false end, w')
  | _, _ => (false, w)
  end.

Lemma rounds_step o l w w' : (run_round o w).1 = true → rounds l (run_round o w).2 w' → rounds (o :: l) w w'.
Proof.
  unfold run_round. destruct (start_round _ _ _ _ _ _ _ _) as [w1|] eqn:Hs; [|done].
  destruct (round _ _ _ _ _ _ _ _ _ _) as [w2|] eqn:Hr; [|done]. cbn [fst snd]. intros [Hact Hacc]%andb_true_iff Hl.
  eapply rounds_cons; [|exact Hr|exact Hl]. exists w1. split; [exact Hs|]. split.
  - intros Hp. rewrite Hp in Hact. apply Nat.ltb_lt in Hact. intros He. rewrite He in Hact. lia.
  - unfold accepts. by destruct ((accept_result cfg ec (r_env o) (r_result o) h w1).1).
Qed.

Fixpoint run_rounds (l : list hround) (w : network) : bool * network :=
  match l with
  | [] => (true, w)
  | o :: l => let r := run_round o w in let r' := run_rounds l r.2 in (r.1 && r'.1, r'.2)
  end.

Lemma rounds_run l : ∀ w, (run_rounds l w).1 = true → rounds l w (run_rounds l w).2.
Proof.
  induction l as [|o l IH]; intros w; [intros _; apply rounds_nil|]. cbn [run_rounds]. intros [Ho Hl]%andb_true_iff.
  apply rounds_step; [exact Ho|]. by apply IH.
Qed.
End Rounds.

(** ** A sample network, for the concrete cases *)

(** A gateway, and a server behind it. *)
Definition sample_hosts : list string := ["gw"; "srv"].

Definition sample_host_config (attempts : Z) (parents children : list (string * bool)) : hst_config :=
  HstConfig attempts 5 1 true true true 0 true false true (dint 5) (dint 20) everything 0 0 0 parents children [] id (λ _, true) NEB_OK.

Definition sample_cfg (attempts : Z) (h : string) : hst_config :=
  if bool_decide (h = "srv") then sample_host_config attempts [("gw", true)] [] else sample_host_config 1 [] [("srv", true)].

Definition sample_engine : engine_config :=
  EngineConfig true 15 true true (dint 5) (dint 20) true 15 30 0 false false true 30 5.

(** A host that was checked at 1000, with its state. *)
Definition sample_state (st : Z) : host :=
  Host
    (Notifier host_notification st true false false 0 (HostView true true 0) 1000 true everything 30 0 0 AckNone [] [] [] 0 (λ _, None) 0 0)
    (Checkable 1000 1300 true true false false false [] [] [] 0 0 None)
    (Tracking st st 1 1000 false 0 false) (Problem_ids 0 0 (if st =? state_up then 0 else 1) 0) (HostTimes 1000 0 0)
    (History (replicate 21 st) 0 (S754_zero false) false) false 1000.

(** The gateway is in the state [gw], the server is up. *)
Definition sample_network (gw : Z) : network :=
  Network (λ h, sample_state (if bool_decide (h = "gw") then gw else state_up)) sample_globals 1 2 0 [].

Definition sample_check (code t : Z) : check_result := CheckResult false false true true code t 0 (text "x").
Definition sample_exec : string → network → sync_result := λ _ _, SyncResult false 2 (text "x").
Definition at_time (t : Z) : string → env := λ _, sample_env t.

Definition sample_round (code t : Z) : hround := HRound (at_time t) sample_exec 0 0 true true (sample_check code (t - 1)).

Definition sample_rounds : list hround := [sample_round 2 1300; sample_round 2 1360; sample_round 0 1420].
Definition sample_end : network := (run_rounds (sample_cfg 3) sample_engine [] 1 3 "srv" sample_rounds (sample_network state_up)).2.

Lemma sample_well_configured n : 1 ≤ n → well_configured (sample_cfg n) [] sample_hosts.
Proof.
  intros Hn. split.
  - intros x. unfold sample_cfg. case_match; cbn; lia.
  - intros i (j & _ & d & d' & Hd & _). by rewrite lookup_nil in Hd.
  - intros d Hd. by apply elem_of_nil in Hd.
  - intros h p _ Hp. unfold parent_of, sample_cfg in Hp. case_match; cbn in Hp; [|by apply elem_of_nil in Hp].
    apply list_elem_of_singleton in Hp. simplify_eq. left.
  - intros h Hc. assert (∀ x y, tc (parent_of (sample_cfg n)) x y → x = "srv" ∧ y = "gw") as Hall.
    { intros x y H. induction H as [x y Hp|x y z Hp _ [-> ->]]; unfold parent_of, sample_cfg in Hp; case_bool_decide; cbn in Hp;
        try (by apply elem_of_nil in Hp); apply list_elem_of_singleton in Hp; by simplify_eq. }
    by destruct (Hall _ _ Hc) as [-> ?].
Qed.

Lemma sample_ok n gw : 1 ≤ n → 0 ≤ gw ≤ 2 → net_ok (sample_cfg n) (sample_network gw).
Proof.
  intros Hn Hgw. split; [|done]. intros x.
  assert (∃ st, hcore_of x (sample_network gw) = HCore st true 1 st st (if st =? state_up then 0 else 1) ∧ 0 ≤ st ≤ 2) as (st & -> & Hst).
  { exists (if bool_decide (x = "gw") then gw else state_up). split; [done|]. case_bool_decide; [done|]. unfold state_up. lia. }
  split; cbn; [unfold sample_cfg; case_match; cbn; lia|done|]. destruct (Z.eqb_spec st state_up); naive_solver.
Qed.

(** ** Theorems *)

(** C11: a result that the handler takes, and that does not need its parents to be checked
    first, ends with the host in the state the network makes it have: UP when the result is
    UP; otherwise DOWN when the host has no parents or one of its parents is UP at the end,
    and UNREACHABLE when it has parents and none is UP.  No other host changes its state or
    its state type, whatever checks are started. *)
Theorem reachability_exact cfg ec env_of deps hosts dep_fuel exec fuel cr h w :
  well_configured cfg deps hosts → (length deps < dep_fuel)%nat → accepts cfg ec env_of cr h w → plain cfg cr h w →
  ∃ w', handle_async_check_result_3x cfg ec env_of deps dep_fuel exec fuel cr h w = Ret (true, w') ∧
    let problem := (result_of cfg h cr).1 ≠ state_up in
    let reached := (cfg h).(hc_parent_hosts) = [] ∨ parent_up cfg h w' in
    (hstate h w' = state_up ↔ ¬ problem) ∧ (hstate h w' = state_down ↔ problem ∧ reached) ∧
    (hstate h w' = state_unreachable ↔ problem ∧ ¬ reached) ∧
    ∀ x, x ≠ h → hstate x w' = hstate x w ∧ hhard x w' = hhard x w.
Proof.
  intros Hwc Hf Ha Hp. exact (result_reachability cfg ec env_of deps dep_fuel (wc_max _ _ _ Hwc) (wc_dependencies _ _ _ Hwc)
    (wc_masters _ _ _ Hwc) Hf (wc_self _ _ _ Hwc) exec fuel cr h w Ha Hp).
Qed.

(** The server of the sample is unreachable when its gateway is down. *)
Lemma reachability_exact_witness :
  ∃ w', handle_async_check_result_3x (sample_cfg 3) sample_engine (at_time 1300) [] 1 sample_exec 3 (sample_check 2 1299) "srv"
          (sample_network state_down) = Ret (true, w') ∧ hstate "srv" w' = state_unreachable.
Proof.
  destruct (reachability_exact (sample_cfg 3) sample_engine (at_time 1300) [] sample_hosts 1 sample_exec 3 (sample_check 2 1299) "srv"
    (sample_network state_down)) as (w' & Hr & _ & _ & [_ Hun] & Ho); [by apply sample_well_configured|cbn; lia|by vm_compute|by left|].
  exists w'. split; [exact Hr|]. apply Hun. split; [by vm_compute|]. intros [Hnil|(p & Hp & Hup)]; [done|].
  apply list_elem_of_singleton in Hp. simplify_eq. destruct (Ho "gw") as [Hgw _]; [done|]. by rewrite Hgw in Hup.
Defined.

(** C12: a host with several attempts goes through the phases of a simple machine
    ([hphase_step]), whatever rounds of checks and passive results it gets: a problem is soft
    and counted, confirmed when it is seen at the last attempt, and stays so until the host
    is UP; a problem that goes before it is confirmed leaves the host UP but soft until it
    is UP again.  Each further round ends. *)
Theorem host_follows_phases cfg ec deps hosts dep_fuel fuel h l p w w' :
  well_configured cfg deps hosts → (length deps < dep_fuel)%nat →
  let m := (cfg h).(hc_max_check_attempts) in
  1 < m → ¬ near cfg h h → rounds cfg ec deps dep_fuel fuel h l w w' → at_hphase m p (hcore_of h w) →
  at_hphase m (foldl (hphase_step m) p (round_outcome cfg h <$> l)) (hcore_of h w') ∧
  ∀ o, taken_round cfg ec o.(r_env) deps dep_fuel h o w' → ∃ w'', round cfg ec o.(r_env) deps dep_fuel o.(r_exec) fuel h o w' = Ret w''.
Proof.
  intros Hwc Hf m Hm Hnear Hr. revert p. induction Hr as [w|o l w w1 w' Ht Hw1 Hr IH]; intros p Hp.
  - split; [done|]. intros o Ht. destruct (rounds_phase cfg ec deps hosts dep_fuel fuel h o p w Hwc Hf Hm Hnear Ht Hp) as (w'' & ? & _). by exists w''.
  - destruct (rounds_phase cfg ec deps hosts dep_fuel fuel h o p w Hwc Hf Hm Hnear Ht Hp) as (w2 & Hw2 & Hp2).
    rewrite Hw1 in Hw2. simplify_eq. by apply IH.
Qed.

(** Two problems and a recovery, of a server with three attempts: the problem was soft. *)
Lemma host_follows_phases_witness : c_state (hcore_of "srv" sample_end) = state_up ∧ c_hard (hcore_of "srv" sample_end) = false.
Proof.
  destruct (host_follows_phases (sample_cfg 3) sample_engine [] sample_hosts 1 3 "srv" sample_rounds Reached (sample_network state_up) sample_end)
    as [(Hs & Hh & _) _].
  - by apply sample_well_configured.
  - cbn. lia.
  - by vm_compute.
  - intros [Hx|[Hx|Hx]]; [apply list_elem_of_singleton in Hx; by simplify_eq|by apply elem_of_nil in Hx..].
  - apply rounds_run. vm_compute. reflexivity.
  - by split.
  - exact (conj Hs Hh).
Defined.

(** C13: the operations on the hosts of a configuration that was verified, in any order, with
    results of any kind and whatever the commands give, all end, the serial checks of parents
    included; the attempts of every host stay between 1 and its maximum, its state is one of
    the three, and it has a problem id exactly when it is not UP. *)
Theorem hosts_invariant cfg ec deps hosts fuel l w :
  well_configured cfg deps hosts → (length deps < fuel)%nat → (length hosts < fuel)%nat →
  Forall (λ e, ∀ h, op_host e.(he_op) = Some h → h ∈ hosts) l → net_ok cfg w →
  ∃ w', do_ops cfg ec deps hosts fuel l w = Ret w' ∧ net_ok cfg w'.
Proof.
  intros Hwc Hd Hh Hl. revert w. induction Hl as [|e l He Hl IH]; intros w Hok; [by exists w|]. cbn [do_ops].
  destruct (do_op_ok cfg ec deps hosts fuel e w Hwc Hd Hh He Hok) as (w1 & -> & Hok1). by apply IH.
Qed.

Lemma hosts_invariant_witness :
  ∃ w', do_ops (sample_cfg 1) sample_engine [] sample_hosts 3
          [HostEvent (at_time 1300) sample_exec (OScheduled "srv" 0 0); HostEvent (at_time 1301) sample_exec (OResult "srv" (sample_check 2 1300));
           HostEvent (at_time 1302) sample_exec OFreshness] (sample_network state_up) = Ret w' ∧ net_ok (sample_cfg 1) w'.
Proof.
  apply hosts_invariant; [by apply sample_well_configured|cbn; lia|cbn; lia| |by apply sample_ok].
  repeat (apply Forall_cons_2; [intros h Hh; cbn in Hh; simplify_eq; right; left|]). apply Forall_nil_2.
Defined.

(** The gateway does not answer; the server behind it, which has a single attempt, does not
    answer either: it stays UP. *)
Example single_attempt_stays_up :
  match do_ops (sample_cfg 1) sample_engine [] sample_hosts 3
          [HostEvent (at_time 1300) sample_exec (OScheduled "srv" 0 0); HostEvent (at_time 1301) sample_exec (OResult "srv" (sample_check 2 1300))]
          (sample_network state_down) with
  | Ret w => (hstate "gw" w, hstate "srv" w)
  | Throw _ => (0, 0)
  end = (state_down, state_up).
Proof. vm_compute. reflexivity. Qed.

(** A host whose check was started, and that became fresh meanwhile: the result of the check
    is dropped, and the host still counts as executing. *)
Lemma discarded_result_keeps_executing cfg ec env_of deps dep_fuel exec fuel cr h w : cr.(cr_passive) = false → cr.(cr_freshness) = true →
  is_result_fresh cfg ec env_of h w = true → (ck h w).(_is_executing) = true →
  ∃ w', handle_async_check_result_3x cfg ec env_of deps dep_fuel exec fuel cr h w = Ret (true, w') ∧ (ck h w').(_is_executing) = true.
Proof.
  intros Hp Hf Hfresh Hex. unfold handle_async_check_result_3x, HostCheck.accept_result. rewrite Hp, Hf. cbn [andb negb].
  set (w1 := if 0 <? currently_running_host_checks w then _ else w). set (w2 := on_check h (set_is_being_freshened false) w1).
  assert (nw_hosts w1 = nw_hosts w) as Hh by (unfold w1; by case_match).
  assert (is_result_fresh cfg ec env_of h w2 = true) as ->.
  { unfold is_result_fresh, w2, on_check, hhard, hstate, ck, nt in *. rewrite !hosts_upd, !decide_True, Hh by done. exact Hfresh. }
  exists w2. split; [done|]. unfold ck, w2, on_check. rewrite hosts_upd, decide_True, Hh by done. exact Hex.
Qed.
