(* ===== verification/Perfdata.v ===== *)
(** * Performance data

    [common/src/perfdata.cc]: what a plugin prints after the pipe, [name=value unit;warning;
    critical;min;max] for each metric.  A string of C is the list of its bytes, without the
    final zero; pointers are offsets in it, and a read outside of it is an error.  The
    conversions [strtof] and [strtod] of the C library are written out, with the rounding of
    the numbers. *)

From Stdlib Require Import SpecFloat ZifyBool.
From S2P Require Import Prelude CheckOutput ServiceCheck.

(** ** Bytes *)

Definition c_quote : Z := 39.
Definition c_equal : Z := 61.
Definition c_semicolon : Z := 59.
Definition c_colon : Z := 58.
Definition c_comma : Z := 44.
Definition c_dot : Z := 46.
Definition c_at : Z := 64.
Definition c_tilde : Z := 126.
Definition c_open : Z := 91.
Definition c_close : Z := 93.

(** [strchr(" \n\r\t", c)] for a byte that is not zero *)
Definition is_blank (c : Z) : bool := (c =? 32) || (c =? 10) || (c =? 13) || (c =? 9).
(** [strcspn(s, " \t\n\r;")] stops there *)
Definition is_delimiter (c : Z) : bool := is_blank c || (c =? c_semicolon).

(** How many bytes from the start satisfy [f]: [strspn] and its like. *)
Fixpoint span (f : Z → bool) (l : list Z) : nat :=
  match l with
  | c :: l => if f c then S (span f l) else O
  | [] => O
  end.

(** ** [strtof] and [strtod] *)

Definition lower (c : Z) : Z := if (65 <=? c) && (c <=? 90) then c + 32 else c.

(** The value of a digit. *)
Definition digit (base c : Z) : option Z :=
  let c := lower c in
  let v := if (48 <=? c) && (c <=? 57) then c - 48 else if (97 <=? c) && (c <=? 122) then c - 87 else base in
  if v <? base then Some v else None.

(** The digits at the start: their value after [acc], and how many. *)
Fixpoint digits (base acc : Z) (l : list Z) : Z * nat :=
  match l with
  | c :: l' => match digit base c with Some v => let '(m, n) := digits base (acc * base + v) l' in (m, S n) | None => (acc, O) end
  | [] => (acc, O)
  end.

(** A mantissa: its digits as a number, those after the point, and the length. *)
Definition mantissa (base : Z) (l : list Z) : option (Z * nat * nat) :=
  let '(m, n) := digits base 0 l in
  match drop n l with
  | c :: l' =>
      if c =? c_dot then
        let '(m', n') := digits base m l' in
        if (n + n' =? 0)%nat then None else Some (m', n', (n + 1 + n')%nat)
      else if (n =? 0)%nat then None else Some (m, O, n)
  | [] => if (n =? 0)%nat then None else Some (m, O, n)
  end.

Definition sign (l : list Z) : bool * nat :=
  match l with
  | c :: _ => if c =? 45 then (true, 1%nat) else if c =? 43 then (false, 1%nat) else (false, O)
  | [] => (false, O)
  end.

(** An exponent after the letter [mark]: its value and the length, 0 when there is none. *)
Definition exponent (mark : Z) (l : list Z) : Z * nat :=
  match l with
  | c :: l =>
      if lower c =? mark then
        let '(neg, k) := sign l in
        let '(e, n) := digits 10 0 (drop k l) in
        if (n =? 0)%nat then (0, O) else (if neg then - e else e, (1 + k + n)%nat)
      else (0, O)
  | [] => (0, O)
  end.

Section Rounding.
Context (prec emax : Z).

(** [m * 2 ^ e], rounded *)
Definition round_binary (neg : bool) (m e : Z) : spec_float :=
  if m =? 0 then S754_zero neg else binary_normalize prec emax (if neg then - m else m) e neg.

(** [m * 10 ^ e], rounded: a quotient keeps three bits more than the format and one that
    says whether something is left. *)
Definition round_decimal (neg : bool) (m e : Z) : spec_float :=
  if 0 <=? e then round_binary neg (m * 10 ^ e) 0
  else
    let d := 10 ^ (- e) in
    let s := Z.max 0 (prec + 3 + Z.log2 d - Z.log2 m) in
    let '(q, r) := Z.div_eucl (m * 2 ^ s) d in
    round_binary neg (2 * q + (if r =? 0 then 0 else 1)) (- (s + 1)).

Definition has_prefix (w l : list Z) : bool := bool_decide (lower <$> take (length w) l = w).

(** The conversion: the value, and how many bytes it took, 0 when there is no number. *)
Definition strto (l : list Z) : spec_float * nat :=
  let blanks := span isspace l in
  let l := drop blanks l in
  let '(neg, k) := sign l in
  let l := drop k l in
  let taken n := (blanks + k + n)%nat in
  if has_prefix (text "inf") l then (S754_infinity neg, taken (if has_prefix (text "infinity") l then 8%nat else 3%nat))
  else if has_prefix (text "nan") l then
    let more :=
      match drop 3 l with
      | c :: l' =>
          let n := span (λ c, match digit 36 c with Some _ => true | None => c =? 95 end) l' in
          if c =? 40 then match drop n l' with c' :: _ => if c' =? 41 then (n + 2)%nat else O | [] => O end else O
      | [] => O
      end in
    (S754_nan, taken (3 + more)%nat)
  else
    match (if has_prefix (text "0x") l then mantissa 16 (drop 2 l) else None) with
    | Some (m, frac, n) =>
        let '(e, n') := exponent 112 (drop (2 + n) l) in
        (round_binary neg m (e - 4 * Z.of_nat frac), taken (2 + n + n')%nat)
    | None =>
        match mantissa 10 l with
        | Some (m, frac, n) =>
            let '(e, n') := exponent 101 (drop n l) in
            (round_decimal neg m (e - Z.of_nat frac), taken (n + n')%nat)
        | None => (S754_zero false, O)
        end
    end.
End Rounding.

(** [float] and [double] *)
Definition strtof : list Z → spec_float * nat := strto 24 128.
Definition strtod : list Z → spec_float * nat := strto 53 1024.
Definition to_float (x : spec_float) : spec_float :=
  match x with
  | S754_finite s m e => round_binary 24 128 s (Zpos m) e
  | _ => x
  end.
Definition isnan (x : spec_float) : bool := match x with S754_nan => true | _ => false end.

(** ** Numbers and ranges *)

Section Parser.
(** the string, from [str] on *)
Context (str : list Z).

(** The byte at an offset; the final zero may be read. *)
Definition peek (i : Z) : res Z :=
  if (0 <=? i) && (i <=? Z.of_nat (length str)) then Ret (default 0 (str !! Z.to_nat i)) else Throw undefined.
(** The same for an offset that is in the string. *)
Definition byte (i : nat) : Z := default 0 (str !! i).
Definition from (i : nat) : list Z := drop i str.

(** [extract_float]: the value, and where the pointer is. *)
Definition extract_float (i : nat) (skip : bool) : spec_float * nat :=
  if isspace (byte i) then (S754_nan, i)
  else
    let k := span (λ c, negb (c =? c_comma)) (from i) in
    let '(v, i) :=
      if (k <? length (from i))%nat then
        let t := span (λ c, negb (is_delimiter c)) (drop k (from i)) in
        let nb := take k (from i) ++ c_dot :: take (t - 1) (drop (k + 1) (from i)) in
        let '(v, n) := strtod nb in
        (if (n =? 0)%nat then S754_nan else to_float v, (i + n)%nat)
      else
        let '(v, n) := strtof (from i) in
        (if (n =? 0)%nat then S754_nan else v, (i + n)%nat) in
    (v, if skip && (byte i =? c_semicolon) then S i else i).

(** [extract_range]: low, high and inclusive, and where the pointer is. *)
Definition extract_range (i : nat) : spec_float * spec_float * bool * nat :=
  let '(inclusive, i) := if byte i =? c_at then (true, S i) else (false, i) in
  let '(low, i) := if byte i =? c_tilde then (S754_infinity true, S i) else extract_float i true in
  let '(low, high, i) :=
    if negb (byte i =? c_colon) then (if isnan low then low else S754_zero false, low, i)
    else
      let ptr := S i in
      let '(high, i) := extract_float ptr true in
      (low, if isnan high && ((i =? ptr) || (i =? ptr + 1))%nat then S754_infinity false else high, i) in
  (low, high, inclusive, i).

(** ** Metrics *)

Inductive data_type := gauge | counter | derive | absolute | automatic.

Record perfdata := PerfData {
  p_critical : spec_float;
  p_critical_low : spec_float;
  p_critical_mode : bool;
  p_max : spec_float;
  p_min : spec_float;
  p_name : list Z;
  p_unit : list Z;
  p_value : spec_float;
  p_value_type : data_type;
  p_warning : spec_float;
  p_warning_low : spec_float;
  p_warning_mode : bool;
}.

(** The length of a name: up to an equal sign or a space that is not in quotes. *)
Fixpoint name_length (in_quote : bool) (l : list Z) : nat :=
  match l with
  | [] => O
  | c :: l =>
      if in_quote || (negb (c =? c_equal) && negb (isspace c)) || (128 <=? c)
      then S (name_length (if c =? c_quote then negb in_quote else in_quote) l)
      else O
  end.

(** [while (end != s && strchr(" \n\r\t", *end)) --end]: a zero byte is found too. *)
Fixpoint trim_back (fuel : nat) (s end_ : Z) : res Z :=
  match fuel with
  | O => Throw fuel_exhausted
  | S fuel =>
      if end_ =? s then Ret end_
      else
        let! c := peek end_ in
        if is_blank c || (c =? 0) then trim_back fuel s (end_ - 1) else Ret end_
  end.

(** The label from [s] to [end_], both included, without its type. *)
Definition label_type (s end_ : Z) : res (data_type * Z * Z) :=
  let! c := peek end_ in
  Ret
    (if c =? c_close then
       match from (Z.to_nat s) with
       | c :: c' :: _ =>
           if c' =? c_open then
             if c =? 97 then (absolute, s + 2, end_ - 1)
             else if c =? 99 then (counter, s + 2, end_ - 1)
             else if c =? 100 then (derive, s + 2, end_ - 1)
             else if c =? 103 then (gauge, s + 2, end_ - 1)
             else (gauge, s, end_)
           else (gauge, s, end_)
       | _ => (gauge, s, end_)
       end
     else (gauge, s, end_)).

(** The name that starts at [tmp] and ends before [stop]: its type and the first and last
    offset. *)
Definition label (tmp stop : nat) : res (data_type * Z * Z) :=
  let s := if byte tmp =? c_quote then S tmp else tmp in
  let end_ := Z.of_nat stop - 1 in
  let! c := peek end_ in
  let end_ := if c =? c_quote then end_ - 1 else end_ in
  let s := Z.of_nat (s + span is_blank (from s)) in
  let! end_ := trim_back (S (S (length str))) s end_ in
  label_type s end_.

(** [skip] *)
Definition skip_metric (i : nat) : nat :=
  let i := (i + span (λ c, negb (isspace c)) (from i))%nat in
  (i + span isspace (from i))%nat.

(** The rest of a metric, from its value on. *)
Definition parse_values (type : data_type) (name : list Z) (tmp : nat) : option perfdata * nat :=
  let '(value, tmp) := extract_float tmp false in
  if isnan value then (None, skip_metric tmp)
  else
    let t := span (λ c, negb (is_delimiter c)) (from tmp) in
    let unit := take t (from tmp) in
    let tmp := (tmp + t)%nat in
    let tmp := if byte tmp =? c_semicolon then S tmp else tmp in
    let '(warning_low, warning, warning_mode, tmp) := extract_range tmp in
    let '(critical_low, critical, critical_mode, tmp) := extract_range tmp in
    let '(min, tmp) := extract_float tmp true in
    let '(max, tmp) := extract_float tmp true in
    (Some (PerfData critical critical_low critical_mode max min name unit value type warning warning_low warning_mode),
     (tmp + span isspace (from tmp))%nat).

(** The loop of [parse_perfdata].  [names] are the names so far.  An empty name is reported
    with the ten bytes after it. *)
Fixpoint parse_metrics (fuel : nat) (names : list (list Z)) (tmp : nat) : res (list perfdata) :=
  match fuel with
  | O => Throw fuel_exhausted
  | S fuel =>
      if (length str <=? tmp)%nat then Ret []
      else
        let stop := (tmp + name_length false (from tmp))%nat in
        let! l := label tmp stop in
        let '(type, s, end_) := l in
        let size := end_ - s + 1 in
        let name := take (Z.to_nat size) (from (Z.to_nat s)) in
        let! _ := (if 0 <? size then Ret 0 else peek (s + 9)) in
        let error := negb (0 <? size) || bool_decide (name ∈ names) in
        let '(error, tmp) := if byte stop =? c_equal then (error, S stop) else (true, stop) in
        if error then parse_metrics fuel names (skip_metric tmp)
        else
          match parse_values type name tmp with
          | (None, tmp) => parse_metrics fuel names tmp
          | (Some p, tmp) =>
              let! ps := parse_metrics fuel (name :: names) tmp in
              Ret (p :: ps)
          end
  end.

(** [perfdata::parse_perfdata]; a metric takes one byte at least. *)
Definition parse_perfdata : res (list perfdata) := parse_metrics (S (length str)) [] (span is_blank str).
End Parser.

(** ** Any string *)

Lemma span_le f l : (span f l ≤ length l)%nat.
Proof. induction l as [|c l IH]; cbn; [lia|]. case_match; lia. Qed.

Section Any.
Context (str : list Z).

Lemma byte_head i : byte str i = default 0 (head (from str i)).
Proof. unfold byte, from. revert i. induction str as [|c l IH]; intros [|i]; cbn; try done. Qed.

Lemma extract_float_mono i skip : (i ≤ (extract_float str i skip).2)%nat.
Proof.
  unfold extract_float. case_match; [cbn; lia|]. cbv zeta. destruct (_ <? _)%nat.
  - destruct (strtod _) as [v n]. cbn [snd]. case_match; lia.
  - destruct (strtof _) as [v n]. cbn [snd]. case_match; lia.
Qed.

Lemma extract_range_mono i : (i ≤ (extract_range str i).2)%nat.
Proof.
  unfold extract_range. destruct (if byte str i =? c_at then _ else _) as [inclusive i1] eqn:H1.
  assert (i ≤ i1)%nat by (case_match; simplify_eq; lia). clear H1.
  destruct (if byte str i1 =? c_tilde then _ else _) as [low i2] eqn:H2. assert (i1 ≤ i2)%nat as Hi2.
  { case_match; simplify_eq; [lia|]. change i2 with (low, i2).2. rewrite <- H2. apply extract_float_mono. }
  destruct (negb _); [cbn; lia|]. pose proof (extract_float_mono (S i2) true) as Hm. destruct (extract_float str (S i2) true) as [high i3].
  cbn in *. lia.
Qed.

Lemma skip_metric_mono i : (i ≤ skip_metric str i)%nat.
Proof. unfold skip_metric. lia. Qed.

Lemma parse_values_mono type name tmp : (tmp ≤ (parse_values str type name tmp).2)%nat.
Proof.
  unfold parse_values. pose proof (extract_float_mono tmp false) as H1. destruct (extract_float str tmp false) as [value i1]. cbn in H1.
  case_match; [cbn; pose proof (skip_metric_mono i1); lia|]. cbv zeta. set (t := span _ _). set (i2 := if _ =? _ then _ else _).
  assert (i1 ≤ i2)%nat as H2 by (unfold i2; case_match; lia). clearbody i2.
  pose proof (extract_range_mono i2) as H3. destruct (extract_range str i2) as [[[wl w] wm] i3]. cbn in H3.
  pose proof (extract_range_mono i3) as H4. destruct (extract_range str i3) as [[[cl c] cm] i4]. cbn in H4.
  pose proof (extract_float_mono i4 true) as H5. destruct (extract_float str i4 true) as [min i5]. cbn in H5.
  pose proof (extract_float_mono i5 true) as H6. destruct (extract_float str i5 true) as [max i6]. cbn in H6. cbn. lia.
Qed.

Lemma parse_values_named type name tmp p : (parse_values str type name tmp).1 = Some p → p.(p_name) = name ∧ isnan p.(p_value) = false.
Proof.
  unfold parse_values. destruct (extract_float str tmp false) as [value i1]. destruct (isnan value) eqn:Hn; [done|]. cbv zeta.
  destruct (extract_range str _) as [[[wl w] wm] i3]. destruct (extract_range str i3) as [[[cl c] cm] i4].
  destruct (extract_float str i4 true) as [min i5]. destruct (extract_float str i5 true) as [max i6]. cbn. by intros [= <-].
Qed.

Lemma peek_throws i e : peek str i = Throw e → e = undefined.
Proof. unfold peek. case_match; [done|]. by intros [= <-]. Qed.

Lemma trim_back_throws fuel s : ∀ end_ e, (Z.to_nat (end_ + 1) < fuel)%nat → trim_back str fuel s end_ = Throw e → e = undefined.
Proof.
  induction fuel as [|fuel IH]; intros end_ e Hf; [lia|]. cbn [trim_back]. case_match; [done|].
  destruct (peek str end_) as [c|] eqn:Hp; [|intros [= <-]; by apply (peek_throws end_)].
  case_match; [|done]. apply IH. unfold peek in Hp. case_match; [|done].
  match goal with H : _ && _ = true |- _ => apply andb_true_iff in H as [H _]; apply Z.leb_le in H; lia end.
Qed.

Lemma label_throws tmp stop e : (stop ≤ length str)%nat → label str tmp stop = Throw e → e = undefined.
Proof.
  intros Hs. unfold label. cbv zeta. destruct (peek str _) as [c|] eqn:Hp; [|intros [= <-]; by eapply peek_throws].
  set (en := if c =? c_quote then _ else _). assert (en ≤ Z.of_nat (length str)) as He by (unfold en; case_match; lia).
  destruct (trim_back _ _ _ _) as [e'|] eqn:Ht.
  - unfold label_type. destruct (peek str e') eqn:Hp'; [done|]. intros [= <-]. by eapply peek_throws.
  - intros [= <-]. eapply trim_back_throws; [|exact Ht]. lia.
Qed.

Lemma name_length_le b l : (name_length b l ≤ length l)%nat.
Proof. revert b. induction l as [|c l IH]; intros b; cbn; [lia|]. case_match; [|lia]. pose proof (IH (if c =? c_quote then negb b else b)). lia. Qed.

(** An iteration moves on. *)
Lemma skip_moves tmp : (tmp < length str)%nat → let stop := (tmp + name_length false (from str tmp))%nat in
  byte str stop ≠ c_equal → (tmp < skip_metric str stop)%nat.
Proof.
  intros Ht stop Hb. pose proof (skip_metric_mono stop). unfold stop in *.
  destruct (name_length false (from str tmp)) as [|n] eqn:Hn; [|lia]. rewrite Nat.add_0_r in *.
  rewrite byte_head in Hb. unfold from in *. destruct (drop tmp str) as [|c l] eqn:Hd; [apply (f_equal length) in Hd; rewrite length_drop in Hd; cbn in Hd; lia|].
  cbn in Hb, Hn. case_match; [done|]. unfold skip_metric, from. rewrite Hd. cbn [span].
  assert (isspace c = true) as Hsp.
  { match goal with H : _ || _ = false |- _ => apply orb_false_iff in H as [H _] end.
    destruct (isspace c); [done|]. apply andb_false_iff in H0 as [H0|H0]; [|done]. by apply negb_false_iff, Z.eqb_eq in H0. }
  rewrite Hsp. cbn [negb]. rewrite Nat.add_0_r, Hd. cbn [span]. rewrite Hsp. lia.
Qed.

(** What a parse gives: names of their own, that none of [names] is, and values. *)
Definition parsed_ok (names : list (list Z)) (ps : list perfdata) : Prop :=
  NoDup (p_name <$> ps) ∧ Forall (λ p, p.(p_name) ≠ [] ∧ isnan p.(p_value) = false ∧ p.(p_name) ∉ names) ps.

Lemma take_nonempty size (l : list Z) : 0 < size → (0 < length l)%nat → take (Z.to_nat size) l ≠ [].
Proof. intros Hs Hl. destruct l as [|c l]; [cbn in Hl; lia|]. destruct (Z.to_nat size) eqn:He; [lia|]. done. Qed.

(** A name that is not empty starts in the string. *)
Lemma label_inside tmp stop type s end_ : label str tmp stop = Ret (type, s, end_) → (stop ≤ length str)%nat →
  0 < end_ - s + 1 → (0 < length (from str (Z.to_nat s)))%nat.
Proof.
  intros Hl Hs Hsize. unfold label in Hl. cbv zeta in Hl. destruct (peek str (Z.of_nat stop - 1)) as [c|] eqn:Hp; [|done].
  set (en := if c =? c_quote then _ else _) in Hl. assert (en < Z.of_nat (length str)) as He by (unfold en; destruct (c =? c_quote); lia). clearbody en.
  set (s0 := Z.of_nat _) in Hl. assert (0 ≤ s0) as Hs0 by lia. clearbody s0.
  assert (∀ fuel en e', en < Z.of_nat (length str) → trim_back str fuel s0 en = Ret e' → e' < Z.of_nat (length str)) as Ht.
  { intros fuel. induction fuel as [|fuel IH]; intros en' e' He'; [done|]. cbn [trim_back].
    destruct (en' =? s0); [intros Hr; by injection Hr as <-|]. destruct (peek str en') as [c'|]; [|done].
    destruct (_ || _); [apply IH; lia|]. intros Hr. by injection Hr as <-. }
  destruct (trim_back _ _ _ _) as [e'|] eqn:Htb; [|done]. apply Ht in Htb; [|done]. unfold label_type in Hl.
  destruct (peek str e') as [c'|]; [|done]. unfold from. rewrite length_drop.
  assert (0 ≤ s ∧ s ≤ end_ ∧ end_ < Z.of_nat (length str)); [|lia]. injection Hl as Hl.
  repeat case_match; simplify_eq; lia.
Qed.

Lemma parse_metrics_ok fuel : ∀ names tmp, (length str - tmp < fuel)%nat →
  match parse_metrics str fuel names tmp with
  | Ret ps => parsed_ok names ps
  | Throw e => e = undefined
  end.
Proof.
  induction fuel as [|fuel IH]; intros names tmp Hf; [lia|]. cbn [parse_metrics].
  destruct (Nat.leb_spec (length str) tmp) as [Hend|Hend]; [split; constructor|].
  set (stop := (tmp + name_length false (from str tmp))%nat).
  assert (stop ≤ length str)%nat as Hstop.
  { unfold stop. pose proof (name_length_le false (from str tmp)) as Hn. unfold from in *. rewrite length_drop in Hn. lia. }
  destruct (label str tmp stop) as [[[type s] end_]|e] eqn:Hl; [|by eapply label_throws].
  set (size := end_ - s + 1). set (name := take (Z.to_nat size) _).
  assert (∀ e, (if 0 <? size then Ret 0 else peek str (s + 9)) = Throw e → e = undefined) as Hpk
    by (intros e; case_match; [done|apply peek_throws]).
  destruct (if 0 <? size then Ret 0 else peek str (s + 9)) as [z|e] eqn:Hz; [clear Hpk Hz|by apply Hpk].
  destruct (Z.eqb_spec (byte str stop) c_equal) as [Heq|Heq].
  - destruct (negb (0 <? size) || bool_decide (name ∈ names)) eqn:Herr.
    + apply IH. pose proof (skip_metric_mono (S stop)). lia.
    + apply orb_false_iff in Herr as [Hsz Hnew]. apply negb_false_iff, Z.ltb_lt in Hsz. apply bool_decide_eq_false in Hnew.
      pose proof (parse_values_mono type name (S stop)) as Hm. pose proof (parse_values_named type name (S stop)) as Hnm.
      destruct (parse_values str type name (S stop)) as [[p|] tmp']; cbn in Hm, Hnm; [|apply IH; lia].
      destruct (Hnm p eq_refl) as [Hpn Hpv]. specialize (IH (name :: names) tmp').
      destruct (parse_metrics str fuel (name :: names) tmp') as [ps|e]; [|apply IH; lia]. destruct IH as [Hnd Hall]; [lia|].
      split; cbn [fmap list_fmap].
      * apply NoDup_cons. split; [|done]. intros (q & Hq & Hin)%list_elem_of_fmap. rewrite Forall_forall in Hall.
        destruct (Hall q Hin) as (_ & _ & Hno). apply Hno. rewrite <- Hq, Hpn. left.
      * apply Forall_cons. split; [split_and!; [rewrite Hpn|done|by rewrite Hpn]|].
        { apply take_nonempty; [done|]. by eapply label_inside. }
        eapply Forall_impl; [exact Hall|]. intros q (? & ? & Hq). split_and!; [done..|]. intros Hin. apply Hq. by right.
  - apply IH. assert (tmp < skip_metric str stop)%nat by (by apply skip_moves). lia.
Qed.
End Any.

(** ** What a plugin prints *)

(** The text of a number and its value. *)
Record number := Number { n_text : list Z; n_value : spec_float }.

(** A decimal number, from its digits before and after the point. *)
Definition is_digits (l : list Z) : Prop := Forall (λ d, 0 ≤ d ≤ 9) l.
Definition of_digits (acc : Z) (l : list Z) : Z := foldl (λ acc d, acc * 10 + d) acc l.
Definition digits_text (l : list Z) : list Z := (λ d, 48 + d) <$> l.
Definition decimal (neg : bool) (int : list Z) (frac : option (list Z)) : number :=
  Number
    ((if neg then [45] else []) ++ digits_text int ++ match frac with Some f => c_dot :: digits_text f | None => [] end)
    match frac with
    | Some f => round_decimal 24 128 neg (of_digits (of_digits 0 int) f) (0 - Z.of_nat (length f))
    | None => round_decimal 24 128 neg (of_digits 0 int) 0
    end.

(** What follows does not go on with the number, [inf] with [infinity] included. *)
Definition isinf (x : spec_float) : bool := match x with S754_infinity _ => true | _ => false end.
Definition ends_number (x : spec_float) (l : list Z) : Prop :=
  match l with
  | [] => True
  | c :: _ => digit 10 c = None ∧ c ≠ c_dot ∧ lower c ≠ 101 ∧ lower c ≠ 120 ∧ (isinf x = true → lower c ≠ 105)
  end.

Lemma digit_text d : 0 ≤ d ≤ 9 → digit 10 (48 + d) = Some d.
Proof.
  intros Hd. unfold digit, lower. destruct (Z.leb_spec 65 (48 + d)); [lia|]. cbn [andb].
  destruct (Z.leb_spec 48 (48 + d)); [|lia]. destruct (Z.leb_spec (48 + d) 57); [|lia]. cbn [andb].
  replace (48 + d - 48) with d by lia. destruct (Z.ltb_spec d 10); [done|lia].
Qed.

Lemma digits_stop base acc l : match l with c :: _ => digit base c = None | [] => True end → digits base acc l = (acc, O).
Proof. destruct l as [|c l]; [done|]. intros Hc. cbn. by rewrite Hc. Qed.

Lemma digits_text_app acc ds rest : is_digits ds → match rest with c :: _ => digit 10 c = None | [] => True end →
  digits 10 acc (digits_text ds ++ rest) = (of_digits acc ds, length ds).
Proof.
  intros Hd Hr. revert acc. induction Hd as [|d ds Hd _ IH]; intros acc; [by apply digits_stop|].
  cbn [digits_text fmap list_fmap app digits]. rewrite digit_text by done. fold (digits_text ds). by rewrite IH.
Qed.

Lemma length_digits_text ds : length (digits_text ds) = length ds.
Proof. unfold digits_text. by rewrite length_fmap. Qed.

Lemma mantissa_number x ds f rest : is_digits ds → ds ≠ [] → match f with Some f => is_digits f | None => True end → ends_number x rest →
  mantissa 10 (digits_text ds ++ match f with Some f => c_dot :: digits_text f | None => [] end ++ rest) =
    Some (match f with Some f => (of_digits (of_digits 0 ds) f, length f, (length ds + 1 + length f)%nat) | None => (of_digits 0 ds, O, length ds) end).
Proof.
  intros Hd Hne Hf Hr. assert (length ds ≠ O) as Hl by (by destruct ds). unfold mantissa. destruct f as [f|]; cbn [app].
  - rewrite digits_text_app by done. rewrite drop_app_length' by (by rewrite length_digits_text). cbn [Z.eqb c_dot Pos.eqb].
    rewrite digits_text_app by (done || by destruct rest as [|c r]; [|apply Hr]). destruct (Nat.eqb_spec (length ds + length f) 0); [lia|done].
  - rewrite digits_text_app by (done || by destruct rest as [|c r]; [|apply Hr]). rewrite drop_app_length' by (by rewrite length_digits_text).
    apply Nat.eqb_neq in Hl. destruct rest as [|c r]; [by rewrite Hl|]. destruct Hr as (_ & Hdot & _).
    apply Z.eqb_neq in Hdot. by rewrite Hdot, Hl.
Qed.

Lemma exponent_none mark rest : match rest with c :: _ => lower c ≠ mark | [] => True end → exponent mark rest = (0, O).
Proof. destruct rest as [|c r]; [done|]. intros Hc. cbn. apply Z.eqb_neq in Hc. by rewrite Hc. Qed.

Lemma has_prefix_no w l c l' : l = c :: l' → match w with x :: _ => lower c ≠ x | [] => False end → has_prefix w l = false.
Proof.
  intros -> Hw. unfold has_prefix. apply bool_decide_eq_false. destruct w as [|x w]; [done|]. cbn. by intros [= Hx _].
Qed.

Lemma digit_head d : 0 ≤ d ≤ 9 → isspace (48 + d) = false ∧ lower (48 + d) = 48 + d.
Proof.
  intros Hd. unfold isspace, lower. destruct (Z.leb_spec 65 (48 + d)); [lia|]. split; [|done].
  destruct (Z.eqb_spec (48 + d) 32); [lia|]. destruct (Z.leb_spec (48 + d) 13); [lia|]. by rewrite andb_false_r.
Qed.

Lemma no_hex x ds f rest : is_digits ds → ds ≠ [] → ends_number x rest →
  has_prefix (text "0x") (digits_text ds ++ match f with Some f => c_dot :: digits_text f | None => [] end ++ rest) = false.
Proof.
  intros Hd Hne Hr. unfold has_prefix. apply bool_decide_eq_false. intros Hx. apply (f_equal (λ l, l !! 1%nat)) in Hx.
  destruct Hd as [|d ds Hd Hds]; [done|]. rewrite list_lookup_fmap in Hx. revert Hx. change (text "0x" !! 1%nat) with (Some 120).
  destruct Hds as [|d' ds Hd' _]; cbn [digits_text fmap list_fmap app take length text].
  - destruct f as [f|]; cbn; [by intros [=]|]. destruct rest as [|c r]; cbn; [done|]. intros [= Hc]. by apply Hr in Hc.
  - destruct (digit_head d' Hd') as [_ Hl]. cbn. rewrite Hl. intros [= ?]. lia.
Qed.

Lemma strto_unsigned x prec emax neg k l ds f rest :
  sign l = (neg, k) → span isspace l = O →
  drop k l = digits_text ds ++ match f with Some f => c_dot :: digits_text f | None => [] end ++ rest →
  is_digits ds → ds ≠ [] → match f with Some f => is_digits f | None => True end → ends_number x rest →
  strto prec emax l =
    (match f with
     | Some f => round_decimal prec emax neg (of_digits (of_digits 0 ds) f) (0 - Z.of_nat (length f))
     | None => round_decimal prec emax neg (of_digits 0 ds) 0
     end, (k + (length ds + match f with Some f => 1 + length f | None => 0 end))%nat).
Proof.
  intros Hs Hsp Hl Hd Hne Hf Hr. unfold strto. rewrite Hsp. rewrite drop_0. rewrite Hs, Hl.
  set (l' := digits_text ds ++ _). assert (∃ d l'', 0 ≤ d ≤ 9 ∧ l' = 48 + d :: l'') as (d & l'' & Hd0 & Hl').
  { unfold l'. destruct Hd as [|d ds Hd _]; [done|]. eexists d, _. split; [done|]. reflexivity. }
  destruct (digit_head d Hd0) as [_ Hlow].
  rewrite (has_prefix_no (text "inf") _ _ _ Hl') by (change (lower (48 + d) ≠ 105); lia). rewrite (has_prefix_no (text "nan") _ _ _ Hl') by (change (lower (48 + d) ≠ 110); lia).
  unfold l'. rewrite (no_hex x), (mantissa_number x) by done. destruct f as [f|]; cbn [fst snd].
  - rewrite exponent_none.
    + f_equal. lia.
    + replace (length ds + 1 + length f)%nat with (length (digits_text ds ++ c_dot :: digits_text f))
        by (rewrite length_app; cbn; rewrite !length_digits_text; lia).
      rewrite app_assoc, drop_app_length. destruct rest as [|c r]; [done|]. apply Hr.
  - rewrite exponent_none.
    + f_equal; lia.
    + cbn [app]. rewrite drop_app_length' by (by rewrite length_digits_text). destruct rest as [|c r]; [done|]. apply Hr.
Qed.

(** [strtof] takes the number, and nothing more. *)
Lemma strtof_decimal x neg ds f rest : is_digits ds → ds ≠ [] → match f with Some f => is_digits f | None => True end → ends_number x rest →
  strtof ((decimal neg ds f).(n_text) ++ rest) = ((decimal neg ds f).(n_value), length (decimal neg ds f).(n_text)).
Proof.
  intros Hd Hne Hf Hr. unfold strtof, decimal. cbn [n_text n_value].
  assert (∃ d l, 0 ≤ d ≤ 9 ∧ digits_text ds = 48 + d :: l) as (d & l & Hd0 & Hl).
  { destruct Hd as [|d ds Hd _]; [done|]. eexists d, _. split; [done|]. reflexivity. }
  destruct (digit_head d Hd0) as [Hsp _]. rewrite <- !app_assoc. destruct neg; cbn [app].
  - rewrite (strto_unsigned x 24 128 true 1 _ ds f rest); [|done..]. f_equal.
    cbn [length]. rewrite length_app, length_digits_text. destruct f; cbn; rewrite ?length_digits_text; lia.
  - rewrite (strto_unsigned x 24 128 false 0 _ ds f rest); [|rewrite Hl; cbn|rewrite Hl; cbn [app span]; by rewrite Hsp|done..].
    + f_equal. rewrite length_app, length_digits_text. destruct f; cbn; rewrite ?length_digits_text; lia.
    + destruct (Z.eqb_spec (48 + d) 45); [lia|]. destruct (Z.eqb_spec (48 + d) 43); [lia|]. by destruct d as [|p|p]; [done|destruct p|].
Qed.

(** Nothing is a number when the first byte is none of a number. *)
Lemma strtof_none l : match l with c :: _ => c = c_semicolon ∨ c = c_colon | [] => True end → strtof l = (S754_zero false, O).
Proof. destruct l as [|c l]; [by vm_compute|]. by intros [-> | ->]. Qed.

(** *** A rounded number is a number *)

Lemma shr_1_nonneg mrs : 0 ≤ shr_m mrs → 0 ≤ shr_m (shr_1 mrs).
Proof. destruct mrs as [m r s]. cbn. destruct m as [|[m|m|]|m]; cbn; lia. Qed.

Lemma iter_shr_nonneg p : ∀ mrs, 0 ≤ shr_m mrs → 0 ≤ shr_m (SpecFloat.iter_pos shr_1 p mrs).
Proof. induction p as [p IH|p IH|]; intros mrs Hm; cbn [SpecFloat.iter_pos]; [apply IH, IH| apply IH, IH|]; auto using shr_1_nonneg. Qed.

Lemma shr_fexp_nonneg prec emax m e l : 0 ≤ m → 0 ≤ shr_m (shr_fexp prec emax m e l).1.
Proof.
  intros Hm. unfold shr_fexp, shr. assert (0 ≤ shr_m (shr_record_of_loc m l)) by (by destruct l as [|[]]).
  destruct (_ - e) as [|p|p]; cbn [fst]; [done|by apply iter_shr_nonneg|done].
Qed.

Lemma binary_round_number prec emax neg m e : isnan (binary_round prec emax neg m e) = false.
Proof.
  unfold binary_round. destruct (shl_align _ _ _) as [mz ez]. unfold binary_round_aux.
  pose proof (shr_fexp_nonneg prec emax (Zpos mz) ez loc_Exact ltac:(lia)) as H1. destruct (shr_fexp _ _ (Zpos mz) _ _) as [mrs e1]. cbn in H1.
  set (r := round_nearest_even _ _). assert (0 ≤ r) as Hr by (unfold r, round_nearest_even; repeat case_match; lia). clearbody r.
  pose proof (shr_fexp_nonneg prec emax r e1 loc_Exact Hr) as H2. destruct (shr_fexp _ _ r _ _) as [mrs2 e2]. cbn in H2.
  destruct (shr_m mrs2); [done| |lia]. by case_match.
Qed.

Lemma round_decimal_number prec emax neg m e : isnan (round_decimal prec emax neg m e) = false.
Proof.
  assert (∀ m e, isnan (round_binary prec emax neg m e) = false) as Hb.
  { intros m' e'. unfold round_binary, binary_normalize. repeat case_match; try done; apply binary_round_number. }
  unfold round_decimal. case_match; [apply Hb|]. cbv zeta. destruct (Z.div_eucl _ _) as [q r]. apply Hb.
Qed.

(** A text that is read as a number, whatever follows that does not go on with it. *)
Definition number_ok (n : number) : Prop :=
  isnan n.(n_value) = false ∧
  (∃ c l, n.(n_text) = c :: l ∧ isspace c = false ∧ c ≠ c_at ∧ c ≠ c_tilde ∧ c ≠ c_colon ∧ c ≠ c_semicolon) ∧
  ∀ rest, ends_number n.(n_value) rest → strtof (n.(n_text) ++ rest) = (n.(n_value), length n.(n_text)).

(** Decimal numbers are such. *)
Lemma decimal_ok neg ds f : is_digits ds → ds ≠ [] → match f with Some f => is_digits f | None => True end → number_ok (decimal neg ds f).
Proof.
  intros Hd Hne Hf. split_and!.
  - unfold decimal. cbn [n_value]. destruct f; apply round_decimal_number.
  - unfold decimal. cbn [n_text]. unfold c_at, c_tilde, c_colon, c_semicolon. destruct neg; cbn [app]; [by eexists _, _|].
    destruct Hd as [|d ds Hd _]; [done|]. cbn. eexists _, _. split; [done|]. split_and!; [by apply digit_head|lia..].
  - intros rest Hr. by apply (strtof_decimal (n_value (decimal neg ds f))).
Qed.

(** *** Metrics *)

(** A range: none, up to a value, or between two, without a bound when there is none. *)
Inductive range :=
  | NoRange
  | UpTo (inclusive : bool) (high : number)
  | Between (inclusive : bool) (low high : option number).

Definition inclusive_text (b : bool) : list Z := if b then [c_at] else [].
Definition opt_text (n : option number) : list Z := match n with Some n => n_text n | None => [] end.
Definition range_text (r : range) : list Z :=
  match r with
  | NoRange => []
  | UpTo b h => inclusive_text b ++ n_text h
  | Between b l h => inclusive_text b ++ (match l with Some n => n_text n | None => [c_tilde] end) ++ c_colon :: opt_text h
  end.
Definition range_value (r : range) : spec_float * spec_float * bool :=
  match r with
  | NoRange => (S754_nan, S754_nan, false)
  | UpTo b h => (S754_zero false, n_value h, b)
  | Between b l h =>
      (match l with Some n => n_value n | None => S754_infinity true end,
       match h with Some n => n_value n | None => S754_infinity false end, b)
  end.
Definition opt_ok (n : option number) : Prop := match n with Some n => number_ok n | None => True end.
Definition range_ok (r : range) : Prop :=
  match r with NoRange => True | UpTo _ h => number_ok h | Between _ l h => opt_ok l ∧ opt_ok h end.

Record metric := Metric {
  m_quoted : bool;
  m_type : data_type;
  m_name : list Z;
  m_value : number;
  m_unit : list Z;
  m_warning : range;
  m_critical : range;
  m_min : option number;
  m_max : option number;
}.

(** The name with its type, which is left out for a gauge. *)
Definition label_text (m : metric) : list Z :=
  match m.(m_type) with
  | absolute => 97 :: c_open :: m.(m_name) ++ [c_close]
  | counter => 99 :: c_open :: m.(m_name) ++ [c_close]
  | derive => 100 :: c_open :: m.(m_name) ++ [c_close]
  | gauge | automatic => m.(m_name)
  end.
Definition values_text (m : metric) : list Z :=
  n_text m.(m_value) ++ m.(m_unit) ++ c_semicolon :: range_text m.(m_warning) ++ c_semicolon :: range_text m.(m_critical) ++
  c_semicolon :: opt_text m.(m_min) ++ c_semicolon :: opt_text m.(m_max).
Definition quote_text (m : metric) : list Z := if m.(m_quoted) then [c_quote] else [].
Definition metric_text (m : metric) : list Z := quote_text m ++ label_text m ++ quote_text m ++ c_equal :: values_text m.
(** The metrics, with a space between two. *)
Fixpoint metrics_text (ms : list metric) : list Z :=
  match ms with
  | [] => []
  | m :: ms => metric_text m ++ match ms with [] => [] | _ => c_space :: metrics_text ms end
  end.

Definition opt_value (n : option number) : spec_float := match n with Some n => n_value n | None => S754_nan end.
Definition metric_value (m : metric) : perfdata :=
  let '(wl, w, wm) := range_value m.(m_warning) in
  let '(cl, c, cm) := range_value m.(m_critical) in
  PerfData c cl cm (opt_value m.(m_max)) (opt_value m.(m_min)) m.(m_name) m.(m_unit) (n_value m.(m_value)) m.(m_type) w wl wm.

(** A label: no quote nor zero byte, blanks only inside, and no space nor equal sign when it
    is not quoted; a gauge has no closing bracket at its end, which would be taken for a
    type. *)
Definition label_ok (m : metric) : Prop :=
  m.(m_name) ≠ [] ∧ Forall (λ c, 0 < c ∧ c ≠ c_quote ∧ (m.(m_quoted) = false → c ≠ c_equal ∧ isspace c = false)) m.(m_name) ∧ m.(m_type) ≠ automatic ∧
  (m.(m_type) = gauge → (∀ c l, m.(m_name) = c :: l → is_blank c = false) ∧ (∀ c l, m.(m_name) = l ++ [c] → is_blank c = false ∧ c ≠ c_close)).
Definition unit_ok (x : spec_float) (u : list Z) : Prop := Forall (λ c, 0 < c ∧ is_delimiter c = false) u ∧ ends_number x u.
Definition metric_ok (m : metric) : Prop :=
  label_ok m ∧ number_ok m.(m_value) ∧ unit_ok m.(m_value).(n_value) m.(m_unit) ∧ range_ok m.(m_warning) ∧ range_ok m.(m_critical) ∧
  opt_ok m.(m_min) ∧ opt_ok m.(m_max).

Lemma span_app f a b : Forall (λ c, f c = true) a → match b with c :: _ => f c = false | [] => True end → span f (a ++ b) = length a.
Proof.
  intros Ha Hb. induction Ha as [|c a Hc _ IH]; cbn; [|by rewrite Hc, IH]. destruct b as [|c b]; [done|]. cbn. by rewrite Hb.
Qed.

Section Printed.
Context (str : list Z) (Hcomma : c_comma ∉ str).

Lemma from_app i a b : from str i = a ++ b → from str (i + length a) = b.
Proof. unfold from. intros Hi. rewrite <- drop_drop, Hi. apply drop_app_length. Qed.

Lemma from_cons i c b : from str i = c :: b → from str (S i) = b.
Proof. intros Hi. replace (S i) with (i + length [c])%nat by (cbn; lia). by apply from_app. Qed.

Lemma byte_cons i c b : from str i = c :: b → byte str i = c.
Proof. intros Hi. rewrite byte_head, Hi. done. Qed.

Lemma byte_from i a b : from str i = a ++ b → byte str (i + length a) = default 0 (head b).
Proof. intros Hi. by rewrite byte_head, (from_app _ _ _ Hi). Qed.

(** Without a comma, numbers are read with [strtof]. *)
Lemma extract_float_plain i skip : isspace (byte str i) = false →
  extract_float str i skip =
    let '(v, n) := strtof (from str i) in
    let i := (i + n)%nat in
    (if (n =? 0)%nat then S754_nan else v, if skip && (byte str i =? c_semicolon) then S i else i).
Proof using Hcomma.
  intros Hsp. unfold extract_float. rewrite Hsp. cbv zeta.
  assert (span (λ c, negb (c =? c_comma)) (from str i) = length (from str i)) as ->.
  { rewrite <- (app_nil_r (from str i)) at 1. apply span_app; [|done]. apply Forall_forall. intros c Hc. apply negb_true_iff, Z.eqb_neq.
    intros ->. apply Hcomma. unfold from in Hc. rewrite <- (take_drop i str). apply elem_of_app. by right. }
  rewrite Nat.ltb_irrefl. by destruct (strtof (from str i)) as [v n].
Qed.

Lemma number_text_head n : number_ok n → ∃ c l, n.(n_text) = c :: l ∧ isspace c = false ∧ c ≠ c_at ∧ c ≠ c_tilde ∧ c ≠ c_colon ∧ c ≠ c_semicolon.
Proof. by intros (_ & H & _). Qed.

Lemma number_text_length n : number_ok n → length (n_text n) ≠ O.
Proof. intros Hn. destruct (number_text_head n Hn) as (c & l & -> & _). done. Qed.

(** A number: the pointer is after it, and after a semicolon when it is skipped. *)
Lemma extract_number i skip n rest : from str i = n_text n ++ rest → number_ok n → ends_number n.(n_value) rest →
  extract_float str i skip =
    (n_value n, let j := (i + length (n_text n))%nat in if skip && (default 0 (head rest) =? c_semicolon) then S j else j).
Proof using Hcomma.
  intros Hi Hn Hr. destruct (number_text_head n Hn) as (c & l & Hc & Hsp & _).
  rewrite extract_float_plain by (by rewrite byte_head, Hi, Hc). rewrite Hi, (proj2 (proj2 Hn)) by done. cbv zeta.
  rewrite (byte_from _ _ _ Hi). pose proof (number_text_length n Hn) as Hl. apply Nat.eqb_neq in Hl. by rewrite Hl.
Qed.

Lemma extract_number_semicolon i n rest : from str i = n_text n ++ c_semicolon :: rest → number_ok n →
  extract_float str i true = (n_value n, S (i + length (n_text n))).
Proof using Hcomma. intros Hi Hn. by rewrite (extract_number _ true _ _ Hi Hn). Qed.

Lemma number_no_tilde i n rest : from str i = n_text n ++ rest → number_ok n → (byte str i =? c_tilde) = false.
Proof.
  intros Hi Hn. destruct (number_text_head n Hn) as (c & l & Hc & _ & _ & Ht & _). rewrite byte_head, Hi, Hc. by apply Z.eqb_neq.
Qed.

(** No number before a semicolon, a space or the end. *)
Lemma extract_semicolon i rest : from str i = c_semicolon :: rest → extract_float str i true = (S754_nan, S i).
Proof using Hcomma.
  intros Hi. rewrite extract_float_plain by (by rewrite (byte_cons _ _ _ Hi)). rewrite Hi, strtof_none by (by left). cbv zeta.
  rewrite Nat.add_0_r, (byte_cons _ _ _ Hi). done.
Qed.

Lemma extract_end i rest : from str i = rest → rest = [] ∨ (∃ l, rest = c_space :: l) → extract_float str i true = (S754_nan, i).
Proof using Hcomma.
  intros Hi [->|[l ->]].
  - rewrite extract_float_plain by (by rewrite byte_head, Hi). rewrite Hi, strtof_none by done. cbv zeta. rewrite Nat.add_0_r, byte_head, Hi. done.
  - unfold extract_float. by rewrite (byte_cons _ _ _ Hi).
Qed.

Lemma ends_semicolon x l : ends_number x (c_semicolon :: l).
Proof. done. Qed.
Lemma ends_colon x l : ends_number x (c_colon :: l).
Proof. done. Qed.

(** An optional number before a semicolon. *)
Lemma extract_opt i n rest : from str i = opt_text n ++ c_semicolon :: rest → opt_ok n →
  extract_float str i true = (opt_value n, (i + length (opt_text n) + 1)%nat).
Proof using Hcomma.
  intros Hi Hn. destruct n as [n|]; cbn [opt_text opt_value] in *.
  - rewrite (extract_number _ _ _ _ Hi Hn (ends_semicolon _ _)). cbn. f_equal. lia.
  - cbn in Hi. rewrite (extract_semicolon _ _ Hi). cbn. f_equal. lia.
Qed.

(** An optional number before the end of the metric. *)
Lemma extract_last i n rest : from str i = opt_text n ++ rest → opt_ok n → rest = [] ∨ (∃ l, rest = c_space :: l) →
  extract_float str i true = (opt_value n, (i + length (opt_text n))%nat).
Proof using Hcomma.
  intros Hi Hn Hr. destruct n as [n|]; cbn [opt_text opt_value] in *.
  - rewrite (extract_number _ _ _ _ Hi Hn) by (by destruct Hr as [->|[l ->]]). by destruct Hr as [->|[l ->]].
  - cbn in Hi. rewrite (extract_end _ _ Hi Hr). cbn. f_equal. lia.
Qed.

Lemma extract_bounds low high inclusive rest (j : nat) :
  from str j = opt_text high ++ c_semicolon :: rest → opt_ok high →
  (let '(h, k) := extract_float str j true in
   (low, if isnan h && ((k =? j) || (k =? j + 1))%nat then S754_infinity false else h, inclusive : bool, k)) =
  (low : spec_float, match high with Some n => n_value n | None => S754_infinity false end, inclusive, (j + length (opt_text high) + 1)%nat).
Proof using Hcomma.
  intros Hj Hh. rewrite (extract_opt _ _ _ Hj Hh). destruct high as [n|]; cbn [opt_value opt_text length].
  - by rewrite (proj1 Hh).
  - cbn [isnan andb]. rewrite Nat.add_0_r, Nat.eqb_refl, orb_true_r. done.
Qed.

(** The part of [extract_range] after the inclusion mark. *)
Definition extract_limits (inclusive : bool) (i : nat) : spec_float * spec_float * bool * nat :=
  let '(low, i) := if byte str i =? c_tilde then (S754_infinity true, S i) else extract_float str i true in
  let '(low, high, i) :=
    if negb (byte str i =? c_colon) then (if isnan low then low else S754_zero false, low, i)
    else
      let ptr := S i in
      let '(high, i) := extract_float str ptr true in
      (low, if isnan high && ((i =? ptr) || (i =? ptr + 1))%nat then S754_infinity false else high, i) in
  (low, high, inclusive, i).

Lemma extract_marked i b l : from str i = inclusive_text b ++ l → (default 0 (head l) =? c_at) = false →
  extract_range str i = extract_limits b (i + length (inclusive_text b)).
Proof.
  intros Hi Hl. unfold extract_range. fold extract_limits. destruct b; cbn [inclusive_text app length] in *.
  - rewrite (byte_cons _ _ _ Hi). cbn [Z.eqb c_at Pos.eqb]. by rewrite Nat.add_1_r.
  - rewrite byte_head, Hi, Hl. by rewrite Nat.add_0_r.
Qed.

Lemma limits_up_to i n rest b : from str i = n_text n ++ c_semicolon :: rest → number_ok n → default 0 (head rest) ≠ c_colon →
  extract_limits b i = (S754_zero false, n_value n, b, (i + length (n_text n) + 1)%nat).
Proof using Hcomma.
  intros Hi Hn Hr. unfold extract_limits. rewrite (number_no_tilde _ _ _ Hi Hn), (extract_number_semicolon _ _ _ Hi Hn).
  rewrite (byte_head _ (S _)). rewrite (from_cons _ _ _ (from_app _ _ _ Hi)). apply Z.eqb_neq in Hr. rewrite Hr. cbn [negb].
  rewrite (proj1 Hn). f_equal. lia.
Qed.

Lemma limits_none i rest b : from str i = c_semicolon :: rest → default 0 (head rest) ≠ c_colon →
  extract_limits b i = (S754_nan, S754_nan, b, (i + 1)%nat).
Proof using Hcomma.
  intros Hi Hr. unfold extract_limits. rewrite (byte_cons _ _ _ Hi). cbn [Z.eqb c_semicolon c_tilde Pos.eqb].
  rewrite (extract_semicolon _ _ Hi), byte_head, (from_cons _ _ _ Hi). apply Z.eqb_neq in Hr. rewrite Hr. cbn. f_equal. lia.
Qed.

Lemma limits_between i b l h rest :
  let ltext := match l with Some n => n_text n | None => [c_tilde] end in
  from str i = ltext ++ c_colon :: opt_text h ++ c_semicolon :: rest → opt_ok l → opt_ok h →
  extract_limits b i =
    (match l with Some n => n_value n | None => S754_infinity true end, match h with Some n => n_value n | None => S754_infinity false end,
     b, (i + length ltext + 1 + length (opt_text h) + 1)%nat).
Proof using Hcomma.
  cbv zeta. intros Hi Hl Hh. set (ltext := match l with Some n => n_text n | None => [c_tilde] end) in *. pose proof (from_app _ _ _ Hi) as Hcol.
  unfold extract_limits.
  assert ((if byte str i =? c_tilde then (S754_infinity true, S i) else extract_float str i true) =
    (match l with Some n => n_value n | None => S754_infinity true end, (i + length ltext)%nat)) as ->.
  { unfold ltext in *. destruct l as [n|].
    - rewrite (number_no_tilde _ _ _ Hi Hl). by rewrite (extract_number _ _ _ _ Hi Hl (ends_colon _ _)).
    - rewrite (byte_cons _ _ _ Hi). cbn. f_equal. lia. }
  rewrite (byte_cons _ _ _ Hcol). cbn [Z.eqb c_colon Pos.eqb negb].
  pose proof (extract_bounds (match l with Some n => n_value n | None => S754_infinity true end) h b rest (S (i + length ltext))
    (from_cons _ _ _ Hcol) Hh) as He.
  destruct (extract_float str (S (i + length ltext)) true) as [hv k]. etransitivity; [exact He|]. f_equal. lia.
Qed.

Lemma extract_range_text i r rest : from str i = range_text r ++ c_semicolon :: rest → range_ok r → default 0 (head rest) ≠ c_colon →
  extract_range str i = (range_value r, (i + length (range_text r) + 1)%nat).
Proof using Hcomma.
  intros Hi Hr Hrest. destruct r as [|b h|b l h]; cbn [range_text range_value] in *.
  - rewrite (extract_marked i false (c_semicolon :: rest) Hi) by done. cbn [inclusive_text length]. rewrite Nat.add_0_r.
    by rewrite (limits_none _ _ _ Hi Hrest).
  - rewrite <- app_assoc in Hi. destruct (number_text_head h Hr) as (c & l & Hc & _ & Hat & _).
    rewrite (extract_marked i b _ Hi) by (rewrite Hc; by apply Z.eqb_neq).
    rewrite (limits_up_to _ _ _ _ (from_app _ _ _ Hi) Hr Hrest). rewrite length_app. f_equal. lia.
  - destruct Hr as [Hl Hh]. rewrite <- !app_assoc in Hi. cbn [app] in Hi.
    rewrite (extract_marked i b _ Hi).
    2: { destruct l as [n|]; [|done]. destruct (number_text_head n Hl) as (c & l' & Hc & _ & Hat & _). rewrite Hc. by apply Z.eqb_neq. }
    rewrite (limits_between _ _ _ _ _ (from_app _ _ _ Hi) Hl Hh). rewrite !length_app. cbn [length]. f_equal. destruct l; cbn [length]; lia.
Qed.

Lemma opt_no_colon n rest : opt_ok n → default 0 (head (opt_text n ++ c_semicolon :: rest)) ≠ c_colon.
Proof. destruct n as [n|]; intros Hn; [|done]. destruct (number_text_head n Hn) as (c & l & Hc & _ & _ & _ & Hcol & _). cbn [opt_text]. by rewrite Hc. Qed.

Lemma range_no_colon r rest : range_ok r → default 0 (head (range_text r ++ c_semicolon :: rest)) ≠ c_colon.
Proof.
  destruct r as [|b h|b l h]; intros Hr; cbn [range_text]; [done|..]; (destruct b; [done|]); cbn [inclusive_text app].
  - destruct (number_text_head h Hr) as (c & l & -> & _ & _ & _ & Hcol & _). done.
  - destruct l as [n|]; [|done]. destruct (number_text_head n (proj1 Hr)) as (c & l & -> & _ & _ & _ & Hcol & _). done.
Qed.

(** The end of a metric: of the string, or the start of another. *)
Definition metric_end (rest : list Z) : Prop := rest = [] ∨ ∃ c l, rest = c_space :: c :: l ∧ isspace c = false.

Lemma parse_values_text type name m i rest : from str i = values_text m ++ rest → metric_ok m → metric_end rest →
  let '(wl, w, wm) := range_value m.(m_warning) in
  let '(cl, c, cm) := range_value m.(m_critical) in
  parse_values str type name i =
    (Some (PerfData c cl cm (opt_value m.(m_max)) (opt_value m.(m_min)) name m.(m_unit) (n_value m.(m_value)) type w wl wm),
     (i + length (values_text m) + span isspace rest)%nat).
Proof using Hcomma.
  intros Hi (_ & Hval & [Hunit Huend] & Hw & Hc & Hmin & Hmax) Hrest.
  destruct (range_value (m_warning m)) as [[wl w] wm] eqn:Ew. destruct (range_value (m_critical m)) as [[cl c] cm] eqn:Ec.
  unfold values_text in *. rewrite <- !app_assoc in Hi. cbn [app] in Hi. rewrite <- !app_assoc in Hi. cbn [app] in Hi. rewrite <- !app_assoc in Hi. cbn [app] in Hi.
  rewrite <- !app_assoc in Hi. unfold parse_values. rewrite (extract_number _ false _ _ Hi Hval).
  2: { destruct (m_unit m) as [|u us]; [apply ends_semicolon|exact Huend]. }
  cbn [andb]. cbv zeta. rewrite (proj1 Hval). apply from_app in Hi as Hu. set (i1 := (i + length (n_text (m_value m)))%nat) in *.
  assert (span (λ c, negb (is_delimiter c)) (from str i1) = length (m_unit m)) as Hspan.
  { rewrite Hu. apply span_app; [|done]. eapply Forall_impl; [exact Hunit|]. intros x [_ ->]. done. }
  rewrite Hspan. replace (take (length (m_unit m)) (from str i1)) with (m_unit m) by (by rewrite Hu, take_app_length).
  apply from_app in Hu as Hs. rewrite (byte_cons _ _ _ Hs). cbn [Z.eqb c_semicolon Pos.eqb]. apply from_cons in Hs. set (i2 := S (i1 + length (m_unit m))) in *.
  rewrite (extract_range_text _ _ _ Hs Hw (range_no_colon _ _ Hc)), Ew.
  assert (from str (i2 + length (range_text (m_warning m)) + 1) = range_text (m_critical m) ++ c_semicolon :: opt_text (m_min m) ++ c_semicolon :: opt_text (m_max m) ++ rest) as H3
    by (rewrite Nat.add_1_r; eapply from_cons, from_app, Hs).
  set (i3 := (i2 + length (range_text (m_warning m)) + 1)%nat) in *. rewrite (extract_range_text _ _ _ H3 Hc (opt_no_colon _ _ Hmin)), Ec.
  assert (from str (i3 + length (range_text (m_critical m)) + 1) = opt_text (m_min m) ++ c_semicolon :: opt_text (m_max m) ++ rest) as H4
    by (rewrite Nat.add_1_r; eapply from_cons, from_app, H3).
  set (i4 := (i3 + length (range_text (m_critical m)) + 1)%nat) in *. rewrite (extract_opt _ _ _ H4 Hmin).
  assert (from str (i4 + length (opt_text (m_min m)) + 1) = opt_text (m_max m) ++ rest) as H5 by (rewrite Nat.add_1_r; eapply from_cons, from_app, H4).
  set (i5 := (i4 + length (opt_text (m_min m)) + 1)%nat) in *. rewrite (extract_last _ _ _ H5 Hmax) by (destruct Hrest as [->|(? & ? & -> & _)]; eauto).
  rewrite (from_app _ _ _ H5). do 2 f_equal. unfold i5, i4, i3, i2, i1. rewrite !length_app. cbn [length]. rewrite !length_app. cbn [length].
  rewrite !length_app. cbn [length]. rewrite !length_app. cbn [length]. lia.
Qed.

Lemma name_length_quoted lab rest : c_quote ∉ lab → name_length true (lab ++ c_quote :: c_equal :: rest) = (length lab + 1)%nat.
Proof.
  induction lab as [|c lab IH]; intros Hq; [done|]. apply not_elem_of_cons in Hq as [Hc Hq]. cbn [app name_length orb].
  destruct (Z.eqb_spec c c_quote) as [->|_]; [done|]. rewrite IH by done. done.
Qed.

Lemma name_length_plain lab rest : Forall (λ c, c ≠ c_quote ∧ c ≠ c_equal ∧ isspace c = false) lab →
  name_length false (lab ++ c_equal :: rest) = length lab.
Proof.
  induction 1 as [|c lab (Hq & He & Hs) _ IH]; [done|]. cbn [app name_length orb length]. apply Z.eqb_neq in Hq, He. rewrite He, Hs, Hq. cbn. by rewrite IH.
Qed.

Lemma peek_from i a c b : from str i = a ++ c :: b → peek str (Z.of_nat (i + length a)) = Ret c.
Proof.
  intros Hi. unfold peek. apply from_app in Hi. rewrite Nat2Z.id. fold (byte str (i + length a)). rewrite (byte_cons _ _ _ Hi).
  assert (i + length a < length str)%nat by (apply (f_equal length) in Hi; unfold from in Hi; rewrite length_drop in Hi; cbn in Hi; lia).
  destruct (Z.leb_spec 0 (Z.of_nat (i + length a))); [|lia]. destruct (Z.leb_spec (Z.of_nat (i + length a)) (Z.of_nat (length str))); [done|lia].
Qed.

Lemma trim_back_stays fuel s e c : peek str e = Ret c → is_blank c = false → c ≠ 0 → trim_back str (S fuel) s e = Ret e.
Proof. intros Hp Hb Hc. cbn [trim_back]. case_match; [done|]. rewrite Hp, Hb. apply Z.eqb_neq in Hc. by rewrite Hc. Qed.

(** A label from [i + q] to [i + q + length - 1], in quotes or not, that neither starts nor
    ends with a blank. *)
Lemma label_found i (quoted : bool) x lab z rest : let q := if quoted then [c_quote] else [] in
  from str i = q ++ (x :: lab) ++ q ++ c_equal :: rest → x ≠ c_quote → is_blank x = false →
  last (x :: lab) = Some z → is_blank z = false → z ≠ 0 → z ≠ c_quote →
  label str i (i + (length (x :: lab) + 2 * length q)) = label_type str (Z.of_nat (i + length q)) (Z.of_nat (i + length q + length lab)).
Proof.
  cbv zeta. intros Hi Hxq Hx Hz Hzb Hz0 Hzq. apply last_Some in Hz as [lab' Hlab]. set (q := if quoted then [c_quote] else []) in *.
  pose proof (from_app _ _ _ Hi) as H1. unfold label. cbv zeta.
  assert ((if byte str i =? c_quote then S i else i) = (i + length q)%nat) as ->.
  { unfold q in *. destruct quoted; cbn [app length] in *.
    - rewrite (byte_cons _ _ _ Hi). cbn. lia.
    - rewrite (byte_cons _ _ _ Hi). apply Z.eqb_neq in Hxq. rewrite Hxq. lia. }
  assert (peek str (Z.of_nat (i + length q + length lab)) = Ret z) as Hlast.
  { replace (i + length q + length lab)%nat with (i + length q + length lab')%nat by (apply (f_equal length) in Hlab; rewrite length_app in Hlab; cbn in Hlab; lia).
    eapply peek_from. rewrite H1, Hlab, <- app_assoc. reflexivity. }
  assert (peek str (Z.of_nat (i + (length (x :: lab) + 2 * length q)) - 1) = Ret (if quoted then c_quote else z)) as ->.
  { unfold q in *. destruct quoted; cbn [length] in *.
    - replace (Z.of_nat _ - 1) with (Z.of_nat (i + length (c_quote :: x :: lab))) by (cbn [length]; lia). eapply peek_from. rewrite Hi. reflexivity.
    - replace (Z.of_nat _ - 1) with (Z.of_nat (i + 0 + length lab)) by lia. done. }
  rewrite H1. cbn [app span]. rewrite Hx, Nat.add_0_r.
  assert ((if (if quoted then c_quote else z) =? c_quote then Z.of_nat (i + (length (x :: lab) + 2 * length q)) - 1 - 1
           else Z.of_nat (i + (length (x :: lab) + 2 * length q)) - 1) = Z.of_nat (i + length q + length lab)) as ->.
  { unfold q. destruct quoted; cbn [length]; [cbn; lia|]. apply Z.eqb_neq in Hzq. rewrite Hzq. lia. }
  by rewrite (trim_back_stays _ _ _ z).
Qed.

(** What [label] gives for a label and a name. *)
Definition reads (i n : nat) (ty : data_type) (name : list Z) : Prop :=
  ∃ s e, label str i (i + n) = Ret (ty, s, e) ∧ 0 < e - s + 1 ∧ take (Z.to_nat (e - s + 1)) (from str (Z.to_nat s)) = name.

Lemma reads_typed i (quoted : bool) t ty name rest : let q := if quoted then [c_quote] else [] in
  from str i = q ++ (t :: c_open :: name ++ [c_close]) ++ q ++ c_equal :: rest →
  name ≠ [] → (t, ty) ∈ [(97, absolute); (99, counter); (100, derive)] → reads i (length (t :: c_open :: name ++ [c_close]) + 2 * length q) ty name.
Proof.
  cbv zeta. intros Hi Hne Hty. unfold reads. set (q := if quoted then [c_quote] else []) in *. set (lab := c_open :: name ++ [c_close]) in *.
  assert (is_blank t = false ∧ t ≠ c_quote) as [Hb Htq] by (repeat (apply elem_of_cons in Hty as [Hty|Hty]; [by simplify_eq|]); by apply elem_of_nil in Hty).
  unfold q at 1. rewrite (label_found _ quoted t lab c_close _ Hi Htq Hb); [| |done|done|done].
  2: { unfold lab. change (t :: c_open :: name ++ [c_close]) with ((t :: c_open :: name) ++ [c_close]). apply last_snoc. }
  unfold label_type. fold q. pose proof (from_app _ _ _ Hi) as H1.
  assert (peek str (Z.of_nat (i + length q + length lab)) = Ret c_close) as ->.
  { replace (i + length q + length lab)%nat with (i + length q + length (t :: c_open :: name))%nat by (unfold lab; cbn [length]; rewrite length_app; cbn; lia).
    eapply peek_from. rewrite H1. unfold lab. cbn [app]. rewrite <- app_assoc. reflexivity. }
  rewrite Nat2Z.id, H1. cbn [Z.eqb c_close Pos.eqb]. unfold lab at 1. cbn [app].
  exists (Z.of_nat (i + length q) + 2), (Z.of_nat (i + length q + length lab) - 1). split.
  { repeat (apply elem_of_cons in Hty as [Hty|Hty]; [by simplify_eq|]). by apply elem_of_nil in Hty. }
  unfold lab in *. cbn [length app]. rewrite length_app. cbn [length]. assert (0 < Z.of_nat (length name)) by (destruct name; [done|cbn; lia]). split; [lia|].
  replace (Z.to_nat (Z.of_nat (i + length q) + 2)) with (S (S (i + length q))) by lia. cbn [app] in H1. apply from_cons, from_cons in H1. rewrite H1, <- app_assoc.
  replace (Z.to_nat _) with (length name) by lia. apply take_app_length.
Qed.

Lemma reads_gauge i (quoted : bool) name rest : let q := if quoted then [c_quote] else [] in
  from str i = q ++ name ++ q ++ c_equal :: rest → name ≠ [] → Forall (λ c, 0 < c ∧ c ≠ c_quote) name →
  (∀ c l, name = c :: l → is_blank c = false) → (∀ c l, name = l ++ [c] → is_blank c = false ∧ c ≠ c_close) → reads i (length name + 2 * length q) gauge name.
Proof.
  cbv zeta. intros Hi Hne Hall Hfirst Hlast. set (q := if quoted then [c_quote] else []) in *.
  destruct name as [|x lab]; [done|]. destruct (last (x :: lab)) as [z|] eqn:Hz; [|by apply last_None in Hz].
  pose proof Hz as (lab' & Hlab)%last_Some. destruct (Hlast _ _ Hlab) as [Hzb Hzc].
  assert (0 < z ∧ z ≠ c_quote) as [Hz0 Hzq] by (rewrite Forall_forall in Hall; apply Hall; rewrite Hlab; apply elem_of_app; right; left).
  assert (x ≠ c_quote) as Hxq by (rewrite Forall_forall in Hall; apply Hall; left).
  unfold reads, q at 1. rewrite (label_found _ quoted _ _ z _ Hi Hxq (Hfirst _ _ eq_refl) Hz Hzb ltac:(lia) Hzq). unfold label_type. fold q.
  pose proof (from_app _ _ _ Hi) as H1.
  assert (peek str (Z.of_nat (i + length q + length lab)) = Ret z) as ->.
  { replace (i + length q + length lab)%nat with (i + length q + length lab')%nat by (apply (f_equal length) in Hlab; rewrite length_app in Hlab; cbn in Hlab; lia).
    eapply peek_from. rewrite H1, Hlab, <- app_assoc. reflexivity. }
  apply Z.eqb_neq in Hzc. rewrite Hzc. eexists _, _. split; [done|]. split; [lia|].
  rewrite Nat2Z.id, H1. replace (Z.to_nat _) with (length (x :: lab)) by (cbn [length]; lia). apply take_app_length.
Qed.

(** The label of a metric is read as its type and its name. *)
Lemma reads_metric i m rest : from str i = quote_text m ++ label_text m ++ quote_text m ++ c_equal :: rest → label_ok m →
  reads i (length (label_text m) + 2 * length (quote_text m)) m.(m_type) m.(m_name).
Proof.
  intros Hi (Hne & Hall & Hauto & Hgauge). destruct m as [quoted type name v u w c mi ma]. unfold label_text, quote_text in *. cbn [m_type m_name m_quoted] in *.
  destruct type; [| | | |done].
  - destruct (Hgauge eq_refl). eapply reads_gauge; [exact Hi|done| |done|done]. eapply Forall_impl; [exact Hall|]. naive_solver.
  - eapply reads_typed; [exact Hi|done|]. right. left.
  - eapply reads_typed; [exact Hi|done|]. right. right. left.
  - eapply reads_typed; [exact Hi|done|]. left.
Qed.

Lemma label_bytes m : label_ok m → Forall (λ c, c ≠ c_quote ∧ (m.(m_quoted) = false → c ≠ c_equal ∧ isspace c = false)) (label_text m).
Proof.
  intros (_ & Hall & _). assert (Forall (λ c, c ≠ c_quote ∧ (m.(m_quoted) = false → c ≠ c_equal ∧ isspace c = false)) m.(m_name)) as Hn
    by (eapply Forall_impl; [exact Hall|]; naive_solver).
  unfold label_text. destruct (m_type m); try done; (repeat apply Forall_cons_2; [done|done|]); (apply Forall_app; split; [done|]); by apply Forall_singleton.
Qed.

Lemma name_length_metric m rest : label_ok m → name_length false (quote_text m ++ label_text m ++ quote_text m ++ c_equal :: rest) =
  (length (label_text m) + 2 * length (quote_text m))%nat.
Proof.
  intros Hl. apply label_bytes in Hl. unfold quote_text. destruct (m_quoted m); cbn [app].
  - cbn [name_length]. change (c_quote =? c_quote) with true. cbn. rewrite name_length_quoted; [lia|]. intros Hin. rewrite Forall_forall in Hl. by destruct (Hl _ Hin).
  - rewrite name_length_plain; [cbn; lia|]. eapply Forall_impl; [exact Hl|]. naive_solver.
Qed.

(** One metric. *)
Lemma parse_metric fuel names m i rest : from str i = metric_text m ++ rest → metric_ok m → metric_end rest → m.(m_name) ∉ names →
  parse_metrics str (S fuel) names i =
    (let! ps := parse_metrics str fuel (m.(m_name) :: names) (i + length (metric_text m) + span isspace rest) in Ret (metric_value m :: ps)).
Proof using Hcomma.
  intros Hi Hok Hrest Hnew. unfold metric_text in Hi. rewrite <- !app_assoc in Hi. cbn [app] in Hi. pose proof Hok as [Hlab _]. cbn [parse_metrics].
  assert (i < length str)%nat as Hlt.
  { apply (f_equal length) in Hi. unfold from in Hi. rewrite length_drop, !length_app in Hi. cbn in Hi. lia. }
  destruct (Nat.leb_spec (length str) i); [lia|].
  assert (name_length false (from str i) = (length (label_text m) + 2 * length (quote_text m))%nat) as -> by (rewrite Hi; by apply name_length_metric).
  destruct (reads_metric i m _ Hi Hlab) as (s & e & -> & Hsz & Hname). rewrite Hname. destruct (Z.ltb_spec 0 (e - s + 1)); [|lia]. cbn [negb orb].
  rewrite bool_decide_eq_false_2 by done.
  assert (from str (i + (length (label_text m) + 2 * length (quote_text m))) = c_equal :: values_text m ++ rest) as Heq.
  { replace (i + (length (label_text m) + 2 * length (quote_text m)))%nat with (i + length (quote_text m) + length (label_text m) + length (quote_text m))%nat by lia.
    eapply from_app, from_app, from_app, Hi. }
  rewrite (byte_cons _ _ _ Heq). change (c_equal =? c_equal) with true. cbv iota.
  pose proof (parse_values_text m.(m_type) m.(m_name) m _ rest (from_cons _ _ _ Heq) Hok Hrest) as Hv. unfold metric_value.
  destruct (range_value (m_warning m)) as [[wl w] wm]. destruct (range_value (m_critical m)) as [[cl c] cm]. rewrite Hv.
  replace (S (i + (length (label_text m) + 2 * length (quote_text m))) + length (values_text m) + span isspace rest)%nat
    with (i + length (metric_text m) + span isspace rest)%nat; [done|].
  unfold metric_text. rewrite !length_app. cbn [length]. lia.
Qed.

Lemma metric_head m : metric_ok m → ∃ c l, metric_text m = c :: l ∧ isspace c = false.
Proof.
  intros [Hl _]. pose proof Hl as (Hne & _). apply label_bytes in Hl. unfold metric_text, quote_text. destruct (m_quoted m); [by eexists _, _|].
  destruct (label_text m) as [|c l] eqn:Ht; [unfold label_text in Ht; by destruct (m_type m)|]. apply Forall_cons in Hl as [[_ Hc] _].
  eexists _, _. split; [reflexivity|]. by apply Hc.
Qed.

Lemma parse_printed ms : ∀ fuel names i, from str i = metrics_text ms → (i ≤ length str)%nat → Forall metric_ok ms → NoDup (m_name <$> ms) →
  (∀ m, m ∈ ms → m.(m_name) ∉ names) → (length ms < fuel)%nat → parse_metrics str fuel names i = Ret (metric_value <$> ms).
Proof using Hcomma.
  induction ms as [|m ms IH]; intros fuel names i Hi Hle Hok Hnd Hnew Hf; (destruct fuel as [|fuel]; [cbn in Hf; lia|]).
  - cbn [parse_metrics]. destruct (Nat.leb_spec (length str) i); [done|]. apply (f_equal length) in Hi. unfold from in Hi. rewrite length_drop in Hi. cbn in Hi. lia.
  - cbn [metrics_text] in Hi. set (rest := match ms with [] => [] | _ => c_space :: metrics_text ms end) in *.
    apply Forall_cons in Hok as [Hm Hok]. cbn [fmap list_fmap] in Hnd. apply NoDup_cons in Hnd as [Hnm Hnd].
    assert (metric_end rest) as Hend.
    { unfold rest, metric_end. destruct ms as [|m' ms']; [by left|]. right. apply Forall_cons in Hok as [Hm' _].
      destruct (metric_head m' Hm') as (c & l & Hc & Hs). cbn [metrics_text]. rewrite Hc. eexists c, _. split; [reflexivity|done]. }
    rewrite (parse_metric fuel names m i rest Hi Hm Hend) by (apply Hnew; left).
    assert (from str (i + length (metric_text m) + span isspace rest) = metrics_text ms) as Hi'.
    { apply from_app in Hi. unfold rest in *. destruct ms as [|m' ms']; [cbn; by rewrite Nat.add_0_r|].
      destruct Hend as [?|(c & l & Hr & Hs)]; [done|]. rewrite Hr. cbn [span]. change (isspace c_space) with true. rewrite Hs.
      rewrite Nat.add_1_r. by eapply from_cons. }
    assert (i + length (metric_text m) + span isspace rest ≤ length str)%nat as Hle'.
    { pose proof (span_le isspace rest). apply (f_equal length) in Hi. unfold from in Hi. rewrite length_drop, length_app in Hi. lia. }
    rewrite (IH fuel _ _ Hi' Hle' Hok Hnd); [done| |cbn in Hf; lia].
    intros m' Hin. apply not_elem_of_cons. split; [|apply Hnew; by right]. intros Heq. apply Hnm. rewrite <- Heq. by apply list_elem_of_fmap_2.
Qed.
End Printed.

Lemma length_metrics_text ms : (length ms ≤ length (metrics_text ms))%nat.
Proof.
  induction ms as [|m ms IH]; [done|]. cbn [metrics_text]. unfold metric_text. rewrite !length_app. cbn [length].
  destruct ms as [|m' ms]; cbn [length] in *; lia.
Qed.

(** ** Theorems *)

(** The parse of any string ends, or it reads outside of the string; the metrics it gives
    have names of their own, that are not empty, and values that are numbers. *)
Theorem parse_perfdata_names str :
  match parse_perfdata str with
  | Ret ps => NoDup (p_name <$> ps) ∧ Forall (λ p, p.(p_name) ≠ [] ∧ isnan p.(p_value) = false) ps
  | Throw e => e = undefined
  end.
Proof.
  unfold parse_perfdata. pose proof (parse_metrics_ok str (S (length str)) [] (span is_blank str) ltac:(lia)) as H.
  destruct (parse_metrics _ _ _ _) as [ps|e]; [|done]. destruct H as [Hnd Hall]. split; [done|].
  eapply Forall_impl; [exact Hall|]. naive_solver.
Qed.

(** C17: metrics printed as plugins do, with names in quotes or not, types, units, ranges and
    bounds, are read back as they are; a number is any text that [strtof] reads as a whole,
    decimal numbers among them ([decimal_ok]). *)
Theorem perfdata_roundtrip ms : Forall metric_ok ms → NoDup (m_name <$> ms) → c_comma ∉ metrics_text ms →
  parse_perfdata (metrics_text ms) = Ret (metric_value <$> ms).
Proof.
  intros Hok Hnd Hcomma. unfold parse_perfdata.
  assert (span is_blank (metrics_text ms) = O) as ->.
  { destruct ms as [|m ms]; [done|]. apply Forall_cons in Hok as [Hm _]. destruct (metric_head m Hm) as (c & l & Hc & Hs). cbn [metrics_text]. rewrite Hc.
    cbn [app span]. assert (is_blank c = false) as ->; [|done]. unfold isspace, is_blank in *. lia. }
  apply parse_printed; [done|done|lia|done|done|intros m _; apply not_elem_of_nil|]. pose proof (length_metrics_text ms). lia.
Qed.

(** A counter in bytes with both thresholds, and a gauge. *)
Definition sample_metrics : list metric :=
  [Metric true counter (text "in out") (decimal false [1; 2] (Some [5])) (text "B") (UpTo false (decimal false [8] None))
     (Between true (Some (decimal true [1] None)) None) (Some (decimal false [0] None)) None;
   Metric false gauge (text "load1") (decimal true [3] None) [] NoRange (Between false None (Some (decimal false [9] (Some [2; 5])))) None
     (Some (decimal false [1; 0; 0] None))].

Lemma perfdata_roundtrip_witness : parse_perfdata (metrics_text sample_metrics) = Ret (metric_value <$> sample_metrics).
Proof.
  assert (∀ neg ds f, forallb (λ d, (0 <=? d) && (d <=? 9)) (ds ++ default [] f) && match ds with [] => false | _ => true end = true →
    number_ok (decimal neg ds f)) as Hnum.
  { intros neg ds f [H1 H2]%andb_true_iff. rewrite forallb_app in H1. apply andb_true_iff in H1 as [H1 H3].
    assert (∀ l, forallb (λ d, (0 <=? d) && (d <=? 9)) l = true → is_digits l) as Hdig.
    { intros l Hl. apply Forall_forall. intros d Hd. rewrite forallb_forall in Hl. apply list_elem_of_In in Hd. specialize (Hl d Hd). lia. }
    apply decimal_ok; [by apply Hdig|by destruct ds|]. destruct f; [by apply Hdig|done]. }
  apply perfdata_roundtrip.
  - repeat apply Forall_cons_2; [..|apply Forall_nil_2]; unfold metric_ok, label_ok, unit_ok;
      split_and!; try first [done|by apply Hnum|by repeat apply Forall_cons_2|by split; [apply Hnum|]|by split; [|apply Hnum]].
    intros _. split.
    + intros c l [= <- _]. done.
    + intros c l Heq. change (m_name _) with (text "load" ++ text "1") in Heq. apply app_inj_tail in Heq as [_ <-]. done.
  - vm_compute. apply NoDup_cons. split; [|apply NoDup_singleton]. intros H. by apply list_elem_of_singleton in H.
  - apply (bool_decide_eq_true_1 (c_comma ∉ metrics_text sample_metrics)). vm_compute. reflexivity.
Defined.

(** A string that starts with an equal sign makes the parser read the byte before it, as does
    a lone quote; a metric without a name near the end makes it read after the end. *)
Example reads_before_the_string : parse_perfdata (text "=1") = Throw undefined.
Proof. vm_compute. reflexivity. Qed.
Example lone_quote_reads_before : parse_perfdata (text "'") = Throw undefined.
Proof. vm_compute. reflexivity. Qed.
Example reads_after_the_string : parse_perfdata (text "a=1 =2") = Throw undefined.
Proof. vm_compute. reflexivity. Qed.
