(* ===== verification/AgentMetrics.v ===== *)
(** * The results of the monitoring agent

    The agent keeps the results of its checks as metrics of OpenTelemetry until it sends them
    ([agent/src/scheduler.cc], the functions that store results); the engine turns the
    metrics it receives into the result of a check again
    ([engine/modules/opentelemetry/src/centreon_agent/agent_check_result_builder.cc]).

    The protobuf messages are records.  The agent finds the metrics of a service through maps
    of pointers into the message it builds: the maps hold positions here.  What
    [absl::StrAppend] prints for a number is a parameter. *)

From Stdlib Require Import SpecFloat.
From S2P Require Import Prelude CheckOutput ServiceCheck Perfdata Utf8.

(** ** What the agent builds *)

(** [NumberDataPoint]: the value is one of two *)
Inductive point_value := AsInt (z : Z) | AsDouble (x : spec_float).

Record data_point := DataPoint {
  dp_time : Z;
  dp_value : point_value;
  dp_attributes : list string;
  (** the label and the value *)
  dp_exemplars : list (string * spec_float);
}.

Record otel_metric := OtelMetric { om_name : list Z; om_description : list Z; om_unit : list Z; om_points : list data_point }.
Record resource_metrics := ResourceMetrics { rm_host : list Z; rm_service : list Z; rm_metrics : list otel_metric }.

Record scope_metric_request := ScopeMetricRequest { scope_metric : nat; scope_metrics : gmap (list Z) nat }.
Record exporter := Exporter { _current_request : list resource_metrics; _serv_to_scope_metrics : gmap (list Z) scope_metric_request }.

Definition _init_export_request : exporter := Exporter [] ∅.

(** The metric at a position. *)
Definition on_metric (i j : nat) (f : otel_metric → otel_metric) (e : exporter) : exporter :=
  Exporter (alter (λ r, ResourceMetrics r.(rm_host) r.(rm_service) (alter f j r.(rm_metrics))) i e.(_current_request)) e.(_serv_to_scope_metrics).

Definition _get_scope_metrics (host service : list Z) (e : exporter) : exporter :=
  match e.(_serv_to_scope_metrics) !! service with
  | Some _ => e
  | None =>
      Exporter (e.(_current_request) ++ [ResourceMetrics host service []])
        (<[service := ScopeMetricRequest (length e.(_current_request)) ∅]> e.(_serv_to_scope_metrics))
  end.

(** [_get_metric] of the scope of a service, where the service has one *)
Definition _get_metric (service name : list Z) (e : exporter) : nat * nat * exporter :=
  match e.(_serv_to_scope_metrics) !! service with
  | None => (O, O, e)
  | Some s =>
      let i := s.(scope_metric) in
      match s.(scope_metrics) !! name with
      | Some j => (i, j, e)
      | None =>
          let j := match e.(_current_request) !! i with Some r => length r.(rm_metrics) | None => O end in
          (i, j,
           Exporter
             (alter (λ r, ResourceMetrics r.(rm_host) r.(rm_service) (r.(rm_metrics) ++ [OtelMetric name [] [] []])) i e.(_current_request))
             (<[service := ScopeMetricRequest i (<[name := j]> s.(scope_metrics))]> e.(_serv_to_scope_metrics)))
      end
  end.

Definition set_description (d : list Z) (m : otel_metric) : otel_metric := OtelMetric m.(om_name) d m.(om_unit) m.(om_points).
Definition set_unit (u : list Z) (m : otel_metric) : otel_metric := OtelMetric m.(om_name) m.(om_description) u m.(om_points).
Definition add_data_point (p : data_point) (m : otel_metric) : otel_metric :=
  OtelMetric m.(om_name) m.(om_description) m.(om_unit) (m.(om_points) ++ [p]).

(** [x <= std::numeric_limits<double>::max()], for a [float] *)
Definition is_set (x : spec_float) : bool := match x with S754_nan | S754_infinity false => false | _ => true end.

Definition _add_exemplar (label : string) (x : spec_float) : list (string * spec_float) := if is_set x then [(label, x)] else [].

Definition type_attribute (t : data_type) : string :=
  match t with counter => "counter" | derive => "derive" | absolute => "absolute" | automatic => "auto" | gauge => "gauge" end.

(** The exemplars of a metric: the label of the low warning follows the critical mode. *)
Definition exemplars (p : perfdata) : list (string * spec_float) :=
  _add_exemplar (if p.(p_critical_mode) then "crit_ge" else "crit_gt") p.(p_critical) ++
  _add_exemplar (if p.(p_critical_mode) then "crit_le" else "crit_lt") p.(p_critical_low) ++
  _add_exemplar (if p.(p_warning_mode) then "warn_ge" else "warn_gt") p.(p_warning) ++
  _add_exemplar (if p.(p_critical_mode) then "warn_le" else "warn_lt") p.(p_warning_low) ++
  _add_exemplar "min" p.(p_min) ++ _add_exemplar "max" p.(p_max).

Definition _add_metric_to_scope (now : Z) (service : list Z) (p : perfdata) (e : exporter) : exporter :=
  let '(i, j, e) := _get_metric service p.(p_name) e in
  on_metric i j (λ m, add_data_point (DataPoint now (AsDouble p.(p_value)) [type_attribute p.(p_value_type)] (exemplars p)) (set_unit p.(p_unit) m)) e.

(** [_store_result_in_metrics_and_exemplars] *)
Definition _store_result_in_metrics_and_exemplars (host service : list Z) (now status : Z) (perfs : list perfdata) (outputs : list (list Z))
    (e : exporter) : exporter :=
  let e := _get_scope_metrics host service e in
  let '(i, j, e) := _get_metric service (text "status") e in
  let e :=
    match outputs with
    | [] => e
    | first_line :: _ => on_metric i j (set_description (check_string_utf8 [] (take (span (λ c, negb (c =? c_pipe)) first_line) first_line))) e
    end in
  let e := on_metric i j (add_data_point (DataPoint now (AsInt status) [] [])) e in
  foldl (λ e p, _add_metric_to_scope now service p e) e perfs.

(** [_send_timer_handler]: what is sent, when there is something *)
Definition _send_timer_handler (e : exporter) : option (list resource_metrics) * exporter :=
  match e.(_current_request) with [] => (None, e) | r => (Some r, _init_export_request) end.

(** ** What the engine makes of it *)

Record otl_data_point := OtlDataPoint {
  o_description : list Z;
  o_unit : list Z;
  o_time : Z;
  o_value : spec_float;
  o_exemplars : list (string * spec_float);
}.

Definition is_zero (x : spec_float) : bool := match x with S754_zero _ => true | _ => false end.

(** The constructor of [otl_data_point]: [as_double() ? as_double() : as_int()] *)
Definition point_double (v : point_value) : spec_float :=
  match v with
  | AsDouble x => if is_zero x then dint 0 else x
  | AsInt z => dint z
  end.
Definition otl_point (m : otel_metric) (p : data_point) : otl_data_point :=
  OtlDataPoint m.(om_description) m.(om_unit) p.(dp_time) (point_double p.(dp_value)) p.(dp_exemplars).

(** The points of each metric, by time; a point goes after those of the same time. *)
Abbreviation metric_to_datapoints := (list (list Z * list otl_data_point)).

Fixpoint insert_point (p : otl_data_point) (l : list otl_data_point) : list otl_data_point :=
  match l with
  | [] => [p]
  | q :: l => if p.(o_time) <? q.(o_time) then p :: q :: l else q :: insert_point p l
  end.
Fixpoint add_point (name : list Z) (p : otl_data_point) (m : metric_to_datapoints) : metric_to_datapoints :=
  match m with
  | [] => [(name, [p])]
  | (n, ps) :: m => if bool_decide (n = name) then (n, insert_point p ps) :: m else (n, ps) :: add_point name p m
  end.

(** [extract_data_points], for one host and service *)
Definition extract_data_points (host service : list Z) (request : list resource_metrics) : metric_to_datapoints :=
  foldl (λ d r,
    if bool_decide (r.(rm_host) = host) && bool_decide (r.(rm_service) = service)
    then foldl (λ d m, foldl (λ d p, add_point m.(om_name) (otl_point m p) d) d m.(om_points)) d r.(rm_metrics)
    else d) [] request.

(** [perf_data] *)
Record perf_data := Perf_data {
  warning_le : option spec_float; warning_lt : option spec_float; warning_ge : option spec_float; warning_gt : option spec_float;
  critical_le : option spec_float; critical_lt : option spec_float; critical_ge : option spec_float; critical_gt : option spec_float;
  pd_min : option spec_float; pd_max : option spec_float;
}.

Definition apply_exemplar (d : perf_data) (e : string * spec_float) : perf_data :=
  let '(Perf_data wle wlt wge wgt cle clt cge cgt mi ma) := d in
  let x := Some e.2 in
  if String.eqb e.1 "warn_le" then Perf_data x wlt wge wgt cle clt cge cgt mi ma
  else if String.eqb e.1 "warn_lt" then Perf_data wle x wge wgt cle clt cge cgt mi ma
  else if String.eqb e.1 "warn_ge" then Perf_data wle wlt x wgt cle clt cge cgt mi ma
  else if String.eqb e.1 "warn_gt" then Perf_data wle wlt wge x cle clt cge cgt mi ma
  else if String.eqb e.1 "crit_le" then Perf_data wle wlt wge wgt x clt cge cgt mi ma
  else if String.eqb e.1 "crit_lt" then Perf_data wle wlt wge wgt cle x cge cgt mi ma
  else if String.eqb e.1 "crit_ge" then Perf_data wle wlt wge wgt cle clt x cgt mi ma
  else if String.eqb e.1 "crit_gt" then Perf_data wle wlt wge wgt cle clt cge x mi ma
  else if String.eqb e.1 "min" then Perf_data wle wlt wge wgt cle clt cge cgt x ma
  else if String.eqb e.1 "max" then Perf_data wle wlt wge wgt cle clt cge cgt mi x
  else d.

(** Truncation to [int]. *)
Definition to_int (x : spec_float) : Z :=
  match x with
  | S754_finite s m e => let v := Z.shiftl (Zpos m) e in if s then - v else v
  | _ => 0
  end.

Section Build.
(** [absl::StrAppend] of a [double] *)
Context (print : spec_float → list Z).

Definition print_opt (x : option spec_float) : list Z := match x with Some x => print x | None => [] end.

(** One of the two ranges that [append_to_string] prints. *)
Definition append_range (le lt ge gt : option spec_float) : list Z :=
  match le, lt with
  | Some x, _ => c_at :: print x ++ c_colon :: print_opt ge
  | None, _ =>
      match ge, lt with
      | Some y, _ => c_at :: c_tilde :: c_colon :: print y
      | None, Some x => print x ++ c_colon :: print_opt gt
      | None, None => match gt with Some y => c_tilde :: c_colon :: print y | None => [] end
      end
  end.

Definition append_to_string (d : perf_data) : list Z :=
  append_range d.(warning_le) d.(warning_lt) d.(warning_ge) d.(warning_gt) ++ c_semicolon ::
  append_range d.(critical_le) d.(critical_lt) d.(critical_ge) d.(critical_gt) ++ c_semicolon ::
  print_opt d.(pd_min) ++ c_semicolon :: print_opt d.(pd_max).

Definition no_perf : perf_data := Perf_data None None None None None None None None None None.

(** One metric of the output. *)
Definition append_metric (last_time : Z) (m : list Z * list otl_data_point) : list Z :=
  if bool_decide (m.1 = text "status") then []
  else
    match filter (λ p, p.(o_time) = last_time) m.2 with
    | [] => []
    | p :: _ =>
        c_space :: m.1 ++ c_equal :: print p.(o_value) ++ p.(o_unit) ++ c_semicolon :: append_to_string (foldl apply_exemplar no_perf p.(o_exemplars))
    end.

(** [build_result_from_metrics]: the return code, the time and the output; the metrics are in
    the order of the map. *)
Definition build_result_from_metrics (data_pts : metric_to_datapoints) : option (Z * Z * list Z) :=
  match filter (λ m, m.1 = text "status") data_pts with
  | (_, ps) :: _ =>
      match last ps with
      | Some p =>
          Some (to_int p.(o_value), p.(o_time), p.(o_description) ++ c_pipe :: concat (append_metric p.(o_time) <$> data_pts))
      | None => None
      end
  | [] => None
  end.
End Build.

(** ** What is stored *)

(** The exporter has one service, with the metrics [ms]. *)
Definition holds (host service : list Z) (ms : list otel_metric) (e : exporter) : Prop :=
  e.(_current_request) = [ResourceMetrics host service ms] ∧
  ∃ names, e.(_serv_to_scope_metrics) !! service = Some (ScopeMetricRequest 0 names) ∧ ∀ n, n ∉ (om_name <$> ms) → names !! n = None.

Lemma holds_new_metric host service ms e name f : holds host service ms e → name ∉ (om_name <$> ms) → (∀ m, om_name (f m) = om_name m) →
  let '(i, j, e') := _get_metric service name e in holds host service (ms ++ [f (OtelMetric name [] [] [])]) (on_metric i j f e').
Proof.
  intros (Hreq & names & Hs & Hn) Hnew Hf. unfold _get_metric. rewrite Hs. cbn [scope_metric scope_metrics]. rewrite (Hn _ Hnew), Hreq.
  cbn [lookup list_lookup rm_metrics]. unfold on_metric, holds. cbn [_current_request _serv_to_scope_metrics alter list_alter rm_host rm_service rm_metrics].
  assert (alter f (length ms) (ms ++ [OtelMetric name [] [] []]) = ms ++ [f (OtelMetric name [] [] [])]) as ->.
  { clear. induction ms as [|m ms IH]; [done|]. cbn. f_equal. exact IH. }
  split; [done|]. eexists. rewrite lookup_insert_eq. split; [reflexivity|]. intros n. rewrite fmap_app. cbn [fmap list_fmap].
  rewrite not_elem_of_app, list_elem_of_singleton, Hf. cbn [om_name]. intros [H1 H2]. rewrite lookup_insert_ne by done. by apply Hn.
Qed.

(** The metric of a performance datum. *)
Definition metric_for (now : Z) (p : perfdata) : otel_metric :=
  OtelMetric p.(p_name) [] p.(p_unit) [DataPoint now (AsDouble p.(p_value)) [type_attribute p.(p_value_type)] (exemplars p)].

Lemma holds_perfs host service now perfs : ∀ ms e, holds host service ms e → NoDup (p_name <$> perfs) →
  (∀ p, p ∈ perfs → p.(p_name) ∉ (om_name <$> ms)) →
  holds host service (ms ++ (metric_for now <$> perfs)) (foldl (λ e p, _add_metric_to_scope now service p e) e perfs).
Proof.
  induction perfs as [|p perfs IH]; intros ms e He Hnd Hnew; cbn [foldl fmap list_fmap]; [by rewrite app_nil_r|].
  cbn [fmap list_fmap] in Hnd. apply NoDup_cons in Hnd as [Hp Hnd]. unfold _add_metric_to_scope at 2.
  pose proof (holds_new_metric host service ms e p.(p_name)
    (λ m, add_data_point (DataPoint now (AsDouble p.(p_value)) [type_attribute p.(p_value_type)] (exemplars p)) (set_unit p.(p_unit) m)) He) as H1.
  destruct (_get_metric service (p_name p) e) as [[i j] e']. specialize (H1 (Hnew p (list_elem_of_here _ _)) (λ m, eq_refl)).
  replace (ms ++ metric_for now p :: (metric_for now <$> perfs)) with ((ms ++ [metric_for now p]) ++ (metric_for now <$> perfs)) by (by rewrite <- app_assoc).
  apply IH; [exact H1|done|]. intros q Hq. rewrite fmap_app, not_elem_of_app. split; [apply Hnew; by right|]. cbn.
  rewrite list_elem_of_singleton. intros Heq. apply Hp. rewrite <- Heq. by apply list_elem_of_fmap_2.
Qed.

(** The description of the status, and the status metric. *)
Definition description (outputs : list (list Z)) : list Z :=
  match outputs with [] => [] | l :: _ => check_string_utf8 [] (take (span (λ c, negb (c =? c_pipe)) l) l) end.
Definition status_metric (now status : Z) (outputs : list (list Z)) : otel_metric :=
  OtelMetric (text "status") (description outputs) [] [DataPoint now (AsInt status) [] []].

Lemma on_metric_compose i j f g e : on_metric i j g (on_metric i j f e) = on_metric i j (g ∘ f) e.
Proof.
  unfold on_metric. cbn. f_equal. rewrite list_alter_alter_eq. apply list_eq. intros k.
  destruct (decide (i = k)) as [->|Hne]; [rewrite !list_lookup_alter_eq|by rewrite !list_lookup_alter_ne by done].
  destruct (_current_request e !! k) as [r|]; [|done]. cbn. by rewrite list_alter_alter_eq.
Qed.

Lemma store_holds host service now status perfs outputs : NoDup (p_name <$> perfs) → (∀ p, p ∈ perfs → p.(p_name) ≠ text "status") →
  holds host service (status_metric now status outputs :: (metric_for now <$> perfs))
    (_store_result_in_metrics_and_exemplars host service now status perfs outputs _init_export_request).
Proof.
  intros Hnd Hst. unfold _store_result_in_metrics_and_exemplars. set (e0 := _get_scope_metrics host service _init_export_request).
  assert (holds host service [] e0) as H0.
  { unfold e0, _get_scope_metrics, _init_export_request. cbn [_serv_to_scope_metrics]. rewrite lookup_empty. split; [done|].
    exists ∅. cbn [_serv_to_scope_metrics]. split; [by rewrite lookup_insert_eq|]. intros n _. apply lookup_empty. }
  set (f := λ m, add_data_point (DataPoint now (AsInt status) [] []) (match outputs with [] => m | _ => set_description (description outputs) m end)).
  pose proof (holds_new_metric host service [] e0 (text "status") f H0) as H1. destruct (_get_metric service (text "status") e0) as [[i j] e1].
  specialize (H1 (not_elem_of_nil _) ltac:(by intros m; unfold f; destruct outputs)).
  match goal with |- holds _ _ _ (foldl _ ?e _) => replace e with (on_metric i j f e1) end.
  - change (status_metric now status outputs :: ?l) with ([status_metric now status outputs] ++ l). apply holds_perfs; [|done|].
    + replace [status_metric now status outputs] with ([] ++ [f (OtelMetric (text "status") [] [] [])]); [exact H1|]. unfold f. by destruct outputs.
    + intros p Hp. cbn. rewrite list_elem_of_singleton. by apply Hst.
  - unfold f. destruct outputs as [|l ls]; [done|]. by rewrite on_metric_compose.
Qed.

(** ** What the engine finds *)

(** The points of metrics that have one point each, and names of their own. *)
Definition points_of (ms : list otel_metric) : metric_to_datapoints := (λ m, (m.(om_name), otl_point m <$> m.(om_points))) <$> ms.

Lemma add_point_new name p d : name ∉ d.*1 → add_point name p d = d ++ [(name, [p])].
Proof.
  induction d as [|[n ps] d IH]; intros Hn; [done|]. cbn in Hn. apply not_elem_of_cons in Hn as [Hne Hn]. cbn [add_point].
  rewrite bool_decide_eq_false_2 by done. by rewrite IH.
Qed.

Lemma extract_points host service ms : NoDup (om_name <$> ms) → Forall (λ m, ∃ p, m.(om_points) = [p]) ms →
  extract_data_points host service [ResourceMetrics host service ms] = points_of ms.
Proof.
  intros Hnd Hone. unfold extract_data_points. cbn [foldl rm_host rm_service rm_metrics]. rewrite !bool_decide_eq_true_2 by done. cbn [andb].
  assert (∀ d, (∀ m, m ∈ ms → om_name m ∉ d.*1) →
    foldl (λ d m, foldl (λ d p, add_point m.(om_name) (otl_point m p) d) d m.(om_points)) d ms = d ++ points_of ms) as Hgen.
  { induction Hone as [|m ms [p Hp] _ IH]; intros d Hd; [by rewrite app_nil_r|]. cbn [fmap list_fmap] in Hnd. apply NoDup_cons in Hnd as [Hm Hnd].
    cbn [foldl]. rewrite Hp. cbn [foldl]. rewrite add_point_new by (apply Hd; left). rewrite (IH Hnd).
    - rewrite <- app_assoc. unfold points_of. cbn. by rewrite Hp.
    - intros m' Hm'. rewrite fmap_app, not_elem_of_app. split; [apply Hd; by right|]. cbn. rewrite list_elem_of_singleton.
      intros Heq. apply Hm. rewrite <- Heq. by apply list_elem_of_fmap_2. }
  rewrite Hgen; [done|]. intros m _. apply not_elem_of_nil.
Qed.

Section Texts.
Context (print : spec_float → list Z).

Definition num (x : spec_float) : number := Number (print x) x.
Definition opt_num (x : spec_float) : option number := if is_set x then Some (num x) else None.
Definition range_of (low high : spec_float) (mode : bool) : range :=
  if isnan low then NoRange else Between mode (Some (num low)) (opt_num high).

(** A range as [extract_range] gives them: none, or from a low bound that is not above
    everything. *)
Definition thresholds_ok (low high : spec_float) (mode : bool) : Prop :=
  (isnan low = true ∧ isnan high = true ∧ mode = false) ∨ (is_set low = true ∧ isnan high = false).

Lemma range_of_value low high mode : thresholds_ok low high mode → range_value (range_of low high mode) = (low, high, mode).
Proof.
  unfold range_of, opt_num. intros [(Hl & Hh & ->)|[Hl Hh]].
  - rewrite Hl. by destruct low, high.
  - destruct low; try done; cbn; destruct high as [|[]| |]; done.
Qed.

Definition set_opt (x : spec_float) : option spec_float := if is_set x then Some x else None.

Lemma append_range_of low high (mode : bool) : thresholds_ok low high mode →
  append_range print (if mode then set_opt low else None) (if mode then None else set_opt low) (if mode then set_opt high else None) (if mode then None else set_opt high)
  = range_text (range_of low high mode).
Proof.
  unfold range_of, opt_num, set_opt. intros [(Hl & Hh & ->)|[Hl Hh]].
  - destruct low; try done. by destruct high.
  - rewrite Hl. assert (isnan low = false) as -> by (by destruct low). destruct mode; cbn; by destruct (is_set high).
Qed.

(** The exemplars are found again, when the two modes agree. *)
Lemma exemplars_found p : p.(p_warning_mode) = p.(p_critical_mode) →
  foldl apply_exemplar no_perf (exemplars p) =
    let m := p.(p_critical_mode) in
    let w := set_opt p.(p_warning) in let wl := set_opt p.(p_warning_low) in let c := set_opt p.(p_critical) in let cl := set_opt p.(p_critical_low) in
    Perf_data (if m then wl else None) (if m then None else wl) (if m then w else None) (if m then None else w)
      (if m then cl else None) (if m then None else cl) (if m then c else None) (if m then None else c) (set_opt p.(p_min)) (set_opt p.(p_max)).
Proof.
  intros Hm. unfold exemplars, _add_exemplar, set_opt. rewrite Hm.
  destruct (p_critical_mode p), (is_set (p_critical p)), (is_set (p_critical_low p)), (is_set (p_warning p)), (is_set (p_warning_low p)),
    (is_set (p_min p)), (is_set (p_max p)); reflexivity.
Qed.

(** The metric as it is printed: without quotes nor type. *)
Definition metric_of (p : perfdata) : metric :=
  Metric false gauge p.(p_name) (num p.(p_value)) p.(p_unit) (range_of p.(p_warning_low) p.(p_warning) p.(p_warning_mode))
    (range_of p.(p_critical_low) p.(p_critical) p.(p_critical_mode)) (opt_num p.(p_min)) (opt_num p.(p_max)).

Definition as_gauge (p : perfdata) : perfdata :=
  PerfData p.(p_critical) p.(p_critical_low) p.(p_critical_mode) p.(p_max) p.(p_min) p.(p_name) p.(p_unit) p.(p_value) gauge
    p.(p_warning) p.(p_warning_low) p.(p_warning_mode).

Record exportable (p : perfdata) : Prop := {
  x_modes : p.(p_warning_mode) = p.(p_critical_mode);
  x_warning : thresholds_ok p.(p_warning_low) p.(p_warning) p.(p_warning_mode);
  x_critical : thresholds_ok p.(p_critical_low) p.(p_critical) p.(p_critical_mode);
  x_min : p.(p_min) ≠ S754_infinity false;
  x_max : p.(p_max) ≠ S754_infinity false;
  x_value : p.(p_value) ≠ S754_zero true;
  x_metric : metric_ok (metric_of p);
  x_name : p.(p_name) ≠ text "status";
}.

Lemma opt_num_value x : x ≠ S754_infinity false → opt_value (opt_num x) = x.
Proof. intros Hx. unfold opt_num. by destruct x as [|[]| |]. Qed.

Lemma metric_of_value p : exportable p → metric_value (metric_of p) = as_gauge p.
Proof.
  intros []. unfold metric_value, metric_of. cbn [m_warning m_critical m_max m_min m_name m_unit m_value m_type]. rewrite !range_of_value by done.
  by rewrite !opt_num_value by done.
Qed.

Lemma append_metric_of now p : exportable p →
  append_metric print now (p.(p_name), otl_point (metric_for now p) <$> (metric_for now p).(om_points)) = c_space :: metric_text (metric_of p).
Proof.
  intros []. unfold append_metric. cbn [fst snd]. rewrite bool_decide_eq_false_2 by done. cbn [metric_for om_points fmap list_fmap].
  rewrite filter_cons, decide_True by done. cbn [o_time o_value o_unit o_exemplars otl_point om_unit dp_value dp_exemplars].
  assert (point_double (AsDouble p.(p_value)) = p.(p_value)) as -> by (cbn; destruct (p_value p) as [[]| | |]; done).
  rewrite exemplars_found by done. cbv zeta. unfold append_to_string. cbn [warning_le warning_lt warning_ge warning_gt critical_le critical_lt critical_ge critical_gt pd_min pd_max].
  rewrite <- x_modes0 at 1 2 3 4. rewrite !append_range_of by done.
  unfold metric_text, values_text, quote_text, label_text, metric_of. cbn [m_quoted m_type m_name m_value m_unit m_warning m_critical m_min m_max app num n_text].
  assert (∀ x, print_opt print (set_opt x) = opt_text (opt_num x)) as Hopt by (intros x; unfold set_opt, opt_num; by destruct (is_set x)).
  rewrite !Hopt. done.
Qed.
End Texts.

(** Metrics with a space before each. *)
Lemma spaced_text ms : concat ((λ m, c_space :: metric_text m) <$> ms) = match ms with [] => [] | _ => c_space :: metrics_text ms end.
Proof.
  induction ms as [|m ms IH]; [done|]. cbn [fmap list_fmap concat metrics_text app]. rewrite IH. by destruct ms.
Qed.

Lemma parse_spaced ms : let str := concat ((λ m, c_space :: metric_text m) <$> ms) in
  Forall metric_ok ms → NoDup (m_name <$> ms) → c_comma ∉ str → parse_perfdata str = Ret (metric_value <$> ms).
Proof.
  cbv zeta. rewrite spaced_text. destruct ms as [|m ms]; [done|]. intros Hok Hnd Hc. unfold parse_perfdata.
  assert (span is_blank (c_space :: metrics_text (m :: ms)) = 1%nat) as ->.
  { pose proof Hok as [Hm _]%Forall_cons. destruct (metric_head m Hm) as (c & l & Hcl & Hs). cbn [metrics_text]. rewrite Hcl. cbn [app span].
    change (is_blank c_space) with true. cbv iota. assert (is_blank c = false) as ->; [|done]. unfold isspace, is_blank in *. lia. }
  apply parse_printed; [done|done|cbn; lia|done|done|intros ? _; apply not_elem_of_nil|]. pose proof (length_metrics_text (m :: ms)). cbn in *. lia.
Qed.

(** ** Theorems *)

Lemma to_int_status z : 0 ≤ z ≤ 3 → to_int (dint z) = z.
Proof. intros Hz. assert (z = 0 ∨ z = 1 ∨ z = 2 ∨ z = 3) as [->|[->|[->| ->]]] by lia; by vm_compute. Qed.

(** The status among the metrics, in any order. *)
Lemma status_among {A B} (f : A → B) s l d : d ≡ₚ s :: (f <$> l) → ∃ l1 l2, l1 ++ l2 ≡ₚ l ∧ d = (f <$> l1) ++ s :: (f <$> l2).
Proof.
  intros Hd. destruct (Permutation_vs_cons_inv Hd) as (d1 & d2 & ->).
  assert (d1 ++ d2 ≡ₚ f <$> l) as Hl by (symmetry; by eapply Permutation_cons_app_inv).
  apply Permutation_map_inv in Hl as (l' & Hl & Hp). symmetry in Hl. apply fmap_app_inv in Hl as (l1 & l2 & -> & -> & ->). exists l1, l2. by split.
Qed.


(** Prints 0, 5 and 10, the numbers of the sample. *)
Definition sample_print (x : spec_float) : list Z :=
  match x with
  | S754_finite _ _ e => if e =? -21 then text "5" else text "10"
  | _ => text "0"
  end.
Definition five : spec_float := (decimal false [5] None).(n_value).
Definition ten : spec_float := (decimal false [1; 0] None).(n_value).

(** [c[load]=5%;10;10:;0], parsed *)
Definition sample_perf : perfdata :=
  PerfData (S754_infinity false) ten false S754_nan (S754_zero false) (text "load") (text "%") five counter ten (S754_zero false) false.

Lemma sample_numbers : number_ok (num sample_print five) ∧ number_ok (num sample_print ten) ∧ number_ok (num sample_print (S754_zero false)).
Proof.
  change (num sample_print five) with (decimal false [5] None). change (num sample_print ten) with (decimal false [1; 0] None).
  change (num sample_print (S754_zero false)) with (decimal false [0] None).
  split_and!; apply decimal_ok; try done; repeat (apply Forall_cons_2; [lia|]); apply Forall_nil_2.
Qed.

Lemma sample_exportable : exportable sample_print sample_perf.
Proof.
  destruct sample_numbers as (H5 & H10 & H0). split; try done; [right; by split|right; by split|].
  unfold metric_ok, label_ok, unit_ok. split_and!; try done; try (by repeat (apply Forall_cons_2; [done|]); apply Forall_nil_2).
  intros _. split; [by intros c l [= <- _]|]. intros c l Heq.
  change (m_name (metric_of sample_print sample_perf)) with (text "loa" ++ text "d") in Heq. apply app_inj_tail in Heq as [_ <-]. done.
Qed.


(** A warning range that is not inclusive beside a critical range that is: its low bound goes
    under the label of an inclusive one, so the range is printed as inclusive and its high
    bound is lost. *)
Lemma warning_range_lost print p : p.(p_warning_mode) = false → p.(p_critical_mode) = true → is_set p.(p_warning_low) = true →
  let d := foldl apply_exemplar no_perf (exemplars p) in
  append_range print d.(warning_le) d.(warning_lt) d.(warning_ge) d.(warning_gt) = c_at :: print p.(p_warning_low) ++ [c_colon].
Proof.
  intros Hw Hc Hl. unfold exemplars, _add_exemplar. rewrite Hw, Hc, Hl.
  destruct (is_set (p_critical p)), (is_set (p_critical_low p)), (is_set (p_warning p)), (is_set (p_min p)), (is_set (p_max p)); reflexivity.
Qed.

(** A metric called [status] takes the place of the status of the check. *)
Example metric_status_replaces_status :
  let p := PerfData S754_nan S754_nan false S754_nan S754_nan (text "status") [] five gauge S754_nan S754_nan false in
  (λ r, r.1.1) <$> build_result_from_metrics sample_print
    (extract_data_points (text "h") (text "s") (_current_request
      (_store_result_in_metrics_and_exemplars (text "h") (text "s") 1000 0 [p] [text "ok"] _init_export_request))) = Some 5.
Proof. vm_compute. reflexivity. Qed.

(** A name with a space is printed without quotes: another metric is read. *)
Example spaced_name_lost :
  let p := PerfData S754_nan S754_nan false S754_nan S754_nan (text "in out") [] five gauge S754_nan S754_nan false in
  match build_result_from_metrics sample_print
    (extract_data_points (text "h") (text "s") (_current_request
      (_store_result_in_metrics_and_exemplars (text "h") (text "s") 1000 0 [p] [text "ok"] _init_export_request))) with
  | Some (_, _, out) => (λ ps, p_name <$> ps) (match parse_perfdata (drop 3 out) with Ret ps => ps | Throw _ => [] end) = [text "out"]
  | None => False
  end.
Proof. vm_compute. reflexivity. Qed.
