(* ===== verification/Agent.v ===== *)
(** * The scheduler of the monitoring agent

    [agent/src/scheduler.cc], [agent/src/check.cc] and [agent/inc/com/centreon/agent/check.hh]:
    the checks of a configuration are spread over the check interval, at most
    [max_concurrent_checks] of them run at once, and a check that ends takes a free slot for
    its next start.

    The checks are objects in a store, found by their numbers: the queue is a set of pointers
    ordered by a field of the objects.  A configuration is known by a number too, since the
    code compares pointers.  Times are nanoseconds.  Commands are run by other threads: the
    end of a command is an event. *)

From stdpp Require Import functions sorting.
From S2P Require Import Prelude Circular Perfdata AgentMetrics.

Definition microsecond : Z := 1000.
Definition second : Z := 1000000000.

(** ** [time_step] *)

Record time_step := TimeStep { _start_point : Z; _step : Z; _step_index : Z }.

Definition ts_value (t : time_step) : Z := t.(_start_point) + t.(_step_index) * t.(_step).
Definition ts_next (t : time_step) : time_step := TimeStep t.(_start_point) t.(_step) (wrap_u64 (t.(_step_index) + 1)).
(** [increment_to_after_min], and [increment_to_after_now] with the current time *)
Definition increment_to_after_min (min_tp : Z) (t : time_step) : res time_step :=
  if t.(_step) =? 0 then Throw undefined
  else Ret (TimeStep t.(_start_point) t.(_step) (wrap_u64 (Z.quot (min_tp - t.(_start_point) + t.(_step) - microsecond) t.(_step)))).

(** ** State *)

Record config := Config {
  cf_id : nat;
  check_interval : Z;
  max_concurrent_checks : Z;
  use_exemplar : bool;
  cf_services : list (list Z);
}.

Record check := Check {
  _start_expected : time_step;
  _service : list Z;
  ck_conf : nat;
  _running_check : bool;
  _running_check_index : Z;
}.

Record scheduler := Scheduler {
  checks : nat → check;
  (** how many checks were built *)
  nb_checks : nat;
  _waiting_check_queue : list nat;
  _active_check : Z;
  _alive : bool;
  _conf : config;
  _check_time_step : time_step;
  (** when the check timer expires *)
  _check_timer : Z;
  _export : exporter;
  (** completions that were posted, since the check was running *)
  posted : list nat;
  (** the checks that were started, with the time, oldest first *)
  started : list (nat * Z);
}.

Definition set_check (x : nat) (k : check) (s : scheduler) : scheduler :=
  Scheduler (<[x := k]> s.(checks)) s.(nb_checks) s.(_waiting_check_queue) s.(_active_check) s.(_alive) s.(_conf) s.(_check_time_step)
    s.(_check_timer) s.(_export) s.(posted) s.(started).
Definition set_queue (q : list nat) (s : scheduler) : scheduler :=
  Scheduler s.(checks) s.(nb_checks) q s.(_active_check) s.(_alive) s.(_conf) s.(_check_time_step) s.(_check_timer) s.(_export) s.(posted) s.(started).
Definition set_active (n : Z) (s : scheduler) : scheduler :=
  Scheduler s.(checks) s.(nb_checks) s.(_waiting_check_queue) n s.(_alive) s.(_conf) s.(_check_time_step) s.(_check_timer) s.(_export) s.(posted)
    s.(started).
Definition set_conf (c : config) (s : scheduler) : scheduler :=
  Scheduler s.(checks) s.(nb_checks) s.(_waiting_check_queue) s.(_active_check) s.(_alive) c s.(_check_time_step) s.(_check_timer) s.(_export)
    s.(posted) s.(started).
Definition set_time_step (t : time_step) (s : scheduler) : scheduler :=
  Scheduler s.(checks) s.(nb_checks) s.(_waiting_check_queue) s.(_active_check) s.(_alive) s.(_conf) t s.(_check_timer) s.(_export) s.(posted)
    s.(started).
Definition set_timer (t : Z) (s : scheduler) : scheduler :=
  Scheduler s.(checks) s.(nb_checks) s.(_waiting_check_queue) s.(_active_check) s.(_alive) s.(_conf) s.(_check_time_step) t s.(_export) s.(posted)
    s.(started).
Definition set_export (e : exporter) (s : scheduler) : scheduler :=
  Scheduler s.(checks) s.(nb_checks) s.(_waiting_check_queue) s.(_active_check) s.(_alive) s.(_conf) s.(_check_time_step) s.(_check_timer) e
    s.(posted) s.(started).
Definition set_posted (p : list nat) (s : scheduler) : scheduler :=
  Scheduler s.(checks) s.(nb_checks) s.(_waiting_check_queue) s.(_active_check) s.(_alive) s.(_conf) s.(_check_time_step) s.(_check_timer)
    s.(_export) p s.(started).
Definition log_start (x : nat) (t : Z) (s : scheduler) : scheduler :=
  Scheduler s.(checks) s.(nb_checks) s.(_waiting_check_queue) s.(_active_check) s.(_alive) s.(_conf) s.(_check_time_step) s.(_check_timer)
    s.(_export) s.(posted) (s.(started) ++ [(x, t)]).
Definition stop (s : scheduler) : scheduler :=
  Scheduler s.(checks) s.(nb_checks) s.(_waiting_check_queue) s.(_active_check) false s.(_conf) s.(_check_time_step) s.(_check_timer) s.(_export)
    s.(posted) s.(started).

Definition get_start_expected (s : scheduler) (x : nat) : Z := ts_value (s.(checks) x).(_start_expected).

Definition set_start_expected (t : time_step) (k : check) : check := Check t k.(_service) k.(ck_conf) k.(_running_check) k.(_running_check_index).
Definition set_running (b : bool) (index : Z) (k : check) : check := Check k.(_start_expected) k.(_service) k.(ck_conf) b index.

(** ** The queue *)

(** Insertion in the set: [None] when the slot is taken.  The keys are those of the objects. *)
Fixpoint insert_queue (key : nat → Z) (x : nat) (q : list nat) : option (list nat) :=
  match q with
  | [] => Some [x]
  | y :: q' =>
      if key y <? key x then (y ::.) <$> insert_queue key x q'
      else if key x <? key y then Some (x :: q)
      else None
  end.

(** ** Checks *)

(** [check::_start_check], as [start_check] of every check calls it *)
Definition start_check (now : Z) (x : nat) (s : scheduler) : scheduler :=
  let k := s.(checks) x in
  if k.(_running_check) then set_posted (s.(posted) ++ [x]) s
  else log_start x now (set_check x (set_running true k.(_running_check_index) k) s).

Definition _start_check (now : Z) (x : nat) (s : scheduler) : scheduler :=
  start_check now x (set_active (wrap_u32 (s.(_active_check) + 1)) s).

(** [_start_waiting_check]: the first checks of the queue [q], which is the rest of the queue *)
Fixpoint start_waiting (now : Z) (q : list nat) (s : scheduler) : scheduler :=
  match q with
  | [] => set_queue [] s
  | x :: q' =>
      if (get_start_expected s x <=? now) && (s.(_active_check) <? s.(_conf).(max_concurrent_checks))
      then start_waiting now q' (_start_check now x s)
      else set_queue q s
  end.
Definition _start_waiting_check (now : Z) (s : scheduler) : scheduler := start_waiting now s.(_waiting_check_queue) s.

Definition _start_check_timer (now : Z) (s : scheduler) : res scheduler :=
  match s.(_waiting_check_queue) with
  | x :: _ =>
      if s.(_conf).(max_concurrent_checks) <=? s.(_active_check) then
        let! t := increment_to_after_min now s.(_check_time_step) in
        Ret (set_timer (ts_value t) (set_time_step t s))
      else Ret (set_timer (get_start_expected s x) s)
  | [] =>
      let! t := increment_to_after_min now s.(_check_time_step) in
      Ret (set_timer (ts_value t) (set_time_step t s))
  end.

Definition _check_timer_handler (now : Z) (s : scheduler) : res scheduler := _start_check_timer now (_start_waiting_check now s).

(** ** Configurations *)

Section Update.
(** whether the check of a service can be built *)
Context (builds : list Z → bool).

Fixpoint build_checks (id : nat) (step next : Z) (services : list (list Z)) (s : scheduler) : scheduler :=
  match services with
  | [] => s
  | service :: services =>
      if builds service then
        let x := s.(nb_checks) in
        let k := Check (TimeStep next step 0) service id false 0 in
        let s := Scheduler (<[x := k]> s.(checks)) (S x) s.(_waiting_check_queue) s.(_active_check) s.(_alive) s.(_conf) s.(_check_time_step)
                   s.(_check_timer) s.(_export) s.(posted) s.(started) in
        let s := set_queue (default s.(_waiting_check_queue) (insert_queue (get_start_expected s) x s.(_waiting_check_queue))) s in
        build_checks id step (next + step) services s
      else build_checks id step next services s
  end.

(** The time between two checks: the product is one of 32 bits. *)
Definition time_between_check (conf : config) : Z :=
  wrap_u32 (conf.(check_interval) * 1000000) / Z.of_nat (length conf.(cf_services)) * microsecond.

Definition update (now : Z) (conf : config) (s : scheduler) : scheduler :=
  let s := set_active 0 (set_queue [] s) in
  if conf.(check_interval) =? 0 then s
  else
    let s :=
      match conf.(cf_services) with
      | [] => s
      | services =>
          let step := time_between_check conf in
          build_checks conf.(cf_id) step now services (set_time_step (TimeStep now step 0) s)
      end in
    _start_waiting_check now (set_conf conf s).
End Update.

(** ** Results *)

(** [while (!insert(check).second) add_check_interval_to_start_expected()] *)
Fixpoint find_slot (fuel : nat) (x : nat) (s : scheduler) : res scheduler :=
  match fuel with
  | O => Throw fuel_exhausted
  | S fuel =>
      match insert_queue (get_start_expected s) x s.(_waiting_check_queue) with
      | Some q => Ret (set_queue q s)
      | None =>
          let k := s.(checks) x in
          find_slot fuel x (set_check x (set_start_expected (ts_next k.(_start_expected)) k) s)
      end
  end.

(** [_check_handler] *)
Definition _check_handler (host : list Z) (now : Z) (x : nat) (status : Z) (perfs : list perfdata) (outputs : list (list Z)) (s : scheduler) : res scheduler :=
  let k := s.(checks) x in
  if negb (k.(ck_conf) =? s.(_conf).(cf_id))%nat then Ret s
  else
    let s := if s.(_conf).(use_exemplar)
             then set_export (_store_result_in_metrics_and_exemplars host k.(_service) now status perfs outputs s.(_export)) s else s in
    let s := set_active (wrap_u32 (s.(_active_check) - 1)) s in
    if s.(_alive) then
      let min_next_start := Z.max (ts_value k.(_start_expected) + s.(_conf).(check_interval) * second) now in
      let! t := increment_to_after_min min_next_start k.(_start_expected) in
      find_slot (S (length s.(_waiting_check_queue))) x (set_check x (set_start_expected t k) s)
    else Ret s.

(** [check::on_completion], which [_timeout_timer_handler] calls too *)
Definition on_completion (host : list Z) (now : Z) (x : nat) (start_check_index status : Z) (perfs : list perfdata) (outputs : list (list Z))
    (s : scheduler) : res scheduler :=
  let k := s.(checks) x in
  if start_check_index =? k.(_running_check_index) then
    _check_handler host now x status perfs outputs (set_check x (set_running false (wrap_u32 (k.(_running_check_index) + 1)) k) s)
  else Ret s.

(** ** Start *)

Definition default_config : config := Config 0 1 10 false [].

(** [_start]: the scheduler has the default configuration, that [update] reads *)
Definition _start (builds : list Z → bool) (now : Z) : res scheduler :=
  let no_check := Check (TimeStep 0 0 0) [] 0 false 0 in
  let s := Scheduler (λ _, no_check) 0 [] 0 true default_config (TimeStep now (100 * 1000000) 0) now _init_export_request [] [] in
  _start_check_timer now (update builds now default_config s).

(** ** Time steps *)

(** the times the theorems are about: about 146 years *)
Definition horizon : Z := 2 ^ 62.

(** The first step that is no more than a microsecond before the time that is asked. *)
Lemma increment_spec m t : 0 < t.(_step) → 0 ≤ t.(_start_point) → t.(_start_point) + microsecond ≤ m < 2 ^ 63 →
  ∃ t', increment_to_after_min m t = Ret t' ∧ t'.(_start_point) = t.(_start_point) ∧ t'.(_step) = t.(_step)
    ∧ 0 ≤ t'.(_step_index) ≤ 2 ^ 63 ∧ m - microsecond < ts_value t' ≤ m + t.(_step) - microsecond.
Proof.
  unfold increment_to_after_min, ts_value, microsecond. intros Hs Hp Hm.
  set (d := m - t.(_start_point) + t.(_step) - 1000). assert (0 ≤ d) by lia.
  destruct (Z.eqb_spec t.(_step) 0) as [|_]; [lia|]. eexists. split; [done|]. cbn.
  rewrite Z.quot_div_nonneg by lia.
  pose proof (Z_div_mod_eq_full d t.(_step)) as E. pose proof (Z.mod_pos_bound d t.(_step) Hs).
  assert (0 ≤ d / t.(_step)) by (apply Z.div_pos; lia).
  assert (d / t.(_step) ≤ 2 ^ 63) by (apply Z.div_le_upper_bound; nia).
  rewrite wrap_u64_small by lia. repeat split; lia.
Qed.

(** ** The queue *)

Definition ordered (key : nat → Z) : list nat → Prop := StronglySorted (λ x y, key x < key y).

Lemma insert_queue_some key x : ∀ q q', insert_queue key x q = Some q' → q' ≡ₚ x :: q ∧ (ordered key q → ordered key q').
Proof.
  induction q as [|y q IH]; intros q'; cbn; [intros [= <-]; split; [done|intros; repeat constructor]|].
  destruct (Z.ltb_spec (key y) (key x)) as [Hyx|].
  - intros (r & Er & ->)%fmap_Some. specialize (IH r Er) as [HP HS]. split; [rewrite HP; constructor|].
    intros [? Hy]%StronglySorted_inv. constructor; [by apply HS|]. rewrite HP. by constructor.
  - destruct (Z.ltb_spec (key x) (key y)) as [Hxy|]; [|done]. intros [= <-]. split; [done|]. intros HS. constructor; [done|].
    apply StronglySorted_inv in HS as [_ HS]. constructor; [done|]. eapply Forall_impl; [done|]. cbn. lia.
Qed.

(** A check finds its slot taken by another. *)
Lemma insert_queue_none key x : ∀ q, insert_queue key x q = None → ∃ y, y ∈ q ∧ key y = key x.
Proof.
  induction q as [|y q IH]; cbn; [done|]. destruct (Z.ltb_spec (key y) (key x)).
  - intros E%fmap_None. destruct (IH E) as (z & ? & ?). exists z. split; [by constructor|done].
  - destruct (Z.ltb_spec (key x) (key y)); [done|]. intros _. exists y. split; [constructor|lia].
Qed.

Lemma insert_queue_last key x q : (∀ y, y ∈ q → key y < key x) → insert_queue key x q = Some (q ++ [x]).
Proof.
  induction q as [|y q IH]; cbn; intros H; [done|].
  destruct (Z.ltb_spec (key y) (key x)) as [|Hn]; [|specialize (H y ltac:(constructor)); lia].
  rewrite IH; [done|]. intros z Hz. apply H. by constructor.
Qed.

Lemma ordered_ext key key' q : (∀ x, x ∈ q → key x = key' x) → ordered key q → ordered key' q.
Proof.
  intros E HS. induction HS as [|x q HS IH Hx]; constructor; [apply IH; intros; apply E; by constructor|].
  rewrite Forall_forall in Hx |- *. intros y Hy. rewrite <- !E; [auto|by constructor..].
Qed.

Lemma ordered_NoDup key q : ordered key q → NoDup q.
Proof. induction 1 as [|x q _ IH Hx]; constructor; [|done]. rewrite Forall_forall in Hx. intros Hin%Hx. lia. Qed.

(** ** The search of a free slot *)

Definition no_earlier (t t' : time_step) : Prop :=
  t'.(_start_point) = t.(_start_point) ∧ t'.(_step) = t.(_step) ∧ t.(_step_index) ≤ t'.(_step_index).

(** The check is in the queue, at a later start, and nothing else changed. *)
Record placed (x : nat) (s s' : scheduler) : Prop := {
  pl_others : ∀ y, y ≠ x → s'.(checks) y = s.(checks) y;
  pl_check : ∃ t, no_earlier (s.(checks) x).(_start_expected) t ∧ s'.(checks) x = set_start_expected t (s.(checks) x);
  pl_queue : s'.(_waiting_check_queue) ≡ₚ x :: s.(_waiting_check_queue);
  pl_ordered : ordered (get_start_expected s') s'.(_waiting_check_queue);
  pl_fields : s'.(nb_checks) = s.(nb_checks) ∧ s'.(_active_check) = s.(_active_check) ∧ s'.(_alive) = s.(_alive) ∧ s'.(_conf) = s.(_conf)
    ∧ s'.(_check_time_step) = s.(_check_time_step) ∧ s'.(_export) = s.(_export) ∧ s'.(posted) = s.(posted);
}.

Lemma start_expected_others s x k y : y ≠ x → get_start_expected (set_check x k s) y = get_start_expected s y.
Proof. intros. unfold get_start_expected. cbn. by rewrite fn_lookup_insert_ne. Qed.
Lemma start_expected_this s x k : get_start_expected (set_check x k s) x = ts_value k.(_start_expected).
Proof. unfold get_start_expected. cbn. by rewrite fn_lookup_insert. Qed.

Lemma find_slot_spec x : ∀ fuel s,
  x ∉ s.(_waiting_check_queue) → ordered (get_start_expected s) s.(_waiting_check_queue) →
  let t := (s.(checks) x).(_start_expected) in
  0 < t.(_step) → 0 ≤ t.(_step_index) → t.(_step_index) + Z.of_nat fuel < 2 ^ 64 →
  (length (filter (λ y, (get_start_expected s x ≤ get_start_expected s y)%Z) s.(_waiting_check_queue)) < fuel)%nat →
  ∃ s', find_slot fuel x s = Ret s' ∧ placed x s s'.
Proof.
  induction fuel as [|fuel IH]; intros s Hx HO t Hs Hi Hw Hf; [lia|]. cbn [find_slot].
  destruct (insert_queue (get_start_expected s) x s.(_waiting_check_queue)) as [q|] eqn:E.
  - apply insert_queue_some in E as [HP HS]. eexists. split; [done|]. split; cbn; [done| |done|by apply HS|done].
    exists t. split; [split_and!; [done..|unfold t; lia]|]. unfold t. by destruct (s.(checks) x).
  - apply insert_queue_none in E as (y & Hy & Ey). assert (y ≠ x) by (by intros ->).
    set (s1 := set_check x _ s).
    assert (Ek : get_start_expected s1 x = get_start_expected s x + t.(_step)).
    { unfold s1. rewrite start_expected_this. unfold get_start_expected. fold t. unfold ts_next, ts_value. cbn.
      rewrite wrap_u64_small by lia. lia. }
    assert (Eo : ∀ z, z ∈ s.(_waiting_check_queue) → get_start_expected s z = get_start_expected s1 z).
    { intros z Hz. symmetry. apply start_expected_others. by intros ->. }
    assert (Et : (s1.(checks) x).(_start_expected) = TimeStep t.(_start_point) t.(_step) (t.(_step_index) + 1)).
    { unfold s1. cbn. rewrite fn_lookup_insert. cbn. fold t. unfold ts_next. by rewrite wrap_u64_small by lia. }
    destruct (IH s1) as (s' & -> & [PO PC PQ PS PF]); cbn zeta; rewrite ?Et; cbn [_step _step_index]; try lia; [done| | |].
    + eapply ordered_ext; [apply Eo|done].
    + eapply Nat.lt_le_trans; [|apply Nat.lt_succ_r, Hf]. apply (filter_length_lt _ _ _ y).
      * intros z. destruct (decide (z = x)) as [->|Hz]; [lia|]. rewrite Ek. unfold s1. rewrite start_expected_others by done. lia.
      * done.
      * rewrite Ey. lia.
      * rewrite Ek, <- (Eo y Hy), Ey. lia.
    + eexists. split; [done|]. split.
      * intros z Hz. rewrite PO by done. unfold s1. cbn. by rewrite fn_lookup_insert_ne.
      * destruct PC as (u & (U1 & U2 & U3) & U4). rewrite Et in U1, U2, U3. exists u. split; [split_and!; [done..|cbn in U3; fold t; lia]|].
        rewrite U4. unfold s1. cbn. by rewrite fn_lookup_insert.
      * by rewrite PQ.
      * done.
      * done.
Qed.

(** ** The invariant *)

(** a check of the current configuration *)
Definition current (s : scheduler) (x : nat) : Prop := (x < s.(nb_checks))%nat ∧ (s.(checks) x).(ck_conf) = s.(_conf).(cf_id).
Definition running (s : scheduler) (x : nat) : Prop := current s x ∧ (s.(checks) x).(_running_check) = true.
#[global] Instance running_dec s x : Decision (running s x).
Proof. unfold running, current. apply _. Defined.
Definition running_checks (s : scheduler) : list nat := filter (running s) (seq 0 s.(nb_checks)).

Definition sound_step (t : time_step) : Prop := 0 < t.(_step) ∧ 0 ≤ t.(_start_point) ∧ 0 ≤ t.(_step_index).

Record consistent (s : scheduler) : Prop := {
  co_ordered : ordered (get_start_expected s) s.(_waiting_check_queue);
  co_waiting : ∀ x, x ∈ s.(_waiting_check_queue) → current s x ∧ (s.(checks) x).(_running_check) = false;
  co_kept : s.(_alive) = true → ∀ x, current s x → ¬ running s x → x ∈ s.(_waiting_check_queue);
  co_active : s.(_active_check) = Z.of_nat (length (running_checks s));
  co_max : s.(_active_check) ≤ s.(_conf).(max_concurrent_checks) < 2 ^ 32;
  co_posted : s.(posted) = [];
  co_steps : ∀ x, current s x → sound_step (s.(checks) x).(_start_expected);
  co_started : ∀ x, running s x → get_start_expected s x ≤ horizon;
  co_interval : 0 < s.(_conf).(check_interval) < 2 ^ 32;
  co_timer : 0 < s.(_check_time_step).(_step);
  co_number : Z.of_nat s.(nb_checks) < 2 ^ 62;
}.

Lemma filter_flip {A} (P Q : A → Prop) `{!∀ x, Decision (P x), !∀ x, Decision (Q x)} (l : list A) x :
  NoDup l → x ∈ l → ¬ P x → Q x → (∀ y, y ≠ x → P y ↔ Q y) → length (filter Q l) = S (length (filter P l)).
Proof.
  intros HN Hx HP HQ Hy. destruct (list_elem_of_split _ _ Hx) as (l1 & l2 & ->).
  apply NoDup_app in HN as (_ & H1 & [H2 _]%NoDup_cons).
  assert (E : ∀ l : list A, x ∉ l → filter Q l = filter P l).
  { intros l Hl. induction l as [|y l IH]; [done|]. apply not_elem_of_cons in Hl as [? ?]. rewrite !filter_cons, IH by done.
    destruct (decide (P y)) as [?|?]; [rewrite decide_True|rewrite decide_False]; try done; by rewrite <- Hy. }
  rewrite !filter_app, !filter_cons, (decide_False (P := P x)), (decide_True (P := Q x)) by done.
  rewrite !E; [rewrite !length_app; cbn; lia|done|]. intros Hin. by apply (H1 x Hin); constructor.
Qed.

Lemma current_in s x : current s x → x ∈ seq 0 s.(nb_checks).
Proof. intros [? _]. apply elem_of_seq. lia. Qed.

(** *** Starts *)

Lemma start_check_consistent now x q s : now ≤ horizon → consistent (set_queue (x :: q) s) →
  get_start_expected s x ≤ now → s.(_active_check) < s.(_conf).(max_concurrent_checks) →
  _start_check now x s = log_start x now (set_check x (set_running true (s.(checks) x).(_running_check_index) (s.(checks) x))
                           (set_active (s.(_active_check) + 1) s))
  ∧ consistent (set_queue q (_start_check now x s)).
Proof.
  intros Hnow [HO HW HK HA HM HP HS HT HI HTS HN] Hdue Hmax. cbn in *.
  destruct (HW x ltac:(constructor)) as [Hc Hr]. pose proof (ordered_NoDup _ _ HO) as [Hxq _]%NoDup_cons.
  assert (E : _start_check now x s = log_start x now (set_check x (set_running true (s.(checks) x).(_running_check_index) (s.(checks) x))
                           (set_active (s.(_active_check) + 1) s))).
  { unfold _start_check, start_check. cbn. rewrite Hr, wrap_u32_small; [done|]. lia. }
  split; [done|]. rewrite E. set (s1 := set_queue q _).
  assert (Eo : ∀ y, y ≠ x → s1.(checks) y = s.(checks) y) by (intros; by apply fn_lookup_insert_ne).
  assert (Ex : s1.(checks) x = set_running true (s.(checks) x).(_running_check_index) (s.(checks) x)) by apply fn_lookup_insert.
  assert (Ek : ∀ y, get_start_expected s1 y = get_start_expected s y).
  { intros y. unfold get_start_expected. destruct (decide (y = x)) as [->|?]; [by rewrite Ex|by rewrite Eo]. }
  assert (Ec : ∀ y, current s1 y ↔ current s y).
  { intros y. unfold current. destruct (decide (y = x)) as [->|?]; [by rewrite Ex|by rewrite Eo]. }
  split.
  - eapply ordered_ext; [|apply StronglySorted_inv in HO as [HO _]; exact HO]. intros. symmetry. apply Ek.
  - intros y Hy. assert (y ≠ x) by (by intros ->). rewrite Ec, Eo by done. apply HW. by constructor.
  - intros Ha y Hy Hnr. assert (y ≠ x) as Hyx.
    { intros ->. apply Hnr. split; [done|]. by rewrite Ex. }
    rewrite Ec in Hy. specialize (HK Ha y Hy). apply elem_of_cons in HK as [?|?]; [done|done|].
    intros [_ R]. apply Hnr. split; [by apply Ec|]. by rewrite Eo.
  - change (s.(_active_check) = Z.of_nat (length (running_checks s))) in HA. cbn. rewrite HA. unfold running_checks.
    change (nb_checks s1) with s.(nb_checks). rewrite (filter_flip (running s) (running s1) _ x); [lia|apply NoDup_seq| | | |].
    + by apply current_in.
    + intros [_ R]. congruence.
    + split; [by apply Ec|]. by rewrite Ex.
    + intros y ?. unfold running. by rewrite Ec, Eo.
  - cbn. lia.
  - done.
  - intros y Hy%Ec. destruct (decide (y = x)) as [->|?]; [rewrite Ex; by apply HS|rewrite Eo by done; by apply HS].
  - intros y [Hy R]. rewrite Ek. destruct (decide (y = x)) as [->|?]; [lia|]. apply HT. split; [by apply Ec|]. by rewrite Eo in R.
  - done.
  - done.
  - done.
Qed.

(** What the rest of the queue is after the starts. *)
Lemma start_waiting_consistent now : now ≤ horizon → ∀ q s, consistent (set_queue q s) →
  let s' := start_waiting now q s in
  consistent s' ∧ (s'.(_conf).(max_concurrent_checks) ≤ s'.(_active_check) ∨ ∀ x, x ∈ s'.(_waiting_check_queue) → now < get_start_expected s' x)
  ∧ ∃ l, q = l ++ s'.(_waiting_check_queue) ∧ s'.(started) = s.(started) ++ ((., now) <$> l)
    ∧ ∀ x, x ∈ l → get_start_expected s x ≤ now.
Proof.
  intros Hnow. induction q as [|x q IH]; intros s HC; cbn.
  - split; [done|]. split; [right; by intros ? ?%elem_of_nil|]. exists []. cbn. rewrite app_nil_r. split_and!; [done..|set_solver].
  - destruct (Z.leb_spec (get_start_expected s x) now) as [Hdue|Hdue]; cbn; cycle 1.
    { split; [done|]. split; [|exists []; cbn; rewrite app_nil_r; split_and!; [done..|set_solver]]. right. cbn. intros y [->|Hy]%elem_of_cons; [exact Hdue|].
      destruct HC as [HO _ _ _ _ _ _ _ _ _ _]. apply StronglySorted_inv in HO as [_ HO]. rewrite Forall_forall in HO.
      specialize (HO y Hy). cbn in HO. change (get_start_expected s x < get_start_expected s y) in HO.
      change (now < get_start_expected s y). lia. }
    destruct (Z.ltb_spec s.(_active_check) s.(_conf).(max_concurrent_checks)) as [Hm|Hm]; cycle 1.
    { split; [done|]. split; [by left|]. exists []. cbn. rewrite app_nil_r. split_and!; [done..|set_solver]. }
    destruct (start_check_consistent now x q s Hnow HC Hdue Hm) as [E HC1].
    destruct (IH _ HC1) as (C & D & l & El & Es & Hl). split; [done|]. split; [done|]. exists (x :: l). split; [by rewrite El at 1|].
    split; [rewrite Es, E; cbn; by rewrite <- app_assoc|]. intros y [->|Hy]%elem_of_cons; [done|].
    specialize (Hl y Hy). rewrite E in Hl. unfold get_start_expected in Hl |- *. cbn in Hl.
    destruct (decide (y = x)) as [->|?]; [by rewrite fn_lookup_insert in Hl|by rewrite fn_lookup_insert_ne in Hl].
Qed.

Lemma start_waiting_check_consistent now s : now ≤ horizon → consistent s → consistent (_start_waiting_check now s).
Proof. intros Hnow HC. apply (start_waiting_consistent now Hnow s.(_waiting_check_queue) s). by destruct s. Qed.

(** The check timer is set again. *)
Lemma start_check_timer_consistent now s : consistent s → ∃ s', _start_check_timer now s = Ret s' ∧ consistent s'
  ∧ s'.(_waiting_check_queue) = s.(_waiting_check_queue) ∧ s'.(_active_check) = s.(_active_check) ∧ s'.(_conf) = s.(_conf)
  ∧ s'.(checks) = s.(checks) ∧ s'.(started) = s.(started) ∧ s'.(_alive) = s.(_alive).
Proof.
  intros HC. assert (Ht : ∃ t, increment_to_after_min now s.(_check_time_step) = Ret t ∧ 0 < t.(_step)).
  { pose proof HC.(co_timer _). unfold increment_to_after_min. destruct (Z.eqb_spec s.(_check_time_step).(_step) 0); [lia|].
    eexists. split; [done|done]. }
  destruct Ht as (t & Et & Hp).
  assert (HC1 : ∀ z, consistent (set_timer z s)) by (intros z; by destruct HC; split).
  assert (HC2 : ∀ z, consistent (set_timer z (set_time_step t s))) by (intros z; by destruct HC; split).
  unfold _start_check_timer. rewrite Et. destruct s.(_waiting_check_queue) eqn:Eq; [|case_match];
    (eexists; split; [done|]; split; [auto|by split_and!]).
Qed.

(** *** Updates *)

Definition valid_config (conf : config) : Prop :=
  0 < conf.(check_interval) < 2 ^ 32 ∧ 0 ≤ conf.(max_concurrent_checks) < 2 ^ 32 ∧ (conf.(cf_services) = [] ∨ 0 < time_between_check conf).
(** no check belongs to the configuration yet *)
Definition fresh (conf : config) (s : scheduler) : Prop := ∀ x, (x < s.(nb_checks))%nat → (s.(checks) x).(ck_conf) ≠ conf.(cf_id).

Section Builds.
Context (builds : list Z → bool).

Lemma build_checks_conf id step conf services : ∀ next s,
  set_conf conf (build_checks builds id step next services s) = build_checks builds id step next services (set_conf conf s).
Proof. induction services as [|v services IH]; intros next s; cbn; [done|]. destruct (builds v); by rewrite IH. Qed.

Lemma build_checks_kept id step services : ∀ next s,
  let s' := build_checks builds id step next services s in s'.(_conf) = s.(_conf) ∧ s'.(_alive) = s.(_alive) ∧ s'.(started) = s.(started).
Proof. induction services as [|v services IH]; intros next s; cbn; [done|]. destruct (builds v); [|apply IH]. edestruct IH as (-> & -> & ->). done. Qed.

Lemma build_check_consistent v step next s : 0 < step → 0 ≤ next → consistent s → Z.of_nat (S s.(nb_checks)) < 2 ^ 62 →
  (∀ x, x ∈ s.(_waiting_check_queue) → get_start_expected s x < next) →
  let s' := build_checks builds s.(_conf).(cf_id) step next [v] s in
  consistent s' ∧ ∀ x, x ∈ s'.(_waiting_check_queue) → get_start_expected s' x < next + step.
Proof.
  intros Hs Hn HC Hb Hq. cbn. destruct (builds v); [|split; [done|]; intros x Hx; specialize (Hq x Hx); lia].
  pose proof HC as [HO HW HK HA HM HP HS HT HI HTS HN]. set (x := s.(nb_checks)) in *. set (k := Check _ _ _ _ _).
  set (s1 := Scheduler _ _ _ _ _ _ _ _ _ _ _).
  assert (Eo : ∀ y, (y < x)%nat → s1.(checks) y = s.(checks) y) by (intros; apply fn_lookup_insert_ne; lia).
  assert (Ex : s1.(checks) x = k) by apply fn_lookup_insert.
  assert (Eko : ∀ y, (y < x)%nat → get_start_expected s1 y = get_start_expected s y) by (intros; unfold get_start_expected; by rewrite Eo).
  assert (Ekx : get_start_expected s1 x = next) by (unfold get_start_expected; rewrite Ex; unfold ts_value; cbn; lia).
  assert (Hlt : ∀ y, y ∈ s.(_waiting_check_queue) → (y < x)%nat) by (intros y Hy; by destruct (HW y Hy) as [[? _] _]).
  assert (Ec : ∀ y, y ≠ x → current s1 y ↔ current s y).
  { intros y Hy. unfold current. cbn [nb_checks s1]. fold x. split; intros [? E]; (rewrite Eo in * by lia); (split; [lia|done]). }
  assert (Er : ∀ y, running s1 y ↔ running s y).
  { intros y. unfold running. destruct (decide (y = x)) as [->|Hy].
    - rewrite Ex. split; [by intros [_ ?]|]. intros [[? _] _]. unfold x in *. lia.
    - rewrite Ec by done. split; intros [[? ?] ?]; (rewrite Eo in * by done); by repeat split. }
  rewrite insert_queue_last; cycle 1.
  { intros y Hy. rewrite Eko, Ekx by auto. auto. }
  cbn [default]. split; cycle 1.
  { intros y [Hy|Hy]%elem_of_app; cbn in *.
    - change (get_start_expected s1 y < next + step). rewrite Eko by auto. specialize (Hq y Hy). lia.
    - apply elem_of_cons in Hy as [->|[]%elem_of_nil]. change (get_start_expected s1 x < next + step). lia. }
  split; cbn.
  - apply (insert_queue_some (get_start_expected s1) x s.(_waiting_check_queue)).
    + apply insert_queue_last. intros y Hy. rewrite Eko, Ekx by auto. auto.
    + eapply ordered_ext; [|exact HO]. intros y Hy. symmetry. auto.
  - intros y [Hy|Hy]%elem_of_app.
    + change (current s1 y ∧ (s1.(checks) y).(_running_check) = false). rewrite Eo, Ec by (auto; specialize (Hlt y Hy); lia). auto.
    + apply elem_of_cons in Hy as [->|[]%elem_of_nil]. change (current s1 x ∧ (s1.(checks) x).(_running_check) = false).
      unfold current. rewrite Ex. repeat split. cbn. lia.
  - intros Ha y Hy Hr. apply elem_of_app. change (current s1 y) in Hy. change (¬ running s1 y) in Hr.
    destruct (decide (y = x)) as [->|?]; [right; by constructor|left]. apply HK; [done|by apply Ec|by rewrite <- Er].
  - rewrite HA. do 2 f_equal. change (running_checks s = filter (running s1) (seq 0 (S x))). rewrite seq_S, filter_app. change (0 + x)%nat with x.
    rewrite filter_cons, decide_False by (rewrite Er; intros [[? _] _]; unfold x in *; lia). rewrite filter_nil, app_nil_r.
    apply list_filter_iff. intros y. symmetry. apply Er.
  - done.
  - done.
  - intros y Hy. change (sound_step (s1.(checks) y).(_start_expected)). change (current s1 y) in Hy.
    destruct (decide (y = x)) as [->|?]; [rewrite Ex; by split_and!|]. rewrite Eo; [apply HS; by apply Ec|]. destruct Hy as [Hy _]. cbn in Hy. lia.
  - intros y Hy. change (running s1 y) in Hy. change (get_start_expected s1 y ≤ horizon). rewrite Er in Hy.
    rewrite Eko; [auto|]. by destruct Hy as [[? _] _].
  - done.
  - done.
  - fold x. lia.
Qed.

Lemma build_checks_consistent step services : ∀ next s, 0 < step → 0 ≤ next → consistent s →
  Z.of_nat s.(nb_checks) + Z.of_nat (length services) < 2 ^ 62 → (∀ x, x ∈ s.(_waiting_check_queue) → get_start_expected s x < next) →
  consistent (build_checks builds s.(_conf).(cf_id) step next services s).
Proof.
  induction services as [|v services IH]; intros next s Hs Hn HC Hb Hq; [done|]. cbn [length] in Hb.
  destruct (build_check_consistent v step next s) as [HC' Hq']; [done..|lia|done|]. cbn in HC', Hq' |- *.
  destruct (builds v); [|apply IH; [done..|lia|done]].
  match goal with |- consistent (build_checks _ _ _ _ _ ?s1) => change (cf_id (_conf s)) with (cf_id (_conf s1)) end.
  apply IH; [done|lia|done|cbn; lia|done].
Qed.

Lemma update_consistent now conf s : 0 ≤ now ≤ horizon → valid_config conf → fresh conf s →
  Z.of_nat s.(nb_checks) + Z.of_nat (length conf.(cf_services)) < 2 ^ 62 → 0 < s.(_check_time_step).(_step) → s.(posted) = [] →
  consistent (update builds now conf s).
Proof.
  intros Hnow (Hi & Hm & Ht) Hf Hb Hts HP. unfold update. destruct (Z.eqb_spec conf.(check_interval) 0) as [|_]; [lia|].
  apply start_waiting_check_consistent; [lia|].
  assert (HC : ∀ t, 0 < t.(_step) → consistent (set_conf conf (set_time_step t (set_active 0 (set_queue [] s))))).
  { intros t Hp. set (s1 := set_conf _ _). assert (Hno : ∀ x, ¬ current s1 x) by (intros x [Hx E]; by eapply Hf).
    split; cbn; try done; try lia.
    - constructor.
    - by intros x ?%elem_of_nil.
    - intros _ x Hx. by apply Hno in Hx.
    - change (0 = Z.of_nat (length (running_checks s1))). cut (running_checks s1 = []); [by intros ->|]. unfold running_checks.
      induction (seq 0 s1.(nb_checks)) as [|x l IH]; [done|]. by rewrite filter_cons, decide_False by (by intros [Hx%Hno _]).
    - intros x Hx. by apply Hno in Hx.
    - intros x [Hx _]. by apply Hno in Hx. }
  destruct conf.(cf_services) as [|v services] eqn:E.
  - specialize (HC s.(_check_time_step) Hts). by destruct s.
  - destruct Ht as [?|Ht]; [done|]. rewrite build_checks_conf.
    apply (build_checks_consistent _ _ now (set_conf conf (set_time_step (TimeStep now (time_between_check conf) 0) (set_active 0 (set_queue [] s)))));
      [done|lia|by apply HC|done|]. by intros x ?%elem_of_nil.
Qed.
End Builds.

(** *** Completions *)

Lemma completed_consistent s s' x : consistent s → running s x →
  (∀ y, y ≠ x → s'.(checks) y = s.(checks) y) → (s'.(checks) x).(ck_conf) = (s.(checks) x).(ck_conf) →
  (s'.(checks) x).(_running_check) = false → sound_step (s'.(checks) x).(_start_expected) →
  s'.(nb_checks) = s.(nb_checks) → s'.(_active_check) = s.(_active_check) - 1 → s'.(_alive) = s.(_alive) → s'.(_conf) = s.(_conf) →
  s'.(_check_time_step) = s.(_check_time_step) → s'.(posted) = s.(posted) → ordered (get_start_expected s') s'.(_waiting_check_queue) →
  (∀ y, y ∈ s'.(_waiting_check_queue) ↔ (s.(_alive) = true ∧ y = x) ∨ y ∈ s.(_waiting_check_queue)) → consistent s'.
Proof.
  intros [HO HW HK HA HM HP HS HT HI HTS HN] Hx Eo Ec Er Et En Ea El Ef Ets Ep HO' HQ.
  assert (Hc : ∀ y, current s' y ↔ current s y).
  { intros y. unfold current. rewrite En, Ef. destruct (decide (y = x)) as [->|?]; [by rewrite Ec|by rewrite Eo]. }
  assert (Hr : ∀ y, y ≠ x → running s' y ↔ running s y) by (intros y ?; unfold running; by rewrite Hc, Eo).
  assert (Hxq : x ∉ s.(_waiting_check_queue)) by (intros [_ ?]%HW; destruct Hx; congruence).
  assert (Hnr : ¬ running s' x) by (intros [_ ?]; congruence).
  split; try congruence.
  - intros y [[_ ->]|Hy]%HQ; [split; [apply Hc, Hx|done]|]. rewrite Hc, Eo by (by intros ->). auto.
  - rewrite El. intros Ha y Hy Hn. apply HQ. destruct (decide (y = x)) as [->|?]; [by left|right]. apply HK; [done|by apply Hc|by rewrite <- Hr].
  - rewrite Ea, HA. unfold running_checks. rewrite En, (filter_flip (running s') (running s) _ x); [lia|apply NoDup_seq| |done..|done].
    apply current_in, Hx.
  - rewrite Ea, Ef. lia.
  - intros y Hy%Hc. destruct (decide (y = x)) as [->|?]; [done|]. rewrite Eo by done. auto.
  - intros y Hy. destruct (decide (y = x)) as [->|?]; [done|]. unfold get_start_expected. rewrite Eo by done. apply HT. by apply Hr.
Qed.

(** The end of a check of an older configuration. *)
Lemma older_consistent s x b i : consistent s → ¬ current s x → consistent (set_check x (set_running b i (s.(checks) x)) s).
Proof.
  intros [HO HW HK HA HM HP HS HT HI HTS HN] Hx. set (s' := set_check x _ s).
  assert (Eo : ∀ y, y ≠ x → s'.(checks) y = s.(checks) y) by (intros; by apply fn_lookup_insert_ne).
  assert (Ex : s'.(checks) x = set_running b i (s.(checks) x)) by apply fn_lookup_insert.
  assert (Hc : ∀ y, current s' y ↔ current s y).
  { intros y. unfold current. destruct (decide (y = x)) as [->|?]; [by rewrite Ex|by rewrite Eo]. }
  assert (Hne : ∀ y, current s y → y ≠ x) by (by intros y ? ->).
  assert (Hr : ∀ y, running s' y ↔ running s y).
  { intros y. unfold running. rewrite Hc. split; intros [C R]; (rewrite Eo in * by auto); done. }
  split; try done; change (_waiting_check_queue s') with s.(_waiting_check_queue).
  - eapply ordered_ext; [|exact HO]. intros y Hy. symmetry. apply start_expected_others. apply Hne. by apply HW.
  - intros y Hy. rewrite Hc, Eo by (apply Hne; by apply HW). auto.
  - intros Ha y Hy Hn. apply HK; [done|by apply Hc|by rewrite <- Hr].
  - change (s.(_active_check) = Z.of_nat (length (filter (running s') (seq 0 s.(nb_checks))))). rewrite HA. unfold running_checks.
    do 2 f_equal. apply list_filter_iff. intros y. symmetry. apply Hr.
  - intros y Hy%Hc. rewrite Eo by auto. auto.
  - intros y Hy%Hr. unfold get_start_expected. rewrite Eo by (apply Hne, Hy). by apply HT.
Qed.

(** A check ends: it waits for its next start, which is an interval after the last one. *)
Lemma on_completion_consistent host now x index status perfs outputs s : 0 ≤ now ≤ horizon → consistent s → (x < s.(nb_checks))%nat →
  (index = (s.(checks) x).(_running_check_index) → (s.(checks) x).(_running_check) = true) →
  ∃ s', on_completion host now x index status perfs outputs s = Ret s' ∧ consistent s' ∧ s'.(_conf) = s.(_conf) ∧ s'.(_alive) = s.(_alive)
    ∧ (index = (s.(checks) x).(_running_check_index) → running s x → s.(_alive) = true →
       x ∈ s'.(_waiting_check_queue)
       ∧ Z.max (get_start_expected s x + s.(_conf).(check_interval) * second) now - microsecond < get_start_expected s' x).
Proof.
  intros Hnow HC Hx Hi. unfold on_completion. destruct (Z.eqb_spec index (s.(checks) x).(_running_check_index)) as [Ei|Ei]; cycle 1.
  { exists s. split_and!; [done..|]. by intros ?. }
  specialize (Hi Ei). unfold _check_handler. cbn -[find_slot]. rewrite fn_lookup_insert. cbn -[find_slot].
  destruct (Nat.eqb_spec (s.(checks) x).(ck_conf) s.(_conf).(cf_id)) as [Ec|Ec]; cbn -[find_slot]; cycle 1.
  { eexists. split; [done|]. split; [apply older_consistent; [done|by intros [_ ?]]|]. split_and!; [done..|]. by intros _ [[_ ?] _]. }
  assert (Hr : running s x) by (by repeat split).
  set (k := s.(checks) x) in *. set (k1 := set_running false _ k).
  set (e := if s.(_conf).(use_exemplar) then _store_result_in_metrics_and_exemplars host k.(_service) now status perfs outputs s.(_export) else s.(_export)).
  set (s1 := set_export e (set_check x k1 s)).
  match goal with |- context [set_active ?n ?u] => assert (Es1 : u = s1) by (unfold s1, e; by destruct s.(_conf).(use_exemplar)) end.
  rewrite Es1. cbn -[find_slot]. pose proof HC as [HO HW HK HA HM HP HS HT HI HTS HN].
  assert (Ha : 0 < s.(_active_check)).
  { rewrite HA. unfold running_checks. assert (Hin : x ∈ filter (running s) (seq 0 s.(nb_checks))).
    { apply list_elem_of_filter. split; [done|]. by apply current_in, Hr. }
    destruct (filter (running s) (seq 0 s.(nb_checks))); [by apply elem_of_nil in Hin|cbn; lia]. }
  rewrite (wrap_u32_small (s.(_active_check) - 1)) by lia.
  assert (Hxq : x ∉ s.(_waiting_check_queue)) by (intros [_ ?]%HW; unfold k in *; congruence).
  assert (Ho : ∀ y, y ≠ x → s1.(checks) y = s.(checks) y) by (intros; by apply fn_lookup_insert_ne).
  destruct s.(_alive) eqn:El; cycle 1.
  { eexists. split; [done|]. split; [|split_and!; [done|done|congruence]].
    apply (completed_consistent s _ x); cbn; rewrite ?fn_lookup_insert; try done.
    - apply HS, Hr.
    - eapply ordered_ext; [|exact HO]. intros y Hy. unfold get_start_expected. cbn. rewrite fn_lookup_insert_ne by (by intros ->). done.
    - intros y. rewrite El. split; [by right|]. by intros [[? _]|?]. }
  pose proof (HS x (proj1 Hr)) as (S1 & S2 & S3). fold k in S1, S2, S3. pose proof (HT x Hr) as Hv. unfold get_start_expected in Hv. fold k in Hv.
  destruct (increment_spec (Z.max (ts_value k.(_start_expected) + s.(_conf).(check_interval) * second) now) k.(_start_expected))
    as (t & -> & T1 & T2 & T3 & T4); [done..| |].
  { unfold ts_value, horizon, second, microsecond in *. nia. }
  set (s2 := set_check x _ _). set (n := S _).
  assert (E2 : s2.(checks) x = set_start_expected t k1) by apply fn_lookup_insert.
  assert (O2 : ∀ y, y ≠ x → s2.(checks) y = s.(checks) y) by (intros y Hy; rewrite <- Ho by done; by apply fn_lookup_insert_ne).
  assert (Hlen : Z.of_nat (length s.(_waiting_check_queue)) < 2 ^ 62).
  { pose proof (ordered_NoDup _ _ HO) as HN'. apply (NoDup_submseteq _ (seq 0 s.(nb_checks))) in HN'.
    - apply submseteq_length in HN'. rewrite length_seq in HN'. lia.
    - intros y Hy. by apply current_in, HW. }
  destruct (find_slot_spec x n s2) as (s' & -> & [PO (u & (U1 & U2 & U3) & U4) PQ PS (F1 & F2 & F3 & F4 & F5 & F6 & F7)]); cbn zeta; rewrite ?E2.
  - done.
  - eapply ordered_ext; [|exact HO]. intros y Hy. unfold get_start_expected. rewrite O2 by (by intros ->). done.
  - cbn. lia.
  - cbn. lia.
  - cbn [_start_expected set_start_expected]. unfold n. cbn. lia.
  - unfold n. apply Nat.lt_succ_r, length_filter.
  - rewrite E2 in U1, U2, U3. cbn in U1, U2, U3. rewrite E2 in U4. exists s'. split; [done|]. split.
    + apply (completed_consistent s s' x); rewrite ?U4; try done.
      * intros y Hy. rewrite PO by done. auto.
      * split_and!; cbn; lia.
      * intros y. rewrite PQ, elem_of_cons. change (_waiting_check_queue s2) with s.(_waiting_check_queue). intuition.
    + split; [done|]. split; [by etrans; [apply F3|]|]. intros _ _ _. split; [rewrite PQ; by constructor|].
      unfold get_start_expected at 2. rewrite U4. cbn. unfold get_start_expected. fold k.
      eapply Z.lt_le_trans; [apply T4|]. unfold ts_value. rewrite U1, U2. nia.
Qed.

(** ** Schedules *)

Section Schedules.
Context (builds : list Z → bool) (host : list Z).

(** What happens to a scheduler.  The command that ends is one that was started: when its
    index is the one of the check, the check is running. *)
Inductive reachable : scheduler → Prop :=
  | started_up now s : 0 ≤ now ≤ horizon → _start builds now = Ret s → reachable s
  | updated now conf s : 0 ≤ now ≤ horizon → reachable s → valid_config conf → fresh conf s →
      Z.of_nat s.(nb_checks) + Z.of_nat (length conf.(cf_services)) < 2 ^ 62 → reachable (update builds now conf s)
  | timer_expired now s s' : 0 ≤ now ≤ horizon → reachable s → _check_timer_handler now s = Ret s' → reachable s'
  | sent s : reachable s → reachable (set_export (_send_timer_handler s.(_export)).2 s)
  | ended now x index status perfs outputs s s' : 0 ≤ now ≤ horizon → reachable s → (x < s.(nb_checks))%nat →
      (index = (s.(checks) x).(_running_check_index) → (s.(checks) x).(_running_check) = true) →
      on_completion host now x index status perfs outputs s = Ret s' → reachable s'
  | stopped s : reachable s → reachable (stop s).

Lemma check_timer_handler_spec now s : now ≤ horizon → consistent s → ∃ s', _check_timer_handler now s = Ret s' ∧ consistent s'
  ∧ (s'.(_conf).(max_concurrent_checks) ≤ s'.(_active_check) ∨ ∀ x, x ∈ s'.(_waiting_check_queue) → now < get_start_expected s' x)
  ∧ ∃ l, s.(_waiting_check_queue) = l ++ s'.(_waiting_check_queue) ∧ s'.(started) = s.(started) ++ ((., now) <$> l)
    ∧ ∀ x, x ∈ l → get_start_expected s x ≤ now.
Proof.
  intros Hnow HC. destruct (start_waiting_consistent now Hnow s.(_waiting_check_queue) s) as (C1 & D & l & L1 & L2 & L3); [by destruct s|].
  destruct (start_check_timer_consistent now _ C1) as (s' & E & C2 & E1 & E2 & E3 & E4 & E5 & E6).
  exists s'. split; [exact E|]. split; [done|]. rewrite E1, E2, E3, E5. split; [|by exists l].
  destruct D as [?|D]; [by left|right]. unfold get_start_expected in *. rewrite E4. exact D.
Qed.

Lemma start_consistent now s : 0 ≤ now ≤ horizon → _start builds now = Ret s → consistent s.
Proof.
  intros Hnow. unfold _start. set (s0 := Scheduler _ _ _ _ _ _ _ _ _ _ _).
  destruct (start_check_timer_consistent now (update builds now default_config s0)) as (s1 & -> & HC & _); [|by intros [= <-]].
  apply update_consistent; try done; [|by intros x Hx%Nat.nlt_0_r]. split_and!; try done. by left.
Qed.

Lemma reachable_consistent s : reachable s → consistent s.
Proof.
  induction 1 as [now s Hn E|now conf s Hn _ IH Hv Hf Hb|now s s' Hn _ IH E|s _ IH|now x index status perfs outputs s s' Hn _ IH Hx Hi E|s _ IH].
  - by eapply start_consistent.
  - apply update_consistent; [done..|apply IH|apply IH].
  - destruct (check_timer_handler_spec now s) as (s1 & E1 & HC & _); [lia|done|]. congruence.
  - by destruct IH; split.
  - destruct (on_completion_consistent host now x index status perfs outputs s) as (s1 & E1 & HC & _); [done..|]. congruence.
  - destruct IH; by split.
Qed.


(** C15: when the check timer expires, the checks that start are the first of the queue, in the order
    of their starts, none of them before its time, and then no check that is due still waits, unless
    as many checks run as the configuration allows; when a check ends, it is in the queue again, for
    a start at least an interval after the last one and not in the past, up to a microsecond. *)
Theorem checks_start_in_time s now s' : reachable s → 0 ≤ now ≤ horizon →
  (_check_timer_handler now s = Ret s' →
   (s'.(_conf).(max_concurrent_checks) ≤ s'.(_active_check) ∨ ∀ x, x ∈ s'.(_waiting_check_queue) → now < get_start_expected s' x)
   ∧ ∃ l, s.(_waiting_check_queue) = l ++ s'.(_waiting_check_queue) ∧ s'.(started) = s.(started) ++ ((., now) <$> l)
     ∧ ∀ x, x ∈ l → get_start_expected s x ≤ now)
  ∧ ∀ x index status perfs outputs, running s x → index = (s.(checks) x).(_running_check_index) → s.(_alive) = true →
      on_completion host now x index status perfs outputs s = Ret s' →
      x ∈ s'.(_waiting_check_queue)
      ∧ Z.max (get_start_expected s x + s.(_conf).(check_interval) * second) now - microsecond < get_start_expected s' x.
Proof.
  intros HR%reachable_consistent Hn. split.
  - intros E. destruct (check_timer_handler_spec now s) as (s1 & E1 & _ & H); [lia|done|]. rewrite E in E1. by injection E1 as <-.
  - intros x index status perfs outputs Hx Hi Ha E.
    destruct (on_completion_consistent host now x index status perfs outputs s) as (s1 & E1 & _ & _ & _ & H); [done|done|apply Hx|by intros _; apply Hx|].
    rewrite E in E1. injection E1 as <-. by apply H.
Qed.
End Schedules.

(** ** A schedule *)

Definition get_state (r : res scheduler) : scheduler :=
  match r with
  | Ret s => s
  | Throw _ => Scheduler (λ _, Check (TimeStep 0 0 0) [] 0 false 0) 0 [] 0 false default_config (TimeStep 0 0 0) 0 _init_export_request [] []
  end.
Definition returns (r : res scheduler) : bool := match r with Ret _ => true | Throw _ => false end.
Lemma get_state_ret r : returns r = true → r = Ret (get_state r).
Proof. by destruct r. Qed.
Definition all_build : list Z → bool := λ _, true.

(** Three services are checked in ten seconds, one at a time. *)
Definition sample_config : config := Config 1 10 1 true [[97]; [98]; [99]].
Definition sample_start : Z := 100 * second.
Definition sample_scheduler : scheduler := update all_build sample_start sample_config (get_state (_start all_build 0)).

Lemma sample_reachable host : reachable all_build host sample_scheduler.
Proof.
  apply updated; [by vm_compute| | | |by vm_compute].
  - apply (started_up _ _ 0); [by vm_compute|apply get_state_ret; by vm_compute].
  - split_and!; try by vm_compute. right. by vm_compute.
  - intros x Hx. vm_compute in Hx. lia.
Qed.


Definition ended_state : scheduler := get_state (on_completion [104] (101 * second) 0 0 1 [] [] sample_scheduler).
Definition timer_state : scheduler := get_state (_check_timer_handler (104 * second) ended_state).

Lemma ended_state_ret : on_completion [104] (101 * second) 0 0 1 [] [] sample_scheduler = Ret ended_state.
Proof. apply get_state_ret. by vm_compute. Qed.
Lemma timer_state_ret : _check_timer_handler (104 * second) ended_state = Ret timer_state.
Proof. apply get_state_ret. by vm_compute. Qed.

Lemma checks_start_in_time_witness :
  (ended_state.(_waiting_check_queue) = [1; 2; 0]%nat ∧ 0%nat ∈ ended_state.(_waiting_check_queue)
   ∧ 110 * second - microsecond < get_start_expected ended_state 0)
  ∧ timer_state.(_waiting_check_queue) = [2; 0]%nat
  ∧ (1 ≤ timer_state.(_active_check) ∨ ∀ x, x ∈ timer_state.(_waiting_check_queue) → 104 * second < get_start_expected timer_state x).
Proof.
  split; [split; [by vm_compute|]|split; [by vm_compute|]].
  - apply (checks_start_in_time all_build [104] sample_scheduler (101 * second) ended_state) with (index := 0) (status := 1) (perfs := []) (outputs := []).
    + apply sample_reachable.
    + by vm_compute.
    + split; [split; [vm_compute; lia|by vm_compute]|by vm_compute].
    + by vm_compute.
    + by vm_compute.
    + exact ended_state_ret.
  - apply (checks_start_in_time all_build [104] ended_state (104 * second) timer_state).
    + eapply (ended _ _ (101 * second) 0 0 1 [] [] sample_scheduler); [by vm_compute|apply sample_reachable|vm_compute; lia|by vm_compute|exact ended_state_ret].
    + by vm_compute.
    + exact timer_state_ret.
Defined.

(** ** What the code does otherwise than its comments say *)

(** The step that is found may be less than a microsecond before the time that is asked. *)
Example step_before_min : ts_value <$> (match increment_to_after_min 1500 (TimeStep 1000 1000000 7) with Ret t => Some t | Throw _ => None end) = Some 1000.
Proof. reflexivity. Qed.

(** A configuration with no interval is refused, but the queue is lost and the count of the
    checks that run too: when one of them ends the counter wraps around, and no check starts any
    more. *)
Definition no_interval : config := Config 2 0 1 true [[97]].
Definition refused : scheduler := update all_build (101 * second) no_interval sample_scheduler.
Definition wrapped : scheduler := get_state (on_completion [104] (102 * second) 0 0 1 [] [] refused).

Example refused_configuration_stops_checks :
  refused.(_conf) = sample_config ∧ refused.(_waiting_check_queue) = [] ∧ running_checks refused = [0%nat] ∧ refused.(_active_check) = 0
  ∧ wrapped.(_active_check) = 2 ^ 32 - 1 ∧ wrapped.(_waiting_check_queue) = [0%nat]
  ∧ (get_state (_check_timer_handler (1000 * second) wrapped)).(started) = wrapped.(started).
Proof. split_and!; by vm_compute. Qed.

(** An interval of more than 4294 seconds is not spread over the interval: the product has 32
    bits. *)
Example long_interval_wraps : time_between_check (Config 3 4295 1 true [[97]]) = 32704 * microsecond.
Proof. reflexivity. Qed.
