(* ===== verification/ConnectorWire.v ===== *)
(** * The protocol between the engine and its connectors

    A connector is a program that runs checks for the engine.  The orders of the engine
    ([engine/src/commands/connector.cc], the functions [_send_query]) go through a pipe to the
    parser of the connector ([connectors/common/src/parser.cc] and, for the Perl connector,
    [connectors/perl/src/orders/parser.cc]); its answers ([connectors/common/src/reporter.cc])
    come back through another one ([connector::data_is_available] and the functions
    [_recv_query]).  A packet is a list of fields separated by zero bytes, with four zero
    bytes at the end. *)

From S2P Require Import Prelude CheckOutput Wire ServiceCheck Perfdata.

(** ** Numbers *)

(** [operator<<] of an unsigned number of 64 bits at most, and of an [int] *)
Definition print_unsigned (n : Z) : list Z := Wire.digits 20 n [].
Definition print_int (z : Z) : list Z := if z <? 0 then 45 :: print_unsigned (- z) else print_unsigned z.

(** The sign, the value and the length of a number in base 10, spaces before it included. *)
Definition read_number (l : list Z) : option (bool * Z * nat) :=
  let blanks := span isspace l in
  let '(neg, k) := sign (drop blanks l) in
  let '(v, n) := Perfdata.digits 10 0 (drop (blanks + k) l) in
  if (n =? 0)%nat then None else Some (neg, v, (blanks + k + n)%nat).

(** [strtol] and [strtoull]: the value and where [endptr] is *)
Definition strtol (l : list Z) : Z * nat :=
  match read_number l with
  | Some (neg, v, n) => (Z.max (- 2 ^ 63) (Z.min (2 ^ 63 - 1) (if neg then - v else v)), n)
  | None => (0, O)
  end.
Definition strtoull (l : list Z) : Z * nat :=
  match read_number l with
  | Some (neg, v, n) => (if 2 ^ 64 <=? v then 2 ^ 64 - 1 else wrap_u64 (if neg then - v else v), n)
  | None => (0, O)
  end.

(** ** Packets *)

Fixpoint join (fields : list (list Z)) : list Z :=
  match fields with
  | [] => []
  | [f] => f
  | f :: fields => f ++ 0 :: join fields
  end.

Definition boundary : list Z := [0; 0; 0; 0].

(** [find(boundary)]: what is before and after the first one *)
Fixpoint find_boundary (l : list Z) : option (list Z * list Z) :=
  match l with
  | [] => None
  | c :: l' => if bool_decide (take 4 l = boundary) then Some ([], drop 4 l) else prod_map (c ::.) id <$> find_boundary l'
  end.

(** The packets of a buffer, without their boundary, and the rest. *)
Fixpoint packets (fuel : nat) (buffer : list Z) : list (list Z) * list Z :=
  match fuel with
  | O => ([], buffer)
  | S fuel =>
      match find_boundary buffer with
      | Some (p, rest) => prod_map (p ::.) id (packets fuel rest)
      | None => ([], buffer)
      end
  end.
Definition split (buffer : list Z) : list (list Z) * list Z := packets (S (length buffer)) buffer.
#[global] Arguments split : simpl never.

(** [find('\0')]: a field and what follows it *)
Fixpoint field (l : list Z) : option (list Z * list Z) :=
  match l with
  | [] => None
  | c :: l => if c =? 0 then Some ([], l) else prod_map (c ::.) id <$> field l
  end.

(** ** Orders *)

Inductive query :=
  | QVersion
  | QExecute (command_id seconds start : Z) (cmdline : list Z)
  | QQuit.

Definition _query_ending : list Z := [0; 0; 0].

(** [_send_query_version], [_send_query_execute], [_send_query_quit] *)
Definition send_query (q : query) : list Z :=
  match q with
  | QVersion => [48; 0] ++ _query_ending
  | QExecute command_id seconds start cmdline =>
      [50; 0] ++ print_unsigned command_id ++ 0 :: print_unsigned seconds ++ 0 :: print_int start ++ 0 :: cmdline ++ 0 :: _query_ending
  | QQuit => [52; 0] ++ _query_ending
  end.

(** What the parser asks of the policy; a timeout is a number of seconds. *)
Inductive order :=
  | OnVersion
  | OnExecute (cmd_id seconds : Z) (cmdline : list Z)
  | OnQuit
  | OnError.

Record parser := Parser { _buffer : list Z; _dont_care_about_stdin_eof : bool }.

(** [execute] of the Perl connector: [None] is the exception.  [ptr] is at the end of the field
    unless there is something after the number. *)
Definition execute (cmd : list Z) : res order :=
  match field cmd with
  | None => Throw undefined
  | Some (f_id, cmd) =>
      let '(cmd_id, n) := strtoull f_id in
      if (cmd_id =? 0) || negb (n =? length f_id)%nat then Ret OnError
      else
        match field cmd with
        | None => Throw undefined
        | Some (f_timeout, cmd) =>
            let '(seconds, n) := strtoull f_timeout in
            if negb (n =? length f_timeout)%nat then Ret OnError
            else
              match field cmd with
              | None => Throw undefined
              | Some (f_start, cmd) =>
                  let '(_, n) := strtoull f_start in
                  if negb (n =? length f_start)%nat then Ret OnError
                  else
                    match field cmd with
                    | None => Throw undefined
                    | Some (cmdline, _) => Ret (OnExecute cmd_id seconds cmdline)
                    end
              end
        end
  end.

(** [_parse] of a command with its boundary: what is asked of the policy, if anything *)
Definition _parse (cmd : list Z) (p : parser) : res (list order * parser) :=
  let id := wrap_u32 (strtoull cmd).1 in
  match field cmd with
  | None => Throw undefined
  | Some (_, rest) =>
      if id =? 0 then Ret ([OnVersion], p)
      else if id =? 2 then let! o := execute rest in Ret ([o], p)
      else if id =? 4 then Ret ([OnQuit], p)
      else if id =? 10 then Ret ([], Parser p.(_buffer) true)
      else Ret ([OnError], p)
  end.

Fixpoint parse_all (cmds : list (list Z)) (p : parser) : res (list order * parser) :=
  match cmds with
  | [] => Ret ([], p)
  | cmd :: cmds =>
      let! r := _parse (cmd ++ boundary) p in
      let! r' := parse_all cmds r.2 in
      Ret (r.1 ++ r'.1, r'.2)
  end.

(** [read_handler] without an error: bytes are appended and [read] takes the commands *)
Definition read_handler (bytes : list Z) (p : parser) : res (list order * parser) :=
  if p.(_dont_care_about_stdin_eof) then Ret ([], p)
  else
    let '(cmds, rest) := split (p.(_buffer) ++ bytes) in
    let! r := parse_all cmds (Parser rest p.(_dont_care_about_stdin_eof)) in
    Ret r.

(** ** Answers *)

Record check_result := CheckResult {
  r_cmd_id : Z;
  r_executed : bool;
  r_exit_code : Z;
  r_error : list Z;
  r_output : list Z;
}.

(** [policy::on_error] of a command *)
Definition error_result (cmd_id : Z) (msg : list Z) : check_result := CheckResult cmd_id false (-1) msg [].

Definition or_space (l : list Z) : list Z := match l with [] => [32] | _ => l end.

Definition send_result (r : check_result) : list Z :=
  [51; 0] ++ print_unsigned r.(r_cmd_id) ++ 0 :: (if r.(r_executed) then [49] else [48]) ++ 0 :: print_int r.(r_exit_code) ++ 0 ::
  or_space r.(r_error) ++ 0 :: or_space r.(r_output) ++ boundary.
Definition send_version (major minor : Z) : list Z := [49; 0] ++ print_unsigned major ++ 0 :: print_unsigned minor ++ boundary.

(** What the engine finds in an answer.  The output that was not executed is the error; the
    one that was executed is [None] when it is after the end of the packet. *)
Inductive answer :=
  | AVersion (major minor : Z)
  | ABadVersion
  | AExecute (command_id : Z) (is_executed : bool) (exit_code : Z) (std_err : list Z) (std_out : option (list Z))
  | AQuit
  | AError (code : Z) (message : list Z)
  | ABad.

(** The string at a pointer, up to a zero or the end. *)
Definition cstr (l : list Z) : list Z := take (span (λ c, negb (c =? 0)) l) l.
(** [endptr + 1]: it may be read when [endptr] is not at the end *)
Definition after (l : list Z) (n : nat) : res (list Z) := if (n <? length l)%nat then Ret (drop (S n) l) else Throw undefined.

Definition recv_execute (data : list Z) : res answer :=
  let '(command_id, n) := strtol data in
  if (n =? 0)%nat then Ret ABad
  else
    let! data := after data n in
    let '(executed, n) := strtol data in
    if (n =? 0)%nat then Ret ABad
    else
      let! data := after data n in
      let '(exit_code, n) := strtol data in
      if (n =? 0)%nat then Ret ABad
      else
        let! err := after data n in
        Ret (AExecute command_id (negb (executed =? 0)) (wrap_i32 exit_code) (cstr err)
               (match after err (length (cstr err)) with Ret out => Some (cstr out) | Throw _ => None end)).

Definition recv_version (data : list Z) : res answer :=
  let '(major, n) := strtoull data in
  if (n =? 0)%nat then Ret ABadVersion
  else
    let! data := after data n in
    let '(minor, n) := strtoull data in
    if (n =? 0)%nat then Ret ABadVersion else Ret (AVersion (wrap_u32 major) (wrap_u32 minor)).

Definition recv_error (data : list Z) : res answer :=
  let '(code, n) := strtol data in
  if (n =? 0)%nat then Ret ABad
  else let! message := after data n in Ret (AError (wrap_i32 code) (cstr message)).

(** The table of [data_is_available]; [endptr + 1] is only read by the functions that parse. *)
Definition recv_query (packet : list Z) : res answer :=
  let '(id, n) := strtol packet in
  let id := wrap_u32 id in
  if (n =? 0)%nat then Ret ABad
  else if id =? 1 then let! data := after packet n in recv_version data
  else if id =? 3 then let! data := after packet n in recv_execute data
  else if id =? 5 then Ret AQuit
  else if id =? 6 then let! data := after packet n in recv_error data
  else Ret ABad.

Fixpoint recv_all (ps : list (list Z)) : res (list answer) :=
  match ps with
  | [] => Ret []
  | p :: ps =>
      let! a := recv_query p in
      let! l := recv_all ps in
      Ret (a :: l)
  end.

(** What [data_is_available] does with the bytes of a read: the answers, and [_data_available] *)
Definition receive (bytes data : list Z) : res (list answer * list Z) :=
  let '(ps, rest) := split (data ++ bytes) in
  let! l := recv_all ps in
  Ret (l, rest).

(** ** Numbers are read as they were printed *)

Lemma wire_digits_text : ∀ fuel n acc, (0 < fuel)%nat → 0 ≤ n < 10 ^ Z.of_nat fuel →
  ∃ ds, Wire.digits fuel n (digits_text acc) = digits_text (ds ++ acc) ∧ is_digits ds ∧ ds ≠ [] ∧ of_digits 0 ds = n.
Proof.
  induction fuel as [|fuel IH]; intros n acc Hf Hn; [lia|]. cbn [Wire.digits].
  pose proof (Z.mod_pos_bound n 10 ltac:(lia)) as Hm. pose proof (Z_div_mod_eq_full n 10) as E.
  change ((48 + n mod 10) :: digits_text acc) with (digits_text ([n mod 10] ++ acc)).
  destruct (Z.eqb_spec (n / 10) 0) as [E0|E0].
  - exists [n mod 10]. split_and!; [done| |done|unfold of_digits; cbn; lia]. apply list.Forall_singleton. lia.
  - assert (0 ≤ n / 10 < 10 ^ Z.of_nat fuel).
    { rewrite Nat2Z.inj_succ, Z.pow_succ_r in Hn by lia. split; [apply Z.div_pos; lia|apply Z.div_lt_upper_bound; lia]. }
    destruct fuel as [|fuel]; [cbn in *; lia|].
    destruct (IH (n / 10) ([n mod 10] ++ acc)) as (ds & -> & Hd & Hne & Ed); [lia|done|].
    exists (ds ++ [n mod 10]). split_and!; [by rewrite <- app_assoc| |by destruct ds|].
    + apply list.Forall_app. split; [done|]. apply list.Forall_singleton. lia.
    + unfold of_digits in *. rewrite foldl_app, Ed. cbn. lia.
Qed.

Lemma print_unsigned_text n : 0 ≤ n < 2 ^ 64 →
  ∃ ds, print_unsigned n = digits_text ds ∧ is_digits ds ∧ ds ≠ [] ∧ of_digits 0 ds = n.
Proof.
  intros Hn. destruct (wire_digits_text 20 n []) as (ds & E & H); [lia|split; [lia|]|].
  - eapply Z.lt_le_trans; [apply Hn|by vm_compute].
  - exists ds. unfold print_unsigned. change [] with (digits_text []) at 1. by rewrite E, app_nil_r.
Qed.

Definition stops (rest : list Z) : Prop := match rest with c :: _ => digit 10 c = None | [] => True end.

Lemma read_digits_text neg ds rest : is_digits ds → ds ≠ [] → stops rest →
  read_number ((if neg : bool then [45] else []) ++ digits_text ds ++ rest) =
    Some (neg, of_digits 0 ds, (length (if neg then [45] else []) + length ds)%nat).
Proof.
  intros Hd Hne Hr. assert (Hh : ∃ d l, 0 ≤ d ≤ 9 ∧ digits_text ds = 48 + d :: l).
  { destruct Hd as [|d l Hd _]; [done|]. by exists d, (digits_text l). }
  destruct Hh as (d & l & Hd9 & Eh). destruct (digit_head d Hd9) as [Hsp _]. unfold read_number.
  assert (length ds ≠ 0%nat) by (by destruct ds). destruct neg.
  - cbn [app span isspace sign drop Nat.add]. change (isspace 45) with false. cbn [drop Nat.add sign]. change (45 =? 45) with true. cbn [drop].
    rewrite drop_0, digits_text_app by done. destruct (Nat.eqb_spec (length ds) 0); [done|]. done.
  - assert (Es : span isspace (digits_text ds ++ rest) = O) by (rewrite Eh; cbn [app span]; by rewrite Hsp).
    rewrite app_nil_l, Es. rewrite drop_0.
    assert (Eg : sign (digits_text ds ++ rest) = (false, O)).
    { rewrite Eh. cbn [app sign]. destruct (Z.eqb_spec (48 + d) 45); [lia|]. destruct (Z.eqb_spec (48 + d) 43); [lia|done]. }
    rewrite Eg. cbn [Nat.add]. rewrite drop_0. rewrite digits_text_app by done. destruct (Nat.eqb_spec (length ds) 0); [done|]. done.
Qed.

Lemma stops_zero l : stops (0 :: l).
Proof. done. Qed.

Lemma strtoull_print n rest : 0 ≤ n < 2 ^ 64 → stops rest → strtoull (print_unsigned n ++ rest) = (n, length (print_unsigned n)).
Proof.
  intros Hn Hr. destruct (print_unsigned_text n Hn) as (ds & -> & Hd & Hne & <-). unfold strtoull.
  pose proof (read_digits_text false ds rest Hd Hne Hr) as E. cbn [app] in E. rewrite E. cbn [length Nat.add].
  rewrite length_digits_text, wrap_u64_small by done. destruct (Z.leb_spec (2 ^ 64) (of_digits 0 ds)); [lia|done].
Qed.

Lemma strtol_print n rest : 0 ≤ n < 2 ^ 63 → stops rest → strtol (print_unsigned n ++ rest) = (n, length (print_unsigned n)).
Proof.
  intros Hn Hr. destruct (print_unsigned_text n ltac:(lia)) as (ds & -> & Hd & Hne & <-). unfold strtol.
  pose proof (read_digits_text false ds rest Hd Hne Hr) as E. cbn [app] in E. rewrite E. cbn [length Nat.add].
  rewrite length_digits_text. f_equal. lia.
Qed.

Lemma strtol_print_int z rest : - 2 ^ 63 < z < 2 ^ 63 → stops rest → strtol (print_int z ++ rest) = (z, length (print_int z)).
Proof.
  intros Hz Hr. unfold print_int. destruct (Z.ltb_spec z 0) as [Hneg|]; [|apply strtol_print; [lia|done]].
  destruct (print_unsigned_text (- z) ltac:(lia)) as (ds & -> & Hd & Hne & E). unfold strtol.
  pose proof (read_digits_text true ds rest Hd Hne Hr) as Er. cbn [app] in Er |- *. rewrite Er. cbn [length Nat.add].
  rewrite length_digits_text. f_equal. lia.
Qed.

(** ** Packets *)

Definition zero_free (f : list Z) : Prop := f ≠ [] ∧ 0 ∉ f.

Lemma print_unsigned_zero_free n : 0 ≤ n < 2 ^ 64 → zero_free (print_unsigned n).
Proof.
  intros Hn. destruct (print_unsigned_text n Hn) as (ds & -> & Hd & Hne & _). split; [by destruct ds|].
  unfold digits_text. intros (d & E & Hin)%list_elem_of_fmap. pose proof (proj1 (list.Forall_forall _ _) Hd d Hin). cbn in *. lia.
Qed.
Lemma print_int_zero_free z : - 2 ^ 63 < z < 2 ^ 63 → zero_free (print_int z).
Proof.
  intros Hz. unfold print_int. destruct (Z.ltb_spec z 0); [|apply print_unsigned_zero_free; lia].
  split; [done|]. apply not_elem_of_cons. split; [done|]. apply print_unsigned_zero_free. lia.
Qed.

Lemma field_join f rest : 0 ∉ f → field (f ++ 0 :: rest) = Some (f, rest).
Proof.
  induction f as [|c f IH]; intros H; [done|]. apply not_elem_of_cons in H as [Hc H]. cbn.
  destruct (Z.eqb_spec c 0); [congruence|]. by rewrite IH.
Qed.

Lemma find_boundary_cons c l : c ≠ 0 → find_boundary (c :: l) = prod_map (c ::.) id <$> find_boundary l.
Proof. intros Hc. cbn [find_boundary]. rewrite bool_decide_false; [done|]. cbn. by intros [= ? _]. Qed.

Lemma find_boundary_field f l : 0 ∉ f → find_boundary (f ++ l) = prod_map (f ++.) id <$> find_boundary l.
Proof.
  induction f as [|c f IH]; intros H; cbn [app]; [by destruct (find_boundary l) as [[]|]|]. apply not_elem_of_cons in H as [Hc H].
  rewrite find_boundary_cons, IH by done. by destruct (find_boundary l) as [[]|].
Qed.

Lemma find_boundary_zero c l : c ≠ 0 → find_boundary (0 :: c :: l) = prod_map (0 ::.) id <$> find_boundary (c :: l).
Proof. intros Hc. cbn [find_boundary]. rewrite bool_decide_false; [done|]. cbn. by intros [= ? _]. Qed.

(** A packet whose fields are not empty ends at its boundary. *)
Lemma find_boundary_packet fields rest : Forall zero_free fields → fields ≠ [] →
  find_boundary (join fields ++ boundary ++ rest) = Some (join fields, rest).
Proof.
  induction 1 as [|f fields [Hne Hf] HF IH]; intros Hn; [done|]. destruct fields as [|g fields].
  - cbn [join]. rewrite find_boundary_field by done. cbn. rewrite bool_decide_true by done. cbn. by rewrite app_nil_r.
  - assert (∃ c l, join (g :: fields) = c :: l ∧ c ≠ 0) as (c & l & E & Hc).
    { apply list.Forall_cons in HF as [[Hg Hg0] _]. destruct g as [|c g]; [done|]. apply not_elem_of_cons in Hg0 as [? _].
      destruct fields; cbn; eauto. }
    change (join (f :: g :: fields)) with (f ++ 0 :: join (g :: fields)). rewrite <- app_assoc. cbn [app]. rewrite find_boundary_field by done.
    specialize (IH ltac:(done)). rewrite E in IH |- *. cbn [app] in IH |- *. rewrite find_boundary_zero, IH by done. done.
Qed.

Lemma find_boundary_app l m a b : find_boundary l = Some (a, b) → find_boundary (l ++ m) = Some (a, b ++ m).
Proof.
  revert a b. induction l as [|c l IH]; intros a b; [done|]. cbn [find_boundary app].
  destruct (bool_decide_reflect (take 4 (c :: l) = boundary)) as [E|E].
  - intros [= <- <-]. assert (4 ≤ length (c :: l))%nat.
    { apply (f_equal length) in E. rewrite length_take in E. cbn [length boundary] in E |- *. lia. }
    rewrite bool_decide_true; [by rewrite (drop_app_le (c :: l) m)|]. by rewrite (take_app_le (c :: l) m).
  - intros (p & Ep & E')%fmap_Some. destruct p as [a' b']. cbn in E'. injection E' as -> ->. rewrite (IH a' b' Ep).
    rewrite bool_decide_false; [done|]. intros Et. apply E. rewrite <- Et. rewrite (take_app_le (c :: l) m); [done|].
    assert (4 ≤ length l)%nat; [|cbn; lia]. clear -Ep. revert a' b' Ep. induction l as [|d l IH]; intros a b; cbn [find_boundary]; [done|].
    destruct (bool_decide_reflect (take 4 (d :: l) = boundary)) as [E|E].
    + intros _. apply (f_equal length) in E. rewrite length_take in E. cbn [length boundary] in E |- *. lia.
    + intros (p & Ep & _)%fmap_Some. destruct p. specialize (IH _ _ Ep). cbn. lia.
Qed.

Lemma find_boundary_shorter l a b : find_boundary l = Some (a, b) → l = a ++ boundary ++ b.
Proof.
  revert a b. induction l as [|c l IH]; intros a b; [done|]. cbn [find_boundary].
  destruct (bool_decide_reflect (take 4 (c :: l) = boundary)) as [E|E].
  - intros [= <- <-]. cbn [app]. rewrite <- E. symmetry. apply (take_drop 4 (c :: l)).
  - intros (p & Ep & E')%fmap_Some. destruct p as [a' b']. cbn in E'. injection E' as -> ->. cbn. f_equal. by apply IH.
Qed.

Lemma packets_fuel : ∀ fuel b, (length b < fuel)%nat → packets fuel b = split b.
Proof.
  assert (H : ∀ n b fuel fuel', (length b ≤ n)%nat → (length b < fuel)%nat → (length b < fuel')%nat → packets fuel b = packets fuel' b).
  { induction n as [|n IH]; intros b [|fuel] [|fuel'] Hn Hf Hf'; try lia; cbn [packets];
      (destruct (find_boundary b) as [[p rest]|] eqn:E; [|done]); apply find_boundary_shorter in E as ->;
      rewrite !length_app in *; cbn [length boundary] in *; [lia|]. f_equal. apply IH; lia. }
  intros fuel b Hf. apply (H (length b)); lia.
Qed.

Lemma split_eq b : split b = match find_boundary b with Some (p, rest) => prod_map (p ::.) id (split rest) | None => ([], b) end.
Proof.
  unfold split at 1. cbn [packets]. destruct (find_boundary b) as [[p rest]|] eqn:E; [|done]. f_equal. apply packets_fuel.
  apply find_boundary_shorter in E as ->. rewrite !length_app. cbn. lia.
Qed.

(** The packets do not depend on how the bytes are cut into reads. *)
Lemma split_app b m : split (b ++ m) = let '(ps, rest) := split b in prod_map (ps ++.) id (split (rest ++ m)).
Proof.
  remember (length b) as n eqn:En. assert (Hn : (length b ≤ n)%nat) by lia. clear En. revert b Hn.
  induction n as [|n IH]; intros b Hn; rewrite (split_eq b); (destruct (find_boundary b) as [[p rest]|] eqn:E; [|by destruct (split (b ++ m))]).
  - apply find_boundary_shorter in E as ->. rewrite !length_app in Hn. cbn in Hn. lia.
  - rewrite (split_eq (b ++ m)), (find_boundary_app _ _ _ _ E), IH.
    + destruct (split rest) as [ps r]. cbn. by destruct (split (r ++ m)).
    + apply find_boundary_shorter in E as ->. rewrite !length_app in Hn. cbn in Hn. lia.
Qed.

Lemma split_rest b : split (split b).2 = ([], (split b).2).
Proof.
  pose proof (split_app b []) as E. rewrite app_nil_r in E. destruct (split b) as [ps rest]. cbn [snd]. rewrite app_nil_r in E.
  destruct (split rest) as [ps' rest']. cbn in E. injection E as E1 E2. subst rest'. f_equal.
  apply (f_equal length) in E1. rewrite length_app in E1. destruct ps'; [done|cbn in E1; lia].
Qed.

Lemma split_packets (fields : list (list (list Z))) rest : Forall (λ f, f ≠ [] ∧ Forall zero_free f) fields →
  split (concat ((λ f, join f ++ boundary) <$> fields) ++ rest) = prod_map ((join <$> fields) ++.) id (split rest).
Proof.
  induction 1 as [|f fields [Hne Hf] _ IH]; [cbn; by destruct (split rest)|]. rewrite fmap_cons, concat_cons, split_eq, <- !app_assoc.
  rewrite find_boundary_packet, IH by done. by destruct (split rest).
Qed.

(** ** Orders *)

Definition query_fields (q : query) : list (list Z) :=
  match q with
  | QVersion => [[48]]
  | QExecute command_id seconds start cmdline => [[50]; print_unsigned command_id; print_unsigned seconds; print_int start; cmdline]
  | QQuit => [[52]]
  end.
Definition order_of (q : query) : order :=
  match q with
  | QVersion => OnVersion
  | QExecute command_id seconds _ cmdline => OnExecute command_id seconds cmdline
  | QQuit => OnQuit
  end.
(** The fields are numbers of their types, and the command line is not empty and is a C string. *)
Definition valid_query (q : query) : Prop :=
  match q with
  | QExecute command_id seconds start cmdline => 0 < command_id < 2 ^ 63 ∧ 0 ≤ seconds < 2 ^ 32 ∧ 0 ≤ start < 2 ^ 63 ∧ zero_free cmdline
  | _ => True
  end.

Lemma send_query_fields q : send_query q = join (query_fields q) ++ boundary.
Proof. destruct q; [done| |done]. cbn. repeat (rewrite <- app_assoc; cbn). done. Qed.

Lemma query_fields_ok q : valid_query q → query_fields q ≠ [] ∧ Forall zero_free (query_fields q).
Proof.
  assert (∀ c, c ≠ 0 → zero_free [c]) as H1 by (intros c Hc; split; [done|]; intros ?%list_elem_of_singleton; congruence).
  destruct q as [|id s t c|]; cbn [query_fields]; [intros _; split; [done|]; apply list.Forall_singleton; by apply H1| |
    intros _; split; [done|]; apply list.Forall_singleton; by apply H1].
  intros (? & ? & ? & ?). split; [done|]. rewrite !list.Forall_cons. split_and!; [by apply H1| | | |done|by constructor].
  - apply print_unsigned_zero_free. lia.
  - apply print_unsigned_zero_free. lia.
  - apply print_int_zero_free. lia.
Qed.

Lemma zero_free_not f : zero_free f → 0 ∉ f.
Proof. by intros []. Qed.

Lemma parse_query q p : valid_query q → _parse (join (query_fields q) ++ boundary) p = Ret ([order_of q], p).
Proof.
  destruct q as [|i s t c|]; [done| |done]. intros (Hid & Hs & Ht & Hc). cbn [query_fields join].
  pose proof (print_unsigned_zero_free i ltac:(lia)) as Z1. pose proof (print_unsigned_zero_free s ltac:(lia)) as Z2.
  pose proof (print_int_zero_free t ltac:(lia)) as Z3.
  pose proof (strtoull_print i [] ltac:(lia) I) as P1. pose proof (strtoull_print s [] ltac:(lia) I) as P2.
  assert (P3 : (strtoull (print_int t)).2 = length (print_int t)).
  { unfold print_int. destruct (Z.ltb_spec t 0); [lia|]. pose proof (strtoull_print t [] ltac:(lia) I) as P. rewrite app_nil_r in P. by rewrite P. }
  rewrite app_nil_r in P1, P2. unfold _parse. set (l := [50] ++ _). change (strtoull (l ++ boundary)) with (2, 1%nat). cbn [fst].
  change (wrap_u32 2) with 2. cbn [Z.eqb Pos.eqb]. unfold l. rewrite <- app_assoc. cbn [app].
  match goal with |- context [field (50 :: 0 :: ?x)] => change (field (50 :: 0 :: x)) with (Some ([50], x)) end. cbn beta iota.
  unfold execute. rewrite <- !app_assoc. cbn [app]. rewrite field_join by apply Z1. rewrite P1.
  destruct (Z.eqb_spec i 0); [lia|]. rewrite Nat.eqb_refl. cbn [orb negb].
  rewrite <- !app_assoc. cbn [app]. rewrite field_join, P2, Nat.eqb_refl by apply Z2. cbn [negb].
  rewrite <- !app_assoc. cbn [app]. rewrite field_join by apply Z3. destruct (strtoull (print_int t)) as [v k]. cbn in P3. subst k.
  rewrite Nat.eqb_refl. cbn [negb]. unfold boundary. by rewrite field_join by apply Hc.
Qed.

Lemma parse_all_queries qs p : Forall valid_query qs → parse_all ((join ∘ query_fields) <$> qs) p = Ret (order_of <$> qs, p).
Proof.
  induction 1 as [|q qs Hq _ IH]; [done|]. rewrite !fmap_cons. cbn [parse_all].
  change ((join ∘ query_fields) q) with (join (query_fields q)). rewrite parse_query by done. cbn [snd]. by rewrite IH.
Qed.

(** ** Answers *)

Inductive reply := RVersion (major minor : Z) | RResult (r : check_result).

Definition send_reply (a : reply) : list Z := match a with RVersion major minor => send_version major minor | RResult r => send_result r end.
Definition reply_fields (a : reply) : list (list Z) :=
  match a with
  | RVersion major minor => [[49]; print_unsigned major; print_unsigned minor]
  | RResult r =>
      [[51]; print_unsigned r.(r_cmd_id); if r.(r_executed) then [49] else [48]; print_int r.(r_exit_code); or_space r.(r_error); or_space r.(r_output)]
  end.
Definition answer_of (a : reply) : answer :=
  match a with
  | RVersion major minor => AVersion major minor
  | RResult r => AExecute r.(r_cmd_id) r.(r_executed) r.(r_exit_code) (or_space r.(r_error)) (Some (or_space r.(r_output)))
  end.
Definition valid_reply (a : reply) : Prop :=
  match a with
  | RVersion major minor => 0 ≤ major < 2 ^ 32 ∧ 0 ≤ minor < 2 ^ 32
  | RResult r => 0 ≤ r.(r_cmd_id) < 2 ^ 63 ∧ - 2 ^ 31 ≤ r.(r_exit_code) < 2 ^ 31 ∧ (0 ∉ r.(r_error)) ∧ 0 ∉ r.(r_output)
  end.

Lemma send_reply_fields a : send_reply a = join (reply_fields a) ++ boundary.
Proof. destruct a; cbn; repeat (rewrite <- app_assoc; cbn); done. Qed.

Lemma or_space_zero_free l : 0 ∉ l → zero_free (or_space l).
Proof. intros Hl. destruct l; [|done]. split; [done|]. intros ?%list_elem_of_singleton. congruence. Qed.

Lemma digit_zero_free c : c ≠ 0 → zero_free [c].
Proof. intros Hc. split; [done|]. intros ?%list_elem_of_singleton. congruence. Qed.

Lemma reply_fields_ok a : valid_reply a → reply_fields a ≠ [] ∧ Forall zero_free (reply_fields a).
Proof.
  destruct a as [major minor|r]; cbn [reply_fields valid_reply].
  - intros [? ?]. split; [done|]. rewrite !list.Forall_cons.
    split_and!; [by apply digit_zero_free|apply print_unsigned_zero_free; lia|apply print_unsigned_zero_free; lia|constructor].
  - intros (? & ? & ? & ?). split; [done|]. rewrite !list.Forall_cons.
    split_and!; [by apply digit_zero_free|apply print_unsigned_zero_free; lia|destruct r.(r_executed); by apply digit_zero_free|
      apply print_int_zero_free; lia|by apply or_space_zero_free|by apply or_space_zero_free|constructor].
Qed.

Lemma after_field f rest : after (f ++ 0 :: rest) (length f) = Ret rest.
Proof.
  unfold after. rewrite length_app. cbn [length]. destruct (Nat.ltb_spec (length f) (length f + S (length rest))); [|lia].
  by rewrite (drop_app_ge f) by lia; replace (S (length f) - length f)%nat with 1%nat by lia.
Qed.

Lemma cstr_field f rest : 0 ∉ f → cstr (f ++ 0 :: rest) = f.
Proof.
  intros Hf. unfold cstr. replace (span _ _) with (length f); [by rewrite take_app_length|].
  induction f as [|c f IH]; [done|]. apply not_elem_of_cons in Hf as [Hc Hf]. cbn. destruct (Z.eqb_spec c 0); [congruence|]. cbn. by rewrite <- IH.
Qed.
Lemma cstr_all f : 0 ∉ f → cstr f = f.
Proof.
  intros Hf. unfold cstr. replace (span _ _) with (length f); [by rewrite firstn_all|].
  induction f as [|c f IH]; [done|]. apply not_elem_of_cons in Hf as [Hc Hf]. cbn. destruct (Z.eqb_spec c 0); [congruence|]. cbn. by rewrite <- IH.
Qed.

Lemma nonempty_length (f : list Z) : f ≠ [] → (length f =? 0)%nat = false.
Proof. by destruct f. Qed.

Lemma recv_reply a : valid_reply a → recv_query (join (reply_fields a)) = Ret (answer_of a).
Proof.
  destruct a as [major minor|r]; cbn [reply_fields join valid_reply answer_of].
  - intros [H1 H2]. unfold recv_query. set (l := [49] ++ _). change (strtol l) with (1, 1%nat). change (wrap_u32 1) with 1. cbn [Nat.eqb Z.eqb Pos.eqb].
    unfold l. rewrite (after_field [49]). unfold recv_version.
    rewrite strtoull_print, nonempty_length by (done || lia || (apply print_unsigned_zero_free; lia)). rewrite after_field.
    pose proof (strtoull_print minor [] ltac:(lia) I) as E. rewrite app_nil_r in E.
    rewrite E, nonempty_length by (apply print_unsigned_zero_free; lia). by rewrite !wrap_u32_small by lia.
  - intros (Hid & Hcode & He & Ho). unfold recv_query. set (l := [51] ++ _). change (strtol l) with (3, 1%nat). change (wrap_u32 3) with 3.
    cbn [Nat.eqb Z.eqb Pos.eqb]. unfold l. rewrite (after_field [51]). unfold recv_execute.
    rewrite strtol_print, nonempty_length by (done || lia || (apply print_unsigned_zero_free; lia)). rewrite after_field.
    set (e := if r.(r_executed) then [49] else [48]).
    match goal with |- context [strtol (e ++ 0 :: ?x)] =>
      replace (strtol (e ++ 0 :: x)) with (Z.b2z r.(r_executed), 1%nat) by (unfold e; by destruct r.(r_executed)) end.
    cbn [Nat.eqb]. replace 1%nat with (length e) by (unfold e; by destruct r.(r_executed)). rewrite after_field.
    rewrite strtol_print_int, nonempty_length by (done || lia || (apply print_int_zero_free; lia)). rewrite after_field.
    destruct (or_space_zero_free _ He) as [_ He0]. destruct (or_space_zero_free _ Ho) as [_ Ho0].
    rewrite cstr_field, after_field, cstr_all by done. rewrite wrap_i32_small by lia. by destruct r.(r_executed).
Qed.

Lemma recv_all_replies l : Forall valid_reply l → recv_all ((join ∘ reply_fields) <$> l) = Ret (answer_of <$> l).
Proof.
  induction 1 as [|a l Ha _ IH]; [done|]. rewrite !fmap_cons. cbn [recv_all]. change ((join ∘ reply_fields) a) with (join (reply_fields a)).
  by rewrite recv_reply, IH.
Qed.

(** ** Streams *)

(** The reads of the parser and of the engine, in order. *)
Fixpoint read_chunks (chunks : list (list Z)) (p : parser) : res (list order * parser) :=
  match chunks with
  | [] => Ret ([], p)
  | c :: chunks =>
      let! r := read_handler c p in
      let! r' := read_chunks chunks r.2 in
      Ret (r.1 ++ r'.1, r'.2)
  end.
Fixpoint receive_chunks (chunks : list (list Z)) (data : list Z) : res (list answer * list Z) :=
  match chunks with
  | [] => Ret ([], data)
  | c :: chunks =>
      let! r := receive c data in
      let! r' := receive_chunks chunks r.2 in
      Ret (r.1 ++ r'.1, r'.2)
  end.

(** A read takes the first packets, and leaves the others. *)
Lemma split_chunk {A} (f : A → list Z) (l : list A) buf c m : split (buf ++ c ++ m) = (f <$> l, []) →
  ∃ l1 l2 rest, l = l1 ++ l2 ∧ split (buf ++ c) = (f <$> l1, rest) ∧ split rest = ([], rest) ∧ split (rest ++ m) = (f <$> l2, []).
Proof.
  rewrite app_assoc, split_app. pose proof (split_rest (buf ++ c)) as Hr. destruct (split (buf ++ c)) as [ps rest] eqn:E. cbn in Hr.
  destruct (split (rest ++ m)) as [ps' rest'] eqn:E'. cbn. intros [= H1 H2]. symmetry in H1. apply fmap_app_inv in H1 as (l1 & l2 & -> & -> & ->).
  unfold id in H2. subst. by exists l1, l2, rest.
Qed.

Lemma read_chunks_spec : ∀ chunks buf qs, Forall valid_query qs → split buf = ([], buf) →
  split (buf ++ concat chunks) = ((join ∘ query_fields) <$> qs, []) →
  read_chunks chunks (Parser buf false) = Ret (order_of <$> qs, Parser [] false).
Proof.
  induction chunks as [|c chunks IH]; intros buf qs Hq Hb Hs; cbn [concat read_chunks] in *.
  - rewrite app_nil_r, Hb in Hs. injection Hs as Hqs ->. by destruct qs.
  - apply split_chunk in Hs as (qs1 & qs2 & rest & -> & E & Hr & E2). apply list.Forall_app in Hq as [Hq1 Hq2].
    unfold read_handler. cbn [_dont_care_about_stdin_eof _buffer]. rewrite E, parse_all_queries by done. cbn [fst snd].
    rewrite (IH rest qs2) by done. cbn [fst snd]. by rewrite fmap_app.
Qed.

Lemma receive_chunks_spec : ∀ chunks data l, Forall valid_reply l → split data = ([], data) →
  split (data ++ concat chunks) = ((join ∘ reply_fields) <$> l, []) →
  receive_chunks chunks data = Ret (answer_of <$> l, []).
Proof.
  induction chunks as [|c chunks IH]; intros data l Hl Hb Hs; cbn [concat receive_chunks] in *.
  - rewrite app_nil_r, Hb in Hs. injection Hs as El ->. by destruct l.
  - apply split_chunk in Hs as (l1 & l2 & rest & -> & E & Hr & E2). apply list.Forall_app in Hl as [Hl1 Hl2].
    unfold receive. rewrite E, recv_all_replies by done. cbn [fst snd]. rewrite (IH rest l2) by done. cbn [fst snd]. by rewrite fmap_app.
Qed.

Lemma split_sent {A} (fields : A → list (list Z)) (l : list A) : Forall (λ a, fields a ≠ [] ∧ Forall zero_free (fields a)) l →
  split (concat ((λ a, join (fields a) ++ boundary) <$> l)) = ((join ∘ fields) <$> l, []).
Proof.
  intros Hl. pose proof (split_packets (fields <$> l) []) as E. rewrite app_nil_r, <- list_fmap_compose in E. rewrite <- list_fmap_compose in E.
  etrans; [apply E|]. { by apply list.Forall_fmap. } change (split []) with (@nil (list Z), @nil Z). cbn. by rewrite app_nil_r.
Qed.


Definition sample_query : query := QExecute 7 30 1700000000 (text "/usr/lib/check.pl -H a").
Definition sample_result : check_result := CheckResult 7 true 2 [] (text "CRITICAL").


(** ** Any bytes *)

Definition zeros (l : list Z) : nat := length (filter (λ c, c = 0) l).

Lemma field_zeros l n : (n < zeros l)%nat → ∃ f rest, field l = Some (f, rest) ∧ (n ≤ zeros rest)%nat.
Proof.
  induction l as [|c l IH]; [unfold zeros; cbn; lia|]. unfold zeros in *. rewrite filter_cons. cbn [field].
  destruct (Z.eqb_spec c 0) as [->|Hc].
  - rewrite decide_True by done. cbn [length]. intros Hn. exists [], l. split; [done|lia].
  - rewrite decide_False by done. intros Hn. destruct (IH Hn) as (f & rest & -> & Hr). by exists (c :: f), rest.
Qed.

Lemma zeros_boundary l : (4 ≤ zeros (l ++ boundary))%nat.
Proof. unfold zeros. rewrite filter_app, length_app. change (length (filter (λ c, c = 0) boundary)) with 4%nat. lia. Qed.

Lemma execute_ends cmd : (4 ≤ zeros cmd)%nat ∨ (∃ rest, cmd = 0 :: rest) → ∃ o, execute cmd = Ret o.
Proof.
  unfold execute. intros [Hz|(rest & ->)]; [|eauto].
  destruct (field_zeros cmd 3 ltac:(lia)) as (f1 & c1 & -> & H1). destruct (strtoull f1) as [v1 n1]. case_match; [eauto|].
  destruct (field_zeros c1 2 ltac:(lia)) as (f2 & c2 & -> & H2). destruct (strtoull f2) as [v2 n2]. case_match; [eauto|].
  destruct (field_zeros c2 1 ltac:(lia)) as (f3 & c3 & -> & H3). destruct (strtoull f3) as [v3 n3]. case_match; [eauto|].
  destruct (field_zeros c3 0 ltac:(lia)) as (f4 & c4 & -> & _). eauto.
Qed.

(** Whatever the bytes, the parser of the connector finds the fields it looks for. *)
Lemma parse_ends cmd p : ∃ r, _parse (cmd ++ boundary) p = Ret r.
Proof.
  unfold _parse. assert (H : ∃ f rest, field (cmd ++ boundary) = Some (f, rest) ∧ ((4 ≤ zeros rest)%nat ∨ ∃ r, rest = 0 :: r)).
  { destruct (decide (0 ∈ cmd)) as [Hin|Hin].
    - destruct (list_elem_of_split_l _ _ Hin) as (l1 & l2 & -> & Hl1). rewrite <- app_assoc. cbn [app]. rewrite field_join by done.
      exists l1, (l2 ++ boundary). split; [done|]. left. apply zeros_boundary.
    - unfold boundary. rewrite field_join by done. eexists _, _. split; [done|]. right. eauto. }
  destruct H as (f & rest & -> & Hr). destruct (execute_ends rest Hr) as (o & ->). repeat case_match; eauto.
Qed.

(** ** What goes wrong *)

(** An empty command line makes a boundary one byte too early: the byte that is left turns the
    next order into another one, here a question about the version. *)
Example empty_command_shifts :
  read_chunks [send_query (QExecute 7 30 1700000000 []); send_query sample_query] (Parser [] false)
    = Ret ([OnExecute 7 30 []; OnVersion], Parser [] false).
Proof. reflexivity. Qed.

(** An answer with fewer fields than expected is read after its end. *)
Example short_answer_read_outside : recv_query (join [text "3"; text "7"; text "1"; text "0"]) = Throw undefined.
Proof. reflexivity. Qed.
