(* ===== verification/Connector.v ===== *)
(** * Connectors in the engine

    [engine/src/commands/connector.cc], and what it uses of [engine/src/commands/command.cc]:
    commands are sent to a connector that is started when needed, a thread starts it again when
    it ends, and the answers are given to the listener or to the thread that waits.

    The main thread, the thread that restarts the connector and the thread of the processes are
    program counters; what runs under the mutex is one step.  What the system answers (whether a
    process starts, whether a write succeeds, the times) is a parameter of the steps. *)

From stdpp Require Import functions.
From S2P Require Import Prelude CheckOutput Wire ServiceCheck Perfdata ConnectorWire.

(** ** State *)

Record query_info := QueryInfo {
  processed_cmd : list Z;
  (** in microseconds *)
  q_start_time : Z;
  q_timeout : Z;
  waiting_result : bool;
}.

Inductive process_status := normal | timed_out.

Record cmd_result := CmdResult {
  command_id : Z;
  res_exit_code : Z;
  exit_status : process_status;
  res_start_time : Z;
  res_end_time : Z;
  res_output : list Z;
}.

(** the last call of a group of callers *)
Record last_call := LastCall { launch_time : Z; lc_res : option cmd_result }.

Inductive thread_action := act_none | act_start | act_stop.

Record connector := Connector {
  _data_available : list Z;
  _is_running : bool;
  _queries : gmap Z query_info;
  _query_quit_ok : bool;
  _version_set : bool;
  _query_version_ok : bool;
  _results : gmap Z cmd_result;
  _try_to_restart : bool;
  _thread_action : thread_action;
  (** the objects of type [last_call], and the maps that point to them *)
  last_calls : nat → last_call;
  _result_cache : gmap nat nat;
  _current : gmap Z nat;
  (** [_id] *)
  next_id : Z;
  (** what was written to the current process *)
  written : list query;
  (** the results given to the listener and those put in [_results], oldest first *)
  given : list cmd_result;
  pushed : list cmd_result;
  (** the identifiers put in [_queries] while they were not in it, or answered at once, and those
      of the commands that are not waited for and found the connector stopped *)
  issued : list Z;
  cold : list Z;
}.

Definition set_flags (running quit_ok version_set version_ok try : bool) (c : connector) : connector :=
  Connector c.(_data_available) running c.(_queries) quit_ok version_set version_ok c.(_results) try c.(_thread_action) c.(last_calls)
    c.(_result_cache) c.(_current) c.(next_id) c.(written) c.(given) c.(pushed) c.(issued) c.(cold).
Definition set_try (b : bool) (c : connector) : connector :=
  set_flags c.(_is_running) c.(_query_quit_ok) c.(_version_set) c.(_query_version_ok) b c.
Definition set_data (d : list Z) (c : connector) : connector :=
  Connector d c.(_is_running) c.(_queries) c.(_query_quit_ok) c.(_version_set) c.(_query_version_ok) c.(_results) c.(_try_to_restart)
    c.(_thread_action) c.(last_calls) c.(_result_cache) c.(_current) c.(next_id) c.(written) c.(given) c.(pushed) c.(issued) c.(cold).
Definition set_queries (q : gmap Z query_info) (issued : list Z) (c : connector) : connector :=
  Connector c.(_data_available) c.(_is_running) q c.(_query_quit_ok) c.(_version_set) c.(_query_version_ok) c.(_results) c.(_try_to_restart)
    c.(_thread_action) c.(last_calls) c.(_result_cache) c.(_current) c.(next_id) c.(written) c.(given) c.(pushed) issued c.(cold).
Definition set_action (a : thread_action) (c : connector) : connector :=
  Connector c.(_data_available) c.(_is_running) c.(_queries) c.(_query_quit_ok) c.(_version_set) c.(_query_version_ok) c.(_results)
    c.(_try_to_restart) a c.(last_calls) c.(_result_cache) c.(_current) c.(next_id) c.(written) c.(given) c.(pushed) c.(issued) c.(cold).
Definition set_calls (l : nat → last_call) (current : gmap Z nat) (c : connector) : connector :=
  Connector c.(_data_available) c.(_is_running) c.(_queries) c.(_query_quit_ok) c.(_version_set) c.(_query_version_ok) c.(_results)
    c.(_try_to_restart) c.(_thread_action) l c.(_result_cache) current c.(next_id) c.(written) c.(given) c.(pushed) c.(issued) c.(cold).
Definition set_id (n : Z) (cold : list Z) (c : connector) : connector :=
  Connector c.(_data_available) c.(_is_running) c.(_queries) c.(_query_quit_ok) c.(_version_set) c.(_query_version_ok) c.(_results)
    c.(_try_to_restart) c.(_thread_action) c.(last_calls) c.(_result_cache) c.(_current) n c.(written) c.(given) c.(pushed) c.(issued) cold.
Definition set_written (l : list query) (c : connector) : connector :=
  Connector c.(_data_available) c.(_is_running) c.(_queries) c.(_query_quit_ok) c.(_version_set) c.(_query_version_ok) c.(_results)
    c.(_try_to_restart) c.(_thread_action) c.(last_calls) c.(_result_cache) c.(_current) c.(next_id) l c.(given) c.(pushed) c.(issued) c.(cold).
Definition give (r : cmd_result) (c : connector) : connector :=
  Connector c.(_data_available) c.(_is_running) c.(_queries) c.(_query_quit_ok) c.(_version_set) c.(_query_version_ok) c.(_results)
    c.(_try_to_restart) c.(_thread_action) c.(last_calls) c.(_result_cache) c.(_current) c.(next_id) c.(written) (c.(given) ++ [r]) c.(pushed)
    c.(issued) c.(cold).
Definition push (r : cmd_result) (c : connector) : connector :=
  Connector c.(_data_available) c.(_is_running) c.(_queries) c.(_query_quit_ok) c.(_version_set) c.(_query_version_ok)
    (<[r.(command_id) := r]> c.(_results)) c.(_try_to_restart) c.(_thread_action) c.(last_calls) c.(_result_cache) c.(_current) c.(next_id)
    c.(written) c.(given) (c.(pushed) ++ [r]) c.(issued) c.(cold).
Definition take_result (id : Z) (c : connector) : connector :=
  Connector c.(_data_available) c.(_is_running) c.(_queries) c.(_query_quit_ok) c.(_version_set) c.(_query_version_ok)
    (delete id c.(_results)) c.(_try_to_restart) c.(_thread_action) c.(last_calls) c.(_result_cache) c.(_current) c.(next_id)
    c.(written) c.(given) c.(pushed) c.(issued) c.(cold).

(** [_queries[command_id] = info] *)
Definition add_query (id : Z) (info : query_info) (c : connector) : connector :=
  set_queries (<[id := info]> c.(_queries)) (match c.(_queries) !! id with Some _ => c.(issued) | None => c.(issued) ++ [id] end) c.

(** [_send_query_execute] *)
Definition execute_query (id : Z) (info : query_info) : query := QExecute id info.(q_timeout) (info.(q_start_time) / 1000000) info.(processed_cmd).

(** ** Results *)

Section Results.
(** whether there is a listener, [interval_length], the version of the engine and the name *)
Context (listener : bool) (interval_length major minor : Z) (name : list Z).

(** A result goes to the listener or to the thread that waits. *)
Definition deliver (info : query_info) (r : cmd_result) (c : connector) : connector :=
  if info.(waiting_result) then push r c else if listener then give r c else c.

(** [update_result_cache] *)
Definition update_result_cache (id : Z) (r : cmd_result) (c : connector) : connector :=
  match c.(_current) !! id with
  | Some k => set_calls (<[k := LastCall (c.(last_calls) k).(launch_time) (Some r)]> c.(last_calls)) (delete id c.(_current)) c
  | None => c
  end.

(** [gest_call_interval]: whether the command has to be executed *)
Definition gest_call_interval (now : Z) (id : Z) (caller : option nat) (c : connector) : bool * connector :=
  let seconds := now / 1000000 in
  match (caller ≫= λ x, c.(_result_cache) !! x) with
  | None => (true, c)
  | Some k =>
      let call := c.(last_calls) k in
      match call.(lc_res) with
      | Some r =>
          if seconds <=? call.(launch_time) + interval_length
          then (if listener then (false, give (CmdResult id r.(res_exit_code) r.(exit_status) now now r.(res_output))
                                      (set_queries c.(_queries) (c.(issued) ++ [id]) c)) else (true, c))
          else (true, set_calls (<[k := LastCall seconds call.(lc_res)]> c.(last_calls)) (<[id := k]> c.(_current)) c)
      | None => (true, set_calls (<[k := LastCall seconds call.(lc_res)]> c.(last_calls)) (<[id := k]> c.(_current)) c)
      end
  end.

Definition text_timeout : list Z := text "(Process Timeout)".
Definition text_failed : list Z := text "(Failed to execute command with connector '" ++ name ++ text "')".

(** [_recv_query_execute] *)
Definition _recv_query_execute (now : Z) (id : Z) (is_executed : bool) (code : Z) (std_err : list Z) (std_out : option (list Z)) (c : connector)
    : res connector :=
  match c.(_queries) !! id with
  | None => Ret c
  | Some info =>
      let c := set_queries (delete id c.(_queries)) c.(issued) c in
      let execution_time := wrap_u32 (now / 1000 - info.(q_start_time) / 1000) in
      let! r :=
        (if (0 <? info.(q_timeout)) && (wrap_u32 (info.(q_timeout) * 1000) <? execution_time)
         then Ret (CmdResult id 3 timed_out info.(q_start_time) now text_timeout)
         else
           match (if is_executed then std_out else Some std_err) with
           | Some out => Ret (CmdResult id (if (code <? 0) || (3 <? code) then 3 else code) normal info.(q_start_time) now out)
           | None => Throw undefined
           end) in
      Ret (deliver info r (update_result_cache id r c))
  end.

(** One answer of [data_is_available] *)
Definition recv_answer (now : Z) (a : answer) (c : connector) : res connector :=
  match a with
  | AVersion m n =>
      let ok := (m <? major) || ((m =? major) && (n <=? minor)) in
      Ret (set_flags c.(_is_running) c.(_query_quit_ok) true ok c.(_try_to_restart) c)
  | ABadVersion => Ret (set_flags c.(_is_running) c.(_query_quit_ok) true false c.(_try_to_restart) c)
  | AExecute id is_executed code std_err std_out => _recv_query_execute now (wrap_u64 id) is_executed code std_err std_out c
  | AQuit => Ret (set_flags c.(_is_running) true c.(_version_set) c.(_query_version_ok) c.(_try_to_restart) c)
  | AError _ _ | ABad => Ret c
  end.

(** [data_is_available]: the bytes are appended and the answers taken, to be handled one by one *)
Definition data_is_available (bytes : list Z) (c : connector) : list (list Z) * connector :=
  let '(responses, rest) := split (c.(_data_available) ++ bytes) in (responses, set_data rest c).
Definition recv_response (now : Z) (packet : list Z) (c : connector) : res connector :=
  let! a := recv_query packet in recv_answer now a c.

(** [finished] *)
Definition finished (sigshutdown : bool) (c : connector) : connector :=
  let c := set_data [] (set_flags false c.(_query_quit_ok) c.(_version_set) c.(_query_version_ok) c.(_try_to_restart) c) in
  if c.(_try_to_restart) && negb sigshutdown then set_action act_start c else c.

(** The queries that can no longer be executed, when the connector cannot be started again. *)
Definition fail_queries (now : Z) (c : connector) : connector :=
  let queries := map_to_list c.(_queries) in
  let c := set_queries ∅ c.(issued) (set_try false c) in
  foldl (λ c q, deliver q.2 (CmdResult q.1 3 normal q.2.(q_start_time) now text_failed) c) c queries.
End Results.

(** ** Threads *)

(** Where a thread is in [_connector_start] *)
Inductive start_pc := SReset | SExec | SVersion | SWait | SResend.

Inductive start_outcome := Going (st : start_pc) (c : connector) | Started (c : connector) | Threw (c : connector).

(** What the system does: whether the process starts, and how many writes succeed. *)
Record system := System { exec_ok : bool; nb_writes : nat }.

(** A section of [_connector_start] *)
Definition _connector_start (sys : system) (st : start_pc) (c : connector) : start_outcome :=
  match st with
  | SReset => Going SExec (set_flags false false false false c.(_try_to_restart) c)
  | SExec => if sys.(exec_ok) then Going SVersion (set_written [] c) else Threw c
  | SVersion => if (0 <? sys.(nb_writes))%nat then Going SWait (set_written (c.(written) ++ [QVersion]) c) else Threw c
  | SWait =>
      if negb c.(_version_set) || negb c.(_query_version_ok) then Threw (set_try false c)
      else Going SResend (set_flags true c.(_query_quit_ok) c.(_version_set) c.(_query_version_ok) c.(_try_to_restart) c)
  | SResend =>
      let queries := (λ q, execute_query q.1 q.2) <$> map_to_list c.(_queries) in
      let c' := set_written (c.(written) ++ take sys.(nb_writes) queries) c in
      if (length queries <=? sys.(nb_writes))%nat then Started c' else Threw c'
  end.

(** The main thread: [run] that starts the connector, [run] that is about to send its query, the
    wait of a result, [_connector_close]. *)
Inductive main_pc :=
  | Idle
  | Starting (st : start_pc) (id : Z) (info : query_info)
  | Sending (id : Z) (info : query_info)
  | Waiting (id : Z)
  | Closing (destroy : bool)
  | Closed.

(** The thread that restarts the connector: waiting, after the unlock, after the test, starting *)
Inductive restart_pc := RIdle | RUnlocked | RTested | RStarting (st : start_pc) | RStopped.

Record world := World {
  cn : connector;
  main : main_pc;
  restart : restart_pc;
  (** the answers that the thread of the processes has yet to handle *)
  responses : list (list Z);
}.

Section Steps.
Context (listener : bool) (interval_length major minor : Z) (name : list Z).

(** The sections of [run], where [waiting] is whether the result is waited for; an exception of
    [run] leaves the main thread idle. *)
Definition run_begin (now : Z) (cmd : list Z) (seconds : Z) (waiting : bool) (caller : option nat) (sys : system) (c : connector)
    : main_pc * connector :=
  let id := c.(next_id) + 1 in
  let c := set_id id c.(cold) c in
  let '(go, c) := if waiting then (true, c) else gest_call_interval listener interval_length now id caller c in
  if negb go then (Idle, c)
  else
    let info := QueryInfo cmd now seconds waiting in
    if c.(_is_running) then
      if (0 <? sys.(nb_writes))%nat then
        (if waiting then Waiting id else Idle, add_query id info (set_written (c.(written) ++ [execute_query id info]) c))
      else (Idle, c)
    else if negb c.(_try_to_restart) then (Idle, c)
    else
      (Starting SReset id info, if waiting then c else add_query id info (set_id id (c.(cold) ++ [id]) c)).

Definition run_send (id : Z) (info : query_info) (sys : system) (c : connector) : main_pc * connector :=
  if (0 <? sys.(nb_writes))%nat then
    (if info.(waiting_result) then Waiting id else Idle, add_query id info (set_written (c.(written) ++ [execute_query id info]) c))
  else (Idle, c).

Definition main_start (sys : system) (st : start_pc) (id : Z) (info : query_info) (c : connector) : main_pc * connector :=
  match _connector_start sys st c with
  | Going st c => (Starting st id info, c)
  | Started c => (Sending id info, c)
  | Threw c => (Idle, c)
  end.

(** [_connector_close] up to the wait; [destroy] is whether the destructor calls it *)
Definition close_begin (destroy : bool) (sys : system) (c : connector) : main_pc * connector :=
  if negb c.(_is_running) then
    if destroy then (Closed, set_action act_stop c) else (Idle, set_try true c)
  else
    let c := set_flags c.(_is_running) false c.(_version_set) c.(_query_version_ok) false c in
    if (0 <? sys.(nb_writes))%nat then (Closing destroy, set_written (c.(written) ++ [QQuit]) c)
    else if destroy then (Closed, set_action act_stop c) else (Idle, c).
(** and after it, when the process has ended *)
Definition close_end (destroy : bool) (c : connector) : main_pc * connector :=
  if destroy then (Closed, set_action act_stop c) else (Idle, set_try true c).

(** [_run_restart] *)
Definition restart_start (now : Z) (sys : system) (st : start_pc) (c : connector) : restart_pc * connector :=
  match _connector_start sys st c with
  | Going st c => (RStarting st, c)
  | Started c => (RIdle, c)
  | Threw c => (RIdle, fail_queries listener name now c)
  end.

Definition with_main (r : main_pc * connector) (w : world) : world := World r.2 r.1 w.(restart) w.(responses).
Definition with_restart (r : restart_pc * connector) (w : world) : world := World r.2 w.(main) r.1 w.(responses).

(** [step_id]: the identifiers are shared with the other commands. *)
Inductive step : world → world → Prop :=
  | step_run now cmd seconds waiting caller sys w : w.(main) = Idle →
      step w (with_main (run_begin now cmd seconds waiting caller sys w.(cn)) w)
  | step_id n w : w.(cn).(next_id) ≤ n → step w (World (set_id n w.(cn).(cold) w.(cn)) w.(main) w.(restart) w.(responses))
  | step_start sys st id info w : w.(main) = Starting st id info → step w (with_main (main_start sys st id info w.(cn)) w)
  | step_send sys id info w : w.(main) = Sending id info → step w (with_main (run_send id info sys w.(cn)) w)
  | step_result id r w : w.(main) = Waiting id → w.(cn).(_results) !! id = Some r → step w (with_main (Idle, take_result id w.(cn)) w)
  | step_close destroy sys w : w.(main) = Idle → step w (with_main (close_begin destroy sys w.(cn)) w)
  | step_closed destroy w : w.(main) = Closing destroy → step w (with_main (close_end destroy w.(cn)) w)
  | step_wake w : w.(restart) = RIdle → w.(cn).(_thread_action) ≠ act_none → step w (with_restart (RUnlocked, w.(cn)) w)
  | step_stop w : w.(restart) = RUnlocked → w.(cn).(_thread_action) = act_stop → step w (with_restart (RStopped, set_try false w.(cn)) w)
  | step_test w : w.(restart) = RUnlocked → w.(cn).(_thread_action) ≠ act_stop → step w (with_restart (RTested, w.(cn)) w)
  | step_take w : w.(restart) = RTested → step w (with_restart (RStarting SReset, set_action act_none w.(cn)) w)
  | step_restart now sys st w : w.(restart) = RStarting st → step w (with_restart (restart_start now sys st w.(cn)) w)
  | step_data bytes w : w.(responses) = [] →
      step w (World (data_is_available bytes w.(cn)).2 w.(main) w.(restart) (data_is_available bytes w.(cn)).1)
  | step_response now p ps c' w : w.(responses) = p :: ps → recv_response listener major minor now p w.(cn) = Ret c' →
      step w (World c' w.(main) w.(restart) ps)
  | step_finished sigshutdown w : w.(responses) = [] → step w (World (finished sigshutdown w.(cn)) w.(main) w.(restart) []).

(** A new connector; its thread waits. *)
Definition new_connector (calls : nat → last_call) (cache : gmap nat nat) (id : Z) : connector :=
  Connector [] false ∅ false false false ∅ true act_none calls cache ∅ id [] [] [] [] [].
Definition new_world (calls : nat → last_call) (cache : gmap nat nat) (id : Z) : world := World (new_connector calls cache id) Idle RIdle [].

Inductive reached : world → Prop :=
  | reached_new calls cache id : reached (new_world calls cache id)
  | reached_step w w' : reached w → step w w' → reached w'.
End Steps.

(** ** Nothing is lost *)

Definition pending (c : connector) : list Z := (map_to_list c.(_queries)).*1.
Definition answered (c : connector) : list Z := command_id <$> (c.(given) ++ c.(pushed)).
Definition conserved (c : connector) : Prop := c.(issued) ≡ₚ pending c ++ answered c.

Lemma pending_insert (m : gmap Z query_info) i x :
  (map_to_list (<[i := x]> m)).*1 ≡ₚ match m !! i with Some _ => (map_to_list m).*1 | None => i :: (map_to_list m).*1 end.
Proof.
  destruct (m !! i) as [y|] eqn:E; [|by rewrite map_to_list_insert].
  rewrite <- insert_delete_eq, map_to_list_insert by apply lookup_delete_eq. by rewrite <- (map_to_list_delete m i y E).
Qed.

Lemma add_query_conserved id info c : conserved c → conserved (add_query id info c).
Proof.
  unfold conserved, pending, answered. cbn. intros H. rewrite pending_insert. destruct (c.(_queries) !! id); [done|].
  rewrite H. cbn. by rewrite (Permutation_app_comm _ [id]).
Qed.

Lemma deliver_answered info r c : answered (deliver true info r c) ≡ₚ r.(command_id) :: answered c.
Proof.
  unfold deliver, answered. destruct info.(waiting_result); cbn; rewrite !fmap_app; cbn; [by rewrite app_assoc, (Permutation_app_comm _ [_])|].
  rewrite <- app_assoc. cbn. by rewrite <- Permutation_middle.
Qed.
Lemma deliver_kept info r c : let c' := deliver true info r c in c'.(_queries) = c.(_queries) ∧ c'.(issued) = c.(issued) ∧ c'.(cold) = c.(cold) ∧ c'.(next_id) = c.(next_id).
Proof. unfold deliver. by destruct info.(waiting_result). Qed.

Lemma update_cache_kept id r c : let c' := update_result_cache id r c in
  c'.(_queries) = c.(_queries) ∧ c'.(issued) = c.(issued) ∧ c'.(cold) = c.(cold) ∧ c'.(next_id) = c.(next_id) ∧ c'.(given) = c.(given) ∧ c'.(pushed) = c.(pushed).
Proof. unfold update_result_cache. by destruct (c.(_current) !! id). Qed.

Lemma recv_execute_conserved now id e code err out c c' : conserved c → _recv_query_execute true now id e code err out c = Ret c' →
  conserved c' ∧ c'.(issued) = c.(issued) ∧ c'.(cold) = c.(cold) ∧ c'.(next_id) = c.(next_id).
Proof.
  unfold _recv_query_execute. intros HC. destruct (c.(_queries) !! id) as [info|] eqn:E; [|by intros [= <-]].
  set (c1 := set_queries _ _ c). destruct (if (0 <? _) && _ then _ else _) as [r|] eqn:Er; [|done]. intros [= <-].
  assert (Hid : r.(command_id) = id) by (repeat case_match; by simplify_eq).
  pose proof (update_cache_kept id r c1) as (U1 & U2 & U3 & U4 & U5 & U6). cbn zeta in *.
  pose proof (deliver_kept info r (update_result_cache id r c1)) as (D1 & D2 & D3 & D4). cbn zeta in *.
  split_and!; [|by rewrite D2, U2|by rewrite D3, U3|by rewrite D4, U4]. unfold conserved, pending. rewrite D1, D2, U1, U2, deliver_answered, Hid. unfold answered. rewrite U5, U6.
  cbn. unfold conserved in HC. rewrite HC. unfold pending, answered. rewrite <- (map_to_list_delete c.(_queries) id info E). cbn. by rewrite <- Permutation_middle.
Qed.

Lemma fail_queries_conserved name now c : conserved c →
  let c' := fail_queries true name now c in conserved c' ∧ c'.(issued) = c.(issued) ∧ c'.(cold) = c.(cold) ∧ c'.(next_id) = c.(next_id).
Proof.
  intros HC. unfold fail_queries. cbn zeta. set (c0 := set_queries ∅ c.(issued) (set_try false c)).
  set (f := λ c (q : Z * query_info), deliver true q.2 (CmdResult q.1 3 normal q.2.(q_start_time) now (text_failed name)) c).
  assert (H : ∀ l c, let c' := foldl f c l in c'.(_queries) = c.(_queries) ∧ c'.(issued) = c.(issued) ∧ c'.(cold) = c.(cold)
    ∧ c'.(next_id) = c.(next_id) ∧ answered c' ≡ₚ l.*1 ++ answered c).
  { induction l as [|q l IH]; intros d; [done|]. cbn [foldl]. destruct (IH (f d q)) as (I1 & I2 & I3 & I4 & I5). cbn zeta in *.
    destruct (deliver_kept q.2 (CmdResult q.1 3 normal q.2.(q_start_time) now (text_failed name)) d) as (D1 & D2 & D3 & D4).
    split_and!; [by rewrite I1|by rewrite I2|by rewrite I3|by rewrite I4|]. rewrite I5. unfold f. rewrite deliver_answered. cbn.
    by rewrite <- Permutation_middle. }
  destruct (H (map_to_list c.(_queries)) c0) as (H1 & H2 & H3 & H4 & H5). split_and!; [|done..].
  unfold conserved, pending. rewrite H1, H2, H5. cbn. rewrite map_to_list_empty. exact HC.
Qed.

(** *** How often a command is issued *)

Definition count (id : Z) (l : list Z) : nat := length (filter (λ y, y = id) l).
#[local] Arguments count : simpl never.
(** how many times the main thread may still put the command in the queries *)
Definition owed (m : main_pc) (id : Z) : nat :=
  match m with Starting _ i _ | Sending i _ => if decide (i = id) then 1 else 0 | _ => 0 end.
Definition allowed (c : connector) (id : Z) : nat := if decide (id ∈ c.(cold)) then 2 else 1.

Record accounted (c : connector) (m : main_pc) : Prop := {
  ac_conserved : conserved c;
  ac_bound : ∀ id, (count id c.(issued) + owed m id ≤ allowed c id)%nat;
  ac_fresh : ∀ id, c.(next_id) < id → count id c.(issued) = 0%nat ∧ (id ∉ c.(cold)) ∧ owed m id = 0%nat;
}.

Lemma count_id_app id l l' : count id (l ++ l') = (count id l + count id l')%nat.
Proof. unfold count. by rewrite filter_app, length_app. Qed.
Lemma count_one id i : count id [i] = if decide (i = id) then 1%nat else 0%nat.
Proof. unfold count. rewrite filter_cons. by case_decide. Qed.

(** what no query depends on *)
Definition same (c c' : connector) : Prop :=
  c'.(_queries) = c.(_queries) ∧ c'.(issued) = c.(issued) ∧ c'.(cold) = c.(cold) ∧ c.(next_id) ≤ c'.(next_id) ∧ c'.(given) = c.(given)
  ∧ c'.(pushed) = c.(pushed).

Ltac solve_same := unfold same; split_and!; cbn; first [done|lia].

Lemma same_conserved c c' : same c c' → conserved c → conserved c'.
Proof. intros (E1 & E2 & E3 & E4 & E5 & E6). unfold conserved, pending, answered. by rewrite E1, E2, E5, E6. Qed.

Lemma accounted_change c c' m m' : accounted c m → conserved c' → c'.(issued) = c.(issued) → c'.(cold) = c.(cold) → c.(next_id) ≤ c'.(next_id) →
  (∀ id, owed m' id ≤ owed m id)%nat → accounted c' m'.
Proof.
  intros [HC HB HF] HC' E1 E2 E3 Ho. split; [done| |].
  - intros id. rewrite E1. unfold allowed. rewrite E2. specialize (HB id). specialize (Ho id). unfold allowed in HB. lia.
  - intros id Hid. rewrite E1, E2. destruct (HF id) as (? & ? & H0); [lia|]. split_and!; [done..|]. specialize (Ho id). lia.
Qed.

Lemma accounted_same c c' m m' : accounted c m → same c c' → (∀ id, owed m' id ≤ owed m id)%nat → accounted c' m'.
Proof. intros HA HS Ho. eapply accounted_change; [exact HA|eapply same_conserved; [done|apply HA]|apply HS..|done]. Qed.

(** A query that is added. *)
Lemma accounted_add c c' m m' id : accounted c m → conserved c' →
  (c'.(issued) = c.(issued) ∨ c'.(issued) = c.(issued) ++ [id]) → c'.(cold) = c.(cold) → c'.(next_id) = c.(next_id) → id ≤ c.(next_id) →
  (∀ i, owed m' i + (if decide (id = i) then 1 else 0) ≤ owed m i)%nat → accounted c' m'.
Proof.
  intros [HC HB HF] HC' E1 E2 E3 Hid Ho.
  assert (Hc : ∀ i, (count i c'.(issued) ≤ count i c.(issued) + if decide (id = i) then 1 else 0)%nat).
  { intros i. destruct E1 as [->| ->]; [lia|]. rewrite count_id_app, count_one. lia. }
  split; [done| |].
  - intros i. unfold allowed. rewrite E2. specialize (HB i). specialize (Ho i). specialize (Hc i). unfold allowed in HB. lia.
  - intros i Hi. rewrite E2. rewrite E3 in Hi. destruct (HF i Hi) as (H1 & H2 & H3). specialize (Ho i). specialize (Hc i).
    destruct (decide (id = i)); [lia|]. split_and!; [lia|done|lia].
Qed.

Lemma start_same sys st c : match _connector_start sys st c with Going _ c' | Started c' | Threw c' => same c c' end.
Proof. destruct st; cbn; repeat case_match; simplify_eq; solve_same. Qed.

(** A new command. *)
Lemma accounted_next c : accounted c Idle → let id := c.(next_id) + 1 in accounted (set_id id c.(cold) c) (Sending id (QueryInfo [] 0 0 false)).
Proof.
  intros [HC HB HF] id. destruct (HF id) as (F1 & F2 & _); [lia|]. split; [done| |].
  - intros i. cbn. destruct (decide (id = i)) as [<-|?]; [rewrite F1; unfold allowed; case_decide; lia|].
    specialize (HB i). unfold allowed in HB |- *. cbn in *. lia.
  - cbn. intros i Hi. destruct (HF i) as (? & ? & _); [lia|]. split_and!; [done..|]. rewrite decide_False; [done|lia].
Qed.

Lemma accounted_forget c id info : accounted c (Sending id info) → accounted c Idle.
Proof. intros HA. apply (accounted_same c c _ _ HA); [solve_same|]. intros; cbn; lia. Qed.

Lemma accounted_query c m id info info' : accounted c (Sending id info) → id ≤ c.(next_id) → (∀ i, owed m i = 0%nat) → accounted (add_query id info' c) m.
Proof.
  intros HA Hid Hm. apply (accounted_add c _ _ m id HA); [apply add_query_conserved, HA| |done|done|done|].
  - cbn. destruct (c.(_queries) !! id); [by left|by right].
  - intros i. rewrite Hm. cbn. case_decide; lia.
Qed.

Lemma run_begin_accounted interval now cmd seconds waiting caller sys c : accounted c Idle →
  let r := run_begin true interval now cmd seconds waiting caller sys c in accounted r.2 r.1.
Proof.
  intros HA. unfold run_begin. set (id := c.(next_id) + 1). pose proof (accounted_next c HA) as HN. cbn zeta in HN. fold id in HN.
  set (c0 := set_id id c.(cold) c) in *.
  assert (HG : ∃ go c1, (if waiting then (true, c0) else gest_call_interval true interval now id caller c0) = (go, c1)
    ∧ c1.(next_id) = id ∧ c1.(cold) = c.(cold) ∧ accounted c1 (if go then Sending id (QueryInfo [] 0 0 false) else Idle)).
  { destruct waiting; [by eexists _, _|]. unfold gest_call_interval. destruct (caller ≫= _) as [k|]; [|by eexists _, _].
    assert (Hs : ∀ l m, accounted (set_calls l m c0) (Sending id (QueryInfo [] 0 0 false))).
    { intros l m. eapply accounted_same; [exact HN|solve_same|done]. }
    destruct (lc_res _) as [r|]; [|eexists _, _; split; [done|]; split_and!; [done..|apply Hs]].
    destruct (_ <=? _); [|eexists _, _; split; [done|]; split_and!; [done..|apply Hs]].
    eexists _, _. split; [done|]. split_and!; [done..|]. cbn iota.
    eapply (accounted_add c0 _ _ Idle id HN); [|by right|done|done|done|].
    - pose proof (ac_conserved _ _ HN) as H. unfold conserved, pending, answered in H |- *. cbn in H |- *. rewrite H, !fmap_app. cbn.
      rewrite <- !app_assoc. apply Permutation_app_head, Permutation_app_head. by rewrite (Permutation_app_comm _ [id]).
    - intros i. cbn. case_decide; lia. }
  destruct HG as (go & c1 & -> & E1 & E2 & HA1). destruct go; cbn [negb]; [|done].
  destruct c1.(_is_running); [case_match|case_match]; cbn [fst snd].
  - apply accounted_query with (info := QueryInfo [] 0 0 false); [|cbn; lia|by destruct waiting].
    eapply accounted_same; [exact HA1|solve_same|done].
  - by eapply accounted_forget.
  - by eapply accounted_forget.
  - destruct waiting.
    + eapply accounted_same; [exact HA1|solve_same|done].
    + destruct HA1 as [HC HB HF]. split.
      * apply add_query_conserved. exact HC.
      * intros i. specialize (HB i). unfold allowed in *. cbn in *. destruct (decide (id = i)) as [<-|Hi].
        -- rewrite decide_True by (apply elem_of_app; right; by constructor).
           assert (count id (match c1.(_queries) !! id with Some _ => c1.(issued) | None => c1.(issued) ++ [id] end) ≤ count id c1.(issued) + 1)%nat.
           { destruct (c1.(_queries) !! id); [lia|]. rewrite count_id_app, count_one, decide_True by done. lia. }
           destruct (decide (id ∈ c1.(cold))) as [Hin|]; [|lia]. rewrite E2 in Hin. by destruct (ac_fresh _ _ HA id ltac:(lia)) as (_ & ? & _).
        -- rewrite (decide_ext (i ∈ c1.(cold) ++ [id]) (i ∈ c1.(cold))) by (rewrite elem_of_app, list_elem_of_singleton; naive_solver).
           destruct (c1.(_queries) !! id); [lia|]. rewrite count_id_app, count_one, decide_False by done. lia.
      * cbn. intros i Hi. destruct (HF i) as (H1 & H2 & H3); [lia|]. assert (id ≠ i) by lia. split_and!.
        -- destruct (c1.(_queries) !! id); [done|]. by rewrite count_id_app, count_one, decide_False, H1.
        -- rewrite elem_of_app, list_elem_of_singleton. naive_solver.
        -- by rewrite decide_False.
Qed.

Lemma owed_known c id info : accounted c (Sending id info) → id ≤ c.(next_id).
Proof.
  intros HA. destruct (Z.le_gt_cases id c.(next_id)) as [|Hn]; [done|].
  destruct (ac_fresh _ _ HA id Hn) as (_ & _ & Ho). cbn in Ho. by rewrite decide_True in Ho.
Qed.

Lemma main_start_accounted sys st id info c : accounted c (Starting st id info) →
  let r := main_start sys st id info c in accounted r.2 r.1.
Proof.
  intros HA. unfold main_start. pose proof (start_same sys st c) as HS.
  destruct (_connector_start sys st c); (eapply accounted_same; [exact HA|exact HS|]); intros i; cbn; lia.
Qed.

Lemma restart_start_accounted name now sys st c m : accounted c m → accounted (restart_start true name now sys st c).2 m.
Proof.
  intros HA. unfold restart_start. pose proof (start_same sys st c) as HS.
  destruct (_connector_start sys st c) as [st' c'|c'|c']; cbn [snd]; [eapply accounted_same; [exact HA|exact HS|done]..|].
  assert (HA' : accounted c' m) by (eapply accounted_same; [exact HA|exact HS|done]).
  destruct (fail_queries_conserved name now c' (ac_conserved _ _ HA')) as (F1 & F2 & F3 & F4).
  apply (accounted_change c' _ m m HA'); [done..|by rewrite F4|done].
Qed.

Lemma recv_response_accounted major minor now p c c' m : accounted c m → recv_response true major minor now p c = Ret c' → accounted c' m.
Proof.
  intros HA. unfold recv_response. destruct (recv_query p) as [a|]; [|done].
  destruct a; cbn [recv_answer]; try (intros [= <-]; eapply accounted_same; [exact HA|solve_same|done]).
  intros E. apply recv_execute_conserved in E as (R1 & R2 & R3 & R4); [|apply HA]. apply (accounted_change c c' m m HA); [done..|lia|done].
Qed.

Lemma step_accounted interval major minor name w w' : step true interval major minor name w w' → accounted w.(cn) w.(main) → accounted w'.(cn) w'.(main).
Proof.
  destruct 1 as [now cmd seconds waiting caller sys w Hm|n w Hn|sys st id info w Hm|sys id info w Hm|id r w Hm Hr|d sys w Hm|d w Hm|w Hr Ha|w Hr Ha|w Hr Ha
    |w Hr|now sys st w Hr|bytes w Hr|now p ps c' w Hr E|b w Hr]; intros HA; cbn [with_main with_restart cn main fst snd] in *; rewrite ?Hm in HA.
  - by apply run_begin_accounted.
  - eapply accounted_same; [exact HA|solve_same|done].
  - by apply main_start_accounted.
  - unfold run_send. case_match; cbn [fst snd]; [|by eapply accounted_forget]. pose proof (owed_known _ _ _ HA).
    apply accounted_query with (info := info); [|cbn; lia|by destruct info.(waiting_result)]. eapply accounted_same; [exact HA|solve_same|done].
  - eapply accounted_same; [exact HA|solve_same|done].
  - unfold close_begin. repeat case_match; (eapply accounted_same; [exact HA|solve_same|done]).
  - unfold close_end. case_match; (eapply accounted_same; [exact HA|solve_same|done]).
  - done.
  - eapply accounted_same; [exact HA|solve_same|done].
  - done.
  - eapply accounted_same; [exact HA|solve_same|done].
  - by apply restart_start_accounted.
  - unfold data_is_available. destruct (split _). eapply accounted_same; [exact HA|solve_same|done].
  - by eapply recv_response_accounted.
  - unfold finished. case_match; (eapply accounted_same; [exact HA|solve_same|done]).
Qed.

Lemma reached_accounted interval major minor name w : reached true interval major minor name w → accounted w.(cn) w.(main).
Proof.
  induction 1 as [calls cache id|w w' _ IH Hs]; [|by eapply step_accounted].
  split.
  - change ([] ≡ₚ (map_to_list (∅ : gmap Z query_info)).*1 ++ []). by rewrite map_to_list_empty.
  - intros i. unfold count, allowed. cbn. lia.
  - intros i _. split_and!; [done|by apply not_elem_of_nil|done].
Qed.

(** C19: whatever the order of the commands, of the answers, of the ends of the connector and of its
    restarts, every command that was accepted either waits for its answer or was answered, and it is
    answered at most once, twice at most when it is the one that started the connector; a restart
    that succeeds sends every waiting command to the new process, and one that fails answers them
    all. *)
Theorem connector_conserves interval major minor name w : reached true interval major minor name w →
  w.(cn).(issued) ≡ₚ pending w.(cn) ++ answered w.(cn)
  ∧ (∀ id, (count id (pending w.(cn)) + count id (answered w.(cn)) ≤ if decide (id ∈ w.(cn).(cold)) then 2 else 1)%nat)
  ∧ (∀ sys c', _connector_start sys SResend w.(cn) = Started c' →
       ∀ id info, w.(cn).(_queries) !! id = Some info → execute_query id info ∈ c'.(written))
  ∧ ∀ now, pending (fail_queries true name now w.(cn)) = [] ∧ answered (fail_queries true name now w.(cn)) ≡ₚ pending w.(cn) ++ answered w.(cn).
Proof.
  intros HR%reached_accounted. destruct HR as [HC HB HF]. split_and!.
  - exact HC.
  - intros id. specialize (HB id). unfold allowed in HB. rewrite <- count_id_app. unfold count in HB |- *. unfold conserved in HC. rewrite <- HC. lia.
  - intros sys c' E id info Hi. cbn in E. destruct (Nat.leb_spec (length ((λ q, execute_query q.1 q.2) <$> map_to_list w.(cn).(_queries))) sys.(nb_writes)) as [Hl|];
      [|done]. injection E as <-. cbn. apply elem_of_app. right. rewrite take_ge by done.
    apply list_elem_of_fmap. exists (id, info). split; [done|]. by apply elem_of_map_to_list.
  - intros now. destruct (fail_queries_conserved name now w.(cn) HC) as (F1 & F2 & _ & _).
    assert (E : pending (fail_queries true name now w.(cn)) = []).
    { unfold fail_queries, pending. cbn zeta. generalize (map_to_list w.(cn).(_queries)). intros l.
      set (c0 := set_queries ∅ _ _). assert (H0 : c0.(_queries) = ∅) by done. revert H0. generalize c0. clear.
      induction l as [|q l IH]; intros c H0; cbn [foldl]; [by rewrite H0, map_to_list_empty|]. apply IH. by rewrite (proj1 (deliver_kept _ _ _)). }
    split; [exact E|]. unfold conserved in F1. rewrite E, F2 in F1. cbn in F1. rewrite <- F1. exact HC.
Qed.

(** ** A schedule *)

Definition sys_ok : system := System true 9.
Definition no_calls : nat → last_call := λ _, LastCall 0 None.
Definition get_connector (r : res connector) (c : connector) : connector := match r with Ret c => c | Throw _ => c end.
Lemma get_connector_ret r c : match r with Ret _ => true | Throw _ => false end = true → r = Ret (get_connector r c).
Proof. by destruct r. Qed.

(** The steps of the threads, as functions *)
Definition do_start (w : world) : world :=
  match w.(main) with
  | Starting st id info => with_main (main_start sys_ok st id info w.(cn)) w
  | Sending id info => with_main (run_send id info sys_ok w.(cn)) w
  | _ => w
  end.
Definition do_data (bytes : list Z) (w : world) : world :=
  World (data_is_available bytes w.(cn)).2 w.(main) w.(restart) (data_is_available bytes w.(cn)).1.
Definition do_response (w : world) : world :=
  match w.(responses) with
  | p :: ps => World (get_connector (recv_response true 24 4 0 p w.(cn)) w.(cn)) w.(main) w.(restart) ps
  | [] => w
  end.

Abbreviation reached' := (reached true 60 24 4 (text "perl")).

Lemma reached_start w : reached' w → match w.(main) with Starting _ _ _ | Sending _ _ => True | _ => False end → reached' (do_start w).
Proof.
  intros HR Hm. eapply reached_step; [exact HR|]. unfold do_start. destruct w.(main) eqn:E; try done; by constructor.
Qed.
Lemma reached_data bytes w : reached' w → w.(responses) = [] → reached' (do_data bytes w).
Proof. intros HR Hr. eapply reached_step; [exact HR|]. by constructor. Qed.
Lemma reached_response w : reached' w →
  match w.(responses) with p :: _ => match recv_response true 24 4 0 p w.(cn) with Ret _ => True | Throw _ => False end | [] => False end →
  reached' (do_response w).
Proof.
  intros HR Hr. eapply reached_step; [exact HR|]. unfold do_response. destruct w.(responses) as [|p ps] eqn:E; [done|].
  econstructor; [exact E|]. apply get_connector_ret. by destruct (recv_response true 24 4 0 p w.(cn)).
Qed.

(** A command starts the connector, and is answered before [run] sends it. *)
Definition w_run : world := with_main (run_begin true 60 0 (text "a.pl") 0 false None sys_ok (new_connector no_calls ∅ 0)) (new_world no_calls ∅ 0).
Definition w_version : world := do_response (do_data (send_version 1 0) (do_start (do_start (do_start w_run)))).
Definition answer_1 : list Z := send_result (CheckResult 1 true 0 [] (text "OK")).
Definition w_answered : world := do_response (do_data answer_1 (do_start (do_start w_version))).
Definition w_twice : world := do_response (do_data answer_1 (do_start w_answered)).

Lemma w_answered_reached : reached' w_answered.
Proof.
  apply reached_response; [|by vm_compute]. apply reached_data; [|by vm_compute]. apply reached_start; [|by vm_compute]. apply reached_start; [|by vm_compute].
  apply reached_response; [|by vm_compute]. apply reached_data; [|by vm_compute]. do 3 (apply reached_start; [|by vm_compute]).
  eapply reached_step; [apply (reached_new _ _ _ _ _ no_calls ∅ 0)|].
  by apply (step_run true 60 24 4 (text "perl") 0 (text "a.pl") 0 false None sys_ok (new_world no_calls ∅ 0)).
Qed.

Lemma connector_conserves_witness :
  w_answered.(main) = Sending 1 (QueryInfo (text "a.pl") 0 0 false) ∧ w_answered.(cn).(issued) ≡ₚ pending w_answered.(cn) ++ answered w_answered.(cn).
Proof.
  split; [by vm_compute|]. apply (connector_conserves 60 24 4 (text "perl")). apply w_answered_reached.
Defined.

(** ** What goes wrong *)

(** The command that starts the connector is sent twice: with the queries that wait, and by
    [run].  When the first answer comes between the two it is answered twice. *)
Lemma command_answered_twice : reached' w_twice ∧ w_twice.(main) = Idle ∧ answered w_twice.(cn) = [1; 1]
  ∧ w_twice.(cn).(written) = [QVersion; QExecute 1 0 0 (text "a.pl"); QExecute 1 0 0 (text "a.pl")].
Proof.
  split; [|split_and!; by vm_compute]. apply reached_response; [|by vm_compute]. apply reached_data; [|by vm_compute]. apply reached_start; [|by vm_compute]. apply w_answered_reached.
Qed.

(** The restart thread resets [_thread_action] without the mutex: an order to stop that comes
    after its test is lost, and the destructor waits for a thread that does not end. *)
Definition w_finished : world := World (finished false (new_connector no_calls ∅ 0)) Idle RIdle [].
Definition w_tested : world := World w_finished.(cn) Idle RTested [].
Definition w_destroyed : world := with_main (close_begin true sys_ok w_tested.(cn)) w_tested.
Definition w_lost : world := with_restart (RStarting SReset, set_action act_none w_destroyed.(cn)) w_destroyed.

Lemma stop_order_lost : reached' w_lost ∧ w_lost.(main) = Closed ∧ w_lost.(restart) = RStarting SReset ∧ w_lost.(cn).(_thread_action) = act_none.
Proof.
  split; [|by vm_compute]. eapply reached_step; [|by apply step_take]. eapply reached_step; [|by apply step_close].
  eapply reached_step; [|by apply (step_test _ _ _ _ _ (World w_finished.(cn) Idle RUnlocked []))].
  eapply reached_step; [|by apply (step_wake _ _ _ _ _ w_finished)]. eapply reached_step; [apply (reached_new _ _ _ _ _ no_calls ∅ 0)|].
  by apply (step_finished _ _ _ _ _ false (new_world no_calls ∅ 0)).
Qed.
