(* ===== verification/Retention.v ===== *)
(** * Notifications in the retention file

    [operator<<(std::ostream&, notification const&)] of
    [engine/src/notification.cc] and its reader, [notifier::set_notification] of
    [engine/src/notifier.cc]: what a notifier has sent survives a restart of the
    engine as one line of text per slot. *)

From Stdlib Require Import Ascii.
From stdpp Require Import sorting.
From S2P Require Import Prelude DiskFs Notifier.

#[local] Open Scope string_scope.
#[local] Open Scope Z_scope.

(** ** Printing *)

(** The value of an enumerator of [reason_type]. *)
Definition reason_code (t : reason_type) : Z :=
  match t with
  | reason_normal => 0
  | reason_recovery => 1
  | reason_acknowledgement => 2
  | reason_flappingstart => 3
  | reason_flappingstop => 4
  | reason_flappingdisabled => 5
  | reason_downtimestart => 6
  | reason_downtimeend => 7
  | reason_downtimecancelled => 8
  | reason_custom => 99
  end.

Definition string_le (a b : string) : Prop := String.compare a b ≠ Gt.

#[local] Instance string_le_dec : RelDecision string_le.
Proof. intros a b. unfold string_le. apply _. Defined.

(** A [std::set<std::string>], in the order of its iterators. *)
Definition in_order (s : gset string) : list string := merge_sort string_le (elements s).

Fixpoint dump_contacts (l : list string) : string :=
  match l with
  | [] => ""
  | c :: l => c +:+ "," +:+ dump_contacts l
  end.

Definition newline : string := String "010" "".

(** [operator<<], up to the list of contacts *)
Definition dump_head (n : notification) : string :=
  "type: " +:+ pretty (reason_code n.(n_type)) +:+ ", author: " +:+ n.(n_author)
  +:+ ", options: " +:+ pretty n.(n_options)
  +:+ ", escalated: " +:+ (if n.(n_escalated) then "1" else "0")
  +:+ ", id: " +:+ pretty n.(n_id) +:+ ", number: " +:+ pretty n.(n_number)
  +:+ ", interval: " +:+ pretty n.(n_interval).

(** [operator<<] *)
Definition dump (n : notification) : string :=
  dump_head n +:+ ", contacts: " +:+ dump_contacts (in_order n.(_notified_contact)) +:+ newline.

(** ** Parsing

    A [char const*] is what it points to, up to the terminating NUL. *)

(** [Rejected]: the function logs an error and returns.  [Undefined]: it reads
    beyond the terminating NUL, or the number is no enumerator. *)
Inductive parsed (A : Type) := Parsed (a : A) | Rejected | Undefined.
Arguments Parsed {A} _.
Arguments Rejected {A}.
Arguments Undefined {A}.

#[export] Instance parsed_bind : MBind parsed := λ A B f m,
  match m with Parsed a => f a | Rejected => Rejected | Undefined => Undefined end.

(** [value.c_str()] *)
Fixpoint c_str (s : string) : string :=
  match s with
  | EmptyString => EmptyString
  | String c s => if decide (c = "000"%char) then EmptyString else String c (c_str s)
  end.

(** [strncmp(v, lit, strlen(lit))], then [v += strlen(lit)] *)
Definition expect (lit v : string) : parsed string :=
  if String.prefix lit v then Parsed (str_drop (String.length lit) v) else Rejected.

(** [v + 2], dereferenced afterwards *)
Definition skip2 (v : string) : parsed string :=
  match v with
  | String _ (String _ v) => Parsed v
  | _ => Undefined
  end.

(** [strtol(v, &next, 10)] followed by the separator and [v = next + 2] *)
Definition number_field (v : string) : parsed (Z * string) :=
  let '(z, next) := strtol10 v in
  if decide (next = v) then Rejected
  else match next with
       | String "," (String " " v) => Parsed (z, v)
       | _ => Rejected
       end.

(** [for (next = v; *next && *next != ','; next++)] *)
Fixpoint until_comma (v : string) : string * string :=
  match v with
  | EmptyString => (EmptyString, EmptyString)
  | String c v' =>
      if decide (c = ","%char) then (EmptyString, v)
      else let '(a, next) := until_comma v' in (String c a, next)
  end.

(** The loop over the contacts; [cur] is the text from [v] to [s]. *)
Fixpoint contacts_loop (cur s : string) (contacts : gset string) : gset string :=
  match s with
  | EmptyString => contacts
  | String c s =>
      if decide ((c = ","%char ∨ c = "010"%char) ∧ cur ≠ "") then contacts_loop "" s ({[cur]} ∪ contacts)
      else contacts_loop (cur +:+ String c "") s contacts
  end.

Definition reason_of_code (z : Z) : option reason_type :=
  list_find (λ t, reason_code t = z)
    [reason_normal; reason_recovery; reason_acknowledgement; reason_flappingstart;
     reason_flappingstop; reason_flappingdisabled; reason_downtimestart; reason_downtimeend;
     reason_downtimecancelled; reason_custom]
  ≫= λ p, Some p.2.

(** The end of the function: [next] is where the interval ends. *)
Definition parse_contacts (type options id number escalated interval : Z) (author next : string)
    : parsed notification :=
  v ← skip2 next;
  let contacts :=
    match expect "contacts: " v with
    | Parsed v => contacts_loop "" v ∅
    | _ => ∅
    end in
  match reason_of_code type with
  | None => Undefined
  | Some type =>
      Parsed (Notif type author "" (wrap_u32 (wrap_i32 options)) (wrap_u64 (wrap_i32 id))
                (wrap_u32 (wrap_i32 number)) (negb (escalated =? 0))
                (wrap_u32 (wrap_i32 interval)) contacts)
  end.

Definition parse (value : string) : parsed notification :=
  v ← expect "type: " (c_str value);
  '(type, v) ← number_field v;
  v ← expect "author: " v;
  let '(author, next) := until_comma v in
  v ← skip2 next;
  v ← expect "options: " v;
  '(options, v) ← number_field v;
  v ← expect "escalated: " v;
  '(escalated, v) ← number_field v;
  v ← expect "id: " v;
  '(id, v) ← number_field v;
  v ← expect "number: " v;
  '(number, v) ← number_field v;
  v ← expect "interval: " v;
  let '(interval, next) := strtol10 v in
  if decide (next = v) then Rejected
  else parse_contacts type options id number escalated interval author next.

(** [set_notification(idx, value)] on the slots. *)
Definition set_notification (idx : notification_category) (value : string)
    (f : notification_category → option notification)
    : parsed (notification_category → option notification) :=
  if decide (value = "") then Parsed f
  else match parse value with
       | Parsed nt => Parsed (upd idx (Some nt) f)
       | Rejected => Parsed f
       | Undefined => Undefined
       end.

(** ** Lemmas *)

Lemma read_digits_app d rest : ∀ acc,
  all_chars is_digit d = true → starts_with_digit rest = false →
  read_digits acc (d +:+ rest) = ((read_digits acc d).1, rest).
Proof.
  induction d as [|c d IH]; intros acc Hd Hr.
  - change ("" +:+ rest) with rest. destruct rest as [|c r]; [done|]. cbn in *.
    by destruct (digit_value c).
  - cbn [all_chars] in Hd. apply andb_true_iff in Hd as [Hc Hd]. rewrite str_app_cons.
    cbn [read_digits]. unfold is_digit in Hc. destruct (digit_value c); [|done]. by apply IH.
Qed.

Lemma pretty_number z : 0 ≤ z → all_chars is_digit (pretty z) = true ∧ pretty z ≠ ""
  ∧ (read_digits 0 (pretty z)).1 = z.
Proof.
  intros Hz. destruct (decide (z = 0)) as [->|]; [done|]. rewrite pretty_pos by lia. split_and!.
  - by apply pretty_go_digits.
  - apply pretty_go_nonempty. left. lia.
  - rewrite read_digits_pretty_go. cbn. lia.
Qed.

(** A printed number is read back, up to what follows it. *)
Lemma strtol10_pretty_app z rest :
  0 ≤ z ≤ i64_max → starts_with_digit rest = false → strtol10 (pretty z +:+ rest) = (z, rest).
Proof.
  intros Hz Hr. destruct (pretty_number z ltac:(lia)) as (Hd & Hne & Hv).
  pose proof (read_digits_app (pretty z) rest 0 Hd Hr) as Happ. rewrite Hv in Happ. clear Hv.
  destruct (pretty z) as [|c s]; [done|].
  cbn [all_chars] in Hd. apply andb_true_iff in Hd as [Hd _].
  rewrite str_app_cons in *. rewrite strtol10_digit, Happ by done. cbn [fst snd].
  f_equal. unfold clamp_i64, i64_min, i64_max in *. lia.
Qed.

Lemma expect_app lit v : expect lit (lit +:+ v) = Parsed v.
Proof. unfold expect. by rewrite prefix_app, str_drop_app. Qed.

Lemma pretty_app_ne z rest : 0 ≤ z → pretty z +:+ rest ≠ rest.
Proof.
  intros Hz Heq. apply (f_equal String.length) in Heq. rewrite str_length_app in Heq.
  destruct (pretty_number z Hz) as (_ & Hne & _). destruct (pretty z); [done|]. cbn in Heq. lia.
Qed.

Lemma number_field_pretty z v :
  0 ≤ z ≤ i64_max → number_field (pretty z +:+ String "," (String " " v)) = Parsed (z, v).
Proof.
  intros Hz. unfold number_field. rewrite strtol10_pretty_app by done.
  rewrite decide_False; [done|]. intros Heq. by apply (pretty_app_ne z (String "," (String " " v))); [lia|].
Qed.

(** Texts the format can carry. *)
Definition no_char (c : ascii) (s : string) : bool := all_chars (λ x, negb (Ascii.eqb x c)) s.

Lemma until_comma_app a v : no_char "," a = true → until_comma (a +:+ String "," v) = (a, String "," v).
Proof.
  unfold no_char. induction a as [|c a IH]; intros Ha; [done|].
  cbn [all_chars] in Ha. apply andb_true_iff in Ha as [Hc Ha]. rewrite str_app_cons.
  cbn [until_comma]. rewrite decide_False by (intros ->; done). by rewrite IH.
Qed.

Lemma c_str_id s : no_char "000" s = true → c_str s = s.
Proof.
  unfold no_char. induction s as [|c s IH]; intros Hs; [done|].
  cbn [all_chars] in Hs. apply andb_true_iff in Hs as [Hc Hs]. cbn [c_str].
  rewrite decide_False by (intros ->; done). by rewrite IH.
Qed.

Lemma all_chars_app p s t : all_chars p (s +:+ t) = all_chars p s && all_chars p t.
Proof.
  induction s as [|c s IH]; [done|]. rewrite str_app_cons. cbn [all_chars].
  by rewrite IH, andb_assoc.
Qed.

Lemma no_char_app c s t : no_char c (s +:+ t) = no_char c s && no_char c t.
Proof. apply all_chars_app. Qed.

Lemma all_chars_impl (p q : ascii → bool) s :
  (∀ c, p c = true → q c = true) → all_chars p s = true → all_chars q s = true.
Proof.
  intros Hpq. induction s as [|c s IH]; [done|]. cbn. rewrite !andb_true_iff. naive_solver.
Qed.

(** A name of a contact that the format can carry. *)
Definition plain_name (c : string) : bool :=
  negb (String.eqb c "") && no_char "," c && no_char "010" c && no_char "000" c.

Lemma contacts_loop_name c : ∀ cur rest cs,
  no_char "," c = true → no_char "010" c = true → cur +:+ c ≠ "" →
  contacts_loop cur (c +:+ String "," rest) cs = contacts_loop "" rest ({[cur +:+ c]} ∪ cs).
Proof.
  induction c as [|x c IH]; intros cur rest cs H1 H2 Hne.
  - rewrite str_app_nil in *. change ("" +:+ String "," rest) with (String "," rest).
    cbn [contacts_loop]. rewrite decide_True by (split; [by left|done]). done.
  - unfold no_char in H1, H2. cbn [all_chars] in H1, H2. apply andb_true_iff in H1 as [Hx1 H1], H2 as [Hx2 H2].
    rewrite str_app_cons. cbn [contacts_loop].
    rewrite decide_False by (intros [[->| ->] _]; done).
    rewrite IH; rewrite ?str_app_assoc; done.
Qed.

Lemma contacts_loop_dump l : ∀ cs,
  forallb plain_name l = true →
  contacts_loop "" (dump_contacts l +:+ newline) cs = list_to_set l ∪ cs.
Proof.
  induction l as [|c l IH]; intros cs Hl.
  - cbn. by rewrite union_empty_l_L.
  - cbn [forallb] in Hl. apply andb_true_iff in Hl as [Hc Hl]. unfold plain_name in Hc.
    rewrite !andb_true_iff, negb_true_iff in Hc. destruct Hc as [[[Hne H1] H2] _].
    cbn [dump_contacts]. rewrite !str_app_assoc.
    change ("," +:+ (dump_contacts l +:+ newline)) with (String "," (dump_contacts l +:+ newline)).
    rewrite contacts_loop_name; [|done|done|].
    + rewrite IH by done. change ("" +:+ c) with c. cbn. set_solver.
    + change ("" +:+ c) with c. intros ->. by rewrite String.eqb_refl in Hne.
Qed.

(** The notifications the format can carry: the author holds no comma and no
    NUL, the names of the contacts hold no comma, newline or NUL, and the id is
    an [int]. *)
Record printable (n : notification) : Prop := {
  pr_author : no_char "," n.(n_author) = true ∧ no_char "000" n.(n_author) = true;
  pr_options : 0 ≤ n.(n_options) < 2 ^ 32;
  pr_id : 0 ≤ n.(n_id) < 2 ^ 31;
  pr_number : 0 ≤ n.(n_number) < 2 ^ 32;
  pr_interval : 0 ≤ n.(n_interval) < 2 ^ 32;
  pr_contacts : ∀ c, c ∈ n.(_notified_contact) → plain_name c = true;
}.

Lemma in_order_spec s : list_to_set (in_order s) = s.
Proof.
  apply set_eq. intros x. rewrite elem_of_list_to_set. unfold in_order.
  by rewrite merge_sort_Permutation, elem_of_elements.
Qed.

Lemma in_order_plain s :
  (∀ c, c ∈ s → plain_name c = true) → forallb plain_name (in_order s) = true.
Proof.
  intros Hs. apply forallb_forall. intros c Hc. apply Hs. rewrite <- (in_order_spec s).
  by rewrite elem_of_list_to_set, list_elem_of_In.
Qed.

Lemma digits_no_nul s : all_chars is_digit s = true → no_char "000" s = true.
Proof. apply all_chars_impl. intros c Hc. destruct (Ascii.eqb_spec c "000") as [->|]; done. Qed.

Lemma dump_contacts_no_nul l : forallb plain_name l = true → no_char "000" (dump_contacts l) = true.
Proof.
  unfold no_char. induction l as [|c l IH]; [done|]. cbn [forallb dump_contacts].
  rewrite andb_true_iff. intros [Hc Hl]. unfold plain_name in Hc. rewrite !andb_true_iff in Hc.
  rewrite !all_chars_app. unfold no_char in Hc. destruct Hc as [_ ->]. by rewrite IH.
Qed.

Lemma reason_code_range t : 0 ≤ reason_code t ≤ 99.
Proof. destruct t; cbn; lia. Qed.

Lemma pretty_no_nul z : 0 ≤ z → no_char "000" (pretty z) = true.
Proof. intros Hz. by apply digits_no_nul, pretty_number. Qed.

Lemma dump_head_no_nul n : printable n → no_char "000" (dump_head n) = true.
Proof.
  intros [[_ Ha] Ho Hi Hn Hv Hc]. unfold dump_head. rewrite !no_char_app. pose proof (reason_code_range n.(n_type)).
  rewrite !pretty_no_nul by lia. rewrite Ha. by destruct (n_escalated n).
Qed.

Lemma wrap_u32_i32 z : 0 ≤ z < 2 ^ 32 → wrap_u32 (wrap_i32 z) = z.
Proof.
  intros Hz. unfold wrap_u32, wrap_i32. rewrite Zminus_mod_idemp_l.
  replace (z + 2 ^ 31 - 2 ^ 31) with z by lia. by apply Z.mod_small.
Qed.

Lemma reason_of_code_code t : reason_of_code (reason_code t) = Some t.
Proof. by destruct t. Qed.

(** A separator and the name of the field after it. *)
Ltac split_sep full rest :=
  match goal with |- context [full +:+ ?x] =>
    change (full +:+ x) with (String "," (String " " (rest +:+ x))) end.

(** The next number of the line, then the name of the next field. *)
Ltac next_number := rewrite number_field_pretty by (unfold i64_max; lia);
  cbn [mbind parsed_bind]; rewrite ?expect_app; cbn [mbind parsed_bind].

(** The fields before the contacts, whatever follows them. *)
Lemma parse_head n tail :
  printable n → no_char "000" tail = true → starts_with_digit tail = false →
  parse (dump_head n +:+ tail)
  = parse_contacts (reason_code n.(n_type)) n.(n_options) n.(n_id) n.(n_number)
      (Z.b2z n.(n_escalated)) n.(n_interval) n.(n_author) tail.
Proof.
  intros Hp Htail Hdig. pose proof (dump_head_no_nul n Hp) as Hnul.
  destruct Hp as [[Ha _] Ho Hi Hn Hv Hc]. pose proof (reason_code_range n.(n_type)) as Ht.
  unfold parse. rewrite c_str_id by (by rewrite no_char_app, Hnul, Htail).
  unfold dump_head. rewrite !str_app_assoc, expect_app. cbn [mbind parsed_bind].
  split_sep ", author: " "author: ". next_number.
  split_sep ", options: " "options: ". rewrite until_comma_app by done.
  cbn [skip2 mbind parsed_bind]. rewrite expect_app. cbn [mbind parsed_bind].
  split_sep ", escalated: " "escalated: ". next_number. split_sep ", id: " "id: ".
  assert (Hesc : (if n.(n_escalated) then "1" else "0") = pretty (Z.b2z n.(n_escalated)))
    by by destruct (n_escalated n).
  rewrite Hesc. assert (0 ≤ Z.b2z n.(n_escalated) ≤ 1) by (destruct (n_escalated n); cbn; lia).
  next_number. split_sep ", number: " "number: ". next_number.
  split_sep ", interval: " "interval: ". next_number.
  rewrite strtol10_pretty_app by (unfold i64_max; (lia || done)).
  rewrite decide_False; [done|]. intros Heq.
  by apply (pretty_app_ne n.(n_interval) tail ltac:(lia) (eq_sym Heq)).
Qed.

Lemma parse_dump n :
  printable n →
  parse (dump n) = Parsed (Notif n.(n_type) n.(n_author) "" n.(n_options) n.(n_id) n.(n_number)
                             n.(n_escalated) n.(n_interval) n.(_notified_contact)).
Proof.
  intros Hp. pose proof (in_order_plain _ (pr_contacts n Hp)) as Hplain. unfold dump.
  rewrite parse_head; [|done|by rewrite !no_char_app, dump_contacts_no_nul|done].
  destruct Hp as [_ Ho Hi Hn Hv _]. unfold parse_contacts.
  split_sep ", contacts: " "contacts: ". cbn [skip2 mbind parsed_bind].
  rewrite expect_app, contacts_loop_dump, reason_of_code_code by done.
  rewrite in_order_spec, union_empty_r_L, !wrap_u32_i32 by lia. autorewrite with machine_int.
  by destruct (n_escalated n).
Qed.

(** ** Theorems *)

(** The retention of notifications: what [operator<<] prints of a
    notification is read back by [set_notification], without its message, when
    the author and the names of the contacts keep clear of the separators and
    the id fits in an [int]. *)
Theorem retention_roundtrip n idx f :
  printable n →
  ∃ f', set_notification idx (dump n) f = Parsed f'
  ∧ f' idx = Some (Notif n.(n_type) n.(n_author) "" n.(n_options) n.(n_id) n.(n_number)
                     n.(n_escalated) n.(n_interval) n.(_notified_contact))
  ∧ ∀ cat, cat ≠ idx → f' cat = f cat.
Proof.
  intros Hp. unfold set_notification. rewrite decide_False by done. rewrite parse_dump by done.
  eexists. split; [done|]. unfold upd. split; [by rewrite decide_True|].
  intros cat Hcat. by rewrite decide_False.
Qed.

Definition sample_notification : notification :=
  Notif reason_normal "admin" "" 0 42 3 true 30 {[ "alice"; "bob" ]}.

Lemma retention_roundtrip_witness :
  ∃ f', set_notification cat_normal (dump sample_notification) (λ _, None) = Parsed f'
        ∧ f' cat_normal = Some sample_notification.
Proof.
  destruct (retention_roundtrip sample_notification cat_normal (λ _, None)) as (f' & H1 & H2 & _).
  - constructor; try done. intros c Hc. cbn in Hc.
    apply elem_of_union in Hc as [->%elem_of_singleton| ->%elem_of_singleton]; reflexivity.
  - by exists f'.
Defined.

(** A line that ends with the interval, as the retention tests of the program
    still have it, is read beyond its end: the test for the contacts looks two
    characters after the last digit. *)
Theorem retention_reads_past_end n idx f :
  printable n → set_notification idx (dump_head n) f = Undefined.
Proof.
  intros Hp. unfold set_notification. rewrite decide_False by done.
  by rewrite <- (str_app_nil (dump_head n)), parse_head.
Qed.

Lemma retention_reads_past_end_witness :
  set_notification cat_normal
    "type: 0, author: , options: 0, escalated: 0, id: 1, number: 1, interval: 30" (λ _, None) = Undefined.
Proof.
  apply (retention_reads_past_end (Notif reason_normal "" "" 0 1 1 false 30 ∅)).
  constructor; try done.
Defined.
