(* ===== verification/Ba.v ===== *)
(** * Business activities

    [broker/bam/src/ba.cc] and the three of its subclasses whose levels are
    discrete: [ba_worst.cc], [ba_best.cc] and [ba_ratio_number.cc].  A business
    activity (BA) aggregates the states of its KPIs.  It keeps the aggregate up
    to date as KPIs come, go and change, opens an event for each period spent in
    one state, inherits the downtimes of its KPIs, and tells its parents when it
    changes.

    The subclasses differ in what they start from and in how a KPI counts; the
    rest of their code is the same, and is written once over the class
    [Policy].  A KPI is a number; what its object answers at the time of a call
    is a [kpi].  Events are shared between the BA and the visitor that receives
    them, so they live in a store and the visitor receives pointers. *)

From Stdlib Require Import QArith.
From S2P Require Import Prelude.

#[local] Open Scope Z_scope.

(** ** Data *)

Inductive bam_state := state_ok | state_warning | state_critical | state_unknown.

#[export] Instance bam_state_eq_dec : EqDecision bam_state.
Proof. solve_decision. Defined.

(** [timestamp]: 0 and -1 are null, and [operator<] puts null last. *)
Definition is_null (t : Z) : bool := (t =? -1) || (t =? 0).
Definition ts_lt (a b : Z) : bool :=
  if is_null a && negb (is_null b) then false
  else if negb (is_null a) && is_null b then true
  else a <? b.
(** [std::max(a, b)] *)
Definition ts_max (a b : Z) : Z := if ts_lt a b then b else a.

Inductive downtime_behaviour := dt_ignore | dt_inherit | dt_ignore_kpi.

#[export] Instance downtime_behaviour_eq_dec : EqDecision downtime_behaviour.
Proof. solve_decision. Defined.

(** What a KPI object answers: [impact_hard], [impact_soft], [in_downtime],
    [get_last_state_change] and [ok_state]. *)
Record kpi := Kpi {
  kpi_hard : bam_state;
  kpi_soft : bam_state;
  kpi_in_downtime : bool;
  kpi_last_state_change : Z;
  kpi_ok_state : bool;
}.

Record impact_info := Impact {
  hard_impact : bam_state;
  soft_impact : bam_state;
  in_downtime : bool;
}.

Definition impact_of (k : kpi) : impact_info :=
  Impact k.(kpi_hard) k.(kpi_soft) k.(kpi_in_downtime).

Record ba_event := BaEvent {
  ev_first_level : Z;
  ev_in_downtime : bool;
  ev_status : bam_state;
  ev_start_time : Z;
  ev_end_time : Z;
}.

(** What the visitor receives; an event by its pointer. *)
Inductive written :=
  | WEvent (p : nat)
  | WInherited (in_downtime : bool)
  | WStatus (st : bam_state) (in_downtime : bool) (last_state_change : Z) (state_changed : bool)
  | WVirtual (last_hard_state : bam_state) (downtime_depth : bool) (last_check : Z).

(** ** The subclasses *)

Class Policy := {
  (** the type of [_computed_hard_state] or [_level_hard] *)
  level : Type;
  level_eq_dec :: EqDecision level;
  (** the value the recomputation starts from *)
  start : level;
  (** what a KPI that counts does to it *)
  count : level → bam_state → level;
  level_state : level → bam_state;
  (** [get_state_hard] answers OK when every KPI is in an ignored downtime *)
  ok_when_all_ignored : bool;
  (** [_level_hard], as [_open_new_event] reads it *)
  first_level : level → Z;
}.

(** [std::array<short, 5> order{0, 3, 4, 2, 1}] *)
Definition order (s : bam_state) : Z :=
  match s with state_ok => 0 | state_warning => 3 | state_critical => 4 | state_unknown => 2 end.

Definition is_state_worse (current_state new_state : bam_state) : bool :=
  order current_state <? order new_state.
Definition is_state_better (current_state new_state : bam_state) : bool :=
  order new_state <? order current_state.

Definition ba_worst : Policy := {|
  level := bam_state;
  start := state_ok;
  count cur new := if is_state_worse cur new then new else cur;
  level_state s := s;
  ok_when_all_ignored := true;
  first_level _ := 100;
|}.

Definition ba_best : Policy := {|
  level := bam_state;
  start := state_critical;
  count cur new := if is_state_better cur new then new else cur;
  level_state s := s;
  ok_when_all_ignored := true;
  first_level _ := 100;
|}.

(** The levels are doubles that count KPIs; the thresholds are doubles. *)
Definition ba_ratio_number (_level_warning _level_critical : Q) : Policy := {|
  level := Z;
  start := 0;
  count n s := if decide (s = state_critical) then n + 1 else n;
  level_state n :=
    if Qle_bool _level_critical (inject_Z n) then state_critical
    else if Qle_bool _level_warning (inject_Z n) then state_warning
    else state_ok;
  ok_when_all_ignored := false;
  first_level n := if n <? 0 then 0 else n;
|}.

(** ** The business activity *)

Section Ba.
Context `{P : !Policy}.

Record ba := Ba {
  _impacts : gmap nat impact_info;
  computed_soft : level;
  computed_hard : level;
  _dt_behaviour : downtime_behaviour;
  _in_downtime : bool;
  _last_kpi_update : Z;
  (** the flag of the message, when there is one *)
  _inherited_downtime : option bool;
  _event : option nat;
  _initial_events : list nat;
  _generate_virtual_status : bool;
  (** the events allocated, and what the visitor was given *)
  store : gmap nat ba_event;
  next_ptr : nat;
  out : list written;
}.

Definition set_computed (soft hard : level) (imp : gmap nat impact_info) (b : ba) : ba :=
  Ba imp soft hard b.(_dt_behaviour) b.(_in_downtime) b.(_last_kpi_update)
    b.(_inherited_downtime) b.(_event) b.(_initial_events) b.(_generate_virtual_status)
    b.(store) b.(next_ptr) b.(out).
Definition set_last (t : Z) (b : ba) : ba :=
  Ba b.(_impacts) b.(computed_soft) b.(computed_hard) b.(_dt_behaviour) b.(_in_downtime) t
    b.(_inherited_downtime) b.(_event) b.(_initial_events) b.(_generate_virtual_status)
    b.(store) b.(next_ptr) b.(out).
Definition set_downtime (d : bool) (i : option bool) (b : ba) : ba :=
  Ba b.(_impacts) b.(computed_soft) b.(computed_hard) b.(_dt_behaviour) d b.(_last_kpi_update)
    i b.(_event) b.(_initial_events) b.(_generate_virtual_status) b.(store) b.(next_ptr) b.(out).
Definition set_event (e : option nat) (ini : list nat) (h : gmap nat ba_event) (nx : nat) (b : ba) : ba :=
  Ba b.(_impacts) b.(computed_soft) b.(computed_hard) b.(_dt_behaviour) b.(_in_downtime)
    b.(_last_kpi_update) b.(_inherited_downtime) e ini b.(_generate_virtual_status) h nx b.(out).
Definition emit (w : list written) (b : ba) : ba :=
  Ba b.(_impacts) b.(computed_soft) b.(computed_hard) b.(_dt_behaviour) b.(_in_downtime)
    b.(_last_kpi_update) b.(_inherited_downtime) b.(_event) b.(_initial_events)
    b.(_generate_virtual_status) b.(store) b.(next_ptr) (b.(out) ++ w).

(** [_apply_impact] *)
Definition ignored (b : ba) (i : impact_info) : bool :=
  bool_decide (b.(_dt_behaviour) = dt_ignore_kpi) && i.(in_downtime).

Definition _apply_impact (i : impact_info) (b : ba) : ba :=
  if ignored b i then b
  else set_computed (count b.(computed_soft) i.(soft_impact))
         (count b.(computed_hard) i.(hard_impact)) b.(_impacts) b.

(** The loop over [_impacts], in the order the map gives. *)
Definition apply_all (l : list (nat * impact_info)) (b : ba) : ba :=
  foldl (λ b p, _apply_impact p.2 b) b l.

(** Result: the BA changed. *)
Definition _apply_changes (child : nat) (new : impact_info) (b : ba) : bool * ba :=
  let previous := b.(computed_hard) in
  let imp := match b.(_impacts) !! child with
             | Some _ => <[child := new]> b.(_impacts)
             | None => b.(_impacts)
             end in
  let b := apply_all (map_to_list imp) (set_computed start start imp b) in
  (negb (bool_decide (b.(computed_hard) = previous)), b).

Definition _unapply_impact (k : nat) (b : ba) : ba :=
  apply_all (filter (λ p, p.1 ≠ k) (map_to_list b.(_impacts)))
    (set_computed start start b.(_impacts) b).

Definition every_kpi_in_dt (kpis : nat → kpi) (b : ba) : bool :=
  negb (bool_decide (b.(_impacts) = ∅))
  && forallb (λ p, (kpis p.1).(kpi_in_downtime)) (map_to_list b.(_impacts)).

Definition get_state_hard (kpis : nat → kpi) (b : ba) : bam_state :=
  if ok_when_all_ignored && bool_decide (b.(_dt_behaviour) = dt_ignore_kpi)
     && every_kpi_in_dt kpis b
  then state_ok
  else level_state b.(computed_hard).

Definition get_state_soft (b : ba) : bam_state := level_state b.(computed_soft).

Definition add_impact (k : nat) (v : kpi) (b : ba) : ba :=
  match b.(_impacts) !! k with
  | Some _ => b
  | None =>
      let ii := impact_of v in
      let b := set_computed b.(computed_soft) b.(computed_hard) (<[k := ii]> b.(_impacts)) b in
      let b := _apply_impact ii b in
      if is_null v.(kpi_last_state_change) then b
      else set_last (ts_max b.(_last_kpi_update) v.(kpi_last_state_change)) b
  end.

Definition remove_impact (k : nat) (b : ba) : ba :=
  match b.(_impacts) !! k with
  | None => b
  | Some _ =>
      let b := _unapply_impact k b in
      set_computed b.(computed_soft) b.(computed_hard) (delete k b.(_impacts)) b
  end.

(** ** Events *)

Definition set_initial_event (ev : ba_event) (b : ba) : ba :=
  match b.(_event) with
  | Some _ => b
  | None =>
      let p := b.(next_ptr) in
      let b := set_event (Some p) (b.(_initial_events) ++ [p]) (<[p := ev]> b.(store)) (S p) b in
      set_last ev.(ev_start_time) (set_downtime ev.(ev_in_downtime) b.(_inherited_downtime) b)
  end.

(** The visitor is not null in the calls below; it receives a copy of the new
    event. *)
Definition _open_new_event (service_hard_state : bam_state) (b : ba) : ba :=
  let p := b.(next_ptr) in
  let ev := BaEvent (first_level b.(computed_hard)) b.(_in_downtime) service_hard_state
              (wrap_u64 b.(_last_kpi_update)) (wrap_u64 (-1)) in
  emit [WEvent (S p)]
    (set_event (Some p) b.(_initial_events) (<[S p := ev]> (<[p := ev]> b.(store))) (S (S p)) b).

Definition _commit_initial_events (b : ba) : ba :=
  set_event b.(_event) [] b.(store) b.(next_ptr) (emit (WEvent <$> b.(_initial_events)) b).

Definition set_end_time (t : Z) (ev : ba_event) : ba_event :=
  BaEvent ev.(ev_first_level) ev.(ev_in_downtime) ev.(ev_status) ev.(ev_start_time) (wrap_u64 t).

(** The start of the current event, or the last update. *)
Definition event_time (b : ba) : Z :=
  match b.(_event) ≫= (b.(store) !!.) with
  | Some ev => ev.(ev_start_time)
  | None => b.(_last_kpi_update)
  end.

(** [visit]: the events; result: [state_changed]. *)
Definition refresh_event (now : Z) (hard_state : bam_state) (b : ba) : bool * ba :=
  match b.(_event) with
  | None =>
      let b := if is_null b.(_last_kpi_update) then set_last now b else b in
      (false, _open_new_event hard_state b)
  | Some p =>
      match b.(store) !! p with
      | None => (false, b)
      | Some ev =>
          if negb (bool_decide (b.(_in_downtime) = ev.(ev_in_downtime)))
             || negb (bool_decide (hard_state = ev.(ev_status))) then
            let b := set_event None b.(_initial_events)
                       (<[p := set_end_time b.(_last_kpi_update) ev]> b.(store)) b.(next_ptr)
                       (emit [WEvent p] b) in
            (true, _open_new_event hard_state b)
          else (false, b)
      end
  end.

(** [visit], with a visitor. *)
Definition visit (now : Z) (kpis : nat → kpi) (b : ba) : ba :=
  let b := _commit_initial_events b in
  let '(state_changed, b) := refresh_event now (get_state_hard kpis b) b in
  let b := emit [WStatus (get_state_hard kpis b) b.(_in_downtime) (event_time b) state_changed] b in
  if b.(_generate_virtual_status)
  then emit [WVirtual (get_state_hard kpis b) b.(_in_downtime) (event_time b)] b
  else b.

(** ** Downtimes *)

Definition _compute_inherited_downtime (visitor : bool) (kpis : nat → kpi) (b : ba) : ba :=
  if negb (bool_decide (b.(_dt_behaviour) = dt_inherit)) then b
  else
    let every_kpi_in_downtime :=
      negb (bool_decide (b.(_impacts) = ∅))
      && forallb (λ p, (kpis p.1).(kpi_ok_state) || (kpis p.1).(kpi_in_downtime))
           (map_to_list b.(_impacts)) in
    let s_ok := bool_decide (get_state_hard kpis b = state_ok) in
    if negb s_ok && every_kpi_in_downtime && bool_decide (b.(_inherited_downtime) = None) then
      let b := set_downtime true (Some true) b in
      if visitor then emit [WInherited true] b else b
    else if (s_ok || negb every_kpi_in_downtime) && negb (bool_decide (b.(_inherited_downtime) = None)) then
      let b := set_downtime false None b in
      if visitor then emit [WInherited false] b else b
    else b.

(** [service_update] of a downtime of the service of the BA; [active] is
    [was_started && actual_end_time.is_null()].  Result: the parents are told. *)
Definition service_update (now : Z) (kpis : nat → kpi) (active visitor : bool) (b : ba) : bool * ba :=
  if negb (bool_decide (b.(_in_downtime) = active)) then
    let b := set_downtime active b.(_inherited_downtime) b in
    (true, if visitor then visit now kpis b else b)
  else (false, b).

Definition set_inherited_downtime (flag : bool) (b : ba) : ba :=
  set_downtime (if flag then true else b.(_in_downtime)) (Some flag) b.

(** Result: the parents are told. *)
Definition update_from (now : Z) (kpis : nat → kpi) (child : nat) (visitor : bool) (b : ba) : bool * ba :=
  let v := kpis child in
  let previous_in_downtime := b.(_in_downtime) in
  let b := if is_null v.(kpi_last_state_change) then b
           else set_last (ts_max b.(_last_kpi_update) v.(kpi_last_state_change)) b in
  let '(changed, b) := _apply_changes child (impact_of v) b in
  let b := _compute_inherited_downtime visitor kpis b in
  let b := if visitor then visit now kpis b else b in
  (changed || negb (bool_decide (b.(_in_downtime) = previous_in_downtime)), b).

End Ba.

#[global] Arguments ba : clear implicits.
#[global] Arguments ba P : rename.
