(* ===== verification/BaFacts.v ===== *)
(** * Properties of business activities

    The aggregate of a BA against its definition over the KPIs it has, for any
    sequence of operations; the chain of its events; its downtimes. *)

From Stdlib Require Import QArith.
From S2P Require Import Prelude Ba.

#[local] Open Scope Z_scope.

(** ** The aggregate *)

(** The order in which KPIs count does not matter: the maps of the program are
    hash tables. *)
Class PolicyLaws (P : Policy) :=
  count_comm : ∀ l a b, count (count l a) b = count (count l b) a.

#[export] Instance ba_worst_laws : PolicyLaws ba_worst.
Proof. by intros [] [] []. Qed.

#[export] Instance ba_best_laws : PolicyLaws ba_best.
Proof. by intros [] [] []. Qed.

#[export] Instance ba_ratio_number_laws w c : PolicyLaws (ba_ratio_number w c).
Proof. intros l a b. cbn. repeat case_decide; lia. Qed.

Section Aggregate.
Context `{P : !Policy} `{L : !PolicyLaws P}.

Lemma foldl_count_perm l1 l2 : l1 ≡ₚ l2 → ∀ x, foldl count x l1 = foldl count x l2.
Proof.
  induction 1 as [|a l1 l2 _ IH|a b l|l1 l2 l3 _ IH1 _ IH2]; intros x; cbn [foldl]; auto.
  - by rewrite count_comm.
  - by rewrite IH1.
Qed.

(** The impacts that count under a downtime behaviour. *)
Definition counts (d : downtime_behaviour) (i : impact_info) : bool :=
  negb (bool_decide (d = dt_ignore_kpi) && i.(in_downtime)).

Definition counting (d : downtime_behaviour) (l : list (nat * impact_info)) : list impact_info :=
  filter (λ i, counts d i = true) l.*2.

(** The aggregate of some impacts, for the hard or the soft states. *)
Definition aggregate (f : impact_info → bam_state) (d : downtime_behaviour)
    (l : list (nat * impact_info)) : level :=
  foldl count start (f <$> counting d l).

Lemma counting_perm d l1 l2 : l1 ≡ₚ l2 → counting d l1 ≡ₚ counting d l2.
Proof. intros Hl. unfold counting. by rewrite Hl. Qed.

Lemma aggregate_perm f d l1 l2 : l1 ≡ₚ l2 → aggregate f d l1 = aggregate f d l2.
Proof. intros Hl. apply foldl_count_perm. by rewrite (counting_perm d l1 l2 Hl). Qed.

Lemma apply_all_spec l : ∀ b : ba P,
  apply_all l b
  = set_computed (foldl count b.(computed_soft) (soft_impact <$> counting b.(_dt_behaviour) l))
      (foldl count b.(computed_hard) (hard_impact <$> counting b.(_dt_behaviour) l)) b.(_impacts) b.
Proof.
  unfold apply_all, counting. induction l as [|[k i] l IH]; intros b; [by destruct b|].
  cbn [foldl fmap list_fmap snd]. rewrite IH. unfold _apply_impact, ignored, counts.
  destruct (bool_decide (_dt_behaviour b = dt_ignore_kpi) && in_downtime i) eqn:Hi.
  - rewrite filter_cons_False by (by rewrite Hi). done.
  - rewrite filter_cons_True by (by rewrite Hi). done.
Qed.

(** The aggregates of the BA are those of the impacts it holds. *)
Definition aggregated (b : ba P) : Prop :=
  b.(computed_hard) = aggregate hard_impact b.(_dt_behaviour) (map_to_list b.(_impacts))
  ∧ b.(computed_soft) = aggregate soft_impact b.(_dt_behaviour) (map_to_list b.(_impacts)).

Lemma aggregate_insert f d m k i :
  m !! k = None →
  aggregate f d (map_to_list (<[k := i]> m))
  = if counts d i then count (aggregate f d (map_to_list m)) (f i) else aggregate f d (map_to_list m).
Proof.
  intros Hk. rewrite (aggregate_perm f d _ (map_to_list m ++ [(k, i)])); cycle 1.
  { rewrite map_to_list_insert by done. by rewrite Permutation_app_comm. }
  unfold aggregate, counting. rewrite fmap_app, filter_app. cbn [fmap list_fmap snd].
  destruct (counts d i) eqn:Hi.
  - rewrite filter_cons_True, filter_nil, fmap_app, foldl_app by done. done.
  - rewrite filter_cons_False, filter_nil, app_nil_r by congruence. done.
Qed.

Lemma aggregate_delete f d m k :
  aggregate f d (filter (λ p, p.1 ≠ k) (map_to_list m)) = aggregate f d (map_to_list (delete k m)).
Proof.
  apply aggregate_perm, NoDup_Permutation.
  - apply NoDup_filter, NoDup_map_to_list.
  - apply NoDup_map_to_list.
  - intros [k' i]. rewrite list_elem_of_filter, !elem_of_map_to_list, lookup_delete_Some. naive_solver.
Qed.

Lemma set_last_aggregated t b : aggregated b → aggregated (set_last t b).
Proof. done. Qed.

Lemma add_impact_aggregated k v b : aggregated b → aggregated (add_impact k v b).
Proof.
  intros [Hh Hs]. unfold add_impact. destruct (_impacts b !! k) as [i|] eqn:Hk; [done|].
  assert (Hgoal : aggregated (_apply_impact (impact_of v)
    (set_computed b.(computed_soft) b.(computed_hard) (<[k := impact_of v]> b.(_impacts)) b))).
  { unfold aggregated, _apply_impact, ignored. cbn [_dt_behaviour set_computed].
    destruct (bool_decide (_dt_behaviour b = dt_ignore_kpi) && in_downtime (impact_of v)) eqn:Hi;
      cbn [computed_hard computed_soft _impacts _dt_behaviour set_computed];
      rewrite !aggregate_insert by done; unfold counts; rewrite Hi; cbn [negb];
      by rewrite Hh, Hs. }
  by destruct (is_null _).
Qed.

Lemma remove_impact_aggregated k b : aggregated b → aggregated (remove_impact k b).
Proof.
  intros Hb. unfold remove_impact. destruct (_impacts b !! k); [|done].
  unfold _unapply_impact. rewrite apply_all_spec. unfold aggregated.
  cbn [computed_hard computed_soft _impacts _dt_behaviour set_computed].
  by rewrite <- !aggregate_delete.
Qed.

Lemma apply_changes_aggregated k i b : aggregated (_apply_changes k i b).2.
Proof. unfold _apply_changes. cbn [snd]. rewrite apply_all_spec. done. Qed.

(** The other operations leave the impacts and the aggregates alone. *)
Definition same_aggregate (b b' : ba P) : Prop :=
  b'.(computed_hard) = b.(computed_hard) ∧ b'.(computed_soft) = b.(computed_soft)
  ∧ b'.(_impacts) = b.(_impacts) ∧ b'.(_dt_behaviour) = b.(_dt_behaviour).

Lemma same_aggregate_aggregated b b' : same_aggregate b b' → aggregated b → aggregated b'.
Proof. intros (H1 & H2 & H3 & H4) [Hh Hs]. unfold aggregated. by rewrite H1, H2, H3, H4. Qed.

Lemma refresh_same now h b : same_aggregate b (refresh_event now h b).2.
Proof.
  unfold refresh_event, same_aggregate.
  destruct (_event b) as [p|]; [destruct (store b !! p) as [ev|]; [destruct (_ || _)|]|destruct (is_null _)]; done.
Qed.

Lemma visit_same now kpis b : same_aggregate b (visit now kpis b).
Proof.
  unfold visit. pose proof (refresh_same now (get_state_hard kpis (_commit_initial_events b))
                              (_commit_initial_events b)) as Hr.
  destruct (refresh_event _ _ _) as [c b']. cbn [snd] in Hr. cbv zeta.
  by destruct (_generate_virtual_status _).
Qed.

Lemma compute_inherited_same visitor kpis b : same_aggregate b (_compute_inherited_downtime visitor kpis b).
Proof.
  unfold _compute_inherited_downtime, same_aggregate.
  destruct (negb _); [done|]. destruct (_ && _ && _), visitor; try done; destruct (_ && _); done.
Qed.

Lemma update_from_aggregated now kpis k visitor b : aggregated (update_from now kpis k visitor b).2.
Proof.
  unfold update_from.
  match goal with |- context [_apply_changes k ?i ?b0] =>
    pose proof (apply_changes_aggregated k i b0) as Ha; destruct (_apply_changes k i b0) as [c b1] end.
  cbn [snd] in *.
  assert (Hi : aggregated (_compute_inherited_downtime visitor kpis b1))
    by (by eapply same_aggregate_aggregated; [apply compute_inherited_same|]).
  destruct visitor; [|done]. by eapply same_aggregate_aggregated; [apply visit_same|].
Qed.

Lemma service_update_same now kpis active visitor b :
  same_aggregate b (service_update now kpis active visitor b).2.
Proof.
  unfold service_update. destruct (negb _); [|done]. destruct visitor; [|done]. cbn [snd].
  apply (visit_same now kpis (set_downtime active (_inherited_downtime b) b)).
Qed.

End Aggregate.

(** ** Sequences of operations *)

Inductive ba_op :=
  | OAdd (k : nat) (v : kpi)
  | ORemove (k : nat)
  | OUpdate (now : Z) (kpis : nat → kpi) (child : nat) (visitor : bool)
  | OService (now : Z) (kpis : nat → kpi) (active visitor : bool)
  | OVisit (now : Z) (kpis : nat → kpi)
  | OInitial (ev : ba_event)
  | OInherited (flag : bool).

Section Runs.
Context `{P : !Policy} `{L : !PolicyLaws P}.

Definition exec (o : ba_op) (b : ba P) : ba P :=
  match o with
  | OAdd k v => add_impact k v b
  | ORemove k => remove_impact k b
  | OUpdate now kpis child visitor => (update_from now kpis child visitor b).2
  | OService now kpis active visitor => (service_update now kpis active visitor b).2
  | OVisit now kpis => visit now kpis b
  | OInitial ev => set_initial_event ev b
  | OInherited flag => set_inherited_downtime flag b
  end.

(** The BA, and the events that were its current event, in order. *)
Fixpoint run (ops : list ba_op) (b : ba P) (hist : list nat) : ba P * list nat :=
  match ops with
  | [] => (b, hist)
  | o :: ops =>
      let b' := exec o b in
      run ops b'
        (if decide (b'.(_event) = b.(_event)) then hist
         else match b'.(_event) with Some p => hist ++ [p] | None => hist end)
  end.

(** A new BA. *)
Definition new_ba (d : downtime_behaviour) (generate_virtual_status : bool) : ba P :=
  Ba ∅ start start d false 0 None None [] generate_virtual_status ∅ 0 [].

Lemma exec_aggregated o b : aggregated b → aggregated (exec o b).
Proof.
  intros Hb. destruct o; cbn [exec].
  - by apply add_impact_aggregated.
  - by apply remove_impact_aggregated.
  - apply update_from_aggregated.
  - by eapply same_aggregate_aggregated; [apply service_update_same|].
  - by eapply same_aggregate_aggregated; [apply visit_same|].
  - unfold set_initial_event. by destruct (_event b).
  - done.
Qed.

Lemma run_aggregated ops : ∀ b hist, aggregated b → aggregated (run ops b hist).1.
Proof.
  induction ops as [|o ops IH]; intros b hist Hb; [done|]. cbn [run].
  by apply IH, exec_aggregated.
Qed.

Lemma new_ba_aggregated d g : aggregated (new_ba d g).
Proof. by split. Qed.

(** ** The chain of events *)

(** What an operation does to the events: nothing, a first event, or the end of
    the current event and a new one. *)
Inductive event_step (b b' : ba P) : Prop :=
  | same_events :
      b'.(_event) = b.(_event) → b'.(store) = b.(store) → b'.(next_ptr) = b.(next_ptr) →
      event_step b b'
  | first_event ev :
      b.(_event) = None → b'.(_event) = Some b.(next_ptr) →
      b'.(store) !! b.(next_ptr) = Some ev → (b.(next_ptr) < b'.(next_ptr))%nat →
      (∀ q, (q < b.(next_ptr))%nat → b'.(store) !! q = b.(store) !! q) →
      event_step b b'
  | next_event p ev ev' :
      b.(_event) = Some p → b.(store) !! p = Some ev → b'.(_event) = Some b.(next_ptr) →
      b'.(store) !! p = Some (set_end_time b'.(_last_kpi_update) ev) →
      b'.(store) !! b.(next_ptr) = Some ev' →
      ev'.(ev_start_time) = wrap_u64 b'.(_last_kpi_update) →
      (ev'.(ev_status), ev'.(ev_in_downtime)) ≠ (ev.(ev_status), ev.(ev_in_downtime)) →
      (b.(next_ptr) < b'.(next_ptr))%nat →
      (∀ q, (q < b.(next_ptr))%nat → q ≠ p → b'.(store) !! q = b.(store) !! q) →
      event_step b b'.

(** The events allocated are below [next_ptr]. *)
Definition store_ok (b : ba P) : Prop :=
  ∀ p, b.(_event) = Some p → (p < b.(next_ptr))%nat ∧ is_Some (b.(store) !! p).

(** The current event describes the BA. *)
Definition described (kpis : nat → kpi) (b : ba P) : Prop :=
  ∃ p ev, b.(_event) = Some p ∧ b.(store) !! p = Some ev
          ∧ ev.(ev_status) = get_state_hard kpis b ∧ ev.(ev_in_downtime) = b.(_in_downtime).

(** The shape of a new event. *)
Lemma open_new_event_spec h b :
  let b' := _open_new_event h b in
  b'.(_event) = Some b.(next_ptr) ∧ (b.(next_ptr) < b'.(next_ptr))%nat
  ∧ (∀ q, (q < b.(next_ptr))%nat → b'.(store) !! q = b.(store) !! q)
  ∧ b'.(store) !! b.(next_ptr)
    = Some (BaEvent (first_level b.(computed_hard)) b.(_in_downtime) h
              (wrap_u64 b.(_last_kpi_update)) (wrap_u64 (-1))).
Proof.
  unfold _open_new_event. cbn [_event set_event emit next_ptr store]. split_and!; [done|lia| |].
  - intros q Hq. rewrite !lookup_insert_ne by lia. done.
  - rewrite lookup_insert_ne by lia. by rewrite lookup_insert_eq.
Qed.

Lemma refresh_step now h b b' c :
  store_ok b → refresh_event now h b = (c, b') →
  event_step b b' ∧ b'.(_in_downtime) = b.(_in_downtime)
  ∧ ∃ p ev, b'.(_event) = Some p ∧ b'.(store) !! p = Some ev
            ∧ ev.(ev_status) = h ∧ ev.(ev_in_downtime) = b.(_in_downtime).
Proof.
  intros Hs. unfold refresh_event. destruct (_event b) as [p|] eqn:He.
  - destruct (Hs p He) as [Hp [ev Hev]]. rewrite Hev. destruct (_ || _) eqn:Hc.
    + intros [= <- <-]. match goal with |- context [_open_new_event h ?b0] =>
        destruct (open_new_event_spec h b0) as (H1 & H2 & H3 & H4);
        change (next_ptr b0) with (next_ptr b) in * end.
      split_and!; [|done|by eauto 10].
      eapply next_event; try done.
      * rewrite H3 by done. cbn [store set_event]. by rewrite lookup_insert_eq.
      * cbn. intros [= Hst Hdt]. rewrite Hst, Hdt, !bool_decide_eq_true_2 in Hc by done. done.
      * intros q Hq Hne. rewrite H3 by done. cbn [store set_event]. by rewrite lookup_insert_ne.
    + intros [= <- <-]. apply orb_false_iff in Hc as [H1 H2].
      apply negb_false_iff, bool_decide_eq_true in H1, H2.
      split_and!; [by apply same_events|done|]. exists p, ev. by rewrite He.
  - intros [= <- <-]. match goal with |- context [_open_new_event h ?b0] =>
      destruct (open_new_event_spec h b0) as (H1 & H2 & H3 & H4);
      replace (next_ptr b0) with (next_ptr b) in * by (by destruct (is_null _));
      replace (store b0) with (store b) in * by (by destruct (is_null _)) end.
    split_and!; [|by destruct (is_null _)|].
    + eapply first_event; done.
    + do 2 eexists. split_and!; [done..|]. cbn. by destruct (is_null _).
Qed.

Lemma visit_event_step now kpis b :
  store_ok b → event_step b (visit now kpis b) ∧ described kpis (visit now kpis b).
Proof.
  intros Hs. unfold visit. set (b0 := _commit_initial_events b).
  assert (Hs0 : store_ok b0) by done.
  pose proof (refresh_same now (get_state_hard kpis b0) b0) as Hsame.
  destruct (refresh_event now (get_state_hard kpis b0) b0) as [c b1] eqn:Hr.
  destruct (refresh_step _ _ _ _ _ Hs0 Hr) as (Hstep & Hd & p & ev & H1 & H2 & H3 & H4).
  cbn [snd] in Hsame. destruct Hsame as (Hh & _ & Hi & Hb).
  assert (Hg : get_state_hard kpis b1 = get_state_hard kpis b0)
    by (unfold get_state_hard, every_kpi_in_dt; by rewrite Hh, Hi, Hb).
  assert (Hstep' : event_step b b1) by (destruct Hstep; [by apply same_events|by eapply first_event|by eapply next_event]).
  assert (Hdesc : described kpis b1) by (exists p, ev; by rewrite Hg, Hd).
  cbv zeta. destruct (_generate_virtual_status _);
    (split; [destruct Hstep'; [by apply same_events|by eapply first_event|by eapply next_event]|done]).
Qed.

(** Operations that leave the events alone before a step. *)
Lemma event_step_pre b b0 b' :
  b0.(_event) = b.(_event) → b0.(store) = b.(store) → b0.(next_ptr) = b.(next_ptr) →
  event_step b0 b' → event_step b b'.
Proof.
  intros H1 H2 H3 [|ev|p ev ev'].
  - apply same_events; congruence.
  - eapply (first_event _ _ ev); rewrite <- ?H1, <- ?H2, <- ?H3; done.
  - eapply (next_event _ _ p ev ev'); rewrite <- ?H1, <- ?H2, <- ?H3; done.
Qed.

Lemma event_step_store_ok b b' : event_step b b' → store_ok b → store_ok b'.
Proof.
  intros [H1 H2 H3|ev H1 H2 H3 H4 H5|q ev ev' H1 H2 H3 H4 H5 H6 H7 H8 H9] Hs p Hp.
  - rewrite H1 in Hp. rewrite H2, H3. by apply Hs.
  - rewrite H2 in Hp. injection Hp as <-. by rewrite H3.
  - rewrite H3 in Hp. injection Hp as <-. by rewrite H5.
Qed.

(** The operations around the visit keep the events. *)
Definition same_event_fields (b b' : ba P) : Prop :=
  b'.(_event) = b.(_event) ∧ b'.(store) = b.(store) ∧ b'.(next_ptr) = b.(next_ptr).

Lemma apply_all_events l : ∀ b, same_event_fields b (apply_all l b).
Proof. intros b. by rewrite apply_all_spec. Qed.

Lemma compute_inherited_events visitor kpis b :
  same_event_fields b (_compute_inherited_downtime visitor kpis b).
Proof.
  unfold _compute_inherited_downtime, same_event_fields.
  destruct (negb _); [done|]. destruct (_ && _ && _), visitor; try done; destruct (_ && _); done.
Qed.

Lemma visit_after b b0 now kpis :
  same_event_fields b b0 → store_ok b →
  event_step b (visit now kpis b0) ∧ described kpis (visit now kpis b0).
Proof.
  intros (H1 & H2 & H3) Hs.
  destruct (visit_event_step now kpis b0) as [Hst Hd].
  { intros p Hp. rewrite H2, H3. apply Hs. congruence. }
  split; [by eapply event_step_pre|done].
Qed.

Lemma update_from_events now kpis k visitor b :
  store_ok b →
  event_step b (update_from now kpis k visitor b).2
  ∧ (visitor = true → described kpis (update_from now kpis k visitor b).2).
Proof.
  intros Hs. unfold update_from, _apply_changes. cbn [snd].
  match goal with |- context [_compute_inherited_downtime visitor kpis ?b1] =>
    assert (H1 : same_event_fields b b1)
      by (rewrite apply_all_spec; by destruct (is_null _));
    pose proof (compute_inherited_events visitor kpis b1) as H2 end.
  assert (H3 : same_event_fields b (_compute_inherited_downtime visitor kpis
    (apply_all (map_to_list _) (set_computed start start _ _))))
    by (destruct H1 as (? & ? & ?), H2 as (? & ? & ?); split_and!; etrans; done).
  destruct visitor.
  - destruct (visit_after _ _ now kpis H3 Hs). split; [done|]. by intros _.
  - split; [|done]. destruct H3 as (? & ? & ?). by apply same_events.
Qed.

Lemma exec_event_step o b : store_ok b → event_step b (exec o b).
Proof.
  intros Hs. destruct o; cbn [exec].
  - unfold add_impact, _apply_impact. destruct (_impacts b !! k); [by apply same_events|].
    destruct (ignored _ _), (is_null _); by apply same_events.
  - unfold remove_impact, _unapply_impact. destruct (_impacts b !! k); [|by apply same_events].
    rewrite apply_all_spec. by apply same_events.
  - by apply update_from_events.
  - unfold service_update. destruct (negb _); [|by apply same_events]. destruct visitor; [|by apply same_events].
    by apply visit_after.
  - by apply visit_event_step.
  - unfold set_initial_event. destruct (_event b) eqn:He; [by apply same_events|].
    eapply (first_event _ _ ev); cbn; [done|done|by rewrite lookup_insert_eq|lia|].
    intros q Hq. by rewrite lookup_insert_ne by lia.
  - by apply same_events.
Qed.

(** The events that were current, in order: each ends when the next starts, and
    the next differs by its state or its downtime; the last is the current one. *)
Record chained (b : ba P) (hist : list nat) : Prop := {
  ch_last : last hist = b.(_event);
  ch_nodup : NoDup hist;
  ch_below p : p ∈ hist → (p < b.(next_ptr))%nat;
  ch_next i p q : hist !! i = Some p → hist !! S i = Some q →
    ∃ ep eq, b.(store) !! p = Some ep ∧ b.(store) !! q = Some eq
             ∧ ep.(ev_end_time) = eq.(ev_start_time)
             ∧ (eq.(ev_status), eq.(ev_in_downtime)) ≠ (ep.(ev_status), ep.(ev_in_downtime));
}.

(** The current event is the last, so that only the last pair sees it change. *)
Lemma last_index hist i (p : nat) : NoDup hist → last hist = Some p → hist !! i = Some p → i = pred (length hist).
Proof.
  intros Hnd Hl Hi. rewrite last_lookup in Hl. by eapply NoDup_lookup.
Qed.

Lemma chained_extend b b' hist p ev ev' :
  chained b hist → b.(_event) = Some p → b.(store) !! p = Some ev → b'.(_event) = Some b.(next_ptr) →
  b'.(store) !! p = Some (set_end_time b'.(_last_kpi_update) ev) →
  b'.(store) !! b.(next_ptr) = Some ev' → ev'.(ev_start_time) = wrap_u64 b'.(_last_kpi_update) →
  (ev'.(ev_status), ev'.(ev_in_downtime)) ≠ (ev.(ev_status), ev.(ev_in_downtime)) →
  (b.(next_ptr) < b'.(next_ptr))%nat →
  (∀ q, (q < b.(next_ptr))%nat → q ≠ p → b'.(store) !! q = b.(store) !! q) →
  chained b' (hist ++ [b.(next_ptr)]).
Proof.
  intros [Hl Hnd Hb Hn] He Hev He' Hp Hq Hstart Hne Hlt Hother. constructor.
  - by rewrite last_snoc.
  - apply NoDup_app. split_and!; [done| |apply NoDup_singleton].
    intros x Hx%Hb ->%list_elem_of_singleton. lia.
  - intros x. rewrite elem_of_app, list_elem_of_singleton. intros [Hx%Hb| ->]; lia.
  - rewrite He in Hl. intros i x y Hx Hy. apply lookup_app_Some in Hy as [Hy|[Hi Hy]].
    + rewrite lookup_app_l in Hx by (apply lookup_lt_Some in Hy; lia).
      destruct (Hn i x y Hx Hy) as (ex & ey & Hex & Hey & Hend & Hd).
      assert (Hxp : x ≠ p).
      { intros ->. pose proof (last_index _ _ _ Hnd Hl Hx). apply lookup_lt_Some in Hy. lia. }
      exists ex. rewrite (Hother x) by (try done; apply Hb; by eapply list_elem_of_lookup_2).
      destruct (decide (y = p)) as [->|Hyp].
      * exists (set_end_time b'.(_last_kpi_update) ev). rewrite Hev in Hey. injection Hey as ->. done.
      * exists ey. by rewrite (Hother y) by (try done; apply Hb; by eapply list_elem_of_lookup_2).
    + apply list_lookup_singleton_Some in Hy as [Hi0 <-].
      rewrite lookup_app_l in Hx by lia.
      assert (x = p) as ->.
      { rewrite last_lookup in Hl. replace (pred (length hist)) with i in Hl by lia. congruence. }
      exists (set_end_time b'.(_last_kpi_update) ev), ev'. by rewrite Hstart.
Qed.

Lemma exec_chained o b hist :
  store_ok b → chained b hist →
  let b' := exec o b in
  chained b' (if decide (b'.(_event) = b.(_event)) then hist
              else match b'.(_event) with Some p => hist ++ [p] | None => hist end).
Proof.
  intros Hs Hc. pose proof (exec_event_step o b Hs) as Hst. cbv zeta.
  generalize dependent (exec o b). intros b' Hst.
  destruct Hst as [H1 H2 H3|ev H1 H2 H3 H4 H5|p ev ev' H1 H2 H3 H4 H5 H6 H7 H8 H9].
  - rewrite decide_True by done. destruct Hc as [Hl Hnd Hb Hn].
    constructor; [congruence|done|by rewrite H3|by rewrite H2].
  - rewrite decide_False by congruence. rewrite H2. destruct Hc as [Hl Hnd Hb Hn].
    rewrite H1 in Hl. apply last_None in Hl as ->. cbn. constructor.
    + by rewrite H2.
    + apply NoDup_singleton.
    + intros x ->%list_elem_of_singleton. lia.
    + intros i x y _ Hy. apply lookup_lt_Some in Hy. cbn in Hy. lia.
  - destruct (Hs p H1) as [Hp _].
    rewrite decide_False by (rewrite H1, H3; intros [= Heq]; lia). rewrite H3.
    by eapply chained_extend.
Qed.

Lemma run_chained ops : ∀ b hist,
  store_ok b → chained b hist →
  store_ok (run ops b hist).1 ∧ chained (run ops b hist).1 (run ops b hist).2.
Proof.
  induction ops as [|o ops IH]; intros b hist Hs Hc; [done|]. cbn [run]. apply IH.
  - by eapply event_step_store_ok; [apply exec_event_step|].
  - by apply exec_chained.
Qed.

Lemma new_ba_chained d g : store_ok (new_ba d g) ∧ chained (new_ba d g) [].
Proof. split; [done|]. constructor; try done; [apply NoDup_nil_2|set_solver]. Qed.

End Runs.

(** ** The aggregates of the subclasses *)

Lemma worst_fold (l : list bam_state) : ∀ x,
  let h := foldl (@count ba_worst) x l in
  (order x ≤ order h ∧ ∀ s, s ∈ l → order s ≤ order h) ∧ (h = x ∨ h ∈ l).
Proof.
  induction l as [|s l IH]; intros x; cbn [foldl]; [set_solver by lia|].
  destruct (IH (@count ba_worst x s)) as [[H1 H2] H3]. cbv zeta.
  assert (Hc : order x ≤ order (@count ba_worst x s) ∧ order s ≤ order (@count ba_worst x s))
    by (by destruct x, s).
  split_and!; [lia| |].
  - intros s' [->|Hs]%elem_of_cons; [lia|by apply H2].
  - destruct H3 as [H3|H3]; [|right; by apply elem_of_cons; right]. rewrite H3.
    cbn. destruct (is_state_worse x s); [right; by apply elem_of_cons; left|by left].
Qed.

Lemma best_fold (l : list bam_state) : ∀ x,
  let h := foldl (@count ba_best) x l in
  (order h ≤ order x ∧ ∀ s, s ∈ l → order h ≤ order s) ∧ (h = x ∨ h ∈ l).
Proof.
  induction l as [|s l IH]; intros x; cbn [foldl]; [set_solver by lia|].
  destruct (IH (@count ba_best x s)) as [[H1 H2] H3]. cbv zeta.
  assert (Hc : order (@count ba_best x s) ≤ order x ∧ order (@count ba_best x s) ≤ order s)
    by (by destruct x, s).
  split_and!; [lia| |].
  - intros s' [->|Hs]%elem_of_cons; [lia|by apply H2].
  - destruct H3 as [H3|H3]; [|right; by apply elem_of_cons; right]. rewrite H3.
    cbn. destruct (is_state_better x s); [right; by apply elem_of_cons; left|by left].
Qed.

Lemma ratio_fold w c (l : list bam_state) : ∀ x,
  foldl (@count (ba_ratio_number w c)) x l = x + Z.of_nat (length (filter (λ s, s = state_critical) l)).
Proof.
  induction l as [|s l IH]; intros x; cbn [foldl]; [cbn; lia|].
  rewrite IH, filter_cons. cbn [count ba_ratio_number]. case_decide; cbn [length]; lia.
Qed.

(** The hard states that count in a BA. *)
Definition hard_states {P : Policy} (b : ba P) : list bam_state :=
  hard_impact <$> counting b.(_dt_behaviour) (map_to_list b.(_impacts)).

Lemma hard_is_fold {P : Policy} `{!PolicyLaws P} ops d g :
  let b := (run ops (new_ba (P := P) d g) []).1 in
  b.(computed_hard) = foldl count start (hard_states b).
Proof. by destruct (run_aggregated ops (new_ba d g) [] (new_ba_aggregated d g)) as [Hh _]. Qed.

(** ** Sample KPIs *)

Definition sample_kpi (s : bam_state) (dt : bool) (t : Z) : kpi := Kpi s s dt t (bool_decide (s = state_ok)).

(** ** Theorems *)


(** C38: The events of a BA form a chain: over any sequence of operations, each
    event that was current ends at the time the next one starts, and two events
    in a row differ by their state or their downtime; after a visit the current
    event has the state and the downtime of the BA. *)
Theorem ba_events_chain (P : Policy) `{!PolicyLaws P} ops d g now kpis :
  let '(b, hist) := run ops (new_ba (P := P) d g) [] in
  chained b hist ∧ described kpis (visit now kpis b).
Proof.
  destruct (new_ba_chained (P := P) d g) as [Hs Hc].
  destruct (run_chained ops _ _ Hs Hc) as [Hs' Hc']. destruct (run ops (new_ba d g) []) as [b hist].
  split; [done|]. by apply visit_event_step.
Qed.

Definition sample_ops : list ba_op :=
  [OAdd 1 (sample_kpi state_ok false 100); OVisit 500 (λ _, sample_kpi state_ok false 100);
   OUpdate 600 (λ _, sample_kpi state_critical false 600) 1 true;
   OUpdate 700 (λ _, sample_kpi state_warning false 700) 1 true].

Lemma ba_events_chain_witness :
  (run sample_ops (new_ba (P := ba_worst) dt_ignore false) []).2 = [0; 2; 4]%nat
  ∧ chained (run sample_ops (new_ba (P := ba_worst) dt_ignore false) []).1 [0; 2; 4]%nat.
Proof.
  split; [by vm_compute|].
  pose proof (ba_events_chain ba_worst sample_ops dt_ignore false 800
                (λ _, sample_kpi state_warning false 700)) as H.
  destruct (run sample_ops (new_ba dt_ignore false) []) as [b hist] eqn:Hr.
  assert (Hh : hist = [0; 2; 4]%nat) by (by vm_compute in Hr; injection Hr).
  rewrite <- Hh. apply H.
Defined.

(** Every KPI of the BA is OK or in downtime, and there is one. *)
Definition covered (kpis : nat → kpi) {P : Policy} (b : ba P) : Prop :=
  b.(_impacts) ≠ ∅ ∧ ∀ k i, b.(_impacts) !! k = Some i →
    (kpis k).(kpi_ok_state) = true ∨ (kpis k).(kpi_in_downtime) = true.

Lemma get_state_hard_same kpis {P : Policy} (b b' : ba P) :
  same_aggregate b b' → get_state_hard kpis b' = get_state_hard kpis b.
Proof. intros (Hh & _ & Hi & Hb). unfold get_state_hard, every_kpi_in_dt. by rewrite Hh, Hi, Hb. Qed.

Lemma covered_spec kpis {P : Policy} (b : ba P) :
  negb (bool_decide (_impacts b = ∅))
  && forallb (λ p, (kpis p.1).(kpi_ok_state) || (kpis p.1).(kpi_in_downtime)) (map_to_list (_impacts b)) = true
  ↔ covered kpis b.
Proof.
  rewrite andb_true_iff, negb_true_iff, bool_decide_eq_false, forallb_forall.
  setoid_rewrite orb_true_iff. unfold covered. split; (intros [Hne Hall]; split; [done|]).
  - intros k i Hk%elem_of_map_to_list. by apply (Hall (k, i)), list_elem_of_In.
  - intros [k i] Hk%list_elem_of_In%elem_of_map_to_list. by eapply Hall.
Qed.

Lemma compute_inherited_exact visitor kpis {P : Policy} (b : ba P) :
  b.(_dt_behaviour) = dt_inherit →
  is_Some (_compute_inherited_downtime visitor kpis b).(_inherited_downtime) ↔
  get_state_hard kpis b ≠ state_ok ∧ covered kpis b.
Proof.
  intros Hd. rewrite <- covered_spec. unfold _compute_inherited_downtime.
  rewrite Hd, bool_decide_eq_true_2 by done. cbn [negb].
  set (every := negb (bool_decide (_impacts b = ∅)) && _).
  destruct (decide (get_state_hard kpis b = state_ok)) as [Hok|Hok];
    [rewrite (bool_decide_eq_true_2 (get_state_hard kpis b = state_ok)) by done
    |rewrite (bool_decide_eq_false_2 (get_state_hard kpis b = state_ok)) by done];
    cbn [negb andb orb];
    destruct (_inherited_downtime b) as [f|] eqn:Hinh, every eqn:Hev, visitor; cbn;
    rewrite ?Hinh; split; intros Hx; try (destruct Hx; naive_solver); try naive_solver.
Qed.

Lemma visit_inherited {P : Policy} now kpis (b : ba P) :
  (visit now kpis b).(_inherited_downtime) = b.(_inherited_downtime).
Proof.
  unfold visit, refresh_event.
  change (_event (_commit_initial_events b)) with (_event b).
  destruct (_event b) as [p|];
    [destruct (store _ !! p) as [ev|]; [destruct (_ || _)|]|destruct (is_null _)];
    cbv zeta; by destruct (_generate_virtual_status _).
Qed.

(** A BA inherits the downtime of its KPIs exactly while it is not OK and
    every KPI that is not OK is in downtime: after any update of a BA with this
    behaviour, it holds an inherited downtime if and only if it has KPIs, its
    state is not OK, and each KPI is OK or in downtime. *)
Theorem ba_inherits_downtime (P : Policy) `{!PolicyLaws P} now kpis child visitor (b : ba P) :
  b.(_dt_behaviour) = dt_inherit →
  let b' := (update_from now kpis child visitor b).2 in
  is_Some b'.(_inherited_downtime) ↔ get_state_hard kpis b' ≠ state_ok ∧ covered kpis b'.
Proof.
  intros Hd. unfold update_from.
  match goal with |- context [_apply_changes child ?i ?b0] =>
    destruct (_apply_changes child i b0) as [c b1] eqn:Ha;
    assert (Hd1 : b1.(_dt_behaviour) = dt_inherit) end.
  { unfold _apply_changes in Ha. rewrite apply_all_spec in Ha. injection Ha as _ <-. cbn.
    by destruct (is_null _). }
  cbn [snd]. pose proof (compute_inherited_exact visitor kpis b1 Hd1) as He.
  pose proof (compute_inherited_same visitor kpis b1) as Hs.
  set (b2 := _compute_inherited_downtime visitor kpis b1) in *.
  rewrite <- (get_state_hard_same kpis _ _ Hs) in He.
  assert (Hc : covered kpis b1 ↔ covered kpis b2)
    by (destruct Hs as (_ & _ & Hi & _); unfold covered; by rewrite Hi).
  rewrite Hc in He. destruct visitor; [|exact He].
  pose proof (visit_same now kpis b2) as Hv. rewrite visit_inherited, (get_state_hard_same kpis _ _ Hv).
  rewrite He. destruct Hv as (_ & _ & Hi & _). unfold covered. by rewrite Hi.
Qed.

Lemma ba_inherits_downtime_witness :
  let b := add_impact 1 (sample_kpi state_critical true 100) (new_ba (P := ba_worst) dt_inherit false) in
  let kpis := λ _ : nat, sample_kpi state_critical true 100 in
  is_Some (update_from 200 kpis 1 true b).2.(_inherited_downtime).
Proof.
  intros b kpis. apply (ba_inherits_downtime ba_worst 200 kpis 1 true b eq_refl).
  split; [by vm_compute|]. split; [by vm_compute|]. intros k i _. by right.
Defined.

Lemma visit_downtime {P : Policy} now kpis (b : ba P) : (visit now kpis b).(_in_downtime) = b.(_in_downtime).
Proof.
  unfold visit, refresh_event.
  change (_event (_commit_initial_events b)) with (_event b).
  destruct (_event b) as [p|];
    [destruct (store _ !! p) as [ev|]; [destruct (_ || _)|]|destruct (is_null _)];
    cbv zeta; by destruct (_generate_virtual_status _).
Qed.

(** The only KPI of a best-state BA enters an ignored downtime. *)
Lemma best_ignored_kpi k i v (b : ba ba_best) :
  b.(_dt_behaviour) = dt_ignore_kpi → b.(_impacts) = {[ k := v ]} →
  b.(computed_hard) = state_critical → i.(in_downtime) = true →
  ∃ b1, _apply_changes k i b = (false, b1) ∧ b1.(_impacts) = {[ k := i ]}
        ∧ b1.(_dt_behaviour) = dt_ignore_kpi ∧ b1.(_in_downtime) = b.(_in_downtime).
Proof.
  intros Hd Hi Hc Hdt. unfold _apply_changes.
  rewrite Hi, lookup_singleton_eq, insert_singleton_eq, map_to_list_singleton.
  unfold apply_all. cbn [foldl snd]. unfold _apply_impact, ignored. cbn [_dt_behaviour set_computed].
  rewrite Hd, Hdt, !bool_decide_eq_true_2 by done. cbn [andb negb].
  eexists. split; [done|]. cbn. by rewrite Hd.
Qed.

(** Its state, from the downtime of that KPI. *)
Lemma best_single_state k v kpis (b : ba ba_best) :
  b.(_impacts) = {[ k := v ]} → b.(_dt_behaviour) = dt_ignore_kpi →
  get_state_hard kpis b = if (kpis k).(kpi_in_downtime) then state_ok else b.(computed_hard).
Proof.
  intros Hi Hd. unfold get_state_hard, every_kpi_in_dt. rewrite Hi, Hd, map_to_list_singleton.
  rewrite (bool_decide_eq_true_2 (dt_ignore_kpi = _)) by done.
  rewrite (bool_decide_eq_false_2 (_ = ∅)) by apply map_non_empty_singleton.
  cbn. by destruct (kpi_in_downtime (kpis k)).
Qed.

(** A best-state BA that ignores the KPIs in downtime misses a change: when
    its only KPI, in a critical state, enters a downtime, the state of the BA
    goes from critical to OK, but the parents are not told, because the change
    is looked for in the computed state, which starts from critical. *)
Theorem best_ba_change_missed now kpis kpis' k visitor soft (b : ba ba_best) :
  b.(_dt_behaviour) = dt_ignore_kpi → b.(_impacts) = {[ k := Impact state_critical soft false ]} →
  b.(computed_hard) = state_critical →
  (kpis k).(kpi_in_downtime) = false → (kpis' k).(kpi_in_downtime) = true →
  let '(told, b') := update_from now kpis' k visitor b in
  get_state_hard kpis b = state_critical ∧ get_state_hard kpis' b' = state_ok ∧ told = false.
Proof.
  intros Hd Hi Hc Hk Hk'. unfold update_from.
  match goal with |- context [_apply_changes k ?i ?b0] =>
    destruct (best_ignored_kpi k i (Impact state_critical soft false) b0) as (b1 & -> & Hi1 & Hd1 & Hdt);
      [by destruct (is_null _)..|exact Hk'|] end.
  unfold _compute_inherited_downtime. rewrite Hd1, bool_decide_eq_false_2 by done. cbn [negb orb].
  rewrite (best_single_state k _ kpis b Hi Hd), Hk.
  assert (Hin : _in_downtime (if visitor then visit now kpis' b1 else b1) = b.(_in_downtime))
    by (destruct visitor; rewrite ?visit_downtime, Hdt; by destruct (is_null _)).
  split_and!; [done| |by rewrite Hin, bool_decide_eq_true_2].
  destruct (visit_same now kpis' b1) as (_ & _ & Hvi & Hvd).
  rewrite (best_single_state k (impact_of (kpis' k)) kpis'), Hk'; [done| |];
    destruct visitor; congruence.
Qed.

Lemma best_ba_change_missed_witness :
  let up := λ _ : nat, sample_kpi state_critical false 100 in
  let dt := λ _ : nat, sample_kpi state_critical true 200 in
  let b := add_impact 1 (sample_kpi state_critical false 100) (new_ba (P := ba_best) dt_ignore_kpi false) in
  get_state_hard up b = state_critical ∧ get_state_hard dt (update_from 300 dt 1 true b).2 = state_ok
  ∧ (update_from 300 dt 1 true b).1 = false.
Proof.
  intros up dt b.
  pose proof (best_ba_change_missed 300 up dt 1 true state_critical b eq_refl ltac:(by vm_compute)
                eq_refl eq_refl eq_refl) as H.
  by destruct (update_from 300 dt 1 true b) as [t b'].
Defined.

(** The times of the KPIs are ignored at first: a null timestamp is greater
    than any other for [operator<], so that the maximum with the initial, null,
    last update stays null, and the first event of a BA starts at the time of
    the visit, whenever its KPIs last changed. *)
Theorem first_event_ignores_kpi_times (P : Policy) l d g now kpis :
  let b := foldl (λ b p, add_impact p.1 p.2 b) (new_ba (P := P) d g) l in
  b.(_last_kpi_update) = 0
  ∧ ∃ p ev, (visit now kpis b).(_event) = Some p ∧ (visit now kpis b).(store) !! p = Some ev
            ∧ ev.(ev_start_time) = wrap_u64 now.
Proof.
  intros b.
  assert (Hb : b.(_last_kpi_update) = 0 ∧ b.(_event) = None).
  { unfold b. clear b. assert (H0 : (new_ba (P := P) d g).(_last_kpi_update) = 0
                                   ∧ (new_ba (P := P) d g).(_event) = None) by done.
    revert H0. generalize (new_ba (P := P) d g). induction l as [|[k v] l IH]; [done|].
    intros b [H1 H2]. cbn [foldl]. apply IH. unfold add_impact, _apply_impact, ts_max, ts_lt. cbn [fst snd].
    destruct (_impacts b !! k); [done|]. destruct (ignored _ _), (is_null (kpi_last_state_change v)) eqn:Hv;
      cbn; rewrite ?H1, ?Hv; cbn; done. }
  destruct Hb as [Hl He]. split; [done|].
  unfold visit, refresh_event. change (_event (_commit_initial_events b)) with (_event b). rewrite He.
  change (_last_kpi_update (_commit_initial_events b)) with (_last_kpi_update b). rewrite Hl.
  change (is_null 0) with true. cbn iota.
  match goal with |- context [_open_new_event ?h ?b0] =>
    destruct (open_new_event_spec h b0) as (H1 & _ & _ & H4) end.
  cbv zeta. destruct (_generate_virtual_status _); do 2 eexists; by split_and!.
Qed.
